(** * havINI: a shallow embedding of Havoc's single-file INI library

    The development follows [havINI.hpp]: the three classes [havINIData],
    [havINISection] and [havINIStream] become records, their member
    functions become functions that take the object and return the updated
    object, and a C++ exception becomes the [Throw] case of [result].

    Conventions.
    - A [std::string] is a list of 8-bit characters ([str]); [s[i]] with
      [i = s.size()] yields the null character, as the standard guarantees.
    - [unsigned int] is an [N] kept below [2^32] by explicit wrap-around.
    - The locale is the classic "C" locale, the default of [std::locale()],
      so [ToLower], [isspace] and [isxdigit] are the ASCII ones.
    - The default build is modelled: [HAVINI_CASE_SENSITIVE] is not defined.
    - [std::wstring_convert] belongs to the standard library, not to the
      repository: the conversions are a parameter ([CodeCvt]). *)

From Stdlib Require Import String Ascii.
From Stdlib Require Import List Bool Arith NArith ZArith Lia.
From Stdlib Require Import DecimalString HexadecimalString.
From Stdlib Require DecimalN HexadecimalN.
Import ListNotations.

Local Open Scope list_scope.

(** ** Characters and strings *)

Abbreviation str := (list ascii).
Abbreviation size := (@Datatypes.length ascii).

(** String literals of the source. *)
Definition lit (s : string) : str := list_ascii_of_string s.

Definition NUL : ascii := ascii_of_N 0.
Definition LF : ascii := ascii_of_N 10.
Definition CR : ascii := ascii_of_N 13.
Definition BACKSLASH : ascii := ascii_of_N 92.
Definition DQUOTE : ascii := ascii_of_N 34.
Definition SQUOTE : ascii := ascii_of_N 39.

(** A character between double quotes, as the messages have it. *)
Definition quoted (c : ascii) : str := [DQUOTE; c; DQUOTE].

Definition code (c : ascii) : N := N_of_ascii c.
Definition chr (n : N) : ascii := ascii_of_N (n mod 256).

Fixpoint str_eqb (a b : str) : bool :=
  match a, b with
  | [], [] => true
  | x :: a', y :: b' => Ascii.eqb x y && str_eqb a' b'
  | _, _ => false
  end.

(** [s[i]]: the character at index [i], the null character at [s.size()]
    (and beyond, where C++ leaves the read undefined; no modelled path
    reads there). *)
Definition at_ (s : str) (i : nat) : ascii := nth i s NUL.

Definition empty {A : Type} (s : list A) : bool :=
  match s with [] => true | _ :: _ => false end.

(** [std::string::front] and [back]; on an empty string the model yields
    the null character. *)
Definition front (s : str) : ascii := hd NUL s.
Definition back (s : str) : ascii := last s NUL.
Definition pop_back (s : str) : str := removelast s.
Definition erase_begin (s : str) : str := tl s.

(** [std::isspace], [std::isxdigit] and [tolower] of the classic locale. *)
Definition isspace (c : ascii) : bool :=
  let n := code c in (n =? 32)%N || ((9 <=? n)%N && (n <=? 13)%N).

Definition isxdigit (c : ascii) : bool :=
  let n := code c in
  ((48 <=? n)%N && (n <=? 57)%N) || ((65 <=? n)%N && (n <=? 70)%N)
  || ((97 <=? n)%N && (n <=? 102)%N).

Definition tolower (c : ascii) : ascii :=
  let n := code c in
  if ((65 <=? n)%N && (n <=? 90)%N)%bool then ascii_of_N (n + 32) else c.

(** ** Exceptions *)

Inductive exn : Type :=
| runtime_error (what : str)
| out_of_range (what : str)
| invalid_argument (what : str)
| range_error
| bad_optional_access.

Inductive result (A : Type) : Type :=
| Ok (a : A)
| Throw (e : exn).
Arguments Ok {A} a.
Arguments Throw {A} e.

Definition bind {A B} (r : result A) (k : A -> result B) : result B :=
  match r with
  | Ok a => k a
  | Throw e => Throw e
  end.

Notation "x <- r ;; k" := (bind r (fun x => k))
  (at level 61, r at next level, right associativity).
Notation "' p <- r ;; k" := (bind r (fun x => let p := x in k))
  (at level 61, p pattern, r at next level, right associativity).

(** ** Numbers as the code has them *)

Definition UINT_MOD : N := 4294967296.
Definition wrap32 (n : N) : N := (n mod UINT_MOD)%N.

(** A [long] converted to [unsigned int]. *)
Definition uint_of_long (z : Z) : N := Z.to_N (z mod 4294967296)%Z.

(** [std::to_string] on an unsigned value. *)
Definition to_string (n : N) : str :=
  lit (DecimalString.NilZero.string_of_uint (N.to_uint n)).

Definition isdigit (c : ascii) : bool :=
  let n := code c in ((48 <=? n)%N && (n <=? 57)%N).

Fixpoint skip_spaces (s : str) : str :=
  match s with
  | c :: s' => if isspace c then skip_spaces s' else s
  | [] => []
  end.

Fixpoint digits_value (s : str) (acc : Z) : Z :=
  match s with
  | c :: s' =>
      if isdigit c then digits_value s' (acc * 10 + Z.of_N (code c) - 48)%Z
      else acc
  | [] => acc
  end.

(** [long] is taken as 64 bits wide (LP64). *)
Definition LONG_MAX : Z := 9223372036854775807.
Definition LONG_MIN : Z := (- 9223372036854775808)%Z.

(** [std::stol(s)]: leading white space, an optional sign, decimal digits;
    [invalid_argument] when no digit follows, [out_of_range] when the
    value does not fit a [long]. *)
Definition stol (s : str) : result Z :=
  let s1 := skip_spaces s in
  let '(neg, s2) :=
    match s1 with
    | c :: r => if Ascii.eqb c "-"%char then (true, r)
                else if Ascii.eqb c "+"%char then (false, r) else (false, s1)
    | [] => (false, s1)
    end in
  if isdigit (front s2) then
    let v := digits_value s2 0 in
    let v := if neg then (- v)%Z else v in
    if ((LONG_MIN <=? v)%Z && (v <=? LONG_MAX)%Z)%bool then Ok v
    else Throw (out_of_range (lit "stol"))
  else Throw (invalid_argument (lit "stol")).

(** ** havUtils *)

Module havUtils.

Fixpoint StartsWith (sv prefix : str) : bool :=
  match prefix, sv with
  | [], _ => true
  | p :: prefix', c :: sv' => Ascii.eqb p c && StartsWith sv' prefix'
  | _ :: _, [] => false
  end.

Definition EndsWith (sv suffix : str) : bool :=
  (size suffix <=? size sv)
  && str_eqb (skipn (size sv - size suffix) sv) suffix.

Definition ToLower (value : str) : str := map tolower value.

(** [s.find(needle, pos)]: [None] stands for [npos]. *)
Fixpoint find_in (needle : str) (s : str) (offset : nat) : option nat :=
  if StartsWith s needle then Some offset
  else match s with
       | [] => None
       | _ :: s' => find_in needle s' (S offset)
       end.

Definition find (s needle : str) (pos : nat) : option nat :=
  if size s <? pos then None else find_in needle (skipn pos s) pos.

Definition mem (c : ascii) (set : str) : bool := existsb (Ascii.eqb c) set.

Fixpoint find_not_in (set : str) (s : str) (offset : nat) : option nat :=
  match s with
  | [] => None
  | c :: s' => if mem c set then find_not_in set s' (S offset) else Some offset
  end.

(** [s.find_first_not_of(set, pos)]. *)
Definition find_first_not_of (s set : str) (pos : nat) : option nat :=
  find_not_in set (skipn pos s) pos.

(** [s.substr(start, end - start)], where [end] may be [npos]. *)
Definition substr_to (s : str) (start : nat) (end_ : option nat) : str :=
  match end_ with
  | Some e => firstn (e - start) (skipn start s)
  | None => skipn start s
  end.

(** The loop of [Split].  [end_] moves strictly to the right with each turn
    when the delimiter is not empty, so [size value + 1] turns are enough;
    the loop stops for good once [find] has returned [npos]. *)
Fixpoint Split_loop (fuel : nat) (value delimiter : str) (end_ : option nat)
  : list str :=
  match fuel with
  | O => []
  | S fuel' =>
      match end_ with
      | None => []
      | Some e =>
          match find_first_not_of value delimiter e with
          | None => []
          | Some start =>
              let end' := find value delimiter start in
              substr_to value start end' :: Split_loop fuel' value delimiter end'
          end
      end
  end.

Definition Split (value delimiter : str) : list str :=
  let result := Split_loop (S (size value)) value delimiter (Some 0) in
  match result with
  | [] => [value]
  | _ => result
  end.

(** The loop of [Join]: the delimiter goes in front of every string but
    the first. *)
Fixpoint Join_loop (strings : list str) (delimiter : str) (index : nat)
    (result : str) : str :=
  match strings with
  | [] => result
  | s :: rest =>
      Join_loop rest delimiter (S index)
                (result ++ (if 0 <? index then delimiter else []) ++ s)
  end.

Definition Join (strings : list str) (delimiter : str) : str :=
  if empty strings then [] else Join_loop strings delimiter 0 [].

End havUtils.

(** ** The enumerations *)

Inductive havINIBOMType : Type := BOM_None | UTF8 | UTF16LE | UTF16BE | UTF32LE | UTF32BE.

Inductive havINIDataType : Type := Empty | Comment | Value | Array.

Inductive havINIPosition : Type := Start | End_ | Above | Below.

Definition havINIDataType_eqb (a b : havINIDataType) : bool :=
  match a, b with
  | Empty, Empty | Comment, Comment | Value, Value | Array, Array => true
  | _, _ => false
  end.

(** ** Iterators

    [std::find_if] returns an iterator; the model returns the index of the
    first match ([None] for [end()]), and a write through the iterator is
    [modify] at that index. *)

Fixpoint find_if {A : Type} (p : A -> bool) (l : list A) : option nat :=
  match l with
  | [] => None
  | x :: l' => if p x then Some 0 else option_map S (find_if p l')
  end.

Fixpoint modify {A : Type} (i : nat) (f : A -> A) (l : list A) : list A :=
  match l, i with
  | [], _ => []
  | x :: l', O => f x :: l'
  | x :: l', S i' => x :: modify i' f l'
  end.

(** [v.insert(v.begin() + i, x)]. *)
Definition insert_at {A : Type} (i : nat) (x : A) (l : list A) : list A :=
  firstn i l ++ x :: skipn i l.

(** [SetInlineComment] of both classes: an empty text clears the comment. *)
Definition inline_comment_of (inlineComment : str) : option str :=
  if empty inlineComment then None else Some inlineComment.

(** ** class havINIData *)

Set Warnings "-register-all".

Module INIData.

Inductive havINIData : Type := mkData {
  mType : havINIDataType;
  mKey : str;
  mValue : str;
  mInlineComment : option str;
  mAddQuotes : bool;
  mArrayIndex : N;
  mHasArrayIndex : bool;
  mArray : list havINIData
}.

(** The first constructor: key, value, type and the defaulted
    [addQuotes], [inlineComment], [hasArrayIndex]. *)
Definition make (key value : str) (valueType : havINIDataType)
    (addQuotes : bool) (inlineComment : option str) (hasArrayIndex : bool)
  : havINIData :=
  mkData valueType key value inlineComment addQuotes 0 hasArrayIndex [].

(** The second constructor: key, type and the defaulted [addQuotes],
    [hasArrayIndex]; the value is empty. *)
Definition make_key (key : str) (valueType : havINIDataType)
    (addQuotes hasArrayIndex : bool) : havINIData :=
  mkData valueType key [] None addQuotes 0 hasArrayIndex [].

Definition GetKey := mKey.
Definition GetType := mType.
Definition GetValue := mValue.
Definition HasInlineComment (d : havINIData) : bool :=
  match mInlineComment d with Some _ => true | None => false end.
Definition GetInlineComment (d : havINIData) : str :=
  match mInlineComment d with Some c => c | None => [] end.
Definition GetAddQuotes := mAddQuotes.
Definition HasArrayIndex := mHasArrayIndex.

Definition SetValue (d : havINIData) (value : str) : havINIData :=
  mkData (mType d) (mKey d) value (mInlineComment d) (mAddQuotes d)
         (mArrayIndex d) (mHasArrayIndex d) (mArray d).

Definition SetInlineComment (d : havINIData) (inlineComment : str) : havINIData :=
  mkData (mType d) (mKey d) (mValue d) (inline_comment_of inlineComment)
         (mAddQuotes d) (mArrayIndex d) (mHasArrayIndex d) (mArray d).

Definition SetAddQuotes (d : havINIData) (addQuotes : bool) : havINIData :=
  mkData (mType d) (mKey d) (mValue d) (mInlineComment d) addQuotes
         (mArrayIndex d) (mHasArrayIndex d) (mArray d).

Definition SetHasArrayIndex (d : havINIData) (hasArrayIndex : bool) : havINIData :=
  mkData (mType d) (mKey d) (mValue d) (mInlineComment d) (mAddQuotes d)
         (mArrayIndex d) hasArrayIndex (mArray d).

Definition SetKey (d : havINIData) (key : str) : havINIData :=
  mkData (mType d) (havUtils.ToLower key) (mValue d) (mInlineComment d)
         (mAddQuotes d) (mArrayIndex d) (mHasArrayIndex d) (mArray d).

Definition set_mArrayIndex (d : havINIData) (arrayIndex : N) : havINIData :=
  mkData (mType d) (mKey d) (mValue d) (mInlineComment d) (mAddQuotes d)
         arrayIndex (mHasArrayIndex d) (mArray d).

Definition set_mArray (d : havINIData) (array : list havINIData) : havINIData :=
  mkData (mType d) (mKey d) (mValue d) (mInlineComment d) (mAddQuotes d)
         (mArrayIndex d) (mHasArrayIndex d) array.

Definition key_is (key : str) (data : havINIData) : bool :=
  str_eqb (GetKey data) key.

(** The range-for of [GetArrayIndex]; [std::stol] may throw. *)
Fixpoint GetArrayIndex_loop (entries : list havINIData) (arrayIndex : N)
  : result N :=
  match entries with
  | [] => Ok arrayIndex
  | arrayEntry :: rest =>
      v <- stol (GetKey arrayEntry) ;;
      let arrayKey := uint_of_long v in
      GetArrayIndex_loop rest
        (if (arrayIndex <=? arrayKey)%N then wrap32 (arrayKey + 1)
         else arrayIndex)
  end.

Definition GetArrayIndex (d : havINIData) : result (N * havINIData) :=
  arrayIndex <- GetArrayIndex_loop (mArray d) 0%N ;;
  Ok (arrayIndex, set_mArrayIndex d arrayIndex).

Definition SetArrayEntry (d : havINIData) (key value : str)
    (addQuotes setInlineComment : bool) (inlineComment : str)
  : result havINIData :=
  '(key, d) <-
     (if empty key then
        '(i, d') <- GetArrayIndex d ;; Ok (to_string i, d')
      else Ok (key, d)) ;;
  let key := havUtils.ToLower key in
  match find_if (key_is key) (mArray d) with
  | None =>
      let array := mArray d ++ [make key value Value false None false] in
      if setInlineComment then
        match find_if (key_is key) array with
        | Some i =>
            Ok (set_mArray d
                  (modify i (fun e => SetAddQuotes
                                        (SetInlineComment e inlineComment)
                                        addQuotes) array))
        | None => Ok (set_mArray d array)
        end
      else Ok (set_mArray d array)
  | Some i =>
      Ok (set_mArray d
            (modify i (fun e => SetAddQuotes
                                  (SetInlineComment (SetValue e value)
                                                    inlineComment)
                                  addQuotes) (mArray d)))
  end.

(** *** The array interface of [havINIData] *)

Definition not_an_array : exn :=
  runtime_error (lit "Data is not of type array!").

Definition not_a_property_array : exn :=
  runtime_error (lit "Property is not an array!").

Definition index_out_of_range : exn :=
  out_of_range (lit "Index is out of range!").

Definition is_array (d : havINIData) : bool :=
  havINIDataType_eqb (mType d) Array.

(** [v.erase(v.begin() + i)], for [i] below the size. *)
Definition erase_at {A : Type} (i : nat) (l : list A) : list A :=
  firstn i l ++ skipn (S i) l.

(** [operator[](int index)]: the element at the index. *)
Definition at_index (d : havINIData) (index : Z) : result havINIData :=
  if negb (is_array d) then Throw not_a_property_array
  else if ((index <? 0) || (Z.of_nat (List.length (mArray d)) <=? index))%Z
  then Throw index_out_of_range
  else
    match nth_error (mArray d) (Z.to_nat index) with
    | Some e => Ok e
    | None => Throw index_out_of_range
    end.

(** [operator[](std::string key)] (and its overloads for [char] and
    [const char*], which do the same): the index of the element with the
    key, created at the end with type [Value] when there is none. *)
Definition subscript (d : havINIData) (key : str) : result (nat * havINIData) :=
  if negb (is_array d) then Throw not_a_property_array
  else
    let key := havUtils.ToLower key in
    match find_if (key_is key) (mArray d) with
    | Some i => Ok (i, d)
    | None =>
        let array := mArray d ++ [make_key key Value false false] in
        match find_if (key_is key) array with
        | Some i => Ok (i, set_mArray d array)
        | None => Ok (List.length (mArray d), set_mArray d array)
        end
    end.

Definition Split (d : havINIData) (delimiter : str) : result (list str) :=
  if is_array d then
    Throw (runtime_error
             (lit "Split is not supported by a property of type array!"))
  else Ok (havUtils.Split (mValue d) delimiter).

Definition Join (d : havINIData) (values : list str) (delimiter : str)
  : result havINIData :=
  if is_array d then
    Throw (runtime_error
             (lit "Join is not supported by a property of type array!"))
  else Ok (SetValue d (havUtils.Join values delimiter)).

Definition ArrayClear (d : havINIData) : result havINIData :=
  if is_array d then Ok (set_mArray d []) else Throw not_an_array.

Definition ArrayEmpty (d : havINIData) : result bool :=
  if is_array d then Ok (empty (mArray d)) else Throw not_an_array.

Definition ArraySize (d : havINIData) : result nat :=
  if is_array d then Ok (List.length (mArray d)) else Throw not_an_array.

Definition ArrayPushBack (d newValue : havINIData) : result havINIData :=
  if is_array d then Ok (set_mArray d (mArray d ++ [newValue]))
  else Throw not_an_array.

Definition ArrayPushFront (d newValue : havINIData) : result havINIData :=
  if is_array d then Ok (set_mArray d (newValue :: mArray d))
  else Throw not_an_array.

Definition ArrayPopBack (d : havINIData) : result havINIData :=
  if is_array d then
    if negb (empty (mArray d)) then Ok (set_mArray d (removelast (mArray d)))
    else Ok d
  else Throw not_an_array.

Definition ArrayPopFront (d : havINIData) : result havINIData :=
  if is_array d then
    if negb (empty (mArray d)) then Ok (set_mArray d (erase_at 0 (mArray d)))
    else Ok d
  else Throw not_an_array.

(** [ArrayRemove(std::string keyName)]. *)
Definition ArrayRemove (d : havINIData) (keyName : str) : result havINIData :=
  if is_array d then
    let keyName := havUtils.ToLower keyName in
    match find_if (key_is keyName) (mArray d) with
    | None =>
        Throw (runtime_error (lit "Provided key could not be found in array!"))
    | Some i => Ok (set_mArray d (erase_at i (mArray d)))
    end
  else Throw not_an_array.

End INIData.

Abbreviation havINIData := INIData.havINIData.

(** ** class havINISection *)

Module INISection.

Record havINISection : Type := mkSection {
  mSectionName : str;
  mInlineComment : option str;
  mKeyValuePairs : list havINIData;
  mCommentLineCount : N;
  mEmptyLineCount : N
}.

(** The constructor with the defaulted comment and key/value pairs. *)
Definition make (sectionName : str) : havINISection :=
  mkSection sectionName None [] 0 0.

Definition GetSectionName := mSectionName.
Definition GetKeyValuePairs := mKeyValuePairs.
Definition HasInlineComment (s : havINISection) : bool :=
  match mInlineComment s with Some _ => true | None => false end.
Definition GetInlineComment (s : havINISection) : str :=
  match mInlineComment s with Some c => c | None => [] end.

Definition set_pairs (s : havINISection) (pairs : list havINIData) : havINISection :=
  mkSection (mSectionName s) (mInlineComment s) pairs
            (mCommentLineCount s) (mEmptyLineCount s).

Definition SetInlineComment (s : havINISection) (inlineComment : str) : havINISection :=
  mkSection (mSectionName s) (inline_comment_of inlineComment)
            (mKeyValuePairs s) (mCommentLineCount s) (mEmptyLineCount s).

(** [++mCommentLineCount] and [++mEmptyLineCount]: the new count is
    returned. *)
Definition GetCommentLineCount (s : havINISection) : N * havINISection :=
  let n := wrap32 (mCommentLineCount s + 1) in
  (n, mkSection (mSectionName s) (mInlineComment s) (mKeyValuePairs s)
                n (mEmptyLineCount s)).

Definition GetEmptyLineCount (s : havINISection) : N * havINISection :=
  let n := wrap32 (mEmptyLineCount s + 1) in
  (n, mkSection (mSectionName s) (mInlineComment s) (mKeyValuePairs s)
                (mCommentLineCount s) n).

Definition GetKeyValuePair (s : havINISection) (key : str) : option nat :=
  find_if (INIData.key_is (havUtils.ToLower key)) (mKeyValuePairs s).

Definition HasKey (s : havINISection) (keyName : str) : bool :=
  match find_if (INIData.key_is (havUtils.ToLower keyName)) (mKeyValuePairs s) with
  | Some _ => true
  | None => false
  end.

(** [data.GetKey() == otherKeyName], a string against an optional. *)
Definition key_is_opt (otherKeyName : option str) (data : havINIData) : bool :=
  match otherKeyName with
  | Some k => str_eqb (INIData.GetKey data) k
  | None => false
  end.

(** The part [SetEmptyLine] and [SetComment] share: where the new entry
    goes.  [Above] and [Below] throw when the other key is not found. *)
Definition place (s : havINISection) (entry : havINIData)
    (position : havINIPosition) (otherKeyName : option str)
  : result havINISection :=
  let pairs := mKeyValuePairs s in
  index <-
    (match position with
     | Above | Below =>
         match find_if (key_is_opt otherKeyName) pairs with
         | Some i => Ok i
         | None =>
             match otherKeyName with
             | Some k =>
                 Throw (runtime_error
                          (DQUOTE :: k ++ DQUOTE :: lit " could not be found!"))
             | None => Throw bad_optional_access
             end
         end
     | _ => Ok 0
     end) ;;
  Ok (set_pairs s
        (match position with
         | Start => entry :: pairs
         | Above => insert_at index entry pairs
         | Below => insert_at (index + 1) entry pairs
         | End_ => pairs ++ [entry]
         end)).

Definition SetEmptyLine (s : havINISection) (key : str)
    (position : havINIPosition) (otherKeyName : option str)
  : result (bool * havINISection) :=
  let key := havUtils.ToLower key in
  let otherKeyName := option_map havUtils.ToLower otherKeyName in
  match find_if (INIData.key_is key) (mKeyValuePairs s) with
  | None =>
      s' <- place s (INIData.make key [] Empty false None false)
                  position otherKeyName ;;
      Ok (true, s')
  | Some _ => Ok (false, s)
  end.

Definition SetComment (s : havINISection) (key value : str)
    (position : havINIPosition) (otherKeyName : option str)
  : result (bool * havINISection) :=
  let key := havUtils.ToLower key in
  let otherKeyName := option_map havUtils.ToLower otherKeyName in
  match find_if (INIData.key_is key) (mKeyValuePairs s) with
  | None =>
      s' <- place s (INIData.make key value Comment false None false)
                  position otherKeyName ;;
      Ok (true, s')
  | Some _ => Ok (false, s)
  end.

Definition SetKeyValuePair (s : havINISection) (key value : str)
    (addQuotes : bool) : havINISection :=
  let key := havUtils.ToLower key in
  match find_if (INIData.key_is key) (mKeyValuePairs s) with
  | Some i =>
      set_pairs s
        (modify i (fun d => INIData.SetAddQuotes (INIData.SetValue d value)
                                                 addQuotes)
                (mKeyValuePairs s))
  | None =>
      set_pairs s
        (mKeyValuePairs s ++ [INIData.make key value Value addQuotes None false])
  end.

(** [foundKeyValuePair->SetArrayEntry(...)], which may throw. *)
Definition modify_result (i : nat) (f : havINIData -> result havINIData)
    (l : list havINIData) : result (list havINIData) :=
  match nth_error l i with
  | Some d => d' <- f d ;; Ok (modify i (fun _ => d') l)
  | None => Ok l
  end.

(** In the branch that creates the array the call
    [emplace_back(mLocale, key, havINIDataType::Array, hasArrayIndex)]
    selects the second constructor of [havINIData], whose fourth parameter
    is [addQuotes]: the flag lands there and [mHasArrayIndex] keeps its
    default. *)
Definition SetArrayEntry (s : havINISection) (key value : str)
    (addQuotes setInlineComment : bool) (inlineComment arrayIndex : str)
    (hasArrayIndex : bool) : result havINISection :=
  let key := havUtils.ToLower key in
  let sub := if hasArrayIndex then arrayIndex else [] in
  let set (d : havINIData) :=
    INIData.SetArrayEntry d sub value addQuotes setInlineComment inlineComment in
  match find_if (INIData.key_is key) (mKeyValuePairs s) with
  | Some i =>
      pairs <- modify_result i set (mKeyValuePairs s) ;;
      Ok (set_pairs s pairs)
  | None =>
      let pairs :=
        mKeyValuePairs s ++ [INIData.make_key key Array hasArrayIndex false] in
      match find_if (INIData.key_is key) pairs with
      | Some i => pairs' <- modify_result i set pairs ;; Ok (set_pairs s pairs')
      | None => Ok (set_pairs s pairs)
      end
  end.

(** *** The rest of the interface of [havINISection] *)

(** [operator[](int index)]. *)
Definition at_index (s : havINISection) (index : Z) : result havINIData :=
  if ((index <? 0) || (Z.of_nat (List.length (mKeyValuePairs s)) <=? index))%Z
  then Throw INIData.index_out_of_range
  else
    match nth_error (mKeyValuePairs s) (Z.to_nat index) with
    | Some d => Ok d
    | None => Throw INIData.index_out_of_range
    end.

(** [operator[](std::string key)] and its overloads: the index of the
    entry with the key, created at the end with type [Value] and an empty
    value when there is none. *)
Definition subscript (s : havINISection) (key : str) : nat * havINISection :=
  let key := havUtils.ToLower key in
  match find_if (INIData.key_is key) (mKeyValuePairs s) with
  | Some i => (i, s)
  | None =>
      let pairs := mKeyValuePairs s ++ [INIData.make_key key Value false false] in
      match find_if (INIData.key_is key) pairs with
      | Some i => (i, set_pairs s pairs)
      | None => (List.length (mKeyValuePairs s), set_pairs s pairs)
      end
  end.

Definition SetSectionName (s : havINISection) (sectionName : str) : havINISection :=
  mkSection (havUtils.ToLower sectionName) (mInlineComment s)
            (mKeyValuePairs s) (mCommentLineCount s) (mEmptyLineCount s).

(** [SetKey(key, it)], the iterator given as an index. *)
Definition SetKey (s : havINISection) (key : str) (it : nat) : havINISection :=
  set_pairs s
    (modify it (fun d => INIData.SetKey d (havUtils.ToLower key))
            (mKeyValuePairs s)).

Definition GetNumberOfKeys (s : havINISection) : nat :=
  List.length (mKeyValuePairs s).

(** [RemoveKeyValuePair(it)], the iterator given as an index. *)
Definition RemoveKeyValuePair_at (s : havINISection) (it : nat) : havINISection :=
  set_pairs s (INIData.erase_at it (mKeyValuePairs s)).

Definition RemoveKeyValuePair (s : havINISection) (keyName : str)
  : bool * havINISection :=
  match find_if (INIData.key_is (havUtils.ToLower keyName)) (mKeyValuePairs s) with
  | Some i => (true, set_pairs s (INIData.erase_at i (mKeyValuePairs s)))
  | None => (false, s)
  end.

(** The keys of the entries of a type whose key starts with a prefix. *)
Definition key_names (s : havINISection) (keyName : str)
    (type : havINIDataType) : list str :=
  map INIData.GetKey
      (filter (fun d => havUtils.StartsWith (INIData.GetKey d)
                                            (havUtils.ToLower keyName)
                        && havINIDataType_eqb (INIData.GetType d) type)
              (mKeyValuePairs s)).

Definition GetCommentKeyNames (s : havINISection) (keyName : str) : list str :=
  key_names s keyName Comment.

Definition GetEmptyLineKeyNames (s : havINISection) (keyName : str) : list str :=
  key_names s keyName Empty.

(** The part [RemoveComment] and [RemoveEmptyLine] share: the first entry
    with the key and the type is erased. *)
Definition remove_typed (s : havINISection) (keyName : str)
    (type : havINIDataType) : bool * havINISection :=
  let keyName := havUtils.ToLower keyName in
  match find_if (fun d => str_eqb (INIData.GetKey d) keyName
                          && havINIDataType_eqb (INIData.GetType d) type)
                (mKeyValuePairs s) with
  | Some i => (true, set_pairs s (INIData.erase_at i (mKeyValuePairs s)))
  | None => (false, s)
  end.

Definition RemoveComment (s : havINISection) (keyName : str)
  : bool * havINISection := remove_typed s keyName Comment.

Definition RemoveEmptyLine (s : havINISection) (keyName : str)
  : bool * havINISection := remove_typed s keyName Empty.

Definition Clear (s : havINISection) : havINISection :=
  mkSection (mSectionName s) None [] 0 0.

End INISection.

Abbreviation havINISection := INISection.havINISection.

(** ** Loops over an index

    [for (index = 0; index < size; ++index) body], where the body may move
    [index] forward on its own (it never moves it back past its start).
    The body returns the index it leaves behind; the positions it has
    consumed are passed over. *)

Fixpoint for_each_index {St : Type} (body : nat -> St -> result (nat * St))
    (remaining index next : nat) (s : St) : result St :=
  match remaining with
  | O => Ok s
  | S remaining' =>
      if index <? next then for_each_index body remaining' (S index) next s
      else
        '(index', s') <- body index s ;;
        for_each_index body remaining' (S index) (S index') s'
  end.

Definition for_index {St : Type} (body : nat -> St -> result (nat * St))
    (size_ : nat) (s : St) : result St :=
  for_each_index body size_ 0 0 s.

(** ** class havINIStream: the escape codec *)

Definition chr_is (c : ascii) (n : N) : bool := (code c =? n)%N.

(** [std::string(value)] on a null-terminated buffer. *)
Fixpoint c_str (value : list ascii) : str :=
  match value with
  | [] => []
  | c :: rest => if chr_is c 0 then [] else c :: c_str rest
  end.

Definition CodePointToString (codePoint : N) : str :=
  let shr := N.shiftr codePoint in
  c_str
    (if (codePoint <? 128)%N then [chr codePoint]
     else if (codePoint <? 2048)%N then
       [chr (N.lor (shr 6) 192); chr (N.lor (N.land codePoint 63) 128)]
     else if (codePoint <? 65536)%N then
       [chr (N.lor (shr 12) 224);
        chr (N.lor (N.land (shr 6) 63) 128);
        chr (N.lor (N.land codePoint 63) 128)]
     else if (codePoint <? 1114112)%N then
       [chr (N.lor (shr 18) 240);
        chr (N.lor (N.land (shr 12) 63) 128);
        chr (N.lor (N.land (shr 6) 63) 128);
        chr (N.lor (N.land codePoint 63) 128)]
     else [])%N.

(** [<< std::hex << std::setw(4) << std::setfill('0') << n]. *)
Definition hex4 (n : N) : str :=
  let digits := lit (HexadecimalString.NilZero.string_of_uint (N.to_hex_uint n)) in
  repeat "0"%char (4 - size digits) ++ digits.

Definition invalid_utf8 : exn := runtime_error (lit "Invalid UTF-8 sequence!").

(** The inner loop of [ConvertToEscapedString] over the continuation
    bytes, [byteCount] running up to [numOfBytes]. *)
Fixpoint continuation_loop (value : str) (count index : nat) (codePoint : N)
  : result (nat * N) :=
  match count with
  | O => Ok (index, codePoint)
  | S count' =>
      let index := S index in
      let c := code (at_ value index) in
      if negb (N.land c 192 =? 128)%N then Throw invalid_utf8
      else continuation_loop value count' index
             (N.lor (N.shiftl codePoint 6) (N.land c 63))
  end.

Definition escape_body (value : str) (index : nat) (resultValue : str)
  : result (nat * str) :=
  let ch := at_ value index in
  let c := code ch in
  if (c =? 34)%N then Ok (index, resultValue ++ [BACKSLASH; DQUOTE])
  else if (c =? 92)%N then Ok (index, resultValue ++ [BACKSLASH; BACKSLASH])
  else if (c =? 8)%N then Ok (index, resultValue ++ [BACKSLASH; "b"%char])
  else if (c =? 12)%N then Ok (index, resultValue ++ [BACKSLASH; "f"%char])
  else if (c =? 10)%N then Ok (index, resultValue ++ [BACKSLASH; "n"%char])
  else if (c =? 13)%N then Ok (index, resultValue ++ [BACKSLASH; "r"%char])
  else if (c =? 9)%N then Ok (index, resultValue ++ [BACKSLASH; "t"%char])
  else if (c =? 11)%N then Ok (index, resultValue ++ [BACKSLASH; "v"%char])
  else
    '(numOfBytes, writeAsHex, codePoint) <-
       (if (N.land c 128 =? 0)%N then
          if (c <? 31)%N then Ok (1, true, N.land c 127) else Ok (1, false, 0%N)
        else if (N.land c 224 =? 192)%N then Ok (2, true, N.land c 31)
        else if (N.land c 240 =? 224)%N then Ok (3, true, N.land c 15)
        else if (N.land c 248 =? 240)%N then Ok (4, true, N.land c 7)
        else Throw invalid_utf8) ;;
    '(index, codePoint) <-
       continuation_loop value (numOfBytes - 1) index codePoint ;;
    if writeAsHex : bool then
      if ((65536 <=? codePoint)%N && (codePoint <=? 1114111)%N)%bool then
        let codePoint := (codePoint - 65536)%N in
        let highSurrogate := (codePoint / 1024 + 55296)%N in
        let lowSurrogate := (codePoint mod 1024 + 56320)%N in
        Ok (index,
            resultValue ++ BACKSLASH :: "x"%char :: hex4 highSurrogate
                        ++ BACKSLASH :: "x"%char :: hex4 lowSurrogate)
      else
        Ok (index, resultValue ++ BACKSLASH :: "x"%char :: hex4 codePoint)
    else Ok (index, resultValue ++ [at_ value index]).

Definition ConvertToEscapedString (value : str) : result str :=
  for_index (escape_body value) (size value) [].

(** ** class havINIStream: the document *)

Record havINIStream : Type := mkStream {
  mNewline : str;
  mCommentCharacter : ascii;
  mValueQuoteCharacter : ascii;
  mKeyValuePairDelimiter : ascii;
  mData : list havINISection
}.

(** The constructor: the default style and the reserved global section. *)
Definition havINIStream_new : havINIStream :=
  mkStream [CR; LF] ";"%char DQUOTE "="%char [INISection.make (lit "hi_global")].

Definition set_mData (ini : havINIStream) (data : list havINISection) : havINIStream :=
  mkStream (mNewline ini) (mCommentCharacter ini) (mValueQuoteCharacter ini)
           (mKeyValuePairDelimiter ini) data.

Definition GetNewline := mNewline.
Definition GetCommentCharacter := mCommentCharacter.
Definition GetValueQuoteCharacter := mValueQuoteCharacter.
Definition GetKeyValuePairDelimiter := mKeyValuePairDelimiter.

Definition SetNewline (ini : havINIStream) (newline : str) : result havINIStream :=
  if negb (str_eqb newline [LF]) && negb (str_eqb newline [CR])
     && negb (str_eqb newline [CR; LF])
  then Throw (runtime_error
                (lit "Only " ++ [DQUOTE; DQUOTE] ++ lit ", " ++ [DQUOTE; DQUOTE]
                 ++ lit " or " ++ [DQUOTE; DQUOTE]
                 ++ lit " are allowed as new line!"))
  else Ok (mkStream newline (mCommentCharacter ini) (mValueQuoteCharacter ini)
                    (mKeyValuePairDelimiter ini) (mData ini)).

Definition SetCommentCharacter (ini : havINIStream) (commentCharacter : ascii)
  : result havINIStream :=
  if negb (Ascii.eqb commentCharacter ";"%char)
     && negb (Ascii.eqb commentCharacter "#"%char)
  then Throw (runtime_error
                (lit "Only " ++ quoted ";"%char ++ lit " or " ++ quoted "#"%char
                 ++ lit " are allowed as comment character!"))
  else Ok (mkStream (mNewline ini) commentCharacter (mValueQuoteCharacter ini)
                    (mKeyValuePairDelimiter ini) (mData ini)).

Definition SetValueQuoteCharacter (ini : havINIStream) (valueQuoteCharacter : ascii)
  : result havINIStream :=
  if negb (Ascii.eqb valueQuoteCharacter DQUOTE)
     && negb (Ascii.eqb valueQuoteCharacter SQUOTE)
  then Throw (runtime_error
                (lit "Only " ++ quoted DQUOTE ++ lit " or " ++ quoted SQUOTE
                 ++ lit " are allowed as quote character!"))
  else Ok (mkStream (mNewline ini) (mCommentCharacter ini) valueQuoteCharacter
                    (mKeyValuePairDelimiter ini) (mData ini)).

Definition SetKeyValuePairDelimiter (ini : havINIStream)
    (keyValuePairDelimiter : ascii) : result havINIStream :=
  if negb (Ascii.eqb keyValuePairDelimiter "="%char)
     && negb (Ascii.eqb keyValuePairDelimiter ":"%char)
  then Throw (runtime_error
                (lit "Only " ++ quoted "="%char ++ lit " or " ++ quoted ":"%char
                 ++ lit " are allowed as key value pair delimiter!"))
  else Ok (mkStream (mNewline ini) (mCommentCharacter ini)
                    (mValueQuoteCharacter ini) keyValuePairDelimiter (mData ini)).

Definition name_is (sectionName : str) (section : havINISection) : bool :=
  str_eqb (INISection.GetSectionName section) sectionName.

Definition GetSection (ini : havINIStream) (sectionName : str) : option nat :=
  find_if (name_is (havUtils.ToLower sectionName)) (mData ini).

Definition HasSection (ini : havINIStream) (sectionName : str) : bool :=
  match find_if (name_is (havUtils.ToLower sectionName)) (mData ini) with
  | Some _ => true
  | None => false
  end.

Definition HasKey (ini : havINIStream) (sectionName keyName : str) : bool :=
  let sectionName := havUtils.ToLower sectionName in
  let keyName := havUtils.ToLower keyName in
  match find_if (name_is sectionName) (mData ini) with
  | Some i =>
      match nth_error (mData ini) i with
      | Some sectionEntry => INISection.HasKey sectionEntry keyName
      | None => false
      end
  | None => false
  end.

Definition GetValue (ini : havINIStream) (sectionName keyName defaultValue : str)
  : str :=
  let sectionName := havUtils.ToLower sectionName in
  match find_if (name_is sectionName) (mData ini) with
  | Some i =>
      match nth_error (mData ini) i with
      | Some sectionEntry =>
          let keyName := havUtils.ToLower keyName in
          match INISection.GetKeyValuePair sectionEntry keyName with
          | Some j =>
              match nth_error (INISection.GetKeyValuePairs sectionEntry) j with
              | Some keyValuePair => INIData.GetValue keyValuePair
              | None => defaultValue
              end
          | None => defaultValue
          end
      | None => defaultValue
      end
  | None => defaultValue
  end.

(** [SetValue]: each of the three branches ends in [return true]; the
    [return false] after the [if]/[else] has no path leading to it. *)
Definition SetValue (ini : havINIStream) (sectionName keyName value : str)
    (addQuotes : bool) : bool * havINIStream :=
  let sectionName := havUtils.ToLower sectionName in
  let keyName := havUtils.ToLower keyName in
  match find_if (name_is sectionName) (mData ini) with
  | Some i =>
      match nth_error (mData ini) i with
      | Some sectionEntry =>
          match INISection.GetKeyValuePair sectionEntry keyName with
          | Some j =>
              (true,
               set_mData ini
                 (modify i
                    (fun s =>
                       INISection.set_pairs s
                         (modify j
                            (fun d => INIData.SetAddQuotes
                                        (INIData.SetValue d value) addQuotes)
                            (INISection.mKeyValuePairs s)))
                    (mData ini)))
          | None =>
              (true,
               set_mData ini
                 (modify i
                    (fun s => INISection.SetKeyValuePair s keyName value addQuotes)
                    (mData ini)))
          end
      | None => (true, ini)
      end
  | None =>
      let newSection :=
        INISection.SetKeyValuePair (INISection.make sectionName)
                                   keyName value addQuotes in
      (true, set_mData ini (mData ini ++ [newSection]))
  end.

(** ** class havINIStream: the rest of the document interface *)

(** A member call through an iterator into [mData]. *)
Definition with_section (ini : havINIStream) (i : nat)
    (f : havINISection -> havINISection) : havINIStream :=
  set_mData ini (modify i f (mData ini)).

(** The section name of the calls that address the global section by an
    empty name. *)
Definition global_if_empty (sectionName : str) : str :=
  havUtils.ToLower (if empty sectionName then lit "HI_Global" else sectionName).

(** [operator[](int index)]. *)
Definition section_at (ini : havINIStream) (index : Z) : result havINISection :=
  if ((index <? 0) || (Z.of_nat (List.length (mData ini)) <=? index))%Z
  then Throw INIData.index_out_of_range
  else
    match nth_error (mData ini) (Z.to_nat index) with
    | Some s => Ok s
    | None => Throw INIData.index_out_of_range
    end.

(** [operator[](std::string sectionName)] and its overloads: the index of
    the section with the name, created at the end when there is none. *)
Definition section_subscript (ini : havINIStream) (sectionName : str)
  : nat * havINIStream :=
  let sectionName := havUtils.ToLower sectionName in
  match find_if (name_is sectionName) (mData ini) with
  | Some i => (i, ini)
  | None =>
      let data := mData ini ++ [INISection.make sectionName] in
      match find_if (name_is sectionName) data with
      | Some i => (i, set_mData ini data)
      | None => (List.length (mData ini), set_mData ini data)
      end
  end.

Definition AddSection (ini : havINIStream) (sectionName : str)
  : bool * havINIStream :=
  let sectionName := havUtils.ToLower sectionName in
  match find_if (name_is sectionName) (mData ini) with
  | None => (true, set_mData ini (mData ini ++ [INISection.make sectionName]))
  | Some _ => (false, ini)
  end.

(** [SetEmptyLine] and [SetComment] of the stream: the key is made of the
    prefix and the counter of the section, which is advanced first; the
    outcome of the call on the section is not looked at. *)
Definition SetEmptyLine_stream (ini : havINIStream) (sectionName : str)
    (position : havINIPosition) (keyName : option str)
  : result (bool * havINIStream) :=
  let sectionName := global_if_empty sectionName in
  match find_if (name_is sectionName) (mData ini) with
  | Some i =>
      match nth_error (mData ini) i with
      | Some sectionEntry =>
          let emptyLineKeyStart := havUtils.ToLower (lit "HI_EL_") in
          let keyName := option_map havUtils.ToLower keyName in
          let '(count, sectionEntry) :=
            INISection.GetEmptyLineCount sectionEntry in
          '(_, sectionEntry) <-
             INISection.SetEmptyLine sectionEntry
               (emptyLineKeyStart ++ to_string count) position keyName ;;
          Ok (true, with_section ini i (fun _ => sectionEntry))
      | None => Ok (false, ini)
      end
  | None => Ok (false, ini)
  end.

Definition SetComment_stream (ini : havINIStream) (sectionName comment : str)
    (position : havINIPosition) (keyName : option str)
  : result (bool * havINIStream) :=
  let sectionName := global_if_empty sectionName in
  let keyName := option_map havUtils.ToLower keyName in
  match find_if (name_is sectionName) (mData ini) with
  | Some i =>
      match nth_error (mData ini) i with
      | Some sectionEntry =>
          let commentKeyStart := lit "hi_c_" in
          let '(count, sectionEntry) :=
            INISection.GetCommentLineCount sectionEntry in
          '(_, sectionEntry) <-
             INISection.SetComment sectionEntry
               (commentKeyStart ++ to_string count) comment position keyName ;;
          Ok (true, with_section ini i (fun _ => sectionEntry))
      | None => Ok (false, ini)
      end
  | None => Ok (false, ini)
  end.

Definition GetEmptyLineKeyNames (ini : havINIStream) (sectionName : str)
  : list str :=
  match find_if (name_is (global_if_empty sectionName)) (mData ini) with
  | Some i =>
      match nth_error (mData ini) i with
      | Some sectionEntry =>
          INISection.GetEmptyLineKeyNames sectionEntry
                                          (havUtils.ToLower (lit "HI_EL_"))
      | None => []
      end
  | None => []
  end.

Definition GetCommentKeyNames (ini : havINIStream) (sectionName : str)
  : list str :=
  match find_if (name_is (global_if_empty sectionName)) (mData ini) with
  | Some i =>
      match nth_error (mData ini) i with
      | Some sectionEntry =>
          INISection.GetCommentKeyNames sectionEntry (lit "hi_c_")
      | None => []
      end
  | None => []
  end.

(** A call on the section found under a name that returns a flag and the
    changed section; [false] when there is no such section. *)
Definition in_section (ini : havINIStream) (sectionName : str)
    (f : havINISection -> bool * havINISection) : bool * havINIStream :=
  match find_if (name_is sectionName) (mData ini) with
  | Some i =>
      match nth_error (mData ini) i with
      | Some sectionEntry =>
          let '(r, sectionEntry') := f sectionEntry in
          (r, with_section ini i (fun _ => sectionEntry'))
      | None => (false, ini)
      end
  | None => (false, ini)
  end.

Definition RemoveEmptyLine (ini : havINIStream) (sectionName keyName : str)
  : bool * havINIStream :=
  in_section ini (global_if_empty sectionName)
    (fun s => INISection.RemoveEmptyLine s (havUtils.ToLower keyName)).

Definition RemoveComment (ini : havINIStream) (sectionName keyName : str)
  : bool * havINIStream :=
  in_section ini (global_if_empty sectionName)
    (fun s => INISection.RemoveComment s (havUtils.ToLower keyName)).

Definition SetInlineComment (ini : havINIStream)
    (sectionName keyName inlineComment : str) : bool * havINIStream :=
  let keyName := havUtils.ToLower keyName in
  in_section ini (havUtils.ToLower sectionName)
    (fun s =>
       match INISection.GetKeyValuePair s keyName with
       | Some j =>
           (true,
            INISection.set_pairs s
              (modify j (fun d => INIData.SetInlineComment d inlineComment)
                      (INISection.mKeyValuePairs s)))
       | None => (false, s)
       end).

Definition RemoveKey (ini : havINIStream) (sectionName keyName : str)
  : bool * havINIStream :=
  let keyName := havUtils.ToLower keyName in
  in_section ini (havUtils.ToLower sectionName)
    (fun s =>
       match INISection.GetKeyValuePair s keyName with
       | Some j => (true, INISection.RemoveKeyValuePair_at s j)
       | None => (false, s)
       end).

Definition RemoveSection (ini : havINIStream) (sectionName : str)
  : bool * havINIStream :=
  match find_if (name_is (havUtils.ToLower sectionName)) (mData ini) with
  | Some i => (true, set_mData ini (INIData.erase_at i (mData ini)))
  | None => (false, ini)
  end.

Definition RenameKey (ini : havINIStream)
    (sectionName oldKeyName newKeyName : str) : bool * havINIStream :=
  let oldKeyName := havUtils.ToLower oldKeyName in
  let newKeyName := havUtils.ToLower newKeyName in
  in_section ini (havUtils.ToLower sectionName)
    (fun s =>
       match find_if (INIData.key_is newKeyName) (INISection.mKeyValuePairs s) with
       | None =>
           match INISection.GetKeyValuePair s oldKeyName with
           | Some j => (true, INISection.SetKey s newKeyName j)
           | None => (false, s)
           end
       | Some _ => (false, s)
       end).

Definition RenameSection (ini : havINIStream)
    (oldSectionName newSectionName : str) : bool * havINIStream :=
  let oldSectionName := havUtils.ToLower oldSectionName in
  let newSectionName := havUtils.ToLower newSectionName in
  match find_if (name_is newSectionName) (mData ini) with
  | None =>
      match find_if (name_is oldSectionName) (mData ini) with
      | Some i =>
          (true,
           with_section ini i
             (fun s => INISection.SetSectionName s newSectionName))
      | None => (false, ini)
      end
  | Some _ => (false, ini)
  end.

Definition SetSectionInlineComment (ini : havINIStream)
    (sectionName inlineComment : str) : bool * havINIStream :=
  match find_if (name_is (havUtils.ToLower sectionName)) (mData ini) with
  | Some i =>
      (true,
       with_section ini i
         (fun s => INISection.SetInlineComment s inlineComment))
  | None => (false, ini)
  end.

Definition GetNumberOfKeys (ini : havINIStream) (sectionName : str) : nat :=
  match find_if (name_is (havUtils.ToLower sectionName)) (mData ini) with
  | Some i =>
      match nth_error (mData ini) i with
      | Some sectionEntry => INISection.GetNumberOfKeys sectionEntry
      | None => 0
      end
  | None => 0
  end.

Definition GetNumberOfSections (ini : havINIStream) : nat :=
  List.length (mData ini).

Definition ClearSection (ini : havINIStream) (sectionName : str)
  : bool * havINIStream :=
  match find_if (name_is (havUtils.ToLower sectionName)) (mData ini) with
  | Some i => (true, with_section ini i INISection.Clear)
  | None => (false, ini)
  end.

(** ** ParseFile: encoding detection and reading *)

(** The conversions of [std::wstring_convert]: UTF-16 and UTF-32 code
    units to UTF-8 bytes and back; both directions may throw
    [std::range_error]. *)
Record CodeCvt : Type := mkCodeCvt {
  to_bytes16 : list N -> result str;
  to_bytes32 : list N -> result str;
  from_bytes16 : str -> result (list N);
  from_bytes32 : str -> result (list N)
}.

(** The first [if] chain over [bomArray]: the byte order marks. *)
Definition detect_bom (bomArray : list ascii) : havINIBOMType * nat :=
  let b0 := code (nth 0 bomArray NUL) in
  let b1 := code (nth 1 bomArray NUL) in
  let b2 := code (nth 2 bomArray NUL) in
  let b3 := code (nth 3 bomArray NUL) in
  if ((b0 =? 255) && (b1 =? 254) && (b2 =? 0) && (b3 =? 0))%N%bool
  then (UTF32LE, 4)
  else if ((b0 =? 0) && (b1 =? 0) && (b2 =? 254) && (b3 =? 255))%N%bool
  then (UTF32BE, 4)
  else if ((b0 =? 255) && (b1 =? 254))%N%bool then (UTF16LE, 2)
  else if ((b0 =? 254) && (b1 =? 255))%N%bool then (UTF16BE, 2)
  else if ((b0 =? 239) && (b1 =? 187) && (b2 =? 191))%N%bool then (UTF8, 3)
  else (BOM_None, 0).

Definition havINIBOMType_eqb (a b : havINIBOMType) : bool :=
  match a, b with
  | BOM_None, BOM_None | UTF8, UTF8 | UTF16LE, UTF16LE | UTF16BE, UTF16BE
  | UTF32LE, UTF32LE | UTF32BE, UTF32BE => true
  | _, _ => false
  end.

(** The second chain, entered when no mark was found: the zero bytes of
    the first four bytes decide. *)
Definition guess_encoding (bomArray : list ascii) : havINIBOMType :=
  let z i := (code (nth i bomArray NUL) =? 0)%N in
  if negb (z 0) && z 1 && z 2 && z 3 then UTF32LE
  else if z 0 && z 1 && z 2 && negb (z 3) then UTF32BE
  else if negb (z 0) && z 1 && negb (z 2) && z 3 then UTF16LE
  else if z 0 && negb (z 1) && z 2 && negb (z 3) then UTF16BE
  else BOM_None.

Definition detect_encoding (bomArray : list ascii) : havINIBOMType * nat :=
  let '(bomType, bytesToSkip) := detect_bom bomArray in
  if havINIBOMType_eqb bomType BOM_None
  then (guess_encoding bomArray, bytesToSkip)
  else (bomType, bytesToSkip).

(** What [fread] delivers for [char16_t] and [char32_t] on a little-endian
    host; a trailing partial unit is not delivered. *)
Fixpoint units16 (bytes : list ascii) : list N :=
  match bytes with
  | b0 :: b1 :: rest => (code b0 + 256 * code b1)%N :: units16 rest
  | _ => []
  end.

Fixpoint units32 (bytes : list ascii) : list N :=
  match bytes with
  | b0 :: b1 :: b2 :: b3 :: rest =>
      (code b0 + 256 * code b1 + 65536 * code b2 + 16777216 * code b3)%N
        :: units32 rest
  | _ => []
  end.

(** The three reading loops share their shape: a unit is dropped while
    [skippedBytes < bytesToSkip], and each dropped unit adds its width. *)
Fixpoint read_loop {A : Type} (width bytesToSkip skippedBytes : nat)
    (units : list A) : list A :=
  match units with
  | [] => []
  | u :: rest =>
      if (0 <? bytesToSkip) && (skippedBytes <? bytesToSkip)
      then read_loop width bytesToSkip (skippedBytes + width) rest
      else u :: read_loop width bytesToSkip skippedBytes rest
  end.

Definition swap16 (c : N) : N :=
  (N.lor (N.shiftl (N.land c 255) 8) (N.shiftr (N.land c 65280) 8) mod 65536)%N.

Definition swap32 (c : N) : N :=
  (N.lor (N.lor (N.shiftl (N.land c 255) 24) (N.shiftl (N.land c 65280) 8))
         (N.lor (N.shiftr (N.land c 16711680) 8)
                (N.shiftr (N.land c 4278190080) 24)) mod 4294967296)%N.

(** The raw content as read, before the conversion to UTF-8. *)
Inductive raw_contents : Type :=
| Raw8 (fileContents : str)
| Raw16 (fileContentsU16 : list N)
| Raw32 (fileContentsU32 : list N).

Definition read_contents (bomType : havINIBOMType) (bytesToSkip : nat)
    (file : list ascii) : raw_contents :=
  match bomType with
  | BOM_None | UTF8 => Raw8 (read_loop 1 bytesToSkip 0 file)
  | UTF16LE | UTF16BE => Raw16 (read_loop 2 bytesToSkip 0 (units16 file))
  | UTF32LE | UTF32BE => Raw32 (read_loop 4 bytesToSkip 0 (units32 file))
  end.

Definition transcode (cvt : CodeCvt) (bomType : havINIBOMType)
    (raw : raw_contents) : result str :=
  match raw with
  | Raw8 fileContents => Ok fileContents
  | Raw16 fileContentsU16 =>
      match bomType with
      | UTF16BE => to_bytes16 cvt (map swap16 fileContentsU16)
      | _ => to_bytes16 cvt fileContentsU16
      end
  | Raw32 fileContentsU32 =>
      match bomType with
      | UTF32BE => to_bytes32 cvt (map swap32 fileContentsU32)
      | _ => to_bytes32 cvt fileContentsU32
      end
  end.

(** ** ParseFile: the line segmenter and the escape decoder *)

Definition beyond_eof : exn :=
  runtime_error
    (lit "Read beyond end of file, and found invalid unicode escape sequence!").

(** The loop over the four hexadecimal digits that follow [\x]; it
    returns the index it stops at, the digits read and the flag
    ([isUnicodeEscapeSequence], [surrogatePair]). *)
Fixpoint hex_loop (fileContents : str) (count index : nat) (hexString : str)
    (flag : bool) : result (nat * str * bool) :=
  match count with
  | O => Ok (index, hexString, flag)
  | S count' =>
      let index := S index in
      if size fileContents <=? index then Throw beyond_eof
      else
        let currentCharInLoop := at_ fileContents index in
        if negb (isxdigit currentCharInLoop) then Ok (index, hexString, false)
        else hex_loop fileContents count' index
                      (hexString ++ [currentCharInLoop]) true
  end.

Definition hex_digit_value (c : ascii) : N :=
  let n := code c in
  if (n <=? 57)%N then (n - 48)%N
  else if (n <=? 70)%N then (n - 55)%N
  else (n - 87)%N.

(** [std::strtol(hexString, nullptr, 16)] on a string of hexadecimal
    digits. *)
Definition strtol16 (hexString : str) : N :=
  fold_left (fun acc c => (acc * 16 + hex_digit_value c)%N) hexString 0%N.

(** The body of the loop that reads the file contents; the state is the
    line being built and the buffer of finished lines. *)
Definition segment_body (fileContents : str) (index : nat)
    (st : str * list str) : result (nat * (str * list str)) :=
  let '(line, buffer) := st in
  let currentChar := at_ fileContents index in
  if Ascii.eqb currentChar CR then
    let index := S index in
    if size fileContents <=? index then Ok (index, (line, buffer))
    else
      let currentChar := at_ fileContents (index + 1) in
      if Ascii.eqb currentChar LF then
        (* CRLF found! *)
        Ok (index, ([], buffer ++ [line ++ [currentChar]]))
      else
        (* CR found! *)
        Ok (index, ([], buffer ++ [line ++ [LF]]))
  else if Ascii.eqb currentChar LF then
    Ok (index, ([], buffer ++ [line ++ [currentChar]]))
  else if Ascii.eqb currentChar BACKSLASH then
    let index := S index in
    if size fileContents <=? index then Ok (index, (line, buffer))
    else
      let currentChar := at_ fileContents index in
      if Ascii.eqb currentChar "x"%char then
        '(index, hexString, isUnicodeEscapeSequence) <-
           hex_loop fileContents 4 index [] false ;;
        if isUnicodeEscapeSequence : bool then
          let codePoint := strtol16 hexString in
          let index := S index in
          let endOfFileReached := size fileContents <=? index in
          if Ascii.eqb (at_ fileContents index) BACKSLASH
             && negb endOfFileReached then
            let index := S index in
            let endOfFileReached :=
              if size fileContents <=? index then true else endOfFileReached in
            if Ascii.eqb (at_ fileContents index) "x"%char
               && negb endOfFileReached then
              '(index, hexString, surrogatePair) <-
                 hex_loop fileContents 4 index [] false ;;
              if surrogatePair : bool then
                if ((55296 <=? codePoint)%N && (codePoint <=? 56319)%N)%bool then
                  let secondCodePoint := strtol16 hexString in
                  if ((56320 <=? secondCodePoint)%N
                      && (secondCodePoint <=? 57343)%N)%bool then
                    let surrogatePairValue :=
                      (65536 + (codePoint - 55296) * 1024
                       + (secondCodePoint - 56320))%N in
                    Ok (index,
                        (line ++ CodePointToString surrogatePairValue, buffer))
                  else
                    Throw (runtime_error
                             (lit "Invalid code point range for UTF-16 low surrogate pair!"))
                else
                  Ok (index - 6, (line ++ CodePointToString codePoint, buffer))
              else
                Throw (runtime_error
                         (lit "Invalid code point for UTF-16 low surrogate pair!"))
            else
              Ok (index - 2, (line ++ CodePointToString codePoint, buffer))
          else
            Ok (index - 1, (line ++ CodePointToString codePoint, buffer))
        else
          Ok (index - 1, (line ++ currentChar :: hexString, buffer))
      else Throw (runtime_error (lit "Invalid escape character!"))
  else Ok (index, (line ++ [currentChar], buffer)).

(** The segmenter: the loop, then the last line when the file does not
    end in a line break. *)
Definition segment (fileContents : str) : result (list str) :=
  '(line, buffer) <-
     for_index (segment_body fileContents) (size fileContents) ([], []) ;;
  if negb (empty line) then Ok (buffer ++ [line ++ [LF]]) else Ok buffer.

(** ** ParseFile: the state machine over the lines *)

(** The local variables of [ParseFile] that live across lines. *)
Record ParseState : Type := mkParseState {
  errorMessage : str;
  sectionName : str;
  keyName : str;
  value : str;
  inlineComment : str;
  newSection : bool;
  newKey : bool;
  newValue : bool;
  hasInlineComment : bool;
  stringValue : bool;
  arrayIndex : str;
  isArrayKey : bool;
  hasArrayIndex : bool
}.

Definition ParseState_init : ParseState :=
  mkParseState [] (lit "hi_global") [] [] [] false true false false false
               [] false false.

Definition is_comment_char (c : ascii) : bool :=
  Ascii.eqb c ";"%char || Ascii.eqb c "#"%char.

Definition is_quote_char (c : ascii) : bool :=
  Ascii.eqb c DQUOTE || Ascii.eqb c SQUOTE.

(** "Remove whitespaces": outside a comment and outside quotes the white
    space goes, everything else stays. *)
Fixpoint strip_loop (line : str) (commentSection valueSection : bool)
    (tmpLine : str) : str :=
  match line with
  | [] => tmpLine
  | c :: rest =>
      let commentSection := commentSection || is_comment_char c in
      let valueSection :=
        if is_quote_char c then negb valueSection else valueSection in
      if negb commentSection && negb valueSection then
        if negb (isspace c)
        then strip_loop rest commentSection valueSection (tmpLine ++ [c])
        else strip_loop rest commentSection valueSection tmpLine
      else strip_loop rest commentSection valueSection (tmpLine ++ [c])
  end.

(** [while (line[characterIndex] != '\n') text += line[characterIndex++]]. *)
Fixpoint until_LF (rest : str) : str :=
  match rest with
  | [] => []
  | c :: tl => if Ascii.eqb c LF then [] else c :: until_LF tl
  end.

(** [mData.push_back(section)] and a member call through
    [GetSection(sectionName)->]. *)
Definition push_section (ini : havINIStream) (s : havINISection) : havINIStream :=
  set_mData ini (mData ini ++ [s]).

Definition on_section (ini : havINIStream) (sectionName : str)
    (f : havINISection -> result havINISection) : result havINIStream :=
  match GetSection ini sectionName with
  | Some i =>
      match nth_error (mData ini) i with
      | Some s => s' <- f s ;; Ok (set_mData ini (modify i (fun _ => s') (mData ini)))
      | None => Ok ini
      end
  | None => Ok ini
  end.

(** An empty line: a [hi_el_<n>] entry at the end of the current section. *)
Definition parse_empty_line (p : ParseState) (ini : havINIStream)
  : result havINIStream :=
  let emptyLineKeyStart := lit "hi_el_" in
  let add (s : havINISection) : result havINISection :=
    let '(emptyLineCount, s) := INISection.GetEmptyLineCount s in
    '(_, s) <- INISection.SetEmptyLine
                 s (emptyLineKeyStart ++ to_string emptyLineCount) End_ None ;;
    Ok s in
  if negb (HasSection ini (sectionName p)) then
    s <- add (INISection.make (sectionName p)) ;; Ok (push_section ini s)
  else on_section ini (sectionName p) add.

(** A comment line: marker, one space and the line break are removed, the
    rest is a [hi_c_<n>] entry at the end of the current section. *)
Definition parse_comment_line (line : str) (p : ParseState) (ini : havINIStream)
  : result havINIStream :=
  let line := if is_comment_char (front line) then erase_begin line else line in
  let line := if Ascii.eqb (front line) " "%char then erase_begin line else line in
  let line := if Ascii.eqb (back line) LF then pop_back line else line in
  let commentKeyStart := lit "hi_c_" in
  let add (s : havINISection) : result havINISection :=
    let '(commentLineCount, s) := INISection.GetCommentLineCount s in
    '(_, s) <- INISection.SetComment
                 s (commentKeyStart ++ to_string commentLineCount) line End_ None ;;
    Ok s in
  if negb (HasSection ini (sectionName p)) then
    s <- add (INISection.make (sectionName p)) ;; Ok (push_section ini s)
  else on_section ini (sectionName p) add.

(** The loop over a section header.  [rest] is the line from
    [characterIndex] on; the result is [newSection], [sectionName],
    [errorMessage] and the document. *)
Fixpoint section_loop (rest : str) (characterIndex : nat) (newSection : bool)
    (sectionName errorMessage : str) (ini : havINIStream)
  : bool * str * str * havINIStream :=
  match rest with
  | [] => (newSection, sectionName, errorMessage, ini)
  | c :: tl =>
      if Ascii.eqb c LF then (newSection, sectionName, errorMessage, ini)
      else if Ascii.eqb c "["%char && (0 <? characterIndex) then
        (newSection, sectionName,
         errorMessage ++ lit "New section started within section tag!" ++ [LF],
         ini)
      else if Ascii.eqb c "["%char then
        section_loop tl (S characterIndex) newSection sectionName errorMessage ini
      else if Ascii.eqb c " "%char then
        section_loop tl (S characterIndex) newSection sectionName errorMessage ini
      else if Ascii.eqb c "]"%char then
        section_loop tl (S characterIndex) false sectionName errorMessage ini
      else if is_comment_char c then
        if newSection then
          (newSection, sectionName,
           errorMessage ++ lit "Found comment tag within section tag!" ++ [LF],
           ini)
        else
          (* Section inline comment *)
          let sectionInlineComment := until_LF tl in
          let sectionInlineComment :=
            if negb (empty sectionInlineComment)
               && Ascii.eqb (front sectionInlineComment) " "%char
            then erase_begin sectionInlineComment else sectionInlineComment in
          let sectionName := havUtils.ToLower sectionName in
          let ini :=
            if negb (HasSection ini sectionName) then
              push_section ini
                (INISection.SetInlineComment (INISection.make sectionName)
                                             sectionInlineComment)
            else
              match GetSection ini sectionName with
              | Some i =>
                  set_mData ini
                    (modify i (fun s => INISection.SetInlineComment
                                          s sectionInlineComment)
                            (mData ini))
              | None => ini
              end in
          (newSection, sectionName, errorMessage, ini)
      else
        section_loop tl (S characterIndex) newSection (sectionName ++ [c])
                     errorMessage ini
  end.

Definition parse_section_line (line : str) (p : ParseState) (ini : havINIStream)
  : ParseState * havINIStream :=
  let '(newSection, sectionName, errorMessage, ini) :=
    section_loop line 0 true [] (errorMessage p) ini in
  let errorMessage :=
    if newSection then errorMessage ++ lit "Section end tag was not found!" ++ [LF]
    else errorMessage in
  let newKey := if empty errorMessage then true else false in
  (mkParseState errorMessage (havUtils.ToLower sectionName) (keyName p)
                (value p) (inlineComment p) newSection newKey false
                (hasInlineComment p) false (arrayIndex p) (isArrayKey p)
                (hasArrayIndex p),
   ini).

(** [line.find("=")] and [line.find(":")]. *)
Definition find_equals (line : str) : option nat := havUtils.find line (lit "=") 0.
Definition find_colon (line : str) : option nat := havUtils.find line (lit ":") 0.

Definition no_delimiter_message : str :=
  lit "No " ++ quoted "="%char ++ lit " or " ++ quoted ":"%char
            ++ lit " sign found!" ++ [LF].

(** The delimiter that ends the key: of the two that occur the one that
    occurs first; the null character when neither occurs. *)
Definition end_character (foundCharacter foundCharacter2 : option nat) : ascii :=
  match foundCharacter, foundCharacter2 with
  | Some e, Some c => if c <? e then ":"%char else "="%char
  | Some _, None => "="%char
  | None, Some _ => ":"%char
  | None, None => NUL
  end.

(** The loop that collects the key.  [rest] is the line from
    [characterIndex] on; [front tl] is [line[characterIndex + 1]]. *)
Fixpoint key_loop (endCharacter : ascii) (isArrayKey : bool) (rest : str)
    (characterIndex : nat) (keyName : str) (newKey : bool) (errorMessage : str)
  : nat * str * bool * str :=
  match rest with
  | [] => (characterIndex, keyName, newKey, errorMessage)
  | c :: tl =>
      if Ascii.eqb c endCharacter
      then (characterIndex, keyName, newKey, errorMessage)
      else
        let newKey' :=
          if Ascii.eqb (front tl) endCharacter then false else newKey in
        if Ascii.eqb c " "%char then
          key_loop endCharacter isArrayKey tl (S characterIndex) keyName
                   newKey' errorMessage
        else if negb isArrayKey && Ascii.eqb c "["%char then
          (characterIndex, keyName, newKey,
           errorMessage ++ lit "Start section tag within key tag!" ++ [LF])
        else if negb isArrayKey && Ascii.eqb c "]"%char then
          (characterIndex, keyName, newKey,
           errorMessage ++ lit "Close section tag within key tag!" ++ [LF])
        else if isArrayKey && Ascii.eqb c "["%char then
          (* Key name complete once "[" character has been found *)
          (characterIndex, keyName, false, errorMessage)
        else if is_comment_char c then
          (characterIndex, keyName, newKey,
           errorMessage ++ lit "Found comment tag within key tag!" ++ [LF])
        else
          key_loop endCharacter isArrayKey tl (S characterIndex)
                   (keyName ++ [c]) newKey' errorMessage
  end.

(** How the full key (the text before the delimiter) is classified:
    [isArrayKey], [hasArrayIndex] and the new [arrayIndex]. *)
Definition classify_key (fullKey arrayIndex : str) : bool * bool * str :=
  if havUtils.EndsWith fullKey (lit "[]") then (true, false, arrayIndex)
  else if negb (havUtils.StartsWith fullKey (lit "["))
          && havUtils.EndsWith fullKey (lit "]")
          && match havUtils.find fullKey (lit "[") 0 with
             | Some _ => true
             | None => false
             end
  then (true, true, pop_back (nth 1 (havUtils.Split fullKey (lit "[")) []))
  else (false, false, arrayIndex).

(** The block [if (newKey == true)]; it returns the state and
    [characterIndex]. *)
Definition parse_key (line : str) (p : ParseState) (characterIndex : nat)
  : ParseState * nat :=
  let foundCharacter := find_equals line in
  let foundCharacter2 := find_colon line in
  let errorMessage :=
    match foundCharacter, foundCharacter2 with
    | None, None => errorMessage p ++ no_delimiter_message
    | _, _ => errorMessage p
    end in
  let endCharacter := end_character foundCharacter foundCharacter2 in
  if empty errorMessage then
    let fullKey := nth 0 (havUtils.Split line [endCharacter]) [] in
    let '(isArrayKey, hasArrayIndex, arrayIndex) :=
      classify_key fullKey (arrayIndex p) in
    let '(characterIndex, keyName, newKey, errorMessage) :=
      key_loop endCharacter isArrayKey (skipn characterIndex line)
               characterIndex [] (newKey p) errorMessage in
    let errorMessage :=
      if newKey then
        errorMessage ++ lit "Key end tag (" ++ quoted endCharacter
                     ++ lit " sign) was not found!" ++ [LF]
      else errorMessage in
    if empty errorMessage then
      (mkParseState errorMessage (sectionName p) (havUtils.ToLower keyName)
                    (value p) (inlineComment p) (newSection p) false true
                    (hasInlineComment p) (stringValue p) arrayIndex
                    isArrayKey hasArrayIndex,
       characterIndex)
    else
      (mkParseState errorMessage (sectionName p) keyName
                    (value p) (inlineComment p) (newSection p) newKey
                    (newValue p) (hasInlineComment p) (stringValue p)
                    arrayIndex isArrayKey hasArrayIndex,
       characterIndex)
  else
    (mkParseState errorMessage (sectionName p) []
                  (value p) (inlineComment p) (newSection p) (newKey p)
                  (newValue p) (hasInlineComment p) (stringValue p)
                  (arrayIndex p) (isArrayKey p) (hasArrayIndex p),
     characterIndex).

(** Where the value starts: right after the delimiter that occurs first. *)
Definition value_start (foundCharacter foundCharacter2 : option nat)
    (characterIndex : nat) : nat :=
  match foundCharacter, foundCharacter2 with
  | Some e, Some c => if c <? e then c + 1 else e + 1
  | Some e, None => e + 1
  | None, Some c => c + 1
  | None, None => characterIndex
  end.

(** The loop that counts a double quote followed by a single quote,
    starting behind the first character.  The position moves to the right
    with every [find], so [size line] turns are enough. *)
Fixpoint quote_count_loop (fuel : nat) (line : str)
    (quoteCharacterPos allQuoteCharacters : nat) : nat :=
  match fuel with
  | O => allQuoteCharacters
  | S fuel' =>
      match havUtils.find line [DQUOTE] (quoteCharacterPos + 1) with
      | None => allQuoteCharacters
      | Some q =>
          match havUtils.find line [SQUOTE] (q + 1) with
          | None => allQuoteCharacters
          | Some q' => quote_count_loop fuel' line q' (S allQuoteCharacters)
          end
      end
  end.

(** The variables the value loop reads and writes. *)
Record ValueState : Type := mkValueState {
  v_value : str;
  v_stringValue : bool;
  v_newValue : bool;
  v_addQuotes : bool;
  v_currentQuoteCharacter : nat;
  v_hasInlineComment : bool;
  v_inlineComment : str;
  v_errorMessage : str
}.

(** The loop that collects the value.  [rest] is the line from
    [characterIndex] on. *)
Fixpoint value_loop (allQuoteCharacters : nat) (rest : str) (v : ValueState)
  : ValueState :=
  match rest with
  | [] => v
  | c :: tl =>
      let '(mkValueState value stringValue newValue addQuotes
                         currentQuoteCharacter hasInlineComment inlineComment
                         errorMessage) := v in
      let next_is_LF := Ascii.eqb (front tl) LF in
      (* the part of the body behind the quote handling *)
      let collect (currentQuoteCharacter : nat) : ValueState :=
        if negb stringValue && is_comment_char c then
          (* Inline comment *)
          let inlineComment := inlineComment ++ until_LF tl in
          let inlineComment :=
            if Ascii.eqb (front inlineComment) " "%char
            then erase_begin inlineComment else inlineComment in
          mkValueState value stringValue false addQuotes currentQuoteCharacter
                       true inlineComment errorMessage
        else
          let value := value ++ [c] in
          if next_is_LF && stringValue then
            mkValueState value stringValue newValue addQuotes
                         currentQuoteCharacter hasInlineComment inlineComment
                         (errorMessage ++ lit "String end tag not defined!" ++ [LF])
          else
            value_loop allQuoteCharacters tl
              (mkValueState value stringValue
                            (if next_is_LF then false else newValue)
                            addQuotes currentQuoteCharacter hasInlineComment
                            inlineComment errorMessage) in
      if Ascii.eqb c LF then v
      else if Ascii.eqb c " "%char && negb stringValue then
        value_loop allQuoteCharacters tl
          (mkValueState value stringValue
                        (if next_is_LF then false else newValue)
                        addQuotes currentQuoteCharacter hasInlineComment
                        inlineComment errorMessage)
      else if Ascii.eqb c "["%char then
        mkValueState value stringValue newValue addQuotes currentQuoteCharacter
                     hasInlineComment inlineComment
                     (errorMessage ++ lit "Start section tag within value tag!" ++ [LF])
      else if Ascii.eqb c "]"%char then
        mkValueState value stringValue newValue addQuotes currentQuoteCharacter
                     hasInlineComment inlineComment
                     (errorMessage ++ lit "Close section tag within value tag!" ++ [LF])
      else if 2 <? allQuoteCharacters then
        if is_quote_char c && negb stringValue && (currentQuoteCharacter =? 0) then
          value_loop allQuoteCharacters tl
            (mkValueState value true newValue addQuotes
                          (S currentQuoteCharacter) hasInlineComment
                          inlineComment errorMessage)
        else
          let currentQuoteCharacter :=
            if is_quote_char c && stringValue
               && (currentQuoteCharacter <? allQuoteCharacters)
            then S currentQuoteCharacter else currentQuoteCharacter in
          if is_quote_char c && stringValue
             && (currentQuoteCharacter =? allQuoteCharacters) then
            value_loop allQuoteCharacters tl
              (mkValueState value false newValue true
                            (S currentQuoteCharacter) hasInlineComment
                            inlineComment errorMessage)
          else collect currentQuoteCharacter
      else
        if is_quote_char c && negb stringValue then
          value_loop allQuoteCharacters tl
            (mkValueState value true newValue addQuotes currentQuoteCharacter
                          hasInlineComment inlineComment errorMessage)
        else if is_quote_char c && stringValue then
          value_loop allQuoteCharacters tl
            (mkValueState value false newValue true currentQuoteCharacter
                          hasInlineComment inlineComment errorMessage)
        else collect currentQuoteCharacter
  end.

(** The insertion at the end of a successful key/value line. *)
Definition insert_entry (ini : havINIStream) (sectionName keyName value : str)
    (addQuotes hasInlineComment : bool) (newInlineComment arrayIndex : str)
    (isArrayKey hasArrayIndex : bool) : result havINIStream :=
  let set (s : havINISection) : result havINISection :=
    if isArrayKey then
      INISection.SetArrayEntry s keyName value addQuotes hasInlineComment
                               newInlineComment arrayIndex hasArrayIndex
    else
      let s := INISection.SetKeyValuePair s keyName value addQuotes in
      match INISection.GetKeyValuePair s keyName with
      | Some i =>
          Ok (INISection.set_pairs s
                (modify i (fun d => INIData.SetInlineComment d newInlineComment)
                        (INISection.mKeyValuePairs s)))
      | None => Ok s
      end in
  if negb (HasSection ini sectionName) then
    s <- set (INISection.make sectionName) ;; Ok (push_section ini s)
  else on_section ini sectionName set.

(** What the value loop reads: the line from the start of the value on. *)
Definition value_text (line : str) (characterIndex : nat) : str :=
  skipn (value_start (find_equals line) (find_colon line) characterIndex) line.

(** The block [if (newValue == true)]. *)
Definition parse_value (line : str) (p : ParseState) (characterIndex : nat)
    (ini : havINIStream) : result (ParseState * havINIStream) :=
  let foundCharacter := find_equals line in
  let foundCharacter2 := find_colon line in
  let errorMessage :=
    match foundCharacter, foundCharacter2 with
    | None, None => errorMessage p ++ no_delimiter_message
    | _, _ => errorMessage p
    end in
  let allQuoteCharacters := quote_count_loop (size line) line 0 0 in
  if empty errorMessage then
    let v :=
      value_loop allQuoteCharacters (value_text line characterIndex)
                 (mkValueState [] (stringValue p) (newValue p) false 0
                               (hasInlineComment p) (inlineComment p)
                               errorMessage) in
    let errorMessage :=
      if v_newValue v && v_stringValue v then
        v_errorMessage v ++ lit "Value end tag (New line) was not found!" ++ [LF]
      else v_errorMessage v in
    if empty errorMessage then
      let newInlineComment :=
        if v_hasInlineComment v then v_inlineComment v else [] in
      ini <- insert_entry ini (sectionName p) (keyName p) (v_value v)
                          (v_addQuotes v) (v_hasInlineComment v)
                          newInlineComment (arrayIndex p) (isArrayKey p)
                          (hasArrayIndex p) ;;
      Ok (mkParseState errorMessage (sectionName p) (keyName p) (v_value v)
                       [] (newSection p) true false false (v_stringValue v)
                       (arrayIndex p) (isArrayKey p) (hasArrayIndex p),
          ini)
    else
      Ok (mkParseState errorMessage (sectionName p) (keyName p) (v_value v)
                       (v_inlineComment v) (newSection p) (newKey p)
                       (v_newValue v) (v_hasInlineComment v) (v_stringValue v)
                       (arrayIndex p) (isArrayKey p) (hasArrayIndex p),
          ini)
  else
    Ok (mkParseState errorMessage (sectionName p) (keyName p) []
                     (inlineComment p) (newSection p) (newKey p) (newValue p)
                     (hasInlineComment p) (stringValue p) (arrayIndex p)
                     (isArrayKey p) (hasArrayIndex p),
        ini).

(** One turn of the loop over the lines, behind the error check. *)
Definition parse_line (line : str) (p : ParseState) (ini : havINIStream)
  : result (ParseState * havINIStream) :=
  let tmpLine := strip_loop line false false [] in
  if empty tmpLine then
    ini <- parse_empty_line p ini ;; Ok (p, ini)
  else
    let line := tmpLine in
    let line := if negb (Ascii.eqb (back line) LF) then line ++ [LF] else line in
    if is_comment_char (at_ line 0) then
      ini <- parse_comment_line line p ini ;; Ok (p, ini)
    else if Ascii.eqb (at_ line 0) "["%char then
      Ok (parse_section_line line p ini)
    else
      let '(p, characterIndex) :=
        if newKey p then parse_key line p 0 else (p, 0) in
      if newValue p then parse_value line p characterIndex ini
      else Ok (p, ini).

Definition error_report (errorMessage : str) : str :=
  lit "Error while reading INI file: " ++ errorMessage ++ [LF].

(** The loop over the lines: a pending error message is printed and ends
    the loop.  The result carries what was written to [std::cout]. *)
Fixpoint parse_lines (buffer : list str) (p : ParseState) (ini : havINIStream)
    (cout : list str) : result (ParseState * havINIStream * list str) :=
  match buffer with
  | [] => Ok (p, ini, cout)
  | line :: rest =>
      if negb (empty (errorMessage p)) then
        Ok (mkParseState [] (sectionName p) (keyName p) (value p)
                         (inlineComment p) (newSection p) (newKey p)
                         (newValue p) (hasInlineComment p) (stringValue p)
                         (arrayIndex p) (isArrayKey p) (hasArrayIndex p),
            ini, cout ++ [error_report (errorMessage p)])
      else
        '(p, ini) <- parse_line line p ini ;;
        parse_lines rest p ini cout
  end.

(** Behind the loop: the report of an error of the last line, and the
    registration of a section that has no entries. *)
Definition parse_finish (p : ParseState) (ini : havINIStream) (cout : list str)
  : havINIStream * list str :=
  let cout :=
    if negb (empty (errorMessage p)) then cout ++ [error_report (errorMessage p)]
    else cout in
  let ini :=
    if negb (HasSection ini (sectionName p))
    then push_section ini (INISection.make (sectionName p))
    else ini in
  (ini, cout).

(** "Parse INI file contents": the part of [ParseFile] that works on the
    segmented lines. *)
Definition parse_buffer (buffer : list str) (ini : havINIStream) (cout : list str)
  : result (havINIStream * list str) :=
  '(p, ini, cout) <- parse_lines buffer ParseState_init ini cout ;;
  Ok (parse_finish p ini cout).

Definition bom_name (bomType : havINIBOMType) : str :=
  match bomType with
  | UTF16LE => lit "UTF-16 Little Endian"
  | UTF16BE => lit "UTF-16 Big Endian"
  | UTF32LE => lit "UTF-32 Little Endian"
  | UTF32BE => lit "UTF-32 Big Endian"
  | _ => lit "UTF-8"
  end.

Definition bom_notice (bomType : havINIBOMType) : str :=
  lit "INI file starts with " ++ bom_name bomType
  ++ lit " BOM! Please note that by default the BOM will be skipped, and removed in case the INI file gets saved and the BOM was not specified!"
  ++ [LF].

(** [ParseFile].  [file] is what the host file system holds under
    [fileName]: [None] when the file cannot be opened, its bytes
    otherwise.  The result is the value returned, the document and the
    text written to [std::cout]; an exception leaves through [Throw]. *)
Definition ParseFile (cvt : CodeCvt) (fileName : str) (file : option (list ascii))
    (ini : havINIStream) : result (bool * havINIStream * list str) :=
  match file with
  | None => Ok (false, ini, [lit "Unable to open INI file: " ++ fileName ++ [LF]])
  | Some bytes =>
      let fileSize := size bytes in
      if fileSize =? 0 then Ok (false, ini, [lit "INI file is empty!" ++ [LF]])
      else if fileSize <? 6 then
        Ok (false, ini,
            [lit "INI file cannot be smaller than 6 bytes! (Size in bytes: "
             ++ to_string (N.of_nat fileSize) ++ lit ")" ++ [LF]])
      else
        let bomArray := firstn 4 bytes in
        let '(bomType, bytesToSkip) := detect_encoding bomArray in
        let cout :=
          if negb (havINIBOMType_eqb bomType BOM_None) then [bom_notice bomType]
          else [] in
        fileContents <-
          transcode cvt bomType (read_contents bomType bytesToSkip bytes) ;;
        buffer <- segment fileContents ;;
        '(ini, cout) <- parse_buffer buffer ini cout ;;
        Ok (true, ini, cout)
  end.

(** ** WriteFile *)

Definition bom_bytes (bomType : havINIBOMType) : list ascii :=
  map chr
    (match bomType with
     | BOM_None => []
     | UTF8 => [239; 187; 191]
     | UTF16LE => [255; 254]
     | UTF16BE => [254; 255]
     | UTF32LE => [255; 254; 0; 0]
     | UTF32BE => [0; 0; 254; 255]
     end)%N.

(** [fwrite] of 16-bit and 32-bit units on a little-endian host. *)
Definition bytes16 (units : list N) : list ascii :=
  flat_map (fun u => [chr u; chr (u / 256)])%N units.

Definition bytes32 (units : list N) : list ascii :=
  flat_map (fun u => [chr u; chr (u / 256); chr (u / 65536); chr (u / 16777216)])%N
           units.

(** [WriteStringToFile]: the bytes appended to the file. *)
Definition WriteStringToFile (cvt : CodeCvt) (value : str)
    (bomType : havINIBOMType) : result (list ascii) :=
  match bomType with
  | BOM_None | UTF8 => Ok value
  | UTF16LE => u16Conv <- from_bytes16 cvt value ;; Ok (bytes16 u16Conv)
  | UTF16BE =>
      u16Conv <- from_bytes16 cvt value ;; Ok (bytes16 (map swap16 u16Conv))
  | UTF32LE => u32Conv <- from_bytes32 cvt value ;; Ok (bytes32 u32Conv)
  | UTF32BE =>
      u32Conv <- from_bytes32 cvt value ;; Ok (bytes32 (map swap32 u32Conv))
  end.

Definition bom_length (bomType : havINIBOMType) : nat :=
  match bomType with
  | BOM_None => 0
  | UTF8 => 3
  | UTF16LE | UTF16BE => 2
  | UTF32LE | UTF32BE => 4
  end.

Definition space_if (formatted : bool) : str :=
  if formatted then lit " " else [].

(** The text of a section header; [first] tells whether the section is
    the first of the document, [ftell] is the file position. *)
Definition header_text (ini : havINIStream) (formatted : bool)
    (bomType : havINIBOMType) (first : bool) (ftell : nat)
    (section : havINISection) : result str :=
  let newline := if first then [] else GetNewline ini in
  let sectionName :=
    if bom_length bomType <? ftell then newline else [] in
  name <- ConvertToEscapedString (INISection.GetSectionName section) ;;
  let sectionName := sectionName ++ lit "[" ++ name ++ lit "]" in
  sectionName <-
    (if INISection.HasInlineComment section then
       comment <- ConvertToEscapedString (INISection.GetInlineComment section) ;;
       Ok (sectionName ++ space_if formatted ++ [GetCommentCharacter ini]
                       ++ lit " " ++ comment)
     else Ok sectionName) ;;
  Ok (if formatted && empty (INISection.GetKeyValuePairs section)
      then sectionName ++ GetNewline ini else sectionName).

(** The inline comment appended behind a value or an array element. *)
Definition with_inline_comment (ini : havINIStream) (formatted : bool)
    (d : havINIData) (keyValuePair : str) : result str :=
  if INIData.HasInlineComment d then
    comment <- ConvertToEscapedString (INIData.GetInlineComment d) ;;
    Ok (keyValuePair ++ space_if formatted ++ [GetCommentCharacter ini]
                     ++ lit " " ++ comment)
  else Ok keyValuePair.

Definition quoted_value (ini : havINIStream) (d : havINIData) : result str :=
  value <- ConvertToEscapedString (INIData.GetValue d) ;;
  Ok (if INIData.GetAddQuotes d
      then GetValueQuoteCharacter ini :: value ++ [GetValueQuoteCharacter ini]
      else value).

(** The loop over the elements of an array entry; [lastPair] tells
    whether the entry is the last one of its section. *)
Fixpoint write_array (cvt : CodeCvt) (ini : havINIStream) (formatted : bool)
    (bomType : havINIBOMType) (newline : str) (entry : havINIData)
    (lastPair : bool) (elements : list havINIData) (file : list ascii)
  : result (list ascii) :=
  match elements with
  | [] => Ok file
  | element :: rest =>
      value <- quoted_value ini element ;;
      key <- ConvertToEscapedString (INIData.GetKey entry) ;;
      keyValuePair <-
        (if INIData.HasArrayIndex entry then
           index <- ConvertToEscapedString (INIData.GetKey element) ;;
           Ok (newline ++ key ++ lit "[" ++ index ++ lit "]")
         else Ok (newline ++ key ++ lit "[]")) ;;
      let keyValuePair :=
        keyValuePair ++ space_if formatted ++ [GetKeyValuePairDelimiter ini]
                     ++ space_if formatted ++ value in
      keyValuePair <- with_inline_comment ini formatted element keyValuePair ;;
      let keyValuePair :=
        if formatted && empty rest && lastPair
        then keyValuePair ++ GetNewline ini else keyValuePair in
      written <- WriteStringToFile cvt keyValuePair bomType ;;
      write_array cvt ini formatted bomType newline entry lastPair rest
                  (file ++ written)
  end.

(** The loop over the entries of a section.  [headerEmpty] is
    [sectionName.empty()]: no header was written for the section;
    [first] tells whether the entry is the first of the section. *)
Fixpoint write_pairs (cvt : CodeCvt) (ini : havINIStream) (formatted : bool)
    (bomType : havINIBOMType) (headerEmpty first : bool)
    (pairs : list havINIData) (file : list ascii) : result (list ascii) :=
  match pairs with
  | [] => Ok file
  | d :: rest =>
      let newline := if headerEmpty && first then [] else GetNewline ini in
      let lastPair := empty rest in
      match INIData.GetType d with
      | Array =>
          file <- write_array cvt ini formatted bomType newline d lastPair
                              (INIData.mArray d) file ;;
          (* All array entries have been written, so continue with the
             next key value pair *)
          write_pairs cvt ini formatted bomType headerEmpty false rest file
      | type =>
          keyValuePair <-
            (match type with
             | Empty => Ok newline
             | Comment =>
                 text <- ConvertToEscapedString (INIData.GetValue d) ;;
                 Ok (newline ++ [GetCommentCharacter ini] ++ lit " " ++ text)
             | _ =>
                 value <- quoted_value ini d ;;
                 key <- ConvertToEscapedString (INIData.GetKey d) ;;
                 Ok (newline ++ key ++ space_if formatted
                             ++ [GetKeyValuePairDelimiter ini]
                             ++ space_if formatted ++ value)
             end) ;;
          keyValuePair <- with_inline_comment ini formatted d keyValuePair ;;
          let keyValuePair :=
            if formatted && lastPair
               && negb (havINIDataType_eqb (INIData.GetType d) Empty)
            then keyValuePair ++ GetNewline ini else keyValuePair in
          written <- WriteStringToFile cvt keyValuePair bomType ;;
          write_pairs cvt ini formatted bomType headerEmpty false rest
                      (file ++ written)
      end
  end.

Definition is_global_name (name : str) : bool :=
  str_eqb name (lit "HI_Global") || str_eqb name (lit "hi_global").

(** The loop over the sections. *)
Fixpoint write_sections (cvt : CodeCvt) (ini : havINIStream) (formatted : bool)
    (bomType : havINIBOMType) (first : bool) (sections : list havINISection)
    (file : list ascii) : result (list ascii) :=
  match sections with
  | [] => Ok file
  | section :: rest =>
      '(sectionName, file) <-
         (if negb (is_global_name (INISection.GetSectionName section)) then
            sectionName <- header_text ini formatted bomType first
                                       (size file) section ;;
            written <- WriteStringToFile cvt sectionName bomType ;;
            Ok (sectionName, file ++ written)
          else Ok ([], file)) ;;
      file <- write_pairs cvt ini formatted bomType (empty sectionName) true
                          (INISection.GetKeyValuePairs section) file ;;
      write_sections cvt ini formatted bomType false rest file
  end.

(** [WriteFile].  [writable] tells whether the file can be opened for
    writing; the result is the value returned and the bytes of the file. *)
Definition WriteFile (cvt : CodeCvt) (writable : bool) (ini : havINIStream)
    (formatted : bool) (bomType : havINIBOMType)
  : result (bool * list ascii) :=
  if negb writable then Ok (false, [])
  else
    file <- write_sections cvt ini formatted bomType true (mData ini)
                           (bom_bytes bomType) ;;
    Ok (true, file).

(** ** The statements of the specification, in its own words *)

(** Modelled from the specification (4.3): a logical line ends at a line
    feed, at a carriage return followed by a line feed (one break), or at
    a carriage return alone; every line carries one line feed at its end.
    This is the reference the segmenter of the code is compared with. *)
Fixpoint spec_split_lines (text line : str) : list str :=
  match text with
  | [] => if empty line then [] else [line ++ [LF]]
  | c :: rest =>
      if Ascii.eqb c LF then (line ++ [LF]) :: spec_split_lines rest []
      else if Ascii.eqb c CR then
        match rest with
        | d :: rest' =>
            if Ascii.eqb d LF then (line ++ [LF]) :: spec_split_lines rest' []
            else (line ++ [LF]) :: spec_split_lines rest []
        | [] => (line ++ [LF]) :: spec_split_lines rest []
        end
      else spec_split_lines rest (line ++ [c])
  end.

(** The texts on which the segmenter is compared with the reference:
    no backslash, and every carriage return is followed by a line feed. *)
Fixpoint crlf_only (text : str) : bool :=
  match text with
  | [] => true
  | c :: rest =>
      if Ascii.eqb c BACKSLASH then false
      else if Ascii.eqb c CR then
        match rest with
        | d :: rest' => Ascii.eqb d LF && crlf_only rest'
        | [] => false
        end
      else crlf_only rest
  end.

(** Modelled from the specification (4.1): the byte order marks in their
    order of precedence, as prefixes of the buffer, and the number of
    bytes skipped for each classification. *)
Fixpoint has_prefix (pattern : list N) (buffer : list ascii) : bool :=
  match pattern, buffer with
  | [], _ => true
  | n :: pattern', c :: buffer' => (code c =? n)%N && has_prefix pattern' buffer'
  | _ :: _, [] => false
  end.

Definition spec_classify (buffer : list ascii) : havINIBOMType :=
  if has_prefix [255; 254; 0; 0]%N buffer then UTF32LE
  else if has_prefix [0; 0; 254; 255]%N buffer then UTF32BE
  else if has_prefix [255; 254]%N buffer then UTF16LE
  else if has_prefix [254; 255]%N buffer then UTF16BE
  else if has_prefix [239; 187; 191]%N buffer then UTF8
  else BOM_None.

Definition spec_skip_length (bomType : havINIBOMType) : nat :=
  match bomType with
  | UTF32LE | UTF32BE => 4
  | UTF16LE | UTF16BE => 2
  | UTF8 => 3
  | BOM_None => 0
  end.

(** ** Objects used in the examples *)

(** A converter that rejects every input; the examples stay on the 8-bit
    path, where no conversion takes place. *)
Definition null_cvt : CodeCvt :=
  mkCodeCvt (fun _ => Throw range_error) (fun _ => Throw range_error)
            (fun _ => Throw range_error) (fun _ => Throw range_error).

Definition ln (s : string) : str := lit s ++ [LF].

Definition invalid_escape : exn :=
  runtime_error (lit "Invalid escape character!").

(** The letters of the named escapes the encoder writes behind a
    backslash. *)
Definition named_escape_letters : list ascii :=
  [DQUOTE; BACKSLASH; "b"%char; "f"%char; "n"%char; "r"%char; "t"%char;
   "v"%char].

(** The text of a key as [key_loop] collects it: the spaces dropped. *)
Definition without_spaces (s : str) : str :=
  filter (fun c => negb (Ascii.eqb c " "%char)) s.





(** The lines processed without an error: the loop of [parse_lines] takes
    every line of the list and no error message is pending before any of
    them. *)
Inductive lines_done
  : list str -> ParseState * havINIStream -> ParseState * havINIStream -> Prop :=
| lines_done_nil : forall s, lines_done [] s s
| lines_done_cons : forall line rest p ini p' ini' s,
    errorMessage p = [] ->
    parse_line line p ini = Ok (p', ini') ->
    lines_done rest (p', ini') s ->
    lines_done (line :: rest) (p, ini) s.

(** The number of entries of type [Value] in a document. *)
Definition count_values (ini : havINIStream) : nat :=
  list_sum
    (map (fun s => List.length
                     (filter (fun d => havINIDataType_eqb (INIData.mType d) Value)
                             (INISection.mKeyValuePairs s)))
         (mData ini)).

(** Small documents: one key, two keys in one section, two sections. *)
Definition one_key : havINIStream :=
  snd (SetValue havINIStream_new (lit "net") (lit "host") (lit "a") false).

Definition two_keys : havINIStream :=
  snd (SetValue one_key (lit "net") (lit "port") (lit "80") false).

Definition two_sections : havINIStream :=
  snd (SetValue one_key (lit "log") (lit "level") (lit "3") false).

Definition one_entry : havINISection :=
  INISection.SetKeyValuePair (INISection.make (lit "net")) (lit "host")
                             (lit "a") false.

(** A document with one key in the global section. *)
Definition global_key : havINIStream :=
  snd (SetValue havINIStream_new (lit "hi_global") (lit "host")
                (lit "example") false).

(** ** Notions for the statements about the document interface *)

(** The first section with a name, the first entry with a key: what the
    linear scans of the interface find. *)
Definition section_named (ini : havINIStream) (name : str)
  : option havINISection :=
  find (name_is name) (mData ini).

Definition entry_keyed (s : havINISection) (key : str) : option havINIData :=
  find (INIData.key_is key) (INISection.mKeyValuePairs s).

Definition entry_of (ini : havINIStream) (name key : str) : option havINIData :=
  match section_named ini name with
  | Some s => entry_keyed s key
  | None => None
  end.

(** No two entries of a section share a key, no two sections of a
    document share a name. *)
Definition unique_keys (s : havINISection) : Prop :=
  NoDup (map INIData.mKey (INISection.mKeyValuePairs s)).

Definition unique_names (ini : havINIStream) : Prop :=
  NoDup (map INISection.mSectionName (mData ini)).

Definition well_keyed (ini : havINIStream) : Prop :=
  unique_names ini /\ Forall unique_keys (mData ini).

(** The characters [ConvertToEscapedString] writes as they are: the
    7-bit characters from code 31 on, but for the double quote and the
    backslash. *)
Definition unescaped (c : ascii) : bool :=
  (31 <=? code c)%N && (code c <? 128)%N
  && negb (code c =? 34)%N && negb (code c =? 92)%N.

(** The codes from 31 to 127: 7-bit, and no line break among them. *)
Definition from_31_to_127 (c : ascii) : bool :=
  (31 <=? code c)%N && (code c <=? 127)%N.

(** The characters of plain keys and values: visible 7-bit characters
    that mean nothing to the parser. *)
Definition word_char (c : ascii) : bool :=
  (33 <=? code c)%N && (code c <? 127)%N
  && negb (existsb (Ascii.eqb c) (DQUOTE :: SQUOTE :: BACKSLASH :: lit "=:;#[]")).

(** The state of the parser between two complete lines: no error, the
    next line starts with a key. *)
Definition ready (p : ParseState) : Prop :=
  errorMessage p = [] /\ newKey p = true /\ newValue p = false
  /\ stringValue p = false /\ hasInlineComment p = false.

(** The line that holds a key and a value. *)
Definition key_value_line (delimiter : ascii) (key value : str) : str :=
  key ++ delimiter :: value ++ [LF].

(** A key and a value of plain characters, the key not empty. *)
Definition plain_pair (entry : str * str) : Prop :=
  fst entry <> []
  /\ Forall (fun c => word_char c = true) (fst entry)
  /\ Forall (fun c => word_char c = true) (snd entry).

(** The text of a file that holds one key and value on each line;
    [terminated] tells whether the last line ends in a line break. *)
Fixpoint key_value_text (newline : str) (delimiter : ascii) (terminated : bool)
    (entries : list (str * str)) : str :=
  match entries with
  | [] => []
  | (key, value) :: rest =>
      key ++ delimiter :: value
      ++ match rest with
         | [] => if terminated then newline else []
         | _ :: _ => newline ++ key_value_text newline delimiter terminated rest
         end
  end.

(** The entry that [SetValue] makes for a key and a value. *)
Definition plain_entry (entry : str * str) : havINIData :=
  INIData.make (fst entry) (snd entry) Value false None false.

(** One call of the document interface that may change the document:
    the state before and the state after.  The calls that can throw are
    taken when they return. *)
Inductive mutation (ini : havINIStream) : havINIStream -> Prop :=
| by_SetValue (sectionName keyName value : str) (addQuotes : bool) :
    mutation ini (snd (SetValue ini sectionName keyName value addQuotes))
| by_AddSection (sectionName : str) :
    mutation ini (snd (AddSection ini sectionName))
| by_subscript (sectionName : str) :
    mutation ini (snd (section_subscript ini sectionName))
| by_SetEmptyLine (sectionName : str) (position : havINIPosition)
    (keyName : option str) (r : bool) (ini' : havINIStream) :
    SetEmptyLine_stream ini sectionName position keyName = Ok (r, ini') ->
    mutation ini ini'
| by_SetComment (sectionName comment : str) (position : havINIPosition)
    (keyName : option str) (r : bool) (ini' : havINIStream) :
    SetComment_stream ini sectionName comment position keyName = Ok (r, ini') ->
    mutation ini ini'
| by_RemoveEmptyLine (sectionName keyName : str) :
    mutation ini (snd (RemoveEmptyLine ini sectionName keyName))
| by_RemoveComment (sectionName keyName : str) :
    mutation ini (snd (RemoveComment ini sectionName keyName))
| by_SetInlineComment (sectionName keyName inlineComment : str) :
    mutation ini (snd (SetInlineComment ini sectionName keyName inlineComment))
| by_RemoveKey (sectionName keyName : str) :
    mutation ini (snd (RemoveKey ini sectionName keyName))
| by_RemoveSection (sectionName : str) :
    mutation ini (snd (RemoveSection ini sectionName))
| by_RenameKey (sectionName oldKeyName newKeyName : str) :
    mutation ini (snd (RenameKey ini sectionName oldKeyName newKeyName))
| by_RenameSection (oldSectionName newSectionName : str) :
    mutation ini (snd (RenameSection ini oldSectionName newSectionName))
| by_SetSectionInlineComment (sectionName inlineComment : str) :
    mutation ini (snd (SetSectionInlineComment ini sectionName inlineComment))
| by_ClearSection (sectionName : str) :
    mutation ini (snd (ClearSection ini sectionName)).

(** The characters that the value loop appends to the value outside
    quotes: all but the line feed, the space, the brackets, the quotes and
    the comment signs. *)
Definition value_char (c : ascii) : bool :=
  negb (Ascii.eqb c LF || Ascii.eqb c " "%char || Ascii.eqb c "["%char
        || Ascii.eqb c "]"%char || is_quote_char c || is_comment_char c).

(** The characters of a line that the removal of white space leaves as
    they are and that open neither a quote nor a comment. *)
Definition solid_char (c : ascii) : bool :=
  negb (isspace c || is_quote_char c || is_comment_char c).




(** The value of the last of the entries whose key is, in lower case, the
    key given. *)
Fixpoint last_value (entries : list (str * str)) (key : str) : option str :=
  match entries with
  | [] => None
  | entry :: rest =>
      match last_value rest key with
      | Some value => Some value
      | None =>
          if str_eqb (havUtils.ToLower (fst entry)) key then Some (snd entry)
          else None
      end
  end.

(** Tactics for the uniqueness of the names of a closed document. *)
Ltac solve_NoDup :=
  repeat (constructor; [simpl; intuition discriminate|]); constructor.

Ltac solve_well_keyed :=
  unfold well_keyed, unique_names, unique_keys; split;
  [vm_compute; solve_NoDup
  |repeat (constructor; [vm_compute; solve_NoDup|]); try constructor].

(** * Theorems *)

(** ** Lists and strings *)

Lemma str_eqb_refl (s : str) : str_eqb s s = true.
Proof.
  induction s as [|c s IH]; simpl; [reflexivity|].
  now rewrite Ascii.eqb_refl, IH.
Qed.

Lemma str_eqb_eq (a b : str) : str_eqb a b = true <-> a = b.
Proof.
  split.
  - revert b; induction a as [|x a IH]; intros [|y b]; simpl; try easy.
    intros H. apply andb_true_iff in H as [Hx Hab].
    apply Ascii.eqb_eq in Hx. apply IH in Hab. now subst.
  - intros ->. apply str_eqb_refl.
Qed.

Lemma tolower_idem (c : ascii) : tolower (tolower c) = tolower c.
Proof. destruct c as [[] [] [] [] [] [] [] []]; reflexivity. Qed.

Lemma ToLower_idem (s : str) :
  havUtils.ToLower (havUtils.ToLower s) = havUtils.ToLower s.
Proof.
  unfold havUtils.ToLower. rewrite map_map.
  apply map_ext. intros c. apply tolower_idem.
Qed.

Lemma find_if_app_found {A} (p : A -> bool) (l l' : list A) (i : nat) :
  find_if p l = Some i -> find_if p (l ++ l') = Some i.
Proof.
  revert i; induction l as [|x l IH]; simpl; intros i H; [discriminate|].
  destruct (p x); [assumption|].
  destruct (find_if p l) as [j|]; [|discriminate].
  now rewrite (IH j eq_refl).
Qed.

Lemma find_if_app_last {A} (p : A -> bool) (l : list A) (x : A) :
  find_if p l = None -> p x = true ->
  find_if p (l ++ [x]) = Some (List.length l).
Proof.
  induction l as [|y l IH]; simpl; intros Hn Hx.
  - now rewrite Hx.
  - destruct (p y); [discriminate|].
    destruct (find_if p l); [discriminate|].
    now rewrite IH.
Qed.

Lemma find_if_bound {A} (p : A -> bool) (l : list A) (i : nat) :
  find_if p l = Some i -> i < List.length l.
Proof.
  revert i; induction l as [|x l IH]; simpl; intros i H; [discriminate|].
  destruct (p x).
  - injection H as <-. lia.
  - destruct (find_if p l) as [j|]; [|discriminate].
    injection H as <-. specialize (IH j eq_refl). lia.
Qed.

Lemma find_if_holds {A} (p : A -> bool) (l : list A) (i : nat) :
  find_if p l = Some i -> exists x, nth_error l i = Some x /\ p x = true.
Proof.
  revert i; induction l as [|x l IH]; simpl; intros i H; [discriminate|].
  destruct (p x) eqn:Hp.
  - injection H as <-. now exists x.
  - destruct (find_if p l) as [j|]; [|discriminate].
    injection H as <-. apply (IH j eq_refl).
Qed.



(** ** Arrays: the automatic index *)









(** ** The index outside the range of the numerals *)


Lemma uint_of_long_bound (z : Z) : (uint_of_long z < UINT_MOD)%N.
Proof.
  unfold uint_of_long, UINT_MOD.
  pose proof (Z.mod_pos_bound z 4294967296 ltac:(lia)). lia.
Qed.









(** ** The case policy *)

(** C8.  In the default, case-insensitive build the file with the lines
    [[Sec]], [key=1], [KEY=2] parses to a document whose only entry of
    type [Value] is stored in the section [sec] under the key [key] with
    the value [2]: the second assignment updates the entry of the first. *)
Theorem case_insensitive_update :
  forall (cvt : CodeCvt) (fileName : str),
    let file := ln "[Sec]" ++ ln "key=1" ++ ln "KEY=2" in
    let document :=
      set_mData havINIStream_new
        [INISection.make (lit "hi_global");
         INISection.mkSection (lit "sec") None
           [INIData.make (lit "key") (lit "2") Value false None false] 0 0] in
    ParseFile cvt fileName (Some file) havINIStream_new = Ok (true, document, [])
    /\ count_values document = 1
    /\ GetValue document (lit "sec") (lit "key") [] = lit "2"
    /\ GetValue document (lit "Sec") (lit "KEY") [] = lit "2".
Proof.
  intros cvt fileName. repeat split; vm_compute; reflexivity.
Qed.

(** ** SetValue *)

Lemma modify_ext_at {A} (f g : A -> A) (l : list A) (i : nat) (x : A) :
  nth_error l i = Some x -> f x = g x -> modify i f l = modify i g l.
Proof.
  revert i; induction l as [|y l IH]; intros [|i] Hn Hfg; simpl in *;
    try discriminate.
  - injection Hn as ->. now rewrite Hfg.
  - now rewrite (IH i Hn Hfg).
Qed.

(** C9.  [SetValue] returns [true] for every document, section name, key
    name, value and quoting flag.  A section that does not exist is
    appended with the new entry as its only entry; in an existing section
    a key that does not exist is appended as a new entry of type [Value];
    an existing entry keeps everything but its value and its quoting
    flag, which are overwritten in place. *)
Theorem SetValue_returns_true :
  forall (ini : havINIStream) (sectionName keyName value : str)
         (addQuotes : bool),
    let section := havUtils.ToLower sectionName in
    let key := havUtils.ToLower keyName in
    let entry := INIData.make key value Value addQuotes None false in
    let overwrite (d : havINIData) :=
      INIData.mkData (INIData.mType d) (INIData.mKey d) value
                     (INIData.mInlineComment d) addQuotes
                     (INIData.mArrayIndex d) (INIData.mHasArrayIndex d)
                     (INIData.mArray d) in
    let update (s : havINISection) :=
      match find_if (INIData.key_is key) (INISection.mKeyValuePairs s) with
      | None =>
          INISection.set_pairs s (INISection.mKeyValuePairs s ++ [entry])
      | Some j =>
          INISection.set_pairs s (modify j overwrite (INISection.mKeyValuePairs s))
      end in
    SetValue ini sectionName keyName value addQuotes
    = (true,
       set_mData ini
         (match find_if (name_is section) (mData ini) with
          | None => mData ini ++ [INISection.mkSection section None [entry] 0 0]
          | Some i => modify i update (mData ini)
          end)).
Proof.
  intros ini sectionName keyName value addQuotes section key entry overwrite
         update.
  unfold SetValue. fold section. fold key.
  destruct (find_if (name_is section) (mData ini)) as [i|] eqn:Hs.
  - destruct (find_if_holds _ _ _ Hs) as (s & Hn & _). rewrite Hn.
    unfold INISection.GetKeyValuePair. unfold key at 1. rewrite ToLower_idem.
    fold key.
    destruct (find_if (INIData.key_is key) (INISection.mKeyValuePairs s))
      as [j|] eqn:Hk.
    + f_equal. f_equal. apply (modify_ext_at _ _ _ _ s Hn).
      unfold update. rewrite Hk. reflexivity.
    + f_equal. f_equal. apply (modify_ext_at _ _ _ _ s Hn).
      unfold update, INISection.SetKeyValuePair.
      assert (Hkey : havUtils.ToLower key = key)
        by (unfold key; apply ToLower_idem).
      rewrite Hkey, Hk. reflexivity.
  - unfold INISection.SetKeyValuePair. cbn [INISection.make
      INISection.mKeyValuePairs find_if INISection.set_pairs app
      INISection.mSectionName INISection.mInlineComment
      INISection.mCommentLineCount INISection.mEmptyLineCount].
    unfold entry, key. rewrite ToLower_idem. reflexivity.
Qed.

(** ** The byte order mark *)

Lemma read_loop_id {A} (width bytesToSkip skippedBytes : nat) (units : list A) :
  bytesToSkip <= skippedBytes ->
  read_loop width bytesToSkip skippedBytes units = units.
Proof.
  intros H. induction units as [|u units IH]; simpl; [reflexivity|].
  destruct (Nat.ltb_spec skippedBytes bytesToSkip); [lia|].
  rewrite andb_false_r. now rewrite IH.
Qed.

Lemma detect_bom_spec (b0 b1 b2 b3 : ascii) (rest : list ascii) :
  detect_bom [b0; b1; b2; b3]
  = (spec_classify (b0 :: b1 :: b2 :: b3 :: rest),
     spec_skip_length (spec_classify (b0 :: b1 :: b2 :: b3 :: rest))).
Proof.
  unfold detect_bom, spec_classify. cbn [has_prefix nth].
  rewrite !andb_true_r, !andb_assoc.
  repeat match goal with
         | |- context [if ?c then _ else _] => destruct c
         end; reflexivity.
Qed.

Lemma read_contents_skips (bomType : havINIBOMType) (buffer : list ascii) :
  6 <= size buffer ->
  bomType <> BOM_None ->
  read_contents bomType (spec_skip_length bomType) buffer
  = read_contents bomType 0 (skipn (spec_skip_length bomType) buffer).
Proof.
  intros Hsize Hbom.
  destruct buffer as [|b0 [|b1 [|b2 [|b3 [|b4 [|b5 rest]]]]]];
    simpl in Hsize; try lia.
  destruct bomType; try contradiction;
    cbn [read_contents spec_skip_length skipn units16 units32 read_loop
         Nat.ltb Nat.leb andb Nat.add];
    now rewrite !read_loop_id by lia.
Qed.

(** C5.  On a buffer of at least six bytes the first chain of
    [ParseFile] classifies the first four bytes as the specification lists
    the byte order marks, in that order of precedence, so a buffer that
    starts with FF FE 00 00 is UTF-32LE and not UTF-16LE; the number of
    bytes to skip is 4, 4, 2, 2, 3 or 0; and what the reading loop delivers
    is what it would deliver, without skipping, on the buffer without that
    many leading bytes. *)
Theorem bom_detection :
  forall buffer : list ascii,
    6 <= size buffer ->
    let bomArray := firstn 4 buffer in
    let classified := fst (detect_bom bomArray) in
    classified = spec_classify buffer
    /\ snd (detect_bom bomArray) = spec_skip_length classified
    /\ (has_prefix [255; 254; 0; 0]%N buffer = true ->
        classified = UTF32LE /\ classified <> UTF16LE)
    /\ (forall bomType bytesToSkip,
           detect_encoding bomArray = (bomType, bytesToSkip) ->
           bytesToSkip = spec_skip_length classified
           /\ read_contents bomType bytesToSkip buffer
              = read_contents bomType 0 (skipn bytesToSkip buffer)).
Proof.
  intros buffer Hsize bomArray classified.
  assert (Hd : detect_bom bomArray
               = (spec_classify buffer, spec_skip_length (spec_classify buffer))).
  { destruct buffer as [|b0 [|b1 [|b2 [|b3 rest]]]]; simpl in Hsize; try lia.
    apply detect_bom_spec. }
  assert (Hc : classified = spec_classify buffer)
    by (unfold classified; now rewrite Hd).
  split; [assumption|]. split; [now rewrite Hd, Hc|]. split.
  - intros Hp. rewrite Hc. unfold spec_classify. rewrite Hp.
    split; [reflexivity|discriminate].
  - intros bomType bytesToSkip He. unfold detect_encoding in He.
    rewrite Hd in He. rewrite Hc.
    destruct (spec_classify buffer) eqn:Hcls; cbn in He;
      injection He as <- <-; (split; [reflexivity|]);
      try (match goal with
           | |- read_contents ?t _ _ = _ =>
               apply (read_contents_skips t buffer Hsize); discriminate
           end).
    reflexivity.
Qed.

(** The statement at work on a buffer that starts with the UTF-32LE
    mark. *)
Lemma bom_detection_witness :
  let buffer := map chr [255; 254; 0; 0; 65; 0; 0; 0]%N in
  fst (detect_bom (firstn 4 buffer)) = UTF32LE
  /\ snd (detect_bom (firstn 4 buffer)) = 4
  /\ read_contents UTF32LE 4 buffer = Raw32 [65%N].
Proof.
  pose proof (bom_detection (map chr [255; 254; 0; 0; 65; 0; 0; 0]%N)) as H.
  cbv zeta in H.
  destruct H as (H1 & H2 & H3 & H4).
  - simpl. lia.
  - destruct (H3 eq_refl) as [H5 _].
    destruct (H4 UTF32LE 4 eq_refl) as [_ H6].
    split; [exact H5|]. split; [rewrite H2, H5; reflexivity|].
    rewrite H6. reflexivity.
Defined.

(** ** The decoder and the segmenter *)

Lemma at_middle (pre : str) (c : ascii) (post : str) :
  at_ (pre ++ c :: post) (size pre) = c.
Proof. unfold at_. apply nth_middle. Qed.

Lemma at_middle_next (pre : str) (c d : ascii) (post : str) :
  at_ (pre ++ c :: d :: post) (S (size pre)) = d.
Proof.
  unfold at_. change (pre ++ c :: d :: post) with (pre ++ [c] ++ d :: post).
  rewrite app_assoc.
  replace (S (size pre)) with (size (pre ++ [c]))
    by (rewrite length_app; simpl; lia).
  apply nth_middle.
Qed.

Lemma size_beyond (pre : str) (c d : ascii) (post : str) :
  (size (pre ++ c :: d :: post) <=? S (size pre)) = false.
Proof. apply Nat.leb_gt. rewrite length_app. simpl. lia. Qed.

(** A backslash followed by a character that is not [x] makes the body
    of the reading loop throw. *)
Lemma segment_body_backslash (pre : str) (c : ascii) (post line : str)
    (buffer : list str) :
  Ascii.eqb c "x"%char = false ->
  segment_body (pre ++ BACKSLASH :: c :: post) (size pre) (line, buffer)
  = Throw invalid_escape.
Proof.
  intros Hc. unfold segment_body.
  rewrite at_middle, at_middle_next, size_beyond, Hc. reflexivity.
Qed.

(** C3.  The decoder does not recognize the named escapes.  Each of the
    eight sequences is what [ConvertToEscapedString] writes for a character;
    wherever a text holds a backslash followed by one of the eight letters
    the body of the reading loop throws "Invalid escape character!", and
    so does [ParseFile] on a file with such a value.  The escapes with
    four hexadecimal digits are decoded, a surrogate pair included. *)
Theorem named_escapes_rejected :
  map (fun ch => ConvertToEscapedString [ch])
      (map chr [34; 92; 8; 12; 10; 13; 9; 11]%N)
  = map (fun c => Ok [BACKSLASH; c]) named_escape_letters
  /\ segment (lit "a\x0041b\x00e9\xd83d\xde00" ++ [LF])
     = Ok [lit "aAb" ++ map chr [195; 169; 240; 159; 152; 128; 10]%N]
  /\ Forall
       (fun c =>
          forall (pre post line : str) (buffer : list str),
            segment_body (pre ++ BACKSLASH :: c :: post) (size pre)
                         (line, buffer)
            = Throw invalid_escape)
       named_escape_letters
  /\ Forall
       (fun c =>
          forall (cvt : CodeCvt) (fileName : str),
            ParseFile cvt fileName
                      (Some (lit "text=a" ++ [BACKSLASH; c] ++ ln "b"))
                      havINIStream_new
            = Throw invalid_escape)
       named_escape_letters.
Proof.
  split; [vm_compute; reflexivity|]. split; [vm_compute; reflexivity|]. split.
  - repeat constructor; intros; apply segment_body_backslash; reflexivity.
  - repeat constructor; intros; vm_compute; reflexivity.
Qed.

(** Behind a carriage return that is not the last character the body of
    the reading loop ends the line and leaves the index on the character
    that follows, whatever that character is: the loop then steps over
    it. *)
Lemma segment_body_CR (pre : str) (c : ascii) (post line : str)
    (buffer : list str) :
  segment_body (pre ++ CR :: c :: post) (size pre) (line, buffer)
  = Ok (S (size pre), ([], buffer ++ [line ++ [LF]])).
Proof.
  unfold segment_body.
  rewrite at_middle, size_beyond. cbn [Ascii.eqb CR]. rewrite Ascii.eqb_refl.
  destruct (Ascii.eqb (at_ _ (S (size pre) + 1)) LF) eqn:E; [|reflexivity].
  apply Ascii.eqb_eq in E. now rewrite E.
Qed.

(** Where the segmenter and the specification agree: on a text without a
    backslash in which every carriage return is followed by a line
    feed. *)
Lemma segment_body_plain (pre : str) (c : ascii) (post line : str)
    (buffer : list str) :
  Ascii.eqb c CR = false -> Ascii.eqb c BACKSLASH = false ->
  segment_body (pre ++ c :: post) (size pre) (line, buffer)
  = Ok (size pre,
        if Ascii.eqb c LF then ([], buffer ++ [line ++ [LF]])
        else (line ++ [c], buffer)).
Proof.
  intros Hcr Hbs. unfold segment_body. rewrite at_middle, Hcr.
  destruct (Ascii.eqb_spec c LF) as [->|Hlf]; [reflexivity|].
  now rewrite Hbs.
Qed.

Lemma segment_loop_agrees (n : nat) :
  forall (rest pre line : str) (buffer : list str),
    size rest <= n ->
    crlf_only rest = true ->
    exists line' buffer',
      for_each_index (segment_body (pre ++ rest)) (size rest) (size pre)
                     (size pre) (line, buffer)
      = Ok (line', buffer')
      /\ (if negb (empty line') then buffer' ++ [line' ++ [LF]] else buffer')
         = buffer ++ spec_split_lines rest line.
Proof.
  induction n as [|n IH]; intros rest pre line buffer Hn Hrest.
  - destruct rest; [|simpl in Hn; lia]. cbn. do 2 eexists.
    split; [reflexivity|]. destruct (empty line); cbn [negb];
      [now rewrite app_nil_r|reflexivity].
  - destruct rest as [|c rest].
    { cbn. do 2 eexists. split; [reflexivity|].
      destruct (empty line); cbn [negb]; [now rewrite app_nil_r|reflexivity]. }
    cbn [crlf_only] in Hrest. cbn [Datatypes.length for_each_index].
    rewrite Nat.ltb_irrefl.
    destruct (Ascii.eqb c BACKSLASH) eqn:Hbs; [discriminate|].
    destruct (Ascii.eqb c CR) eqn:Hcr.
    + apply Ascii.eqb_eq in Hcr. subst c.
      destruct rest as [|d rest]; [discriminate|].
      apply andb_true_iff in Hrest as [Hd Hrest].
      apply Ascii.eqb_eq in Hd. subst d.
      rewrite segment_body_CR. cbn [bind Datatypes.length for_each_index].
      destruct (Nat.ltb_spec (S (size pre)) (S (S (size pre)))); [|lia].
      destruct (IH rest (pre ++ [CR; LF]) [] (buffer ++ [line ++ [LF]]))
        as (line' & buffer' & Hrun & Hout); [simpl in Hn; lia|assumption|].
      rewrite <- app_assoc, length_app in Hrun. cbn [app Datatypes.length] in Hrun.
      replace (size pre + 2) with (S (S (size pre))) in Hrun by lia.
      rewrite Hrun. exists line', buffer'. split; [reflexivity|].
      rewrite Hout. cbn [spec_split_lines]. cbn. now rewrite <- app_assoc.
    + rewrite segment_body_plain by assumption. cbn [bind].
      destruct (IH rest (pre ++ [c])
                   (if Ascii.eqb c LF then [] else line ++ [c])
                   (if Ascii.eqb c LF then buffer ++ [line ++ [LF]] else buffer))
        as (line' & buffer' & Hrun & Hout); [simpl in Hn; lia|assumption|].
      rewrite <- app_assoc, length_app in Hrun. cbn [app Datatypes.length] in Hrun.
      replace (size pre + 1) with (S (size pre)) in Hrun by lia.
      exists line', buffer'. split.
      * rewrite <- Hrun. destruct (Ascii.eqb c LF); reflexivity.
      * rewrite Hout. cbn [spec_split_lines]. rewrite Hcr.
        destruct (Ascii.eqb c LF); [now rewrite <- app_assoc|reflexivity].
Qed.

Lemma segment_agrees_without_lone_CR (text : str) :
  crlf_only text = true -> segment text = Ok (spec_split_lines text []).
Proof.
  intros H. unfold segment, for_index.
  destruct (segment_loop_agrees (size text) text [] [] [] (le_n _) H)
    as (line' & buffer' & Hrun & Hout).
  cbn [app Datatypes.length] in Hrun. rewrite Hrun. cbn [bind].
  cbn [app] in Hout. rewrite <- Hout.
  destruct (empty line'); reflexivity.
Qed.

(** C4.  The segmenter does not split at every lone carriage return as
    the specification has it: the character behind a carriage return is
    dropped, so the text [ab CR cd LF] yields the lines [ab] and [d], two
    carriage returns in a row yield one break, and [a CR b LF c] loses [b]
    and gains an empty line. *)
Theorem lone_CR_swallows_next_character :
  (forall (pre : str) (c : ascii) (post line : str) (buffer : list str),
      segment_body (pre ++ CR :: c :: post) (size pre) (line, buffer)
      = Ok (S (size pre), ([], buffer ++ [line ++ [LF]])))
  /\ segment (lit "ab" ++ [CR] ++ lit "cd" ++ [LF]) = Ok [ln "ab"; ln "d"]
  /\ spec_split_lines (lit "ab" ++ [CR] ++ lit "cd" ++ [LF]) []
     = [ln "ab"; ln "cd"]
  /\ segment (lit "ab" ++ [CR; CR] ++ lit "cd" ++ [LF]) = Ok [ln "ab"; ln "cd"]
  /\ spec_split_lines (lit "ab" ++ [CR; CR] ++ lit "cd" ++ [LF]) []
     = [ln "ab"; [LF]; ln "cd"]
  /\ segment (lit "a" ++ [CR] ++ lit "b" ++ [LF] ++ lit "c")
     = Ok [ln "a"; [LF]; ln "c"]
  /\ spec_split_lines (lit "a" ++ [CR] ++ lit "b" ++ [LF] ++ lit "c") []
     = [ln "a"; ln "b"; ln "c"].
Proof.
  split; [exact segment_body_CR|].
  repeat split; vm_compute; reflexivity.
Qed.

(** ** The round trip *)

(** C1.  Saving, loading and saving again does not reproduce the first
    file.  With the default style a value that holds a backslash is
    written with the escape [\\], which [ParseFile] rejects with an
    exception; with the carriage return as the line break the file
    [[s] CR path=dir] is read back with the key [ath], and saved as
    [[s] CR ath=dir]. *)
Theorem round_trip_fails :
  forall (cvt : CodeCvt) (fileName : str),
    (let document :=
       snd (SetValue havINIStream_new (lit "s") (lit "path") (lit "C:\dir")
                     false) in
     let x := lit "[s]" ++ [CR; LF] ++ lit "path=C:\\dir" in
     WriteFile cvt true document false BOM_None = Ok (true, x)
     /\ ParseFile cvt fileName (Some x) havINIStream_new = Throw invalid_escape)
    /\ (let fresh := mkStream [CR] ";"%char DQUOTE "="%char
                              [INISection.make (lit "hi_global")] in
        let document :=
          snd (SetValue fresh (lit "s") (lit "path") (lit "dir") false) in
        let x := lit "[s]" ++ [CR] ++ lit "path=dir" in
        let x' := lit "[s]" ++ [CR] ++ lit "ath=dir" in
        WriteFile cvt true document false BOM_None = Ok (true, x)
        /\ exists loaded,
            ParseFile cvt fileName (Some x) fresh = Ok (true, loaded, [])
            /\ WriteFile cvt true loaded false BOM_None = Ok (true, x')
            /\ x' <> x).
Proof.
  intros cvt fileName. split.
  - split; vm_compute; reflexivity.
  - split; [vm_compute; reflexivity|].
    eexists. split; [vm_compute; reflexivity|].
    split; [vm_compute; reflexivity|]. discriminate.
Qed.

(** ** ParseFile on files without escapes and closing brackets *)


Lemma Forall_firstn {A} (P : A -> Prop) (n : nat) (l : list A) :
  Forall P l -> Forall P (firstn n l).
Proof.
  revert l; induction n as [|n IH]; intros [|x l] H; simpl; auto.
  inversion H; subst. constructor; auto.
Qed.

Lemma Forall_skipn {A} (P : A -> Prop) (n : nat) (l : list A) :
  Forall P l -> Forall P (skipn n l).
Proof.
  revert l; induction n as [|n IH]; intros [|x l] H; simpl; auto.
  inversion H; subst. auto.
Qed.





Lemma Split_loop_clean (P : ascii -> Prop) (value delimiter : str) :
  Forall P value ->
  forall (fuel : nat) (end_ : option nat),
    Forall (Forall P) (havUtils.Split_loop fuel value delimiter end_).
Proof.
  intros Hv. induction fuel as [|fuel IH]; intros end_;
    cbn [havUtils.Split_loop]; [constructor|].
  destruct end_ as [e|]; [|constructor].
  destruct (havUtils.find_first_not_of value delimiter e) as [start|];
    [|constructor].
  constructor; [|apply IH].
  unfold havUtils.substr_to. destruct (havUtils.find value delimiter start).
  - now apply Forall_firstn, Forall_skipn.
  - now apply Forall_skipn.
Qed.

Lemma Split_first_clean (P : ascii -> Prop) (value delimiter : str) (i : nat) :
  Forall P value -> Forall P (nth i (havUtils.Split value delimiter) []).
Proof.
  intros Hv.
  assert (H : Forall (Forall P) (havUtils.Split value delimiter)).
  { unfold havUtils.Split.
    pose proof (Split_loop_clean P value delimiter Hv (S (size value)) (Some 0))
      as Hl.
    destruct (havUtils.Split_loop _ _ _ _); [|assumption].
    constructor; [assumption|constructor]. }
  destruct (nth_in_or_default i (havUtils.Split value delimiter) []) as [Hin| ->].
  - rewrite Forall_forall in H. now apply H.
  - constructor.
Qed.

Lemma In_skipn {A} (x : A) (n : nat) (l : list A) : In x (skipn n l) -> In x l.
Proof.
  revert l; induction n as [|n IH]; intros [|y l] H; simpl in *; auto.
Qed.

Lemma EndsWith_in (s suffix : str) (c : ascii) :
  havUtils.EndsWith s suffix = true -> In c suffix -> In c s.
Proof.
  unfold havUtils.EndsWith. intros H Hin.
  apply andb_true_iff in H as [_ H]. apply str_eqb_eq in H.
  rewrite <- H in Hin. now apply In_skipn in Hin.
Qed.

(** A full key without a closing bracket is no array key. *)
Lemma classify_key_plain (fullKey arrayIndex : str) :
  Forall (fun c => c <> "]"%char) fullKey ->
  classify_key fullKey arrayIndex = (false, false, arrayIndex).
Proof.
  intros H. rewrite Forall_forall in H. unfold classify_key.
  destruct (havUtils.EndsWith fullKey (lit "[]")) eqn:E1.
  { exfalso. apply (H "]"%char); [|reflexivity].
    apply (EndsWith_in _ _ _ E1). simpl. auto. }
  destruct (havUtils.EndsWith fullKey (lit "]")) eqn:E2.
  { exfalso. apply (H "]"%char); [|reflexivity].
    apply (EndsWith_in _ _ _ E2). simpl. auto. }
  now rewrite andb_false_r.
Qed.


Lemma place_End (s : havINISection) (entry : havINIData)
    (otherKeyName : option str) :
  exists s', INISection.place s entry End_ otherKeyName = Ok s'.
Proof. eexists. reflexivity. Qed.










(** ** The exceptions that leave ParseFile *)
















(** ** What ParseFile returns *)




(** ** Errors keep what was parsed *)

Lemma empty_false_iff {A} (l : list A) : empty l = false <-> l <> [].
Proof. destruct l; simpl; split; intros H; easy. Qed.

(** The loop over a section header changes the document only when it
    stores an inline comment, and then it reports no error and the header
    is closed. *)
Lemma section_loop_document (rest : str) :
  forall (characterIndex : nat) (newSection : bool)
         (sectionName errorMessage : str) (ini : havINIStream)
         (newSection' : bool) (sectionName' errorMessage' : str)
         (ini' : havINIStream),
    section_loop rest characterIndex newSection sectionName errorMessage ini
    = (newSection', sectionName', errorMessage', ini') ->
    ini' = ini \/ (newSection' = false /\ errorMessage' = errorMessage).
Proof.
  induction rest as [|c tl IH];
    intros ci ns sn err ini ns' sn' err' ini' H; cbn [section_loop] in H.
  - injection H as <- <- <- <-. now left.
  - destruct (Ascii.eqb c LF); [injection H as <- <- <- <-; now left|].
    destruct (Ascii.eqb c "["%char && (0 <? ci));
      [injection H as <- <- <- <-; now left|].
    destruct (Ascii.eqb c "["%char); [now apply IH in H|].
    destruct (Ascii.eqb c " "%char); [now apply IH in H|].
    destruct (Ascii.eqb c "]"%char); [now apply IH in H|].
    destruct (is_comment_char c); [|now apply IH in H].
    destruct ns; injection H as <- <- <- <-; [now left|now right].
Qed.

(** A line that ends in an error leaves the document as it was. *)
Lemma parse_line_error_keeps_document (line : str) (p p' : ParseState)
    (ini ini' : havINIStream) :
  errorMessage p = [] ->
  parse_line line p ini = Ok (p', ini') ->
  errorMessage p' <> [] ->
  ini' = ini.
Proof.
  intros Hp H Herr. unfold parse_line in H.
  destruct (empty (strip_loop line false false [])).
  { destruct (parse_empty_line p ini); cbn [bind] in H; [|discriminate].
    injection H as <- <-. contradiction. }
  set (line' := if negb (Ascii.eqb (back _) LF) then _ else _) in H.
  destruct (is_comment_char (at_ line' 0)).
  { destruct (parse_comment_line line' p ini); cbn [bind] in H; [|discriminate].
    injection H as <- <-. contradiction. }
  destruct (Ascii.eqb (at_ line' 0) "["%char).
  { unfold parse_section_line in H. rewrite Hp in H.
    destruct (section_loop line' 0 true [] [] ini)
      as [[[ns sn] err] ini1] eqn:Hloop.
    injection H as <- <-.
    apply section_loop_document in Hloop as [->|[-> ->]]; [reflexivity|].
    now contradiction Herr. }
  destruct (if newKey p then parse_key line' p 0 else (p, 0))
    as [p1 characterIndex] eqn:Hkey.
  destruct (newValue p1); [|now injection H as <- <-].
  unfold parse_value in H.
  destruct (empty (match find_equals line', find_colon line' with
                   | None, None => errorMessage p1 ++ no_delimiter_message
                   | _, _ => errorMessage p1
                   end)); [|now injection H as <- <-].
  match type of H with
  | context [value_loop ?a ?b ?c] => set (v := value_loop a b c) in H
  end.
  destruct (empty (if v_newValue v && v_stringValue v then _ else _)) eqn:He;
    [|now injection H as <- <-].
  destruct (insert_entry _ _ _ _ _ _ _ _ _ _); cbn [bind] in H; [|discriminate].
  injection H as <- <-. cbn [errorMessage] in Herr.
  destruct (if v_newValue v && v_stringValue v then _ else _);
    [now contradiction Herr|discriminate].
Qed.

Lemma parse_lines_done (pre : list str) :
  forall (rest : list str) (s0 s1 : ParseState * havINIStream) (cout : list str),
    lines_done pre s0 s1 ->
    parse_lines (pre ++ rest) (fst s0) (snd s0) cout
    = parse_lines rest (fst s1) (snd s1) cout.
Proof.
  induction pre as [|line pre IH]; intros rest s0 s1 cout H.
  - inversion H; subst. reflexivity.
  - inversion H as [|? ? p ini p' ini' ? Hp Hline Hrest]; subst.
    cbn [app parse_lines fst snd]. rewrite Hp. cbn [empty negb].
    rewrite Hline. cbn [bind]. apply (IH rest (p', ini') s1 cout Hrest).
Qed.

Lemma nth_error_app_found {A} (l l' : list A) (i : nat) (x : A) :
  nth_error l i = Some x -> nth_error (l ++ l') i = Some x.
Proof.
  intros H. rewrite nth_error_app1; [assumption|].
  apply nth_error_Some. now rewrite H.
Qed.

(** Sections appended to a document hide nothing that was there. *)
Lemma lookup_after_append (ini : havINIStream) (extra : list havINISection)
    (sectionName keyName defaultValue : str) :
  HasKey ini sectionName keyName = true ->
  HasKey (set_mData ini (mData ini ++ extra)) sectionName keyName = true
  /\ GetValue (set_mData ini (mData ini ++ extra)) sectionName keyName
              defaultValue
     = GetValue ini sectionName keyName defaultValue.
Proof.
  unfold HasKey, GetValue. cbn [mData set_mData]. intros H.
  destruct (find_if _ (mData ini)) as [i|] eqn:Hf; [|discriminate].
  rewrite (find_if_app_found _ _ extra _ Hf).
  destruct (nth_error (mData ini) i) as [s|] eqn:Hn; [|discriminate].
  rewrite (nth_error_app_found _ extra _ _ Hn). now split.
Qed.

(** C2.  When the lines [pre] are parsed without an error and the line
    [bad] behind them ends in a structural error, the lines [post] behind
    it are not read: the outcome is the document as it stood before [bad],
    followed at most by one empty section (the header that was being
    read), and the error is printed.  Every key that could be retrieved
    before [bad] can be retrieved afterwards, with the same value. *)
Theorem parse_error_keeps_entries :
  forall (pre : list str) (bad : str) (post : list str)
         (ini0 ini1 ini2 : havINIStream) (p1 p2 : ParseState)
         (cout : list str),
    lines_done pre (ParseState_init, ini0) (p1, ini1) ->
    errorMessage p1 = [] ->
    parse_line bad p1 ini1 = Ok (p2, ini2) ->
    errorMessage p2 <> [] ->
    exists extra,
      let final := set_mData ini1 (mData ini1 ++ extra) in
      parse_buffer (pre ++ bad :: post) ini0 cout
      = Ok (final, cout ++ [error_report (errorMessage p2)])
      /\ (extra = [] \/ extra = [INISection.make (sectionName p2)])
      /\ (forall sectionName keyName defaultValue,
             HasKey ini1 sectionName keyName = true ->
             HasKey final sectionName keyName = true
             /\ GetValue final sectionName keyName defaultValue
                = GetValue ini1 sectionName keyName defaultValue).
Proof.
  intros pre bad post ini0 ini1 ini2 p1 p2 cout Hpre Hp1 Hbad Herr.
  assert (Hini : ini2 = ini1)
    by (eapply parse_line_error_keeps_document; eassumption).
  subst ini2.
  exists (if negb (HasSection ini1 (sectionName p2))
          then [INISection.make (sectionName p2)] else []).
  assert (He : empty (errorMessage p2) = false) by now apply empty_false_iff.
  split; [|split].
  - unfold parse_buffer.
    pose proof (parse_lines_done pre (bad :: post) _ _ cout Hpre) as Hrun.
    cbn [fst snd] in Hrun. rewrite Hrun.
    cbn [parse_lines]. rewrite Hp1. cbn [empty negb].
    rewrite Hbad. cbn [bind].
    destruct post as [|next post]; cbn [parse_lines bind]; rewrite ?He;
      cbn [negb bind]; unfold parse_finish; cbn [errorMessage sectionName];
      rewrite ?He; cbn [negb empty];
      destruct (HasSection ini1 (sectionName p2)); cbn [negb];
      unfold push_section; rewrite ?app_nil_r;
      try reflexivity; destruct ini1; reflexivity.
  - destruct (HasSection ini1 (sectionName p2)); cbn [negb]; auto.
  - intros. now apply lookup_after_append.
Qed.

(** The statement at work: a first section, then a section whose value
    opens a quote that is never closed, then one more line. *)
Lemma parse_error_keeps_entries_witness :
  exists final,
    parse_buffer ([ln "[first]"; ln "k=1"; ln "[second]"]
                    ++ (lit "v=" ++ [DQUOTE] ++ ln "open") :: [ln "w=3"])
                 havINIStream_new []
    = Ok (final,
          [error_report
             (ln "String end tag not defined!"
              ++ ln "Value end tag (New line) was not found!")])
    /\ HasKey final (lit "first") (lit "k") = true
    /\ GetValue final (lit "first") (lit "k") [] = lit "1"
    /\ HasKey final (lit "second") (lit "w") = false.
Proof.
  destruct (parse_error_keeps_entries
              [ln "[first]"; ln "k=1"; ln "[second]"]
              (lit "v=" ++ [DQUOTE] ++ ln "open") [ln "w=3"]
              havINIStream_new
              (set_mData havINIStream_new
                 [INISection.make (lit "hi_global");
                  INISection.mkSection (lit "first") None
                    [INIData.make (lit "k") (lit "1") Value false None false]
                    0 0])
              (set_mData havINIStream_new
                 [INISection.make (lit "hi_global");
                  INISection.mkSection (lit "first") None
                    [INIData.make (lit "k") (lit "1") Value false None false]
                    0 0])
              (mkParseState [] (lit "second") (lit "k") (lit "1") [] false
                            true false false false [] false false)
              (mkParseState (ln "String end tag not defined!"
                             ++ ln "Value end tag (New line) was not found!")
                            (lit "second") (lit "v") (lit "open") [] false
                            false true false true [] false false)
              [])
    as (extra & Hrun & Hextra & Hkeep).
  - eapply lines_done_cons; [reflexivity|vm_compute; reflexivity|].
    eapply lines_done_cons; [reflexivity|vm_compute; reflexivity|].
    eapply lines_done_cons; [reflexivity|vm_compute; reflexivity|].
    apply lines_done_nil.
  - reflexivity.
  - vm_compute. reflexivity.
  - simpl. discriminate.
  - eexists. split; [exact Hrun|].
    destruct (Hkeep (lit "first") (lit "k") [] eq_refl) as [Hk Hv].
    split; [exact Hk|]. split; [exact Hv|].
    destruct Hextra as [->| ->]; reflexivity.
Defined.

(** ** The delimiter of a key/value line *)

Lemma StartsWith_nil (s : str) : havUtils.StartsWith s [] = true.
Proof. destruct s; reflexivity. Qed.

(** [find] with a needle of one character returns its first occurrence. *)
Lemma find_in_single (ch : ascii) (s : str) :
  forall off i : nat,
    havUtils.find_in [ch] s off = Some i ->
    exists k, i = off + k /\ k < size s /\ nth k s NUL = ch
              /\ forall j, j < k -> nth j s NUL <> ch.
Proof.
  induction s as [|c s IH]; intros off i H; cbn [havUtils.find_in] in H.
  - discriminate.
  - cbn [havUtils.StartsWith] in H. rewrite StartsWith_nil, andb_true_r in H.
    destruct (Ascii.eqb_spec ch c) as [->|Hne].
    + injection H as <-. exists 0. simpl. repeat split; try lia.
    + destruct (IH _ _ H) as (k & -> & Hk & Hn & Hfirst).
      exists (S k). simpl. repeat split; try lia; try assumption.
      intros [|j] Hj; [now intros ->|]. apply Hfirst. lia.
Qed.

Lemma find_single (ch : ascii) (line : str) (i : nat) :
  havUtils.find line [ch] 0 = Some i ->
  i < size line /\ at_ line i = ch /\ forall j, j < i -> at_ line j <> ch.
Proof.
  unfold havUtils.find. cbn [Nat.ltb Nat.leb skipn]. intros H.
  destruct (find_in_single _ _ _ _ H) as (k & -> & Hk & Hn & Hfirst).
  now repeat split.
Qed.

Lemma not_in_prefix (ch : ascii) (line : str) (d : nat) :
  (forall j, j < d -> at_ line j <> ch) -> ~ In ch (firstn d line).
Proof.
  intros Hfirst Hin. apply (In_nth _ _ NUL) in Hin as (j & Hj & Hn).
  rewrite length_firstn in Hj. rewrite nth_firstn in Hn.
  destruct (Nat.ltb_spec j d); [|lia]. now apply (Hfirst j).
Qed.

Lemma split_at (line : str) (d : nat) :
  d < size line -> line = firstn d line ++ at_ line d :: skipn (S d) line.
Proof.
  intros H. symmetry. apply firstn_skipn_middle. now apply nth_error_nth'.
Qed.

Lemma app_message_neq (err message : str) : err ++ message = err -> message = [].
Proof.
  intros H. apply (f_equal (@Datatypes.length ascii)) in H.
  rewrite length_app in H. destruct message; [reflexivity|simpl in H; lia].
Qed.

Lemma empty_app_message_gen (err message : str) :
  message <> [] -> empty (err ++ message) = false.
Proof. destruct err, message; easy. Qed.

(** The key loop on a key that is no array key: without an error it
    collects the text before the delimiter, the spaces dropped. *)
Lemma key_loop_plain (endCharacter : ascii) (pre : str) :
  forall (post : str) (characterIndex : nat) (keyName : str) (newKey : bool)
         (errorMessage : str) (characterIndex' : nat) (keyName' : str)
         (newKey' : bool) (errorMessage' : str),
    ~ In endCharacter pre ->
    key_loop endCharacter false (pre ++ endCharacter :: post) characterIndex
             keyName newKey errorMessage
    = (characterIndex', keyName', newKey', errorMessage') ->
    errorMessage' = errorMessage ->
    keyName' = keyName ++ without_spaces pre
    /\ characterIndex' = characterIndex + size pre.
Proof.
  induction pre as [|c pre IH];
    intros post ci kn nk err ci' kn' nk' err' Hnot H Herr;
    cbn [app key_loop] in H.
  - rewrite Ascii.eqb_refl in H. injection H as <- <- <- <-.
    simpl. rewrite app_nil_r. split; [reflexivity|lia].
  - assert (Hc : Ascii.eqb c endCharacter = false).
    { apply Ascii.eqb_neq. intros ->. apply Hnot. now left. }
    assert (Hnot' : ~ In endCharacter pre) by (intros Hin; apply Hnot; now right).
    rewrite Hc in H. cbn [negb andb] in H.
    unfold without_spaces. cbn [filter]. fold (without_spaces pre).
    destruct (Ascii.eqb c " "%char).
    { cbn [negb]. destruct (IH _ _ _ _ _ _ _ _ _ Hnot' H Herr) as [-> ->].
      split; [reflexivity|simpl; lia]. }
    cbn [negb].
    destruct (Ascii.eqb c "["%char).
    { injection H as <- <- <- <-. now apply app_message_neq in Herr. }
    destruct (Ascii.eqb c "]"%char).
    { injection H as <- <- <- <-. now apply app_message_neq in Herr. }
    destruct (is_comment_char c).
    { injection H as <- <- <- <-. now apply app_message_neq in Herr. }
    destruct (IH _ _ _ _ _ _ _ _ _ Hnot' H Herr) as [-> ->].
    rewrite <- app_assoc. split; [reflexivity|simpl; lia].
Qed.

(** The key loop on an array key: without an error it collects the text
    before the first opening bracket, or before the delimiter when no
    bracket comes first. *)
Lemma key_loop_array (endCharacter : ascii) (pre : str) :
  forall (post : str) (characterIndex : nat) (keyName : str) (newKey : bool)
         (errorMessage : str) (characterIndex' : nat) (keyName' : str)
         (newKey' : bool) (errorMessage' : str),
    ~ In endCharacter pre ->
    key_loop endCharacter true (pre ++ endCharacter :: post) characterIndex
             keyName newKey errorMessage
    = (characterIndex', keyName', newKey', errorMessage') ->
    errorMessage' = errorMessage ->
    exists k,
      k <= size pre
      /\ keyName' = keyName ++ without_spaces (firstn k pre)
      /\ ~ In "["%char (firstn k pre)
      /\ (k < size pre -> nth k pre NUL = "["%char).
Proof.
  induction pre as [|c pre IH];
    intros post ci kn nk err ci' kn' nk' err' Hnot H Herr;
    cbn [app key_loop] in H.
  - rewrite Ascii.eqb_refl in H. injection H as <- <- <- <-.
    exists 0. simpl. rewrite app_nil_r. repeat split; auto; lia.
  - assert (Hc : Ascii.eqb c endCharacter = false).
    { apply Ascii.eqb_neq. intros ->. apply Hnot. now left. }
    assert (Hnot' : ~ In endCharacter pre) by (intros Hin; apply Hnot; now right).
    rewrite Hc in H. cbn [negb andb] in H.
    destruct (Ascii.eqb c " "%char) eqn:Hsp.
    { destruct (IH _ _ _ _ _ _ _ _ _ Hnot' H Herr) as (k & Hk & -> & Hin & Hn).
      exists (S k). cbn [firstn Datatypes.length nth].
      unfold without_spaces. cbn [filter]. rewrite Hsp. cbn [negb].
      fold (without_spaces (firstn k pre)).
      apply Ascii.eqb_eq in Hsp. subst c.
      repeat split; try lia; auto.
      - intros [Hb|Hb]; [discriminate|contradiction].
      - intros Hlt. apply Hn. lia. }
    destruct (Ascii.eqb_spec c "["%char) as [->|Hbr].
    { injection H as <- <- <- <-. exists 0. simpl. rewrite app_nil_r.
      repeat split; auto; lia. }
    destruct (is_comment_char c).
    { injection H as <- <- <- <-. now apply app_message_neq in Herr. }
    destruct (IH _ _ _ _ _ _ _ _ _ Hnot' H Herr) as (k & Hk & -> & Hin & Hn).
    exists (S k). cbn [firstn Datatypes.length nth].
    unfold without_spaces. cbn [filter]. rewrite Hsp. cbn [negb].
    fold (without_spaces (firstn k pre)). rewrite <- app_assoc.
    repeat split; try lia; auto.
    + intros [Hb|Hb]; [now apply Hbr|contradiction].
    + intros Hlt. apply Hn. lia.
Qed.

Lemma value_char_facts (c : ascii) :
  value_char c = true ->
  is_comment_char c = false /\ is_quote_char c = false
  /\ Ascii.eqb c LF = false /\ Ascii.eqb c " "%char = false
  /\ Ascii.eqb c "["%char = false /\ Ascii.eqb c "]"%char = false.
Proof.
  unfold value_char. intros H. apply negb_true_iff in H.
  repeat (apply orb_false_iff in H; destruct H as [H ?]).
  repeat (split; [assumption|]); assumption.
Qed.

Lemma solid_char_facts (c : ascii) :
  solid_char c = true ->
  isspace c = false /\ is_quote_char c = false /\ is_comment_char c = false.
Proof.
  unfold solid_char. intros H. apply negb_true_iff in H.
  apply orb_false_iff in H. destruct H as [H Hcm].
  apply orb_false_iff in H. destruct H as [Hsp Hqt].
  now repeat split.
Qed.

Lemma strip_loop_plain (line : str) :
  forall tmpLine : str,
    Forall (fun c => is_comment_char c = false /\ is_quote_char c = false)
           line ->
    strip_loop line false false tmpLine
    = tmpLine ++ filter (fun c => negb (isspace c)) line.
Proof.
  induction line as [|c line IH]; intros tmpLine Hall; cbn [strip_loop filter].
  - now rewrite app_nil_r.
  - inversion Hall as [|? ? [Hc Hq] Hrest]; subst.
    rewrite Hc, Hq. cbn [orb negb andb].
    destruct (isspace c); cbn [negb].
    + now apply IH.
    + rewrite IH by assumption. now rewrite <- app_assoc.
Qed.

(** The removal of white space on a line of solid characters that ends
    in a line feed takes the line feed away and nothing else. *)
Lemma strip_loop_solid (body : str) :
  Forall (fun ch => solid_char ch = true) body ->
  strip_loop (body ++ [LF]) false false [] = body.
Proof.
  intros Hbody. rewrite strip_loop_plain.
  - cbn [app]. rewrite filter_app. cbn [filter].
    change (isspace LF) with true. cbn [negb]. rewrite app_nil_r.
    induction Hbody as [|ch body Hch Hbody IH]; [reflexivity|].
    cbn [filter]. destruct (solid_char_facts ch Hch) as (-> & _).
    cbn [negb]. now rewrite IH.
  - apply Forall_app. split.
    + eapply Forall_impl; [|exact Hbody]. intros ch Hch.
      destruct (solid_char_facts ch Hch) as (_ & H1 & H2). now split.
    + constructor; [now split|constructor].
Qed.

Lemma back_solid (body : str) :
  body <> [] ->
  Forall (fun ch => solid_char ch = true) body ->
  Ascii.eqb (back body) LF = false.
Proof.
  intros Hne Hbody. destruct (exists_last Hne) as (l & x & ->).
  unfold back. rewrite last_last.
  apply Forall_app in Hbody as [_ Hx]. inversion Hx as [|? ? Hsolid _]; subst.
  destruct (solid_char_facts x Hsolid) as (Hsp & _).
  apply Ascii.eqb_neq. intros ->. discriminate.
Qed.

(** The value loop on a text of printable characters without space,
    quote, comment sign and bracket, ended by a line feed: the text is
    the value, whatever the number of quote pairs counted on the line. *)
Lemma value_loop_text (allQuoteCharacters : nat) (text post : str) :
  forall (collected : str) (newValue addQuotes : bool)
         (currentQuoteCharacter : nat) (hasInlineComment : bool)
         (inlineComment errorMessage : str),
    Forall (fun c => value_char c = true) text ->
    value_loop allQuoteCharacters (text ++ LF :: post)
               (mkValueState collected false newValue addQuotes
                             currentQuoteCharacter hasInlineComment
                             inlineComment errorMessage)
    = mkValueState (collected ++ text) false
                   (if empty text then newValue else false) addQuotes
                   currentQuoteCharacter hasInlineComment inlineComment
                   errorMessage.
Proof.
  induction text as [|c text IH]; intros collected nv aq cq hic ic err Hv.
  - cbn. now rewrite app_nil_r.
  - inversion Hv as [|? ? Hc Hrest]; subst.
    destruct (value_char_facts c Hc) as (Hcm & Hqt & Hlf & Hsp & Hob & Hcb).
    cbn [app value_loop]. rewrite Hlf, Hsp, Hob, Hcb, Hqt, Hcm.
    cbn [negb andb].
    assert (Hnext : forall nv',
               value_loop allQuoteCharacters (text ++ LF :: post)
                 (mkValueState (collected ++ [c]) false nv' aq cq hic ic err)
               = mkValueState (collected ++ c :: text) false
                              (if empty text then nv' else false) aq cq hic
                              ic err).
    { intros nv'. rewrite IH by assumption. now rewrite <- app_assoc. }
    assert (Hfront : Ascii.eqb (front (text ++ LF :: post)) LF = empty text).
    { destruct text as [|c' text]; [reflexivity|].
      inversion Hrest as [|? ? Hc' _]; subst.
      destruct (value_char_facts c' Hc') as (_ & _ & Hlf' & _).
      cbn [app front hd empty]. exact Hlf'. }
    rewrite Hfront. cbn [andb]. rewrite andb_false_r.
    destruct (2 <? allQuoteCharacters); rewrite Hnext; cbn [empty];
      now destruct (empty text).
Qed.

(** C6.  On a line that holds both [=] and [:], the delimiter of the key
    is the one of the two that occurs first: no delimiter stands before
    it, [parse_key] collects the key from the text before it (the text as
    a whole, spaces dropped and letters folded, or its part before the
    opening bracket for an array key), and [parse_value] reads the value
    from the character behind it: the value it leaves in the state is what
    the value loop collects from there, and a text without space, quote,
    comment sign and bracket that stands behind the delimiter is stored as
    the value as a whole, a later delimiter included.  So does
    [parse_line] on a line without white space, quote and comment sign
    that does not begin with a bracket. *)
Theorem earlier_delimiter_wins :
  forall (line : str) (p : ParseState) (e c : nat),
    find_equals line = Some e ->
    find_colon line = Some c ->
    let d := Nat.min e c in
    let p' := fst (parse_key line p 0) in
    d < size line
    /\ at_ line d = end_character (Some e) (Some c)
    /\ (at_ line d = "="%char \/ at_ line d = ":"%char)
    /\ (forall i, i < d ->
                  at_ line i <> "="%char /\ at_ line i <> ":"%char)
    /\ (errorMessage p' = [] -> isArrayKey p' = false ->
        keyName p' = havUtils.ToLower (without_spaces (firstn d line)))
    /\ (errorMessage p' = [] -> isArrayKey p' = true ->
        exists k,
          k <= d
          /\ keyName p' = havUtils.ToLower (without_spaces (firstn k line))
          /\ ~ In "["%char (firstn k line)
          /\ (k < d -> at_ line k = "["%char))
    /\ (errorMessage p' = [] -> newValue p' = true)
    /\ (forall characterIndex,
           value_text line characterIndex = skipn (S d) line)
    /\ (forall (characterIndex : nat) (ini ini2 : havINIStream)
               (p2 : ParseState),
           errorMessage p' = [] ->
           parse_value line p' characterIndex ini = Ok (p2, ini2) ->
           value p2
           = v_value
               (value_loop (quote_count_loop (size line) line 0 0)
                           (skipn (S d) line)
                           (mkValueState [] (stringValue p') (newValue p')
                                         false 0 (hasInlineComment p')
                                         (inlineComment p') [])))
    /\ (forall (characterIndex : nat) (ini : havINIStream) (text post : str),
           errorMessage p' = [] ->
           stringValue p' = false ->
           skipn (S d) line = text ++ LF :: post ->
           Forall (fun ch => value_char ch = true) text ->
           parse_value line p' characterIndex ini
           = (ini' <- insert_entry ini (sectionName p') (keyName p') text
                                   false (hasInlineComment p')
                                   (if hasInlineComment p'
                                    then inlineComment p' else [])
                                   (arrayIndex p') (isArrayKey p')
                                   (hasArrayIndex p') ;;
              Ok (mkParseState [] (sectionName p') (keyName p') text []
                               (newSection p') true false false false
                               (arrayIndex p') (isArrayKey p')
                               (hasArrayIndex p'),
                  ini')))
    /\ (forall (ini : havINIStream) (body text : str),
           line = body ++ [LF] ->
           Forall (fun ch => solid_char ch = true) body ->
           at_ line 0 <> "["%char ->
           newKey p = true ->
           errorMessage p' = [] ->
           stringValue p' = false ->
           skipn (S d) line = text ++ [LF] ->
           Forall (fun ch => value_char ch = true) text ->
           parse_line line p ini
           = (ini' <- insert_entry ini (sectionName p') (keyName p') text
                                   false (hasInlineComment p')
                                   (if hasInlineComment p'
                                    then inlineComment p' else [])
                                   (arrayIndex p') (isArrayKey p')
                                   (hasArrayIndex p') ;;
              Ok (mkParseState [] (sectionName p') (keyName p') text []
                               (newSection p') true false false false
                               (arrayIndex p') (isArrayKey p')
                               (hasArrayIndex p'),
                  ini'))).
Proof.
  intros line p e c He Hc d p'.
  destruct (find_single _ _ _ He) as (He1 & He2 & He3).
  destruct (find_single _ _ _ Hc) as (Hc1 & Hc2 & Hc3).
  assert (Hne : e <> c).
  { intros ->. rewrite He2 in Hc2. discriminate. }
  assert (Hd : d < size line) by (unfold d; lia).
  assert (Hend : at_ line d = end_character (Some e) (Some c)).
  { unfold d, end_character. destruct (Nat.ltb_spec c e).
    - now rewrite Nat.min_r by lia.
    - now rewrite Nat.min_l by lia. }
  assert (Hfirst : forall i, i < d ->
                             at_ line i <> "="%char /\ at_ line i <> ":"%char).
  { intros i Hi. unfold d in Hi. split; [apply He3|apply Hc3]; lia. }
  assert (Hnot : ~ In (end_character (Some e) (Some c)) (firstn d line)).
  { apply not_in_prefix. intros j Hj. unfold end_character.
    destruct (c <? e); now apply Hfirst. }
  assert (Hsplit : line = firstn d line
                          ++ end_character (Some e) (Some c) :: skipn (S d) line).
  { rewrite <- Hend. now apply split_at. }
  (* what [parse_key] does *)
  assert (Hkey :
    errorMessage p' = [] ->
    newValue p' = true
    /\ exists ci kn nk,
         key_loop (end_character (Some e) (Some c)) (isArrayKey p') line 0 []
                  (newKey p) []
         = (ci, kn, nk, [])
         /\ keyName p' = havUtils.ToLower kn).
  { unfold p', parse_key. rewrite He, Hc.
    destruct (empty (errorMessage p)) eqn:Hp.
    2:{ cbn [fst errorMessage]. intros Hp'. rewrite Hp' in Hp. discriminate. }
    assert (Hp0 : errorMessage p = []) by (destruct (errorMessage p); easy).
    destruct (classify_key _ _) as [[isArr hasIdx] arrIdx].
    cbn [skipn]. rewrite Hp0.
    destruct (key_loop _ isArr line 0 [] (newKey p) [])
      as [[[ci kn] nk] err] eqn:Hloop.
    destruct nk.
    { rewrite empty_app_message_gen by discriminate.
      cbn [fst errorMessage]. intros Hp'.
      apply app_eq_nil in Hp' as [_ Hp']. discriminate. }
    destruct (empty err) eqn:Herr; cbn [fst errorMessage]; intros Hp'.
    - cbn [newValue isArrayKey keyName]. split; [reflexivity|].
      exists ci, kn, false. rewrite Hloop, Hp'. now split.
    - rewrite Hp' in Herr. discriminate. }
  split; [assumption|]. split; [assumption|]. split.
  { rewrite Hend. unfold end_character. destruct (c <? e); auto. }
  assert (Hstart : forall ci,
             value_text line ci = skipn (S d) line).
  { intros ci. unfold value_text, value_start. rewrite He, Hc. f_equal.
    unfold d. destruct (Nat.ltb_spec c e); lia. }
  assert (Hvalue :
    forall (ci : nat) (ini : havINIStream) (text post : str),
      errorMessage p' = [] ->
      stringValue p' = false ->
      skipn (S d) line = text ++ LF :: post ->
      Forall (fun ch => value_char ch = true) text ->
      parse_value line p' ci ini
      = (ini' <- insert_entry ini (sectionName p') (keyName p') text
                              false (hasInlineComment p')
                              (if hasInlineComment p'
                               then inlineComment p' else [])
                              (arrayIndex p') (isArrayKey p')
                              (hasArrayIndex p') ;;
         Ok (mkParseState [] (sectionName p') (keyName p') text []
                          (newSection p') true false false false
                          (arrayIndex p') (isArrayKey p')
                          (hasArrayIndex p'),
             ini'))).
  { intros ci ini text post Hp' Hsv Htext Hall. unfold parse_value.
    rewrite He. cbv iota. rewrite Hp', Hstart, Htext, Hsv. cbn [empty].
    rewrite (value_loop_text _ text post [] _ false 0 _ _ [] Hall).
    cbn [v_newValue v_stringValue v_errorMessage v_value v_addQuotes
           v_hasInlineComment v_inlineComment app].
    rewrite andb_false_r. cbn [empty]. reflexivity. }
  split; [assumption|].
  split; [|split; [|split; [|split; [|split; [|split]]]]].
  - intros Hp' Harr. destruct (Hkey Hp') as (_ & ci & kn & nk & Hloop & ->).
    rewrite Harr, Hsplit in Hloop.
    apply key_loop_plain in Hloop as [-> _]; auto.
  - intros Hp' Harr. destruct (Hkey Hp') as (_ & ci & kn & nk & Hloop & ->).
    rewrite Harr, Hsplit in Hloop.
    apply key_loop_array in Hloop as (k & Hk & -> & Hin & Hn); auto.
    rewrite length_firstn in Hk, Hn.
    assert (Hkd : k <= d) by lia.
    exists k. rewrite firstn_firstn in Hin |- *. rewrite Nat.min_l in * by lia.
    repeat split; auto.
    intros Hlt. specialize (Hn ltac:(lia)). rewrite nth_firstn in Hn.
    destruct (Nat.ltb_spec k d); [assumption|lia].
  - intros Hp'. now destruct (Hkey Hp').
  - exact Hstart.
  - intros ci ini ini2 p2 Hp' Hrun. unfold parse_value in Hrun.
    rewrite He in Hrun. cbv iota in Hrun.
    rewrite Hp', Hstart in Hrun. cbn [empty] in Hrun.
    match type of Hrun with
    | context [value_loop ?a ?b ?s] => set (v := value_loop a b s) in *
    end.
    destruct (empty (if v_newValue v && v_stringValue v then _ else _)).
    + destruct (insert_entry _ _ _ _ _ _ _ _ _ _) as [ini'|ex];
        cbn [bind] in Hrun; [|discriminate].
      now injection Hrun as <- _.
    + now injection Hrun as <- _.
  - exact Hvalue.
  - intros ini body text Hline Hbody Hopen Hnk Hp' Hsv Htext Hall.
    assert (Hbne : body <> []).
    { intros ->. pose proof Hd as Hd'. rewrite Hline in Hd'.
      cbn [app size Datatypes.length] in Hd'.
      assert (Hd0 : d = 0) by lia.
      assert (Hat : at_ line d = LF) by (rewrite Hline, Hd0; reflexivity).
      rewrite Hat in Hend. clear - Hend.
      unfold end_character in Hend. destruct (c <? e); discriminate. }
    assert (Hat0 : solid_char (at_ line 0) = true).
    { rewrite Hline. destruct body as [|c0 body]; [contradiction|].
      now inversion Hbody. }
    destruct (solid_char_facts _ Hat0) as (_ & _ & Hcm0).
    assert (Hstrip : strip_loop line false false [] = body)
      by (rewrite Hline; now apply strip_loop_solid).
    unfold parse_line. cbv zeta. rewrite !Hstrip.
    replace (empty body) with false by (now destruct body).
    rewrite (back_solid body Hbne Hbody). cbn [negb]. rewrite <- Hline.
    rewrite Hcm0.
    replace (Ascii.eqb (at_ line 0) "["%char) with false
      by (symmetry; now apply Ascii.eqb_neq).
    rewrite Hnk, (surjective_pairing (parse_key line p 0)).
    fold p'. destruct (Hkey Hp') as [Hnv _]. rewrite Hnv.
    now apply (Hvalue _ ini text []).
Qed.

(** The statement at work on the line [Name:a=b]: the colon comes first,
    the key is [name], and the value stored in a new document is
    [a=b]. *)
Lemma earlier_delimiter_wins_witness :
  at_ (ln "Name:a=b") 4 = ":"%char
  /\ keyName (fst (parse_key (ln "Name:a=b") ParseState_init 0)) = lit "name"
  /\ exists ini',
       parse_line (ln "Name:a=b") ParseState_init havINIStream_new
       = Ok (mkParseState [] (lit "hi_global") (lit "name") (lit "a=b") []
                          false true false false false [] false false,
             ini')
       /\ parse_value (ln "Name:a=b")
                      (fst (parse_key (ln "Name:a=b") ParseState_init 0))
                      (snd (parse_key (ln "Name:a=b") ParseState_init 0))
                      havINIStream_new
          = Ok (mkParseState [] (lit "hi_global") (lit "name") (lit "a=b") []
                             false true false false false [] false false,
                ini')
       /\ GetValue ini' (lit "hi_global") (lit "name") [] = lit "a=b".
Proof.
  destruct (earlier_delimiter_wins (ln "Name:a=b") ParseState_init 6 4
                                   eq_refl eq_refl)
    as (_ & H2 & _ & _ & H5 & _ & _ & _ & _ & H10 & H11).
  split; [exact H2|]. split; [exact (H5 eq_refl eq_refl)|].
  eexists. split; [|split].
  - rewrite (H11 havINIStream_new (lit "Name:a=b") (lit "a=b") eq_refl).
    + vm_compute. reflexivity.
    + repeat (constructor; [reflexivity|]). constructor.
    + discriminate.
    + reflexivity.
    + reflexivity.
    + reflexivity.
    + reflexivity.
    + repeat (constructor; [reflexivity|]). constructor.
  - rewrite (H10 (snd (parse_key (ln "Name:a=b") ParseState_init 0))
                 havINIStream_new (lit "a=b") [] eq_refl eq_refl eq_refl).
    + vm_compute. reflexivity.
    + repeat (constructor; [reflexivity|]). constructor.
  - vm_compute. reflexivity.
Defined.

(** * Further properties of the code *)

(** * Further properties of the document model *)

(** ** Lookups under [modify] *)

Lemma find_if_modify {A} (p : A -> bool) (f : A -> A) (l : list A) (i : nat) :
  (forall x, p (f x) = p x) -> find_if p (modify i f l) = find_if p l.
Proof.
  intros Hf. revert i; induction l as [|x l IH]; intros [|i]; simpl;
    try reflexivity.
  - now rewrite Hf.
  - now rewrite IH.
Qed.

Lemma nth_error_modify_same {A} (f : A -> A) (l : list A) (i : nat) (x : A) :
  nth_error l i = Some x -> nth_error (modify i f l) i = Some (f x).
Proof.
  revert i; induction l as [|y l IH]; intros [|i] H; simpl in *;
    try discriminate.
  - now injection H as ->.
  - now apply IH.
Qed.

Lemma nth_error_modify_other {A} (f : A -> A) (l : list A) (i j : nat) :
  i <> j -> nth_error (modify i f l) j = nth_error l j.
Proof.
  revert i j; induction l as [|y l IH]; intros [|i] [|j] H; simpl;
    try reflexivity; try contradiction.
  apply IH. lia.
Qed.

Lemma length_modify {A} (f : A -> A) (l : list A) (i : nat) :
  List.length (modify i f l) = List.length l.
Proof.
  revert i; induction l as [|y l IH]; intros [|i]; simpl; auto.
Qed.

Lemma find_if_app_none {A} (p : A -> bool) (l : list A) (x : A) :
  find_if p l = None -> p x = false -> find_if p (l ++ [x]) = None.
Proof.
  induction l as [|y l IH]; simpl; intros Hn Hx.
  - now rewrite Hx.
  - destruct (p y); [discriminate|].
    destruct (find_if p l); [discriminate|]. now rewrite IH.
Qed.

Lemma find_if_first {A} (p : A -> bool) (l : list A) (i j : nat) (x : A) :
  find_if p l = Some i -> nth_error l j = Some x -> p x = true -> i <= j.
Proof.
  revert i j; induction l as [|y l IH]; intros i j Hf Hn Hp; simpl in *;
    [discriminate|].
  destruct (p y) eqn:Hy.
  - injection Hf as <-. lia.
  - destruct j as [|j]; simpl in Hn.
    + injection Hn as ->. congruence.
    + destruct (find_if p l) as [k|]; [|discriminate].
      injection Hf as <-. specialize (IH k j eq_refl Hn Hp). lia.
Qed.

Lemma find_if_none {A} (p : A -> bool) (l : list A) :
  find_if p l = None <-> forall x, In x l -> p x = false.
Proof.
  induction l as [|y l IH]; simpl.
  - split; [intros _ x []|reflexivity].
  - destruct (p y) eqn:Hy.
    + split; [discriminate|]. intros H. specialize (H y (or_introl eq_refl)).
      congruence.
    + destruct (find_if p l).
      * split; [discriminate|]. intros H.
        assert (Some n = None) by (apply IH; intros x Hx; apply H; now right).
        discriminate.
      * split; [|reflexivity]. intros _ x [<-|Hx]; [assumption|].
        now apply IH.
Qed.

Lemma name_is_set_pairs (name : str) (s : havINISection)
    (pairs : list havINIData) :
  name_is name (INISection.set_pairs s pairs) = name_is name s.
Proof. reflexivity. Qed.

Lemma name_is_SetKeyValuePair (name : str) (s : havINISection)
    (key value : str) (addQuotes : bool) :
  name_is name (INISection.SetKeyValuePair s key value addQuotes)
  = name_is name s.
Proof.
  unfold INISection.SetKeyValuePair. now destruct (find_if _ _).
Qed.

(** ** First matches *)

Lemma find_if_find {A} (p : A -> bool) (l : list A) :
  match find_if p l with
  | Some i => nth_error l i
  | None => None
  end = find p l.
Proof.
  induction l as [|x l IH]; simpl; [reflexivity|].
  destruct (p x); [reflexivity|].
  destruct (find_if p l); simpl; exact IH.
Qed.

Lemma find_modify_first {A} (p : A -> bool) (f : A -> A) (l : list A) (i : nat) :
  find_if p l = Some i -> (forall x, p (f x) = p x) ->
  find p (modify i f l) = option_map f (find p l).
Proof.
  intros Hi Hf. rewrite <- !find_if_find, find_if_modify, Hi by assumption.
  destruct (find_if_holds _ _ _ Hi) as (x & Hn & _).
  now rewrite (nth_error_modify_same _ _ _ _ Hn), Hn.
Qed.

Lemma find_modify_miss {A} (p : A -> bool) (f : A -> A) (l : list A) (i : nat) :
  (forall x, p (f x) = p x) ->
  (forall x, nth_error l i = Some x -> p x = false) ->
  find p (modify i f l) = find p l.
Proof.
  intros Hf Hi. rewrite <- !find_if_find, find_if_modify by assumption.
  destruct (find_if p l) as [j|] eqn:Hj; [|reflexivity].
  apply nth_error_modify_other. intros ->.
  destruct (find_if_holds _ _ _ Hj) as (x & Hn & Hp).
  rewrite (Hi x Hn) in Hp. discriminate.
Qed.

Lemma find_app_last {A} (p : A -> bool) (l : list A) (x : A) :
  find p (l ++ [x])
  = match find p l with
    | Some y => Some y
    | None => if p x then Some x else None
    end.
Proof.
  induction l as [|y l IH]; simpl; [reflexivity|].
  destruct (p y); [reflexivity|exact IH].
Qed.

Lemma find_erase_miss {A} (p : A -> bool) (l : list A) (i : nat) :
  (forall x, nth_error l i = Some x -> p x = false) ->
  find p (INIData.erase_at i l) = find p l.
Proof.
  unfold INIData.erase_at. revert i; induction l as [|y l IH]; intros [|i] H;
    simpl; try reflexivity.
  - now rewrite (H y eq_refl).
  - destruct (p y); [reflexivity|]. apply IH. intros x Hx. now apply H.
Qed.

Lemma find_none_iff {A} (p : A -> bool) (l : list A) :
  find p l = None <-> find_if p l = None.
Proof.
  rewrite <- find_if_find. destruct (find_if p l) as [i|] eqn:Hi.
  - destruct (find_if_holds _ _ _ Hi) as (x & -> & _). split; discriminate.
  - split; reflexivity.
Qed.

Lemma key_is_eq (key : str) (d : havINIData) :
  INIData.key_is key d = true <-> INIData.mKey d = key.
Proof. unfold INIData.key_is, INIData.GetKey. apply str_eqb_eq. Qed.

Lemma name_is_eq (name : str) (s : havINISection) :
  name_is name s = true <-> INISection.mSectionName s = name.
Proof. unfold name_is, INISection.GetSectionName. apply str_eqb_eq. Qed.

Lemma str_eqb_neq (a b : str) : str_eqb a b = false <-> a <> b.
Proof.
  split.
  - intros H E. apply str_eqb_eq in E. congruence.
  - intros H. destruct (str_eqb a b) eqn:E; [|reflexivity].
    apply str_eqb_eq in E. contradiction.
Qed.

(** ** The queries in terms of first matches *)

Lemma GetValue_entry_of (ini : havINIStream)
    (sectionName keyName defaultValue : str) :
  GetValue ini sectionName keyName defaultValue
  = match entry_of ini (havUtils.ToLower sectionName)
                   (havUtils.ToLower keyName) with
    | Some e => INIData.mValue e
    | None => defaultValue
    end.
Proof.
  unfold GetValue, entry_of, section_named, entry_keyed,
    INISection.GetKeyValuePair.
  rewrite !ToLower_idem, <- find_if_find.
  destruct (find_if _ (mData ini)) as [i|]; [|reflexivity].
  destruct (nth_error (mData ini) i) as [s|]; [|reflexivity].
  rewrite <- find_if_find. unfold INISection.GetKeyValuePairs.
  destruct (find_if _ (INISection.mKeyValuePairs s)) as [j|]; [|reflexivity].
  now destruct (nth_error _ j).
Qed.

Lemma HasKey_entry_of (ini : havINIStream) (sectionName keyName : str) :
  HasKey ini sectionName keyName
  = match entry_of ini (havUtils.ToLower sectionName)
                   (havUtils.ToLower keyName) with
    | Some _ => true
    | None => false
    end.
Proof.
  unfold HasKey, entry_of, section_named, entry_keyed, INISection.HasKey.
  rewrite !ToLower_idem, <- find_if_find.
  destruct (find_if _ (mData ini)) as [i|]; [|reflexivity].
  destruct (nth_error (mData ini) i) as [s|]; [|reflexivity].
  rewrite <- find_if_find.
  destruct (find_if _ (INISection.mKeyValuePairs s)) as [j|] eqn:Hj;
    [|reflexivity].
  destruct (find_if_holds _ _ _ Hj) as (x & -> & _). reflexivity.
Qed.

Lemma HasSection_section_named (ini : havINIStream) (sectionName : str) :
  HasSection ini sectionName
  = match section_named ini (havUtils.ToLower sectionName) with
    | Some _ => true
    | None => false
    end.
Proof.
  unfold HasSection, section_named. rewrite <- find_if_find.
  destruct (find_if _ (mData ini)) as [i|] eqn:Hi; [|reflexivity].
  destruct (find_if_holds _ _ _ Hi) as (x & -> & _). reflexivity.
Qed.

(** ** Changing one section of a document *)

Lemma section_named_with_section (ini : havINIStream) (i : nat)
    (f : havINISection -> havINISection) (name name' : str) :
  find_if (name_is name) (mData ini) = Some i ->
  (forall s, INISection.mSectionName (f s) = INISection.mSectionName s) ->
  section_named (with_section ini i f) name'
  = if str_eqb name' name then option_map f (section_named ini name)
    else section_named ini name'.
Proof.
  intros Hi Hf. unfold section_named, with_section. cbn [mData set_mData].
  assert (Hp : forall n s, name_is n (f s) = name_is n s)
    by (intros n s; unfold name_is, INISection.GetSectionName; now rewrite Hf).
  destruct (str_eqb name' name) eqn:E.
  - apply str_eqb_eq in E. subst name'. now apply find_modify_first.
  - apply find_modify_miss; [apply Hp|].
    intros s Hs. destruct (find_if_holds _ _ _ Hi) as (s0 & Hs0 & Hn).
    rewrite Hs in Hs0. injection Hs0 as <-.
    apply name_is_eq in Hn. unfold name_is, INISection.GetSectionName.
    rewrite Hn. apply str_eqb_neq. apply str_eqb_neq in E. congruence.
Qed.

Lemma entry_keyed_modify (s : havINISection) (j : nat)
    (g : havINIData -> havINIData) (key key' : str) :
  find_if (INIData.key_is key) (INISection.mKeyValuePairs s) = Some j ->
  (forall d, INIData.mKey (g d) = INIData.mKey d) ->
  entry_keyed (INISection.set_pairs s (modify j g (INISection.mKeyValuePairs s)))
              key'
  = if str_eqb key' key then option_map g (entry_keyed s key)
    else entry_keyed s key'.
Proof.
  intros Hj Hg. unfold entry_keyed.
  cbn [INISection.mKeyValuePairs INISection.set_pairs].
  assert (Hp : forall k d, INIData.key_is k (g d) = INIData.key_is k d)
    by (intros k d; unfold INIData.key_is, INIData.GetKey; now rewrite Hg).
  destruct (str_eqb key' key) eqn:E.
  - apply str_eqb_eq in E. subst key'. now apply find_modify_first.
  - apply find_modify_miss; [apply Hp|].
    intros d Hd. destruct (find_if_holds _ _ _ Hj) as (d0 & Hd0 & Hk).
    rewrite Hd in Hd0. injection Hd0 as <-.
    apply key_is_eq in Hk. unfold INIData.key_is, INIData.GetKey.
    rewrite Hk. apply str_eqb_neq. apply str_eqb_neq in E. congruence.
Qed.

Lemma entry_keyed_append (s : havINISection) (d : havINIData) (key' : str) :
  entry_keyed s (INIData.mKey d) = None ->
  entry_keyed (INISection.set_pairs s (INISection.mKeyValuePairs s ++ [d])) key'
  = if str_eqb key' (INIData.mKey d) then Some d else entry_keyed s key'.
Proof.
  intros Hn. unfold entry_keyed in *.
  cbn [INISection.mKeyValuePairs INISection.set_pairs].
  rewrite find_app_last.
  replace (INIData.key_is key' d) with (str_eqb (INIData.mKey d) key')
    by reflexivity.
  destruct (str_eqb key' (INIData.mKey d)) eqn:E.
  - apply str_eqb_eq in E. subst key'. rewrite Hn. now rewrite str_eqb_refl.
  - assert (E' : str_eqb (INIData.mKey d) key' = false)
      by (apply str_eqb_neq; apply str_eqb_neq in E; congruence).
    rewrite E'. now destruct (find (INIData.key_is key') _).
Qed.

(** What [SetKeyValuePair] does to the first matches of a section. *)
Lemma entry_keyed_SetKeyValuePair (s : havINISection) (key value key' : str)
    (addQuotes : bool) :
  havUtils.ToLower key = key ->
  entry_keyed (INISection.SetKeyValuePair s key value addQuotes) key'
  = if str_eqb key' key then
      Some (match entry_keyed s key with
            | Some d => INIData.SetAddQuotes (INIData.SetValue d value) addQuotes
            | None => INIData.make key value Value addQuotes None false
            end)
    else entry_keyed s key'.
Proof.
  intros Hkey. unfold INISection.SetKeyValuePair. rewrite Hkey.
  destruct (find_if (INIData.key_is key) (INISection.mKeyValuePairs s))
    as [j|] eqn:Hj.
  - rewrite (entry_keyed_modify s j _ key key' Hj) by reflexivity.
    destruct (str_eqb key' key); [|reflexivity].
    unfold entry_keyed. rewrite <- find_if_find, Hj.
    destruct (find_if_holds _ _ _ Hj) as (d & -> & _). reflexivity.
  - assert (Hn : entry_keyed s key = None)
      by (unfold entry_keyed; now apply find_none_iff).
    rewrite (entry_keyed_append s (INIData.make key value Value addQuotes None false))
      by exact Hn.
    cbn [INIData.mKey INIData.make]. now rewrite Hn.
Qed.

(** What [SetValue] does to the first matches of a document. *)
Lemma entry_of_SetValue (ini : havINIStream) (sectionName keyName value : str)
    (addQuotes : bool) (name' key' : str) :
  let section := havUtils.ToLower sectionName in
  let key := havUtils.ToLower keyName in
  entry_of (snd (SetValue ini sectionName keyName value addQuotes)) name' key'
  = if str_eqb name' section && str_eqb key' key then
      Some (match entry_of ini section key with
            | Some d => INIData.SetAddQuotes (INIData.SetValue d value) addQuotes
            | None => INIData.make key value Value addQuotes None false
            end)
    else entry_of ini name' key'.
Proof.
  intros section key.
  assert (Hkey : havUtils.ToLower key = key) by apply ToLower_idem.
  assert (Hsame : snd (SetValue ini sectionName keyName value addQuotes)
                  = match find_if (name_is section) (mData ini) with
                    | Some i =>
                        with_section ini i
                          (fun s => INISection.SetKeyValuePair s key value addQuotes)
                    | None =>
                        set_mData ini
                          (mData ini
                           ++ [INISection.SetKeyValuePair (INISection.make section)
                                 key value addQuotes])
                    end).
  { unfold SetValue. fold section. fold key.
    destruct (find_if (name_is section) (mData ini)) as [i|] eqn:Hs;
      [|reflexivity].
    destruct (find_if_holds _ _ _ Hs) as (s & Hn & _). rewrite Hn.
    unfold INISection.GetKeyValuePair. rewrite Hkey.
    destruct (find_if (INIData.key_is key) (INISection.mKeyValuePairs s))
      as [j|] eqn:Hk; cbn [snd]; [|reflexivity].
    unfold with_section. f_equal. apply (modify_ext_at _ _ _ _ s Hn).
    unfold INISection.SetKeyValuePair. now rewrite Hkey, Hk. }
  rewrite Hsame. unfold entry_of.
  destruct (find_if (name_is section) (mData ini)) as [i|] eqn:Hs.
  - rewrite (section_named_with_section ini i _ section name' Hs)
      by (intros s; apply name_is_eq; rewrite name_is_SetKeyValuePair;
          now apply name_is_eq).
    destruct (str_eqb name' section) eqn:E; cbn [andb]; [|reflexivity].
    apply str_eqb_eq in E. subst name'.
    destruct (find_if_holds _ _ _ Hs) as (s & Hn & _).
    unfold section_named. rewrite <- find_if_find, Hs, Hn. cbn [option_map].
    now rewrite entry_keyed_SetKeyValuePair.
  - assert (Hnone : section_named ini section = None)
      by (unfold section_named; now apply find_none_iff).
    unfold section_named in *. cbn [mData set_mData]. rewrite find_app_last.
    rewrite Hnone. rewrite name_is_SetKeyValuePair.
    unfold name_is at 2. cbn [INISection.GetSectionName INISection.make
                              INISection.mSectionName].
    destruct (str_eqb name' section) eqn:E; cbn [andb].
    + apply str_eqb_eq in E. subst name'. rewrite Hnone, str_eqb_refl.
      rewrite entry_keyed_SetKeyValuePair by assumption.
      destruct (str_eqb key' key); reflexivity.
    + destruct (find (name_is name') (mData ini)); [reflexivity|].
      assert (E' : str_eqb section name' = false)
        by (apply str_eqb_neq; apply str_eqb_neq in E; congruence).
      now rewrite E'.
Qed.

(** ** SetValue and GetValue *)

(** X1. What [SetValue] stores, [GetValue] returns, whatever the document
    held before. *)
Theorem GetValue_SetValue :
  forall (ini : havINIStream) (sectionName keyName value defaultValue : str)
         (addQuotes : bool),
    GetValue (snd (SetValue ini sectionName keyName value addQuotes))
             sectionName keyName defaultValue = value
    /\ HasKey (snd (SetValue ini sectionName keyName value addQuotes))
              sectionName keyName = true.
Proof.
  intros. rewrite GetValue_entry_of, HasKey_entry_of, entry_of_SetValue.
  rewrite !str_eqb_refl. cbn [andb].
  now destruct (entry_of ini _ _).
Qed.

(** X2. [SetValue] changes the answer of [GetValue] and [HasKey] for no
    other pair of section and key. *)
Theorem SetValue_other_keys :
  forall (ini : havINIStream) (sectionName keyName value : str)
         (addQuotes : bool) (sectionName' keyName' defaultValue : str),
    havUtils.ToLower sectionName' <> havUtils.ToLower sectionName
    \/ havUtils.ToLower keyName' <> havUtils.ToLower keyName ->
    GetValue (snd (SetValue ini sectionName keyName value addQuotes))
             sectionName' keyName' defaultValue
    = GetValue ini sectionName' keyName' defaultValue
    /\ HasKey (snd (SetValue ini sectionName keyName value addQuotes))
              sectionName' keyName'
       = HasKey ini sectionName' keyName'.
Proof.
  intros ini sectionName keyName value addQuotes sectionName' keyName'
         defaultValue Hother.
  rewrite !GetValue_entry_of, !HasKey_entry_of, entry_of_SetValue.
  assert (E : str_eqb (havUtils.ToLower sectionName') (havUtils.ToLower sectionName)
              && str_eqb (havUtils.ToLower keyName') (havUtils.ToLower keyName)
              = false).
  { apply andb_false_iff. destruct Hother as [H|H]; [left|right];
      now apply str_eqb_neq. }
  rewrite E. now split.
Qed.

Lemma SetValue_other_keys_witness :
  GetValue (snd (SetValue one_key (lit "net") (lit "port") (lit "80") false))
           (lit "NET") (lit "Host") []
  = GetValue one_key (lit "NET") (lit "Host") [].
Proof.
  apply (SetValue_other_keys one_key (lit "net") (lit "port") (lit "80") false
                             (lit "NET") (lit "Host") []).
  right. vm_compute. discriminate.
Defined.

(** ** Calls on the section found under a name *)

Lemma in_section_snd (ini : havINIStream) (name : str)
    (f : havINISection -> bool * havINISection) :
  snd (in_section ini name f)
  = match find_if (name_is name) (mData ini) with
    | Some i => with_section ini i (fun s => snd (f s))
    | None => ini
    end.
Proof.
  unfold in_section.
  destruct (find_if (name_is name) (mData ini)) as [i|] eqn:Hi; [|reflexivity].
  destruct (find_if_holds _ _ _ Hi) as (s & Hn & _). rewrite Hn.
  destruct (f s) as [r s'] eqn:Hf. cbn [snd]. unfold with_section. f_equal.
  apply (modify_ext_at _ _ _ _ s Hn). now rewrite Hf.
Qed.

Lemma in_section_fst (ini : havINIStream) (name : str)
    (f : havINISection -> bool * havINISection) :
  fst (in_section ini name f)
  = match section_named ini name with
    | Some s => fst (f s)
    | None => false
    end.
Proof.
  unfold in_section, section_named. rewrite <- find_if_find.
  destruct (find_if (name_is name) (mData ini)) as [i|]; [|reflexivity].
  destruct (nth_error (mData ini) i) as [s|]; [|reflexivity].
  now destruct (f s).
Qed.

Lemma section_named_found (ini : havINIStream) (name : str) (i : nat) :
  find_if (name_is name) (mData ini) = Some i ->
  exists s, section_named ini name = Some s
            /\ nth_error (mData ini) i = Some s
            /\ INISection.mSectionName s = name.
Proof.
  intros Hi. destruct (find_if_holds _ _ _ Hi) as (s & Hn & Hname).
  exists s. unfold section_named. rewrite <- find_if_find, Hi.
  repeat split; try assumption. now apply name_is_eq.
Qed.

Lemma section_named_none (ini : havINIStream) (name : str) :
  find_if (name_is name) (mData ini) = None -> section_named ini name = None.
Proof. intros H. unfold section_named. now apply find_none_iff. Qed.

Lemma entry_keyed_found (s : havINISection) (key : str) (j : nat) :
  find_if (INIData.key_is key) (INISection.mKeyValuePairs s) = Some j ->
  exists d, entry_keyed s key = Some d
            /\ nth_error (INISection.mKeyValuePairs s) j = Some d
            /\ INIData.mKey d = key.
Proof.
  intros Hj. destruct (find_if_holds _ _ _ Hj) as (d & Hn & Hkey).
  exists d. unfold entry_keyed. rewrite <- find_if_find, Hj.
  repeat split; try assumption. now apply key_is_eq.
Qed.

Lemma entry_keyed_none (s : havINISection) (key : str) :
  find_if (INIData.key_is key) (INISection.mKeyValuePairs s) = None ->
  entry_keyed s key = None.
Proof. intros H. unfold entry_keyed. now apply find_none_iff. Qed.

Lemma entry_of_with_section (ini : havINIStream) (i : nat)
    (f : havINISection -> havINISection) (name name' key' : str) :
  find_if (name_is name) (mData ini) = Some i ->
  (forall s, INISection.mSectionName (f s) = INISection.mSectionName s) ->
  entry_of (with_section ini i f) name' key'
  = if str_eqb name' name
    then match section_named ini name with
         | Some s => entry_keyed (f s) key'
         | None => None
         end
    else entry_of ini name' key'.
Proof.
  intros Hi Hf. unfold entry_of.
  rewrite (section_named_with_section ini i f name name' Hi Hf).
  destruct (str_eqb name' name); [|reflexivity].
  now destruct (section_named ini name).
Qed.

(** ** First matches under the other list operations *)

Lemma find_modify_at_miss {A} (p : A -> bool) (f : A -> A) (l : list A)
    (j : nat) (d : A) :
  nth_error l j = Some d -> p d = false -> p (f d) = false ->
  find p (modify j f l) = find p l.
Proof.
  revert j; induction l as [|x l IH]; intros [|j] Hn Hd Hfd; simpl in *;
    try discriminate.
  - injection Hn as ->. now rewrite Hd, Hfd.
  - destruct (p x); [reflexivity|]. now apply IH.
Qed.

Lemma find_modify_at_hit {A} (p : A -> bool) (f : A -> A) (l : list A)
    (j : nat) (d : A) :
  find_if p l = None -> nth_error l j = Some d -> p (f d) = true ->
  find p (modify j f l) = Some (f d).
Proof.
  revert j; induction l as [|x l IH]; intros [|j] Hnone Hn Hfd; simpl in *;
    try discriminate.
  - injection Hn as ->. now rewrite Hfd.
  - destruct (p x); [discriminate|].
    destruct (find_if p l) eqn:E; [discriminate|]. now apply IH.
Qed.

Lemma erase_at_cons {A} (x : A) (l : list A) (i : nat) :
  INIData.erase_at (S i) (x :: l) = x :: INIData.erase_at i l.
Proof. reflexivity. Qed.

Lemma erase_at_0 {A} (x : A) (l : list A) : INIData.erase_at 0 (x :: l) = l.
Proof. reflexivity. Qed.

Lemma In_erase_at {A} (l : list A) (i : nat) (x : A) :
  In x (INIData.erase_at i l) -> In x l.
Proof.
  revert i; induction l as [|y l IH]; intros [|i] H.
  - exact H.
  - exact H.
  - right. exact H.
  - rewrite erase_at_cons in H. destruct H as [-> |H]; [now left|right; eauto].
Qed.

Lemma length_erase_at {A} (l : list A) (i : nat) :
  i < List.length l -> List.length (INIData.erase_at i l) = List.length l - 1.
Proof.
  revert i; induction l as [|y l IH]; intros [|i] H.
  - simpl in H. lia.
  - simpl in H. lia.
  - rewrite erase_at_0. simpl. lia.
  - rewrite erase_at_cons. simpl in *. rewrite IH by lia. lia.
Qed.

Lemma map_erase_at {A B} (k : A -> B) (l : list A) (i : nat) :
  map k (INIData.erase_at i l) = INIData.erase_at i (map k l).
Proof.
  unfold INIData.erase_at. now rewrite map_app, firstn_map, skipn_map.
Qed.

Lemma NoDup_erase_at {A} (l : list A) (i : nat) :
  NoDup l -> NoDup (INIData.erase_at i l).
Proof.
  revert i; induction l as [|y l IH]; intros [|i] H.
  - constructor.
  - constructor.
  - rewrite erase_at_0. now inversion H.
  - rewrite erase_at_cons. inversion H as [|? ? Hy Hl]; subst.
    constructor; [|now apply IH].
    intros Hin. apply Hy. now apply In_erase_at in Hin.
Qed.

Lemma find_erase_unique {A} (k : A -> str) (key : str) (l : list A) (i : nat) :
  NoDup (map k l) ->
  find_if (fun x => str_eqb (k x) key) l = Some i ->
  find (fun x => str_eqb (k x) key) (INIData.erase_at i l) = None.
Proof.
  revert i; induction l as [|x l IH]; intros i Hnd Hi; [discriminate|].
  cbn [map] in Hnd. cbn [find_if] in Hi.
  inversion Hnd as [|? ? Hx Hl]; subst.
  destruct (str_eqb (k x) key) eqn:E.
  - injection Hi as <-. rewrite erase_at_0.
    destruct (find _ l) as [y|] eqn:Hy; [|reflexivity].
    apply find_some in Hy. destruct Hy as [Hin Hk].
    apply str_eqb_eq in E, Hk. exfalso. apply Hx.
    rewrite E, <- Hk. now apply in_map.
  - destruct (find_if _ l) as [j|] eqn:Hj; [|discriminate].
    injection Hi as <-. rewrite erase_at_cons. cbn [find]. rewrite E.
    now apply IH.
Qed.

Lemma map_modify_same {A B} (k : A -> B) (f : A -> A) (l : list A) (i : nat) :
  (forall x, k (f x) = k x) -> map k (modify i f l) = map k l.
Proof.
  intros Hf. revert i; induction l as [|x l IH]; intros [|i]; simpl;
    try reflexivity.
  - now rewrite Hf.
  - now rewrite IH.
Qed.

Lemma map_modify_const {A B} (k : A -> B) (y : A) (l : list A) (i : nat) (x : A) :
  nth_error l i = Some x -> k y = k x ->
  map k (modify i (fun _ => y) l) = map k l.
Proof.
  revert i; induction l as [|z l IH]; intros [|i] Hn Hk; simpl in *;
    try discriminate.
  - injection Hn as ->. now rewrite Hk.
  - now rewrite (IH i Hn Hk).
Qed.

Lemma find_if_none_key {A} (k : A -> str) (key : str) (l : list A) :
  find_if (fun x => str_eqb (k x) key) l = None <-> ~ In key (map k l).
Proof.
  rewrite find_if_none. split.
  - intros H Hin. apply in_map_iff in Hin. destruct Hin as (x & Hk & Hx).
    specialize (H x Hx). apply str_eqb_neq in H. contradiction.
  - intros H x Hx. apply str_eqb_neq. intros E. apply H. rewrite <- E.
    now apply in_map.
Qed.

Lemma NoDup_app_last {A} (l : list A) (x : A) :
  NoDup l -> ~ In x l -> NoDup (l ++ [x]).
Proof.
  intros Hl Hx. apply NoDup_app; [assumption|repeat constructor; now intros []|].
  intros a Ha [<- |[]]. contradiction.
Qed.

Lemma NoDup_middle {A} (a b : list A) (x : A) :
  NoDup (a ++ b) -> ~ In x (a ++ b) -> NoDup (a ++ x :: b).
Proof.
  induction a as [|y a IH]; simpl; intros Hl Hx.
  - now constructor.
  - inversion Hl as [|? ? Hy Hl']; subst. constructor.
    + intros Hin. apply in_app_or in Hin. destruct Hin as [Hin|[-> |Hin]].
      * apply Hy, in_or_app. now left.
      * apply Hx. now left.
      * apply Hy, in_or_app. now right.
    + apply IH; [assumption|]. intros Hin. apply Hx. now right.
Qed.

Lemma NoDup_insert_at {A} (l : list A) (i : nat) (x : A) :
  NoDup l -> ~ In x l -> NoDup (insert_at i x l).
Proof.
  intros Hl Hx. unfold insert_at.
  apply NoDup_middle; now rewrite firstn_skipn.
Qed.

Lemma map_insert_at {A B} (k : A -> B) (l : list A) (i : nat) (x : A) :
  map k (insert_at i x l) = insert_at i (k x) (map k l).
Proof.
  unfold insert_at. rewrite map_app. simpl. now rewrite firstn_map, skipn_map.
Qed.

Lemma NoDup_modify_rename {A} (k : A -> str) (f : A -> A) (l : list A)
    (j : nat) (d : A) :
  NoDup (map k l) -> nth_error l j = Some d -> ~ In (k (f d)) (map k l) ->
  NoDup (map k (modify j f l)).
Proof.
  revert j; induction l as [|x l IH]; intros [|j] Hnd Hn Hnew; simpl in *;
    try discriminate.
  - injection Hn as ->. inversion Hnd; subst. constructor; [|assumption].
    intros Hin. apply Hnew. now right.
  - inversion Hnd as [|? ? Hx Hl]; subst. constructor.
    + intros Hin. apply in_map_iff in Hin. destruct Hin as (y & Hk & Hy).
      assert (Hcases : In y l \/ y = f d).
      { clear - Hy Hn. revert j Hn Hy.
        induction l as [|z l IH]; intros [|j] Hn Hy; simpl in *;
          try discriminate.
        - injection Hn as ->. destruct Hy as [<- |Hy]; [now right|left; now right].
        - destruct Hy as [<- |Hy]; [left; now left|].
          destruct (IH j Hn Hy) as [H|H]; [left; now right|now right]. }
      destruct Hcases as [Hy' | ->].
      * apply Hx. rewrite <- Hk. now apply in_map.
      * apply Hnew. now left.
    + apply (IH j); try assumption. intros Hin. apply Hnew. now right.
Qed.

Lemma find_modify_unique {A} (k : A -> str) (key : str) (f : A -> A)
    (l : list A) (j : nat) (d : A) :
  NoDup (map k l) ->
  find_if (fun x => str_eqb (k x) key) l = Some j ->
  nth_error l j = Some d -> k (f d) <> key ->
  find (fun x => str_eqb (k x) key) (modify j f l) = None.
Proof.
  revert j; induction l as [|x l IH]; intros j Hnd Hj Hn Hf; [discriminate|].
  cbn [map] in Hnd. cbn [find_if] in Hj.
  inversion Hnd as [|? ? Hx Hl]; subst.
  destruct (str_eqb (k x) key) eqn:E.
  - injection Hj as <-. cbn in Hn. injection Hn as ->. cbn [modify find].
    apply str_eqb_neq in Hf. rewrite Hf.
    destruct (find _ l) as [y|] eqn:Hy; [|reflexivity].
    apply find_some in Hy. destruct Hy as [Hin Hk].
    apply str_eqb_eq in E, Hk. exfalso. apply Hx.
    rewrite E, <- Hk. now apply in_map.
  - destruct (find_if _ l) as [i|] eqn:Hi; [|discriminate].
    injection Hj as <-. cbn [modify find nth_error] in *. rewrite E.
    now apply (IH i).
Qed.

Lemma HasKey_section_named (ini : havINIStream) (sectionName keyName : str) :
  HasKey ini sectionName keyName
  = match section_named ini (havUtils.ToLower sectionName) with
    | Some s =>
        match entry_keyed s (havUtils.ToLower keyName) with
        | Some _ => true
        | None => false
        end
    | None => false
    end.
Proof.
  rewrite HasKey_entry_of. unfold entry_of.
  now destruct (section_named ini _).
Qed.

Lemma GetNumberOfKeys_section_named (ini : havINIStream) (sectionName : str) :
  GetNumberOfKeys ini sectionName
  = match section_named ini (havUtils.ToLower sectionName) with
    | Some s => List.length (INISection.mKeyValuePairs s)
    | None => 0
    end.
Proof.
  unfold GetNumberOfKeys, section_named. rewrite <- find_if_find.
  destruct (find_if _ (mData ini)) as [i|]; [|reflexivity].
  now destruct (nth_error (mData ini) i).
Qed.

Lemma other_pair (a a' b b' : str) :
  a' <> a \/ b' <> b -> str_eqb a' a && str_eqb b' b = false.
Proof.
  intros H. apply andb_false_iff.
  destruct H as [H|H]; [left|right]; now apply str_eqb_neq.
Qed.

Lemma entry_keyed_pairs (s : havINISection) (pairs : list havINIData)
    (key : str) :
  entry_keyed (INISection.set_pairs s pairs) key
  = find (INIData.key_is key) pairs.
Proof. reflexivity. Qed.

Lemma well_keyed_section (ini : havINIStream) (name : str) (s : havINISection) :
  well_keyed ini -> section_named ini name = Some s -> unique_keys s.
Proof.
  intros [_ Hall] Hs. unfold section_named in Hs. apply find_some in Hs.
  rewrite Forall_forall in Hall. now apply Hall.
Qed.

(** ** RemoveKey *)

Lemma modify_ext {A} (f g : A -> A) (l : list A) (i : nat) :
  (forall x, f x = g x) -> modify i f l = modify i g l.
Proof.
  intros H. revert i; induction l as [|y l IH]; intros [|i]; simpl;
    try reflexivity.
  - now rewrite H.
  - now rewrite IH.
Qed.

Lemma RemoveKey_snd (ini : havINIStream) (sectionName keyName : str) :
  snd (RemoveKey ini sectionName keyName)
  = match find_if (name_is (havUtils.ToLower sectionName)) (mData ini) with
    | Some i =>
        with_section ini i
          (fun s =>
             match find_if (INIData.key_is (havUtils.ToLower keyName))
                           (INISection.mKeyValuePairs s) with
             | Some j => INISection.RemoveKeyValuePair_at s j
             | None => s
             end)
    | None => ini
    end.
Proof.
  unfold RemoveKey. rewrite in_section_snd.
  destruct (find_if _ (mData ini)) as [i|]; [|reflexivity].
  unfold with_section. f_equal. apply modify_ext. intros x.
  unfold INISection.GetKeyValuePair. rewrite ToLower_idem.
  now destruct (find_if _ _).
Qed.

Lemma entry_of_RemoveKey_other (ini : havINIStream)
    (sectionName keyName name' key' : str) :
  str_eqb name' (havUtils.ToLower sectionName)
  && str_eqb key' (havUtils.ToLower keyName) = false ->
  entry_of (snd (RemoveKey ini sectionName keyName)) name' key'
  = entry_of ini name' key'.
Proof.
  intros Hother. rewrite RemoveKey_snd.
  destruct (find_if _ (mData ini)) as [i|] eqn:Hi; [|reflexivity].
  rewrite (entry_of_with_section ini i _ _ name' key' Hi)
    by (intros s; cbv beta; now destruct (find_if _ (INISection.mKeyValuePairs s))).
  destruct (str_eqb name' _) eqn:E; [|reflexivity].
  apply str_eqb_eq in E. subst name'. cbn [andb] in Hother.
  unfold entry_of. destruct (section_named ini _) as [s|]; [|reflexivity].
  destruct (find_if _ (INISection.mKeyValuePairs s)) as [j|] eqn:Hj;
    [|reflexivity].
  unfold INISection.RemoveKeyValuePair_at. rewrite entry_keyed_pairs.
  apply find_erase_miss. intros d Hd.
  destruct (find_if_holds _ _ _ Hj) as (d' & Hd' & Hk).
  rewrite Hd in Hd'. injection Hd' as <-. apply key_is_eq in Hk.
  unfold INIData.key_is, INIData.GetKey. rewrite Hk.
  apply str_eqb_neq. apply str_eqb_neq in Hother. congruence.
Qed.

Lemma entry_of_RemoveKey_same (ini : havINIStream) (sectionName keyName : str) :
  well_keyed ini ->
  entry_of (snd (RemoveKey ini sectionName keyName))
           (havUtils.ToLower sectionName) (havUtils.ToLower keyName) = None.
Proof.
  intros Hwk. rewrite RemoveKey_snd.
  destruct (find_if _ (mData ini)) as [i|] eqn:Hi.
  - rewrite (entry_of_with_section ini i _ _ _ _ Hi)
      by (intros s; cbv beta; now destruct (find_if _ (INISection.mKeyValuePairs s))).
    rewrite str_eqb_refl.
    destruct (section_named ini _) as [s|] eqn:Hs; [|reflexivity].
    destruct (find_if _ (INISection.mKeyValuePairs s)) as [j|] eqn:Hj.
    + unfold INISection.RemoveKeyValuePair_at. rewrite entry_keyed_pairs.
      apply (find_erase_unique INIData.mKey); [|exact Hj].
      exact (well_keyed_section _ _ _ Hwk Hs).
    + now apply entry_keyed_none.
  - unfold entry_of. now rewrite section_named_none.
Qed.

(** X3. [RemoveKey] answers whether the key was there, takes one entry away
    when it was, leaves every other pair of section and key as it was, and
    in a document without duplicate names the key is gone afterwards. *)
Theorem RemoveKey_removes :
  forall (ini : havINIStream) (sectionName keyName : str),
    fst (RemoveKey ini sectionName keyName) = HasKey ini sectionName keyName
    /\ GetNumberOfKeys (snd (RemoveKey ini sectionName keyName)) sectionName
       = GetNumberOfKeys ini sectionName
         - (if HasKey ini sectionName keyName then 1 else 0)
    /\ (well_keyed ini ->
        HasKey (snd (RemoveKey ini sectionName keyName)) sectionName keyName
        = false)
    /\ (forall sectionName' keyName' defaultValue : str,
           havUtils.ToLower sectionName' <> havUtils.ToLower sectionName
           \/ havUtils.ToLower keyName' <> havUtils.ToLower keyName ->
           GetValue (snd (RemoveKey ini sectionName keyName))
                    sectionName' keyName' defaultValue
           = GetValue ini sectionName' keyName' defaultValue
           /\ HasKey (snd (RemoveKey ini sectionName keyName))
                     sectionName' keyName'
              = HasKey ini sectionName' keyName').
Proof.
  intros ini sectionName keyName. repeat split.
  - unfold RemoveKey. rewrite in_section_fst, HasKey_section_named.
    destruct (section_named ini _) as [s|]; [|reflexivity].
    unfold INISection.GetKeyValuePair. rewrite ToLower_idem.
    destruct (find_if _ (INISection.mKeyValuePairs s)) as [j|] eqn:Hj.
    + destruct (entry_keyed_found _ _ _ Hj) as (d & -> & _). reflexivity.
    + now rewrite entry_keyed_none.
  - rewrite !GetNumberOfKeys_section_named, HasKey_section_named, RemoveKey_snd.
    destruct (find_if _ (mData ini)) as [i|] eqn:Hi.
    + rewrite (section_named_with_section ini i _ _ _ Hi)
        by (intros s; cbv beta; now destruct (find_if _ (INISection.mKeyValuePairs s))).
      rewrite str_eqb_refl.
      destruct (section_named_found _ _ _ Hi) as (s & -> & _ & _).
      cbn [option_map].
      destruct (find_if _ (INISection.mKeyValuePairs s)) as [j|] eqn:Hj.
      * destruct (entry_keyed_found _ _ _ Hj) as (d & -> & _).
        cbn [INISection.RemoveKeyValuePair_at INISection.mKeyValuePairs
               INISection.set_pairs].
        apply length_erase_at. now apply find_if_bound in Hj.
      * rewrite entry_keyed_none by assumption. lia.
    + rewrite section_named_none by assumption. reflexivity.
  - intros Hwk. rewrite HasKey_entry_of.
    now rewrite entry_of_RemoveKey_same.
  - rewrite !GetValue_entry_of, entry_of_RemoveKey_other;
      [reflexivity|now apply other_pair].
  - rewrite !HasKey_entry_of, entry_of_RemoveKey_other;
      [reflexivity|now apply other_pair].
Qed.

Lemma RemoveKey_removes_witness :
  well_keyed two_keys
  /\ HasKey (snd (RemoveKey two_keys (lit "NET") (lit "Host")))
            (lit "NET") (lit "Host") = false
  /\ GetValue (snd (RemoveKey two_keys (lit "NET") (lit "Host")))
              (lit "net") (lit "port") []
     = GetValue two_keys (lit "net") (lit "port") [].
Proof.
  assert (Hwk : well_keyed two_keys) by solve_well_keyed.
  destruct (RemoveKey_removes two_keys (lit "NET") (lit "Host"))
    as (_ & _ & Hgone & Hother).
  split; [exact Hwk|]. split; [exact (Hgone Hwk)|].
  apply Hother. right. vm_compute. discriminate.
Defined.

(** ** RenameKey *)

Lemma SetKey_name (s : havINISection) (key : str) (j : nat) :
  INISection.mSectionName (INISection.SetKey s key j)
  = INISection.mSectionName s.
Proof. reflexivity. Qed.

Lemma RenameKey_snd (ini : havINIStream) (sectionName oldKeyName newKeyName : str) :
  snd (RenameKey ini sectionName oldKeyName newKeyName)
  = match find_if (name_is (havUtils.ToLower sectionName)) (mData ini) with
    | Some i =>
        with_section ini i
          (fun s =>
             match find_if (INIData.key_is (havUtils.ToLower newKeyName))
                           (INISection.mKeyValuePairs s),
                   find_if (INIData.key_is (havUtils.ToLower oldKeyName))
                           (INISection.mKeyValuePairs s) with
             | None, Some j =>
                 INISection.SetKey s (havUtils.ToLower newKeyName) j
             | _, _ => s
             end)
    | None => ini
    end.
Proof.
  unfold RenameKey. rewrite in_section_snd.
  destruct (find_if _ (mData ini)) as [i|]; [|reflexivity].
  unfold with_section. f_equal. apply modify_ext. intros x.
  unfold INISection.GetKeyValuePair. rewrite ToLower_idem.
  destruct (find_if _ (INISection.mKeyValuePairs x)); [reflexivity|].
  now destruct (find_if _ (INISection.mKeyValuePairs x)).
Qed.

Lemma RenameKey_fst (ini : havINIStream) (sectionName oldKeyName newKeyName : str) :
  fst (RenameKey ini sectionName oldKeyName newKeyName)
  = HasKey ini sectionName oldKeyName
    && negb (HasKey ini sectionName newKeyName).
Proof.
  unfold RenameKey. rewrite in_section_fst, !HasKey_section_named.
  destruct (section_named ini _) as [s|]; [|reflexivity].
  unfold INISection.GetKeyValuePair. rewrite ToLower_idem.
  destruct (find_if (INIData.key_is (havUtils.ToLower newKeyName)) _)
    as [n|] eqn:Hn.
  - destruct (entry_keyed_found _ _ _ Hn) as (d & -> & _).
    cbn. now rewrite andb_false_r.
  - rewrite (entry_keyed_none _ _ Hn). cbn [negb]. rewrite andb_true_r.
    destruct (find_if (INIData.key_is (havUtils.ToLower oldKeyName)) _)
      as [j|] eqn:Hj.
    + destruct (entry_keyed_found _ _ _ Hj) as (d & -> & _). reflexivity.
    + now rewrite (entry_keyed_none _ _ Hj).
Qed.

Lemma key_is_SetKey (key' key : str) (d : havINIData) :
  INIData.key_is key' (INIData.SetKey d (havUtils.ToLower (havUtils.ToLower key)))
  = str_eqb (havUtils.ToLower key) key'.
Proof.
  unfold INIData.key_is, INIData.GetKey, INIData.SetKey. cbn [INIData.mKey].
  now rewrite !ToLower_idem.
Qed.

(** What a successful [RenameKey] does to the first matches. *)
Lemma entry_of_RenameKey (ini : havINIStream)
    (sectionName oldKeyName newKeyName name' key' : str) :
  fst (RenameKey ini sectionName oldKeyName newKeyName) = true ->
  let section := havUtils.ToLower sectionName in
  let old := havUtils.ToLower oldKeyName in
  let new := havUtils.ToLower newKeyName in
  (name' = section -> key' = new ->
   entry_of (snd (RenameKey ini sectionName oldKeyName newKeyName)) name' key'
   = option_map (fun d => INIData.SetKey d (havUtils.ToLower new))
                (entry_of ini section old))
  /\ (name' = section -> key' = old -> well_keyed ini ->
      entry_of (snd (RenameKey ini sectionName oldKeyName newKeyName)) name' key'
      = None)
  /\ (name' <> section \/ (key' <> old /\ key' <> new) ->
      entry_of (snd (RenameKey ini sectionName oldKeyName newKeyName)) name' key'
      = entry_of ini name' key').
Proof.
  intros Hok section old new.
  rewrite RenameKey_fst, !HasKey_section_named in Hok.
  fold section old new in Hok.
  rewrite RenameKey_snd. fold section old new.
  destruct (section_named ini section) as [s|] eqn:Hs; [|discriminate].
  destruct (find_if (name_is section) (mData ini)) as [i|] eqn:Hi.
  2:{ apply section_named_none in Hi. congruence. }
  destruct (entry_keyed s old) as [d|] eqn:Hold; [|discriminate].
  destruct (entry_keyed s new) eqn:Hnew; [discriminate|]. clear Hok.
  assert (Hfn : find_if (INIData.key_is new) (INISection.mKeyValuePairs s)
                = None) by (now apply find_none_iff).
  destruct (find_if (INIData.key_is old) (INISection.mKeyValuePairs s))
    as [j|] eqn:Hfo.
  2:{ apply entry_keyed_none in Hfo. congruence. }
  destruct (entry_keyed_found _ _ _ Hfo) as (d' & Hd' & Hnth & Hkey).
  rewrite Hold in Hd'. injection Hd' as <-.
  assert (Hneq : new <> old).
  { intros E. rewrite E in Hfn. congruence. }
  assert (Hrw : forall k,
             entry_of
               (with_section ini i
                  (fun s0 =>
                     match find_if (INIData.key_is new)
                                   (INISection.mKeyValuePairs s0),
                           find_if (INIData.key_is old)
                                   (INISection.mKeyValuePairs s0) with
                     | None, Some j0 => INISection.SetKey s0 new j0
                     | _, _ => s0
                     end)) section k
             = find (INIData.key_is k)
                    (modify j (fun d0 => INIData.SetKey d0 (havUtils.ToLower new))
                            (INISection.mKeyValuePairs s))).
  { intros k. rewrite (entry_of_with_section ini i _ section section k Hi).
    - rewrite str_eqb_refl, Hs, Hfn, Hfo. reflexivity.
    - intros s0. cbv beta.
      destruct (find_if _ (INISection.mKeyValuePairs s0)); [reflexivity|].
      now destruct (find_if _ (INISection.mKeyValuePairs s0)). }
  repeat split.
  - intros -> ->. rewrite Hrw. unfold entry_of. rewrite Hs, Hold.
    cbn [option_map].
    apply (find_modify_at_hit
             _ (fun d0 => INIData.SetKey d0 (havUtils.ToLower new)) _ j d);
      try assumption.
    unfold new. rewrite key_is_SetKey. apply str_eqb_refl.
  - intros -> -> Hwk. rewrite Hrw.
    apply (find_modify_unique
             INIData.mKey old
             (fun d0 => INIData.SetKey d0 (havUtils.ToLower new)) _ j d);
      try assumption.
    + exact (well_keyed_section _ _ _ Hwk Hs).
    + cbn [INIData.SetKey INIData.mKey]. unfold new.
      rewrite !ToLower_idem. exact Hneq.
  - intros Hother.
    destruct (str_eqb name' section) eqn:E.
    + apply str_eqb_eq in E. subst name'.
      destruct Hother as [Hother|[Ho Hn]]; [contradiction|].
      rewrite Hrw. unfold entry_of. rewrite Hs. unfold entry_keyed.
      apply (find_modify_at_miss
               _ (fun d0 => INIData.SetKey d0 (havUtils.ToLower new)) _ j d);
        try assumption.
      * unfold INIData.key_is, INIData.GetKey. rewrite Hkey.
        apply str_eqb_neq. congruence.
      * unfold new. rewrite key_is_SetKey. apply str_eqb_neq. fold new.
        congruence.
    + rewrite (entry_of_with_section ini i _ section name' key' Hi).
      * now rewrite E.
      * intros s0. cbv beta.
        destruct (find_if _ (INISection.mKeyValuePairs s0)); [reflexivity|].
        now destruct (find_if _ (INISection.mKeyValuePairs s0)).
Qed.

(** X4. [RenameKey] succeeds exactly when the old key is there and the new
    one is not. Then the value is found under the new key, every other pair
    of section and key is as it was, and in a document without duplicate
    names the old key is gone. *)
Theorem RenameKey_moves :
  forall (ini : havINIStream) (sectionName oldKeyName newKeyName : str),
    let ini' := snd (RenameKey ini sectionName oldKeyName newKeyName) in
    fst (RenameKey ini sectionName oldKeyName newKeyName)
    = HasKey ini sectionName oldKeyName
      && negb (HasKey ini sectionName newKeyName)
    /\ (fst (RenameKey ini sectionName oldKeyName newKeyName) = true ->
        (forall defaultValue,
            GetValue ini' sectionName newKeyName defaultValue
            = GetValue ini sectionName oldKeyName defaultValue)
        /\ HasKey ini' sectionName newKeyName = true
        /\ (well_keyed ini -> HasKey ini' sectionName oldKeyName = false)
        /\ (forall sectionName' keyName' defaultValue,
               havUtils.ToLower sectionName' <> havUtils.ToLower sectionName
               \/ (havUtils.ToLower keyName' <> havUtils.ToLower oldKeyName
                   /\ havUtils.ToLower keyName' <> havUtils.ToLower newKeyName) ->
               GetValue ini' sectionName' keyName' defaultValue
               = GetValue ini sectionName' keyName' defaultValue
               /\ HasKey ini' sectionName' keyName'
                  = HasKey ini sectionName' keyName')).
Proof.
  intros ini sectionName oldKeyName newKeyName ini'.
  split; [apply RenameKey_fst|]. intros Hok.
  pose proof (RenameKey_fst ini sectionName oldKeyName newKeyName) as Hfst.
  rewrite Hok in Hfst. symmetry in Hfst. apply andb_true_iff in Hfst.
  destruct Hfst as [Hold _]. rewrite HasKey_entry_of in Hold.
  repeat split.
  - intros defaultValue. subst ini'. rewrite !GetValue_entry_of.
    destruct (entry_of_RenameKey ini sectionName oldKeyName newKeyName
                (havUtils.ToLower sectionName) (havUtils.ToLower newKeyName)
                Hok) as (-> & _ & _);
      try reflexivity.
    now destruct (entry_of ini _ _).
  - subst ini'. rewrite HasKey_entry_of.
    destruct (entry_of_RenameKey ini sectionName oldKeyName newKeyName
                (havUtils.ToLower sectionName) (havUtils.ToLower newKeyName)
                Hok) as (-> & _ & _);
      try reflexivity.
    now destruct (entry_of ini _ _).
  - intros Hwk. subst ini'. rewrite HasKey_entry_of.
    destruct (entry_of_RenameKey ini sectionName oldKeyName newKeyName
                (havUtils.ToLower sectionName) (havUtils.ToLower oldKeyName)
                Hok) as (_ & -> & _);
      try reflexivity. exact Hwk.
  - subst ini'. rewrite !GetValue_entry_of.
    destruct (entry_of_RenameKey ini sectionName oldKeyName newKeyName
                (havUtils.ToLower sectionName') (havUtils.ToLower keyName') Hok)
      as (_ & _ & ->); try assumption; reflexivity.
  - subst ini'. rewrite !HasKey_entry_of.
    destruct (entry_of_RenameKey ini sectionName oldKeyName newKeyName
                (havUtils.ToLower sectionName') (havUtils.ToLower keyName') Hok)
      as (_ & _ & ->); try assumption; reflexivity.
Qed.

Lemma RenameKey_moves_witness :
  fst (RenameKey one_key (lit "Net") (lit "HOST") (lit "Server")) = true
  /\ GetValue (snd (RenameKey one_key (lit "Net") (lit "HOST") (lit "Server")))
              (lit "Net") (lit "Server") []
     = GetValue one_key (lit "Net") (lit "HOST") [].
Proof.
  assert (Hok : fst (RenameKey one_key (lit "Net") (lit "HOST") (lit "Server"))
                = true) by reflexivity.
  split; [exact Hok|].
  destruct (RenameKey_moves one_key (lit "Net") (lit "HOST") (lit "Server"))
    as (_ & H).
  destruct (H Hok) as (Hvalue & _). apply Hvalue.
Defined.

(** ** RenameSection *)

Lemma well_keyed_names (ini : havINIStream) :
  well_keyed ini -> NoDup (map INISection.mSectionName (mData ini)).
Proof. now intros [H _]. Qed.

Lemma name_is_SetSectionName (name' name : str) (s : havINISection) :
  name_is name' (INISection.SetSectionName s (havUtils.ToLower name))
  = str_eqb (havUtils.ToLower name) name'.
Proof.
  unfold name_is, INISection.GetSectionName, INISection.SetSectionName.
  cbn [INISection.mSectionName]. now rewrite ToLower_idem.
Qed.

Lemma RenameSection_fst (ini : havINIStream) (oldSectionName newSectionName : str) :
  fst (RenameSection ini oldSectionName newSectionName)
  = HasSection ini oldSectionName && negb (HasSection ini newSectionName).
Proof.
  unfold RenameSection, HasSection.
  destruct (find_if (name_is (havUtils.ToLower newSectionName)) _);
    [cbn; now rewrite andb_false_r|].
  now destruct (find_if (name_is (havUtils.ToLower oldSectionName)) _).
Qed.

(** What a successful [RenameSection] does to the first matches. *)
Lemma section_named_RenameSection (ini : havINIStream)
    (oldSectionName newSectionName name' : str) :
  fst (RenameSection ini oldSectionName newSectionName) = true ->
  let old := havUtils.ToLower oldSectionName in
  let new := havUtils.ToLower newSectionName in
  (name' = new ->
   section_named (snd (RenameSection ini oldSectionName newSectionName)) name'
   = option_map (fun s => INISection.SetSectionName s new)
                (section_named ini old))
  /\ (name' = old -> well_keyed ini ->
      section_named (snd (RenameSection ini oldSectionName newSectionName)) name'
      = None)
  /\ (name' <> old -> name' <> new ->
      section_named (snd (RenameSection ini oldSectionName newSectionName)) name'
      = section_named ini name').
Proof.
  intros Hok old new. unfold RenameSection in *. fold old new in Hok |- *.
  destruct (find_if (name_is new) (mData ini)) eqn:Hfn; [discriminate|].
  destruct (find_if (name_is old) (mData ini)) as [i|] eqn:Hfo;
    [|discriminate]. clear Hok. cbn [snd].
  destruct (section_named_found _ _ _ Hfo) as (s & Hs & Hnth & Hname).
  assert (Hneq : new <> old).
  { intros E. rewrite E in Hfn. congruence. }
  unfold with_section, section_named at 1 3 5. cbn [mData set_mData].
  repeat split.
  - intros ->. rewrite Hs. cbn [option_map].
    apply (find_modify_at_hit
             _ (fun s0 => INISection.SetSectionName s0 new) _ i s);
      try assumption.
    unfold new. rewrite name_is_SetSectionName. apply str_eqb_refl.
  - intros -> Hwk.
    apply (find_modify_unique
             INISection.mSectionName old
             (fun s0 => INISection.SetSectionName s0 new) _ i s);
      try assumption.
    + now apply well_keyed_names.
    + cbn [INISection.SetSectionName INISection.mSectionName]. unfold new.
      rewrite ToLower_idem. exact Hneq.
  - intros Ho Hn.
    apply (find_modify_at_miss
             _ (fun s0 => INISection.SetSectionName s0 new) _ i s);
      try assumption.
    + unfold name_is, INISection.GetSectionName. rewrite Hname.
      apply str_eqb_neq. congruence.
    + unfold new. rewrite name_is_SetSectionName. apply str_eqb_neq.
      fold new. congruence.
Qed.

(** X5. [RenameSection] succeeds exactly when the old section is there and
    the new name is free. Then every key of the section is found under the
    new name with its value, the sections with other names are as they were,
    and in a document without duplicate names the old name is gone. *)
Theorem RenameSection_moves :
  forall (ini : havINIStream) (oldSectionName newSectionName : str),
    let ini' := snd (RenameSection ini oldSectionName newSectionName) in
    fst (RenameSection ini oldSectionName newSectionName)
    = HasSection ini oldSectionName && negb (HasSection ini newSectionName)
    /\ (fst (RenameSection ini oldSectionName newSectionName) = true ->
        HasSection ini' newSectionName = true
        /\ (forall keyName defaultValue,
               GetValue ini' newSectionName keyName defaultValue
               = GetValue ini oldSectionName keyName defaultValue
               /\ HasKey ini' newSectionName keyName
                  = HasKey ini oldSectionName keyName)
        /\ (well_keyed ini -> HasSection ini' oldSectionName = false)
        /\ (forall sectionName' keyName defaultValue,
               havUtils.ToLower sectionName' <> havUtils.ToLower oldSectionName ->
               havUtils.ToLower sectionName' <> havUtils.ToLower newSectionName ->
               HasSection ini' sectionName' = HasSection ini sectionName'
               /\ GetValue ini' sectionName' keyName defaultValue
                  = GetValue ini sectionName' keyName defaultValue
               /\ HasKey ini' sectionName' keyName
                  = HasKey ini sectionName' keyName)).
Proof.
  intros ini oldSectionName newSectionName ini'.
  split; [apply RenameSection_fst|]. intros Hok.
  pose proof (fun name' =>
                section_named_RenameSection ini oldSectionName newSectionName
                                            name' Hok) as H.
  cbv zeta in H. fold ini' in H.
  pose proof (RenameSection_fst ini oldSectionName newSectionName) as Hfst.
  rewrite Hok in Hfst. symmetry in Hfst. apply andb_true_iff in Hfst.
  destruct Hfst as [Hold _]. rewrite HasSection_section_named in Hold.
  destruct (H (havUtils.ToLower newSectionName)) as (Hnew & _ & _).
  specialize (Hnew eq_refl).
  destruct (section_named ini (havUtils.ToLower oldSectionName)) as [s|] eqn:Hs;
    [|discriminate]. cbn [option_map] in Hnew.
  split; [|split; [|split]].
  - rewrite HasSection_section_named. now rewrite Hnew.
  - intros keyName defaultValue.
    rewrite !GetValue_entry_of, !HasKey_entry_of. unfold entry_of.
    rewrite Hnew, Hs. split; reflexivity.
  - intros Hwk. rewrite HasSection_section_named.
    destruct (H (havUtils.ToLower oldSectionName)) as (_ & Hgone & _).
    now rewrite Hgone.
  - intros sectionName' keyName defaultValue Ho Hn.
    rewrite !HasSection_section_named, !GetValue_entry_of, !HasKey_entry_of.
    unfold entry_of.
    destruct (H (havUtils.ToLower sectionName')) as (_ & _ & Hother).
    rewrite (Hother Ho Hn). repeat split; reflexivity.
Qed.

Lemma RenameSection_moves_witness :
  fst (RenameSection one_key (lit "Net") (lit "Network")) = true
  /\ HasSection (snd (RenameSection one_key (lit "Net") (lit "Network")))
                (lit "Network") = true.
Proof.
  assert (Hok : fst (RenameSection one_key (lit "Net") (lit "Network")) = true)
    by reflexivity.
  split; [exact Hok|].
  destruct (RenameSection_moves one_key (lit "Net") (lit "Network")) as (_ & H).
  destruct (H Hok) as (Hnew & _). exact Hnew.
Defined.

(** ** AddSection, RemoveSection and ClearSection *)

Lemma set_mData_same (ini : havINIStream) : set_mData ini (mData ini) = ini.
Proof. now destruct ini. Qed.

Lemma erase_at_app_last {A} (l : list A) (x : A) :
  INIData.erase_at (List.length l) (l ++ [x]) = l.
Proof.
  induction l as [|y l IH]; [reflexivity|].
  cbn [List.length app]. rewrite erase_at_cons. now rewrite IH.
Qed.

Lemma section_named_append (ini : havINIStream) (s : havINISection)
    (name' : str) :
  section_named ini (INISection.mSectionName s) = None ->
  section_named (set_mData ini (mData ini ++ [s])) name'
  = if str_eqb name' (INISection.mSectionName s) then Some s
    else section_named ini name'.
Proof.
  intros Hn. unfold section_named in *. cbn [mData set_mData].
  rewrite find_app_last.
  replace (name_is name' s) with (str_eqb (INISection.mSectionName s) name')
    by reflexivity.
  destruct (str_eqb name' (INISection.mSectionName s)) eqn:E.
  - apply str_eqb_eq in E. subst name'. rewrite Hn. now rewrite str_eqb_refl.
  - assert (E' : str_eqb (INISection.mSectionName s) name' = false)
      by (apply str_eqb_neq; apply str_eqb_neq in E; congruence).
    rewrite E'. now destruct (find (name_is name') _).
Qed.

(** X6. [AddSection] succeeds exactly when the name is free. Afterwards the
    section is there, the number of sections has grown by one when the call
    succeeded, and no key has appeared, gone or changed its value. *)
Theorem AddSection_adds :
  forall (ini : havINIStream) (sectionName : str),
    let ini' := snd (AddSection ini sectionName) in
    fst (AddSection ini sectionName) = negb (HasSection ini sectionName)
    /\ HasSection ini' sectionName = true
    /\ GetNumberOfSections ini'
       = GetNumberOfSections ini + (if HasSection ini sectionName then 0 else 1)
    /\ (forall sectionName' keyName defaultValue,
           GetValue ini' sectionName' keyName defaultValue
           = GetValue ini sectionName' keyName defaultValue
           /\ HasKey ini' sectionName' keyName
              = HasKey ini sectionName' keyName).
Proof.
  intros ini sectionName ini'. subst ini'.
  unfold AddSection, HasSection, GetNumberOfSections.
  destruct (find_if (name_is (havUtils.ToLower sectionName)) (mData ini))
    as [i|] eqn:Hi; cbn [fst snd negb].
  - rewrite Hi. repeat split. lia.
  - cbn [mData set_mData].
    rewrite find_if_app_last
      by (try assumption; unfold name_is; cbn; apply str_eqb_refl).
    rewrite length_app. cbn [List.length]. repeat split.
    + rewrite !GetValue_entry_of. unfold entry_of.
      rewrite section_named_append by (now apply section_named_none).
      cbn [INISection.make INISection.mSectionName].
      destruct (str_eqb _ _) eqn:E; [|reflexivity].
      apply str_eqb_eq in E. rewrite E.
      now rewrite (section_named_none _ _ Hi).
    + rewrite !HasKey_entry_of. unfold entry_of.
      rewrite section_named_append by (now apply section_named_none).
      cbn [INISection.make INISection.mSectionName].
      destruct (str_eqb _ _) eqn:E; [|reflexivity].
      apply str_eqb_eq in E. rewrite E.
      now rewrite (section_named_none _ _ Hi).
Qed.

Lemma RemoveSection_fst (ini : havINIStream) (sectionName : str) :
  fst (RemoveSection ini sectionName) = HasSection ini sectionName.
Proof.
  unfold RemoveSection, HasSection. now destruct (find_if _ (mData ini)).
Qed.

Lemma section_named_RemoveSection_other (ini : havINIStream)
    (sectionName name' : str) :
  name' <> havUtils.ToLower sectionName ->
  section_named (snd (RemoveSection ini sectionName)) name'
  = section_named ini name'.
Proof.
  intros Hother. unfold RemoveSection.
  destruct (find_if _ (mData ini)) as [i|] eqn:Hi; [|reflexivity].
  cbn [snd]. unfold section_named. cbn [mData set_mData].
  apply find_erase_miss. intros s Hs.
  destruct (find_if_holds _ _ _ Hi) as (s' & Hs' & Hname).
  rewrite Hs in Hs'. injection Hs' as <-. apply name_is_eq in Hname.
  unfold name_is, INISection.GetSectionName. rewrite Hname.
  apply str_eqb_neq. congruence.
Qed.

(** X7. [RemoveSection] answers whether the section was there and takes one
    section away when it was; the sections with other names are as they
    were, and in a document without duplicate names the section and its keys
    are gone. *)
Theorem RemoveSection_removes :
  forall (ini : havINIStream) (sectionName : str),
    let ini' := snd (RemoveSection ini sectionName) in
    fst (RemoveSection ini sectionName) = HasSection ini sectionName
    /\ GetNumberOfSections ini'
       = GetNumberOfSections ini - (if HasSection ini sectionName then 1 else 0)
    /\ (well_keyed ini ->
        HasSection ini' sectionName = false
        /\ forall keyName defaultValue,
             HasKey ini' sectionName keyName = false
             /\ GetValue ini' sectionName keyName defaultValue = defaultValue)
    /\ (forall sectionName' keyName defaultValue,
           havUtils.ToLower sectionName' <> havUtils.ToLower sectionName ->
           HasSection ini' sectionName' = HasSection ini sectionName'
           /\ GetValue ini' sectionName' keyName defaultValue
              = GetValue ini sectionName' keyName defaultValue
           /\ HasKey ini' sectionName' keyName
              = HasKey ini sectionName' keyName).
Proof.
  intros ini sectionName ini'. split; [apply RemoveSection_fst|].
  split; [|split].
  - subst ini'. unfold RemoveSection, HasSection, GetNumberOfSections.
    destruct (find_if _ (mData ini)) as [i|] eqn:Hi; cbn [snd];
      [|lia].
    cbn [mData set_mData]. apply length_erase_at.
    now apply find_if_bound in Hi.
  - intros Hwk.
    assert (Hgone : section_named ini' (havUtils.ToLower sectionName) = None).
    { subst ini'. unfold RemoveSection.
      destruct (find_if _ (mData ini)) as [i|] eqn:Hi; cbn [snd].
      - unfold section_named. cbn [mData set_mData].
        apply (find_erase_unique INISection.mSectionName); [|exact Hi].
        now apply well_keyed_names.
      - now apply section_named_none. }
    split; [|intros keyName defaultValue].
    + rewrite HasSection_section_named. now rewrite Hgone.
    + rewrite HasKey_entry_of, GetValue_entry_of. unfold entry_of.
      rewrite Hgone. now split.
  - intros sectionName' keyName defaultValue Hother.
    rewrite !HasSection_section_named, !GetValue_entry_of, !HasKey_entry_of.
    unfold entry_of. subst ini'.
    rewrite (section_named_RemoveSection_other _ _ _ Hother).
    repeat split; reflexivity.
Qed.

Lemma RemoveSection_removes_witness :
  well_keyed one_key
  /\ HasSection (snd (RemoveSection one_key (lit "NET"))) (lit "NET") = false.
Proof.
  assert (Hwk : well_keyed one_key) by solve_well_keyed.
  split; [exact Hwk|].
  destruct (RemoveSection_removes one_key (lit "NET")) as (_ & _ & H & _).
  destruct (H Hwk) as (Hgone & _). exact Hgone.
Defined.

(** X8. Removing a section that [AddSection] has just added gives back the
    document as it was. *)
Theorem RemoveSection_AddSection :
  forall (ini : havINIStream) (sectionName : str),
    HasSection ini sectionName = false ->
    snd (RemoveSection (snd (AddSection ini sectionName)) sectionName) = ini.
Proof.
  intros ini sectionName Hnew. unfold AddSection, RemoveSection.
  unfold HasSection in Hnew.
  destruct (find_if (name_is (havUtils.ToLower sectionName)) (mData ini))
    eqn:Hi; [discriminate|]. cbn [snd mData set_mData].
  rewrite find_if_app_last
    by (try assumption; unfold name_is; cbn; apply str_eqb_refl).
  cbn [snd]. rewrite erase_at_app_last.
  destruct ini; reflexivity.
Qed.

Lemma RemoveSection_AddSection_witness :
  HasSection havINIStream_new (lit "Net") = false
  /\ snd (RemoveSection (snd (AddSection havINIStream_new (lit "Net")))
                        (lit "Net"))
     = havINIStream_new.
Proof.
  split; [reflexivity|].
  apply (RemoveSection_AddSection havINIStream_new (lit "Net")). reflexivity.
Defined.

Lemma section_named_ClearSection (ini : havINIStream) (sectionName name' : str) :
  section_named (snd (ClearSection ini sectionName)) name'
  = if str_eqb name' (havUtils.ToLower sectionName)
    then option_map INISection.Clear (section_named ini name')
    else section_named ini name'.
Proof.
  unfold ClearSection.
  destruct (find_if _ (mData ini)) as [i|] eqn:Hi; cbn [snd].
  - rewrite (section_named_with_section ini i _ _ name' Hi) by reflexivity.
    destruct (str_eqb name' _) eqn:E; [|reflexivity].
    apply str_eqb_eq in E. now subst name'.
  - destruct (str_eqb name' _) eqn:E; [|reflexivity].
    apply str_eqb_eq in E. subst name'.
    now rewrite (section_named_none _ _ Hi).
Qed.

(** X9. [ClearSection] answers whether the section is there. The section
    stays, without any key; the sections with other names are as they were.
    *)
Theorem ClearSection_clears :
  forall (ini : havINIStream) (sectionName : str),
    let ini' := snd (ClearSection ini sectionName) in
    fst (ClearSection ini sectionName) = HasSection ini sectionName
    /\ HasSection ini' sectionName = HasSection ini sectionName
    /\ GetNumberOfSections ini' = GetNumberOfSections ini
    /\ GetNumberOfKeys ini' sectionName = 0
    /\ (forall keyName defaultValue,
           HasKey ini' sectionName keyName = false
           /\ GetValue ini' sectionName keyName defaultValue = defaultValue)
    /\ (forall sectionName' keyName defaultValue,
           havUtils.ToLower sectionName' <> havUtils.ToLower sectionName ->
           HasSection ini' sectionName' = HasSection ini sectionName'
           /\ GetValue ini' sectionName' keyName defaultValue
              = GetValue ini sectionName' keyName defaultValue
           /\ HasKey ini' sectionName' keyName
              = HasKey ini sectionName' keyName).
Proof.
  intros ini sectionName ini'.
  pose proof (section_named_ClearSection ini sectionName) as H.
  fold ini' in H.
  split; [|split; [|split; [|split; [|split]]]].
  - unfold ClearSection, HasSection. now destruct (find_if _ (mData ini)).
  - rewrite !HasSection_section_named, H, str_eqb_refl.
    now destruct (section_named ini _).
  - subst ini'. unfold ClearSection, GetNumberOfSections.
    destruct (find_if _ (mData ini)); cbn [snd]; [|reflexivity].
    unfold with_section. cbn [mData set_mData]. apply length_modify.
  - rewrite GetNumberOfKeys_section_named, H, str_eqb_refl.
    now destruct (section_named ini _).
  - intros keyName defaultValue.
    rewrite HasKey_entry_of, GetValue_entry_of. unfold entry_of.
    rewrite H, str_eqb_refl. now destruct (section_named ini _).
  - intros sectionName' keyName defaultValue Hother.
    rewrite !HasSection_section_named, !GetValue_entry_of, !HasKey_entry_of.
    unfold entry_of. rewrite H.
    apply str_eqb_neq in Hother. rewrite Hother. repeat split; reflexivity.
Qed.

Lemma ClearSection_clears_witness :
  GetValue (snd (ClearSection two_sections (lit "net")))
           (lit "Log") (lit "Level") []
  = GetValue two_sections (lit "Log") (lit "Level") [].
Proof.
  destruct (ClearSection_clears two_sections (lit "net"))
    as (_ & _ & _ & _ & _ & H).
  apply H. vm_compute. discriminate.
Defined.

(** ** Unique names and keys *)

Lemma map_modify_at {A B} (k : A -> B) (f : A -> A) (l : list A) (i : nat)
    (x : A) :
  nth_error l i = Some x -> k (f x) = k x -> map k (modify i f l) = map k l.
Proof.
  revert i; induction l as [|z l IH]; intros [|i] Hn Hk; simpl in *;
    try discriminate.
  - injection Hn as ->. now rewrite Hk.
  - now rewrite (IH i Hn Hk).
Qed.

Lemma Forall_modify {A} (P : A -> Prop) (f : A -> A) (l : list A) (i : nat)
    (x : A) :
  Forall P l -> nth_error l i = Some x -> P (f x) -> Forall P (modify i f l).
Proof.
  revert i; induction l as [|z l IH]; intros [|i] Hall Hn Hp; simpl in *;
    try discriminate; inversion Hall; subst; constructor; try assumption.
  - now injection Hn as ->.
  - now apply (IH i).
Qed.

Lemma Forall_erase_at {A} (P : A -> Prop) (l : list A) (i : nat) :
  Forall P l -> Forall P (INIData.erase_at i l).
Proof.
  intros H. rewrite Forall_forall in *. intros x Hx. apply H.
  now apply In_erase_at in Hx.
Qed.

Lemma insert_at_length {A} (l : list A) (x : A) :
  insert_at (List.length l) x l = l ++ [x].
Proof. unfold insert_at. now rewrite firstn_all, skipn_all. Qed.

Lemma well_keyed_with_section (ini : havINIStream) (i : nat)
    (f : havINISection -> havINISection) (s : havINISection) :
  well_keyed ini -> nth_error (mData ini) i = Some s ->
  INISection.mSectionName (f s) = INISection.mSectionName s ->
  unique_keys (f s) ->
  well_keyed (with_section ini i f).
Proof.
  intros [Hnames Hkeys] Hn Hname Hu. split.
  - unfold unique_names, with_section. cbn [mData set_mData].
    now rewrite (map_modify_at _ _ _ _ s Hn Hname).
  - unfold with_section. cbn [mData set_mData].
    now apply (Forall_modify _ _ _ _ s).
Qed.

Lemma well_keyed_push (ini : havINIStream) (s : havINISection) :
  well_keyed ini ->
  find_if (name_is (INISection.mSectionName s)) (mData ini) = None ->
  unique_keys s ->
  well_keyed (set_mData ini (mData ini ++ [s])).
Proof.
  intros [Hnames Hkeys] Hnew Hu. split.
  - unfold unique_names. cbn [mData set_mData]. rewrite map_app.
    apply NoDup_app_last; [assumption|].
    now apply (find_if_none_key INISection.mSectionName).
  - cbn [mData set_mData]. apply Forall_app. split; [assumption|].
    now constructor.
Qed.

Lemma well_keyed_at (ini : havINIStream) (i : nat) (s : havINISection) :
  well_keyed ini -> nth_error (mData ini) i = Some s -> unique_keys s.
Proof.
  intros [_ Hall] Hn. rewrite Forall_forall in Hall. apply Hall.
  now apply nth_error_In in Hn.
Qed.

Lemma unique_keys_pairs (s : havINISection) (pairs : list havINIData) :
  unique_keys (INISection.set_pairs s pairs)
  <-> NoDup (map INIData.mKey pairs).
Proof. reflexivity. Qed.

Lemma unique_keys_modify (s : havINISection) (j : nat)
    (g : havINIData -> havINIData) :
  unique_keys s -> (forall d, INIData.mKey (g d) = INIData.mKey d) ->
  unique_keys (INISection.set_pairs
                 s (modify j g (INISection.mKeyValuePairs s))).
Proof.
  intros Hu Hg. apply unique_keys_pairs. now rewrite map_modify_same.
Qed.

Lemma unique_keys_SetKeyValuePair (s : havINISection) (key value : str)
    (addQuotes : bool) :
  unique_keys s -> unique_keys (INISection.SetKeyValuePair s key value addQuotes).
Proof.
  intros Hu. unfold INISection.SetKeyValuePair.
  destruct (find_if _ (INISection.mKeyValuePairs s)) as [j|] eqn:Hj.
  - now apply unique_keys_modify.
  - apply unique_keys_pairs. rewrite map_app. apply NoDup_app_last;
      [assumption|].
    now apply (find_if_none_key INIData.mKey).
Qed.

(** Where [place] puts the entry. *)
Lemma place_insert (s s' : havINISection) (entry : havINIData)
    (position : havINIPosition) (otherKeyName : option str) :
  INISection.place s entry position otherKeyName = Ok s' ->
  exists i, s' = INISection.set_pairs
                   s (insert_at i entry (INISection.mKeyValuePairs s)).
Proof.
  unfold INISection.place. intros H.
  destruct position; cbn [bind] in H.
  - injection H as <-. now exists 0.
  - injection H as <-. exists (List.length (INISection.mKeyValuePairs s)).
    now rewrite insert_at_length.
  - destruct (find_if _ _) as [i|]; cbn [bind] in H.
    + injection H as <-. now exists i.
    + destruct otherKeyName; discriminate.
  - destruct (find_if _ _) as [i|]; cbn [bind] in H.
    + injection H as <-. now exists (i + 1).
    + destruct otherKeyName; discriminate.
Qed.

Lemma unique_keys_place (s s' : havINISection) (entry : havINIData)
    (position : havINIPosition) (otherKeyName : option str) :
  unique_keys s ->
  find_if (INIData.key_is (INIData.mKey entry)) (INISection.mKeyValuePairs s)
  = None ->
  INISection.place s entry position otherKeyName = Ok s' ->
  unique_keys s' /\ INISection.mSectionName s' = INISection.mSectionName s.
Proof.
  intros Hu Hnew H. apply place_insert in H. destruct H as (i & ->).
  split; [|reflexivity]. apply unique_keys_pairs. rewrite map_insert_at.
  apply NoDup_insert_at; [assumption|].
  now apply (find_if_none_key INIData.mKey).
Qed.

Lemma unique_keys_SetComment (s s' : havINISection) (key value : str)
    (position : havINIPosition) (otherKeyName : option str) (r : bool) :
  unique_keys s ->
  INISection.SetComment s key value position otherKeyName = Ok (r, s') ->
  unique_keys s' /\ INISection.mSectionName s' = INISection.mSectionName s.
Proof.
  intros Hu. unfold INISection.SetComment.
  destruct (find_if _ (INISection.mKeyValuePairs s)) eqn:Hf.
  - intros H. injection H as _ <-. now split.
  - destruct (INISection.place _ _ _ _) as [s1|] eqn:Hp; [|discriminate].
    cbn [bind]. intros H. injection H as _ <-.
    refine (unique_keys_place _ _ _ _ _ Hu _ Hp). exact Hf.
Qed.

Lemma unique_keys_SetEmptyLine (s s' : havINISection) (key : str)
    (position : havINIPosition) (otherKeyName : option str) (r : bool) :
  unique_keys s ->
  INISection.SetEmptyLine s key position otherKeyName = Ok (r, s') ->
  unique_keys s' /\ INISection.mSectionName s' = INISection.mSectionName s.
Proof.
  intros Hu. unfold INISection.SetEmptyLine.
  destruct (find_if _ (INISection.mKeyValuePairs s)) eqn:Hf.
  - intros H. injection H as _ <-. now split.
  - destruct (INISection.place _ _ _ _) as [s1|] eqn:Hp; [|discriminate].
    cbn [bind]. intros H. injection H as _ <-.
    refine (unique_keys_place _ _ _ _ _ Hu _ Hp). exact Hf.
Qed.

Lemma unique_keys_remove_typed (s : havINISection) (keyName : str)
    (type : havINIDataType) :
  unique_keys s -> unique_keys (snd (INISection.remove_typed s keyName type)).
Proof.
  intros Hu. unfold INISection.remove_typed.
  destruct (find_if _ (INISection.mKeyValuePairs s)); [|assumption].
  cbn [snd]. apply unique_keys_pairs. rewrite map_erase_at.
  now apply NoDup_erase_at.
Qed.

Lemma remove_typed_name (s : havINISection) (keyName : str)
    (type : havINIDataType) :
  INISection.mSectionName (snd (INISection.remove_typed s keyName type))
  = INISection.mSectionName s.
Proof.
  unfold INISection.remove_typed.
  now destruct (find_if _ (INISection.mKeyValuePairs s)).
Qed.

Lemma well_keyed_in_section (ini : havINIStream) (name : str)
    (f : havINISection -> bool * havINISection) :
  well_keyed ini ->
  (forall s, unique_keys s ->
             unique_keys (snd (f s))
             /\ INISection.mSectionName (snd (f s)) = INISection.mSectionName s) ->
  well_keyed (snd (in_section ini name f)).
Proof.
  intros Hwk Hf. rewrite in_section_snd.
  destruct (find_if _ (mData ini)) as [i|] eqn:Hi; [|assumption].
  destruct (find_if_holds _ _ _ Hi) as (s & Hn & _).
  destruct (Hf s (well_keyed_at _ _ _ Hwk Hn)) as [Hu Hname].
  now apply (well_keyed_with_section _ _ _ s).
Qed.

Lemma SetValue_snd (ini : havINIStream) (sectionName keyName value : str)
    (addQuotes : bool) :
  snd (SetValue ini sectionName keyName value addQuotes)
  = match find_if (name_is (havUtils.ToLower sectionName)) (mData ini) with
    | Some i =>
        with_section ini i
          (fun s => INISection.SetKeyValuePair s (havUtils.ToLower keyName)
                                               value addQuotes)
    | None =>
        set_mData ini
          (mData ini
           ++ [INISection.SetKeyValuePair
                 (INISection.make (havUtils.ToLower sectionName))
                 (havUtils.ToLower keyName) value addQuotes])
    end.
Proof.
  unfold SetValue.
  destruct (find_if _ (mData ini)) as [i|] eqn:Hs; [|reflexivity].
  destruct (find_if_holds _ _ _ Hs) as (s & Hn & _). rewrite Hn.
  unfold INISection.GetKeyValuePair. rewrite ToLower_idem.
  destruct (find_if _ (INISection.mKeyValuePairs s)) as [j|] eqn:Hk;
    cbn [snd]; [|reflexivity].
  unfold with_section. f_equal. apply (modify_ext_at _ _ _ _ s Hn).
  unfold INISection.SetKeyValuePair. now rewrite ToLower_idem, Hk.
Qed.

Lemma well_keyed_SetValue (ini : havINIStream) (sectionName keyName value : str)
    (addQuotes : bool) :
  well_keyed ini ->
  well_keyed (snd (SetValue ini sectionName keyName value addQuotes)).
Proof.
  intros Hwk. rewrite SetValue_snd.
  destruct (find_if _ (mData ini)) as [i|] eqn:Hi.
  - destruct (find_if_holds _ _ _ Hi) as (s & Hn & _).
    apply (well_keyed_with_section _ _ _ s); try assumption.
    + apply name_is_eq. rewrite name_is_SetKeyValuePair. now apply name_is_eq.
    + apply unique_keys_SetKeyValuePair. exact (well_keyed_at _ _ _ Hwk Hn).
  - apply well_keyed_push; try assumption.
    apply unique_keys_SetKeyValuePair. constructor.
Qed.

Lemma well_keyed_stream_line (ini ini' : havINIStream) (name : str)
    (count : havINISection -> N * havINISection)
    (set : havINISection -> result (bool * havINISection)) (r : bool) :
  well_keyed ini ->
  (forall s, INISection.mSectionName (snd (count s)) = INISection.mSectionName s
             /\ INISection.mKeyValuePairs (snd (count s))
                = INISection.mKeyValuePairs s) ->
  (forall s s' b, unique_keys s -> set s = Ok (b, s') ->
                  unique_keys s'
                  /\ INISection.mSectionName s' = INISection.mSectionName s) ->
  match find_if (name_is name) (mData ini) with
  | Some i =>
      match nth_error (mData ini) i with
      | Some sectionEntry =>
          '(_, sectionEntry) <- set (snd (count sectionEntry)) ;;
          Ok (true, with_section ini i (fun _ => sectionEntry))
      | None => Ok (false, ini)
      end
  | None => Ok (false, ini)
  end = Ok (r, ini') ->
  well_keyed ini'.
Proof.
  intros Hwk Hcount Hset H.
  destruct (find_if _ (mData ini)) as [i|] eqn:Hi.
  2:{ injection H as _ <-. assumption. }
  destruct (nth_error (mData ini) i) as [s|] eqn:Hn.
  2:{ injection H as _ <-. assumption. }
  destruct (set (snd (count s))) as [[b s']|] eqn:Hs; [|discriminate].
  cbn [bind] in H. injection H as _ <-.
  destruct (Hcount s) as [Hname Hpairs].
  assert (Hu : unique_keys (snd (count s))).
  { unfold unique_keys. rewrite Hpairs. exact (well_keyed_at _ _ _ Hwk Hn). }
  destruct (Hset _ _ _ Hu Hs) as [Hu' Hname'].
  apply (well_keyed_with_section _ _ _ s); try assumption.
  congruence.
Qed.

(** X10. No call of the document interface makes a section name or a key of
    a section occur twice. *)
Theorem mutation_keeps_names_unique :
  forall ini ini' : havINIStream,
    well_keyed ini -> mutation ini ini' -> well_keyed ini'.
Proof.
  intros ini ini' Hwk Hm.
  destruct Hm as [name key value addQuotes | name | name
                 | name position key r ini' H
                 | name comment position key r ini' H
                 | name key | name key | name key inlineComment
                 | name key | name | name old new | old new
                 | name inlineComment | name].
  - now apply well_keyed_SetValue.
  - unfold AddSection.
    destruct (find_if _ (mData ini)) eqn:Hi; [assumption|]. cbn [snd].
    apply well_keyed_push; try assumption. constructor.
  - unfold section_subscript.
    destruct (find_if _ (mData ini)) eqn:Hi; [assumption|].
    assert (Hwk' : well_keyed
                     (set_mData ini
                        (mData ini
                         ++ [INISection.make (havUtils.ToLower name)])))
      by (apply well_keyed_push; try assumption; constructor).
    now destruct (find_if _ (mData ini ++ _)).
  - unfold SetEmptyLine_stream in H.
    refine (well_keyed_stream_line
              ini ini' _ INISection.GetEmptyLineCount
              (fun s => INISection.SetEmptyLine
                          s (havUtils.ToLower (lit "HI_EL_")
                             ++ to_string (INISection.mEmptyLineCount s))
                          position
                          (option_map havUtils.ToLower key))
              r Hwk _ _ _).
    + intros s. now split.
    + intros s s' b Hu Hs. exact (unique_keys_SetEmptyLine _ _ _ _ _ _ Hu Hs).
    + exact H.
  - unfold SetComment_stream in H.
    refine (well_keyed_stream_line
              ini ini' _ INISection.GetCommentLineCount
              (fun s => INISection.SetComment
                          s (lit "hi_c_"
                             ++ to_string (INISection.mCommentLineCount s))
                          comment position
                          (option_map havUtils.ToLower key))
              r Hwk _ _ _).
    + intros s. now split.
    + intros s s' b Hu Hs. exact (unique_keys_SetComment _ _ _ _ _ _ _ Hu Hs).
    + exact H.
  - apply well_keyed_in_section; [assumption|]. intros s Hu. split.
    + now apply unique_keys_remove_typed.
    + apply remove_typed_name.
  - apply well_keyed_in_section; [assumption|]. intros s Hu. split.
    + now apply unique_keys_remove_typed.
    + apply remove_typed_name.
  - apply well_keyed_in_section; [assumption|]. intros s Hu. cbv beta.
    destruct (INISection.GetKeyValuePair s _); [|now split].
    split; [|reflexivity]. now apply unique_keys_modify.
  - apply well_keyed_in_section; [assumption|]. intros s Hu. cbv beta.
    destruct (INISection.GetKeyValuePair s _); [|now split].
    split; [|reflexivity].
    apply unique_keys_pairs. rewrite map_erase_at. now apply NoDup_erase_at.
  - unfold RemoveSection.
    destruct (find_if _ (mData ini)); [|assumption]. cbn [snd].
    destruct Hwk as [Hnames Hkeys]. split.
    + unfold unique_names. cbn [mData set_mData]. rewrite map_erase_at.
      now apply NoDup_erase_at.
    + cbn [mData set_mData]. now apply Forall_erase_at.
  - apply well_keyed_in_section; [assumption|]. intros s Hu. cbv beta.
    destruct (find_if _ (INISection.mKeyValuePairs s)) eqn:Hnew; [now split|].
    destruct (INISection.GetKeyValuePair s _) as [j|] eqn:Hj; [|now split].
    split; [|reflexivity]. cbn [snd].
    destruct (find_if_holds _ _ _ Hj) as (d & Hd & _).
    apply unique_keys_pairs.
    apply (NoDup_modify_rename INIData.mKey _ _ j d); try assumption.
    cbn [INIData.SetKey INIData.mKey]. rewrite !ToLower_idem.
    now apply (find_if_none_key INIData.mKey).
  - unfold RenameSection.
    destruct (find_if (name_is (havUtils.ToLower new)) _) eqn:Hnew;
      [assumption|].
    destruct (find_if (name_is (havUtils.ToLower old)) _)
      as [i|] eqn:Hi; [|assumption]. cbn [snd].
    destruct (find_if_holds _ _ _ Hi) as (s & Hs & _).
    destruct Hwk as [Hnames Hkeys]. split.
    + unfold unique_names, with_section. cbn [mData set_mData].
      apply (NoDup_modify_rename INISection.mSectionName _ _ i s);
        try assumption.
      cbn [INISection.SetSectionName INISection.mSectionName].
      rewrite ToLower_idem.
      now apply (find_if_none_key INISection.mSectionName).
    + unfold with_section. cbn [mData set_mData].
      apply (Forall_modify _ _ _ _ s); try assumption.
      exact (well_keyed_at ini i s (conj Hnames Hkeys) Hs).
  - unfold SetSectionInlineComment.
    destruct (find_if _ (mData ini)) as [i|] eqn:Hi; [|assumption]. cbn [snd].
    destruct (find_if_holds _ _ _ Hi) as (s & Hs & _).
    apply (well_keyed_with_section _ _ _ s); try assumption; try reflexivity.
    exact (well_keyed_at _ _ _ Hwk Hs).
  - unfold ClearSection.
    destruct (find_if _ (mData ini)) as [i|] eqn:Hi; [|assumption]. cbn [snd].
    destruct (find_if_holds _ _ _ Hi) as (s & Hs & _).
    apply (well_keyed_with_section _ _ _ s); try assumption; try reflexivity.
    constructor.
Qed.

Lemma mutation_keeps_names_unique_witness : well_keyed one_key.
Proof.
  apply (mutation_keeps_names_unique havINIStream_new).
  - solve_well_keyed.
  - apply by_SetValue.
Defined.

(** ** ParseFile keeps names and keys unique *)

Lemma INIData_SetArrayEntry_key (d d' : havINIData) (key value : str)
    (addQuotes setInlineComment : bool) (inlineComment : str) :
  INIData.SetArrayEntry d key value addQuotes setInlineComment inlineComment
  = Ok d' ->
  INIData.mKey d' = INIData.mKey d.
Proof.
  unfold INIData.SetArrayEntry. intros H.
  destruct (empty key).
  - unfold INIData.GetArrayIndex in H.
    destruct (INIData.GetArrayIndex_loop _ _) as [n|]; [|discriminate].
    cbn [bind] in H. cbv beta iota zeta in H.
    destruct (find_if _ _).
    + injection H as <-. reflexivity.
    + destruct setInlineComment.
      * destruct (find_if _ _); injection H as <-; reflexivity.
      * injection H as <-. reflexivity.
  - cbn [bind] in H. cbv beta iota zeta in H.
    destruct (find_if _ _).
    + injection H as <-. reflexivity.
    + destruct setInlineComment.
      * destruct (find_if _ _); injection H as <-; reflexivity.
      * injection H as <-. reflexivity.
Qed.

Lemma modify_result_keys (i : nat) (f : havINIData -> result havINIData)
    (l l' : list havINIData) :
  (forall d d', f d = Ok d' -> INIData.mKey d' = INIData.mKey d) ->
  INISection.modify_result i f l = Ok l' ->
  map INIData.mKey l' = map INIData.mKey l.
Proof.
  intros Hf. unfold INISection.modify_result.
  destruct (nth_error l i) as [d|] eqn:Hn.
  - destruct (f d) as [d'|] eqn:Hd; [|discriminate]. cbn [bind].
    intros H. injection H as <-.
    apply (map_modify_at _ _ _ _ d Hn). now apply Hf.
  - intros H. now injection H as <-.
Qed.

Lemma unique_keys_SetArrayEntry (s s' : havINISection) (key value : str)
    (addQuotes setInlineComment : bool) (inlineComment arrayIndex : str)
    (hasArrayIndex : bool) :
  unique_keys s ->
  INISection.SetArrayEntry s key value addQuotes setInlineComment
                           inlineComment arrayIndex hasArrayIndex = Ok s' ->
  unique_keys s' /\ INISection.mSectionName s' = INISection.mSectionName s.
Proof.
  intros Hu. unfold INISection.SetArrayEntry.
  set (set := fun d => INIData.SetArrayEntry d _ value addQuotes
                                             setInlineComment inlineComment).
  assert (Hset : forall d d', set d = Ok d' -> INIData.mKey d' = INIData.mKey d)
    by (intros d d'; apply INIData_SetArrayEntry_key).
  destruct (find_if _ (INISection.mKeyValuePairs s)) eqn:Hf.
  - destruct (INISection.modify_result _ _ _) as [pairs|] eqn:Hm;
      [|discriminate].
    cbn [bind]. intros H. injection H as <-. split; [|reflexivity].
    apply unique_keys_pairs. now rewrite (modify_result_keys _ _ _ _ Hset Hm).
  - assert (Hnew : NoDup (map INIData.mKey
                            (INISection.mKeyValuePairs s
                             ++ [INIData.make_key (havUtils.ToLower key) Array
                                                  hasArrayIndex false]))).
    { rewrite map_app. apply NoDup_app_last; [assumption|].
      now apply (find_if_none_key INIData.mKey). }
    destruct (find_if _ (_ ++ _)).
    + destruct (INISection.modify_result _ _ _) as [pairs|] eqn:Hm;
        [|discriminate].
      cbn [bind]. intros H. injection H as <-. split; [|reflexivity].
      apply unique_keys_pairs.
      now rewrite (modify_result_keys _ _ _ _ Hset Hm).
    + intros H. injection H as <-. split; [|reflexivity].
      now apply unique_keys_pairs.
Qed.

(** The two ways the parser reaches a section: it is made and appended
    when the name is free, changed in place when the name is there. *)
Lemma well_keyed_section_call (ini ini' : havINIStream) (name : str)
    (f : havINISection -> result havINISection) :
  well_keyed ini -> havUtils.ToLower name = name ->
  (forall s s', unique_keys s -> f s = Ok s' ->
                unique_keys s'
                /\ INISection.mSectionName s' = INISection.mSectionName s) ->
  (if negb (HasSection ini name) then
     s <- f (INISection.make name) ;; Ok (push_section ini s)
   else on_section ini name f) = Ok ini' ->
  well_keyed ini'.
Proof.
  intros Hwk Hlow Hf. unfold HasSection, on_section, GetSection.
  rewrite Hlow.
  destruct (find_if (name_is name) (mData ini)) as [i|] eqn:Hi; cbn [negb].
  - destruct (find_if_holds _ _ _ Hi) as (s & Hn & _). rewrite Hn.
    destruct (f s) as [s'|] eqn:Hs; [|discriminate]. cbn [bind].
    intros H. injection H as <-.
    destruct (Hf s s' (well_keyed_at _ _ _ Hwk Hn) Hs) as [Hu Hname].
    now apply (well_keyed_with_section ini i (fun _ => s') s).
  - destruct (f (INISection.make name)) as [s'|] eqn:Hs; [|discriminate].
    cbn [bind]. intros H. injection H as <-.
    assert (Hu0 : unique_keys (INISection.make name)) by constructor.
    destruct (Hf _ s' Hu0 Hs) as [Hu Hname].
    apply well_keyed_push; try assumption.
    now rewrite Hname.
Qed.

Lemma well_keyed_parse_empty_line (p : ParseState) (ini ini' : havINIStream) :
  well_keyed ini -> havUtils.ToLower (sectionName p) = sectionName p ->
  parse_empty_line p ini = Ok ini' -> well_keyed ini'.
Proof.
  intros Hwk Hlow H.
  apply (well_keyed_section_call
           ini ini' (sectionName p)
           (fun s =>
              let '(emptyLineCount, s) := INISection.GetEmptyLineCount s in
              '(_, s) <- INISection.SetEmptyLine
                           s (lit "hi_el_" ++ to_string emptyLineCount)
                           End_ None ;;
              Ok s) Hwk Hlow); [|exact H].
  clear H. intros s s' Hu Hs.
  unfold INISection.GetEmptyLineCount in Hs. cbv beta iota zeta in Hs.
  match type of Hs with
  | bind (INISection.SetEmptyLine ?s1 ?k ?pos ?o) _ = _ =>
      destruct (INISection.SetEmptyLine s1 k pos o) as [[b s2]|] eqn:Hset;
      [|discriminate];
      cbn [bind] in Hs; injection Hs as <-;
      exact (unique_keys_SetEmptyLine s1 _ _ _ _ _ Hu Hset)
  end.
Qed.

Lemma well_keyed_parse_comment_line (line : str) (p : ParseState)
    (ini ini' : havINIStream) :
  well_keyed ini -> havUtils.ToLower (sectionName p) = sectionName p ->
  parse_comment_line line p ini = Ok ini' -> well_keyed ini'.
Proof.
  intros Hwk Hlow H. unfold parse_comment_line in H.
  set (text := if Ascii.eqb (back _) LF then _ else _) in H.
  apply (well_keyed_section_call
           ini ini' (sectionName p)
           (fun s =>
              let '(commentLineCount, s) := INISection.GetCommentLineCount s in
              '(_, s) <- INISection.SetComment
                           s (lit "hi_c_" ++ to_string commentLineCount)
                           text End_ None ;;
              Ok s) Hwk Hlow); [|exact H].
  clear H. intros s s' Hu Hs.
  unfold INISection.GetCommentLineCount in Hs. cbv beta iota zeta in Hs.
  match type of Hs with
  | bind (INISection.SetComment ?s1 ?k ?v ?pos ?o) _ = _ =>
      destruct (INISection.SetComment s1 k v pos o) as [[b s2]|] eqn:Hset;
      [|discriminate];
      cbn [bind] in Hs; injection Hs as <-;
      exact (unique_keys_SetComment s1 _ _ _ _ _ _ Hu Hset)
  end.
Qed.

Lemma well_keyed_section_loop (rest : str) :
  forall (characterIndex : nat) (newSection : bool)
         (sectionName errorMessage : str) (ini : havINIStream)
         (newSection' : bool) (sectionName' errorMessage' : str)
         (ini' : havINIStream),
    well_keyed ini ->
    section_loop rest characterIndex newSection sectionName errorMessage ini
    = (newSection', sectionName', errorMessage', ini') ->
    well_keyed ini'.
Proof.
  induction rest as [|c tl IH];
    intros ci ns sn err ini ns' sn' err' ini' Hwk H; cbn [section_loop] in H.
  - now injection H as _ _ _ <-.
  - destruct (Ascii.eqb c LF); [now injection H as _ _ _ <-|].
    destruct (Ascii.eqb c "["%char && (0 <? ci));
      [now injection H as _ _ _ <-|].
    destruct (Ascii.eqb c "["%char); [now apply IH in H|].
    destruct (Ascii.eqb c " "%char); [now apply IH in H|].
    destruct (Ascii.eqb c "]"%char); [now apply IH in H|].
    destruct (is_comment_char c); [|now apply IH in H].
    destruct ns; [now injection H as _ _ _ <-|].
    injection H as _ _ _ <-.
    unfold HasSection, GetSection. rewrite ToLower_idem.
    destruct (find_if (name_is (havUtils.ToLower sn)) (mData ini))
      as [i|] eqn:Hi; cbn [negb].
    + destruct (find_if_holds _ _ _ Hi) as (s & Hn & _).
      apply (well_keyed_with_section ini i _ s); try assumption;
        try reflexivity.
      exact (well_keyed_at _ _ _ Hwk Hn).
    + apply well_keyed_push; try assumption. constructor.
Qed.

Lemma well_keyed_insert_entry (ini ini' : havINIStream)
    (sectionName keyName value : str) (addQuotes hasInlineComment : bool)
    (newInlineComment arrayIndex : str) (isArrayKey hasArrayIndex : bool) :
  well_keyed ini -> havUtils.ToLower sectionName = sectionName ->
  insert_entry ini sectionName keyName value addQuotes hasInlineComment
               newInlineComment arrayIndex isArrayKey hasArrayIndex = Ok ini' ->
  well_keyed ini'.
Proof.
  intros Hwk Hlow H.
  apply (well_keyed_section_call
           ini ini' sectionName
           (fun s =>
              if isArrayKey then
                INISection.SetArrayEntry s keyName value addQuotes
                  hasInlineComment newInlineComment arrayIndex hasArrayIndex
              else
                let s := INISection.SetKeyValuePair s keyName value addQuotes in
                match INISection.GetKeyValuePair s keyName with
                | Some i =>
                    Ok (INISection.set_pairs
                          s (modify i (fun d => INIData.SetInlineComment
                                                  d newInlineComment)
                                    (INISection.mKeyValuePairs s)))
                | None => Ok s
                end) Hwk Hlow); [|exact H].
  clear H. intros s s' Hu. cbv beta zeta. destruct isArrayKey.
  - apply unique_keys_SetArrayEntry. assumption.
  - pose proof (unique_keys_SetKeyValuePair s keyName value addQuotes Hu) as Hu1.
    assert (Hname : INISection.mSectionName
                      (INISection.SetKeyValuePair s keyName value addQuotes)
                    = INISection.mSectionName s).
    { apply name_is_eq. rewrite name_is_SetKeyValuePair. now apply name_is_eq. }
    destruct (INISection.GetKeyValuePair _ _).
    + intros H. injection H as <-. split; [|exact Hname].
      now apply unique_keys_modify.
    + intros H. injection H as <-. now split.
Qed.

Lemma well_keyed_parse_line (line : str) (p p' : ParseState)
    (ini ini' : havINIStream) :
  well_keyed ini -> havUtils.ToLower (sectionName p) = sectionName p ->
  parse_line line p ini = Ok (p', ini') ->
  well_keyed ini' /\ havUtils.ToLower (sectionName p') = sectionName p'.
Proof.
  intros Hwk Hlow H. unfold parse_line in H.
  destruct (empty (strip_loop line false false [])).
  { destruct (parse_empty_line p ini) as [ini1|] eqn:He; cbn [bind] in H;
      [|discriminate].
    injection H as <- <-. split; [|assumption].
    now apply (well_keyed_parse_empty_line p ini). }
  set (line' := if negb (Ascii.eqb (back _) LF) then _ else _) in H.
  destruct (is_comment_char (at_ line' 0)).
  { destruct (parse_comment_line line' p ini) as [ini1|] eqn:He;
      cbn [bind] in H; [|discriminate].
    injection H as <- <-. split; [|assumption].
    now apply (well_keyed_parse_comment_line line' p ini). }
  destruct (Ascii.eqb (at_ line' 0) "["%char).
  { unfold parse_section_line in H.
    destruct (section_loop line' 0 true [] (errorMessage p) ini)
      as [[[ns sn] err] ini1] eqn:Hl.
    injection H as <- <-. split.
    - now apply (well_keyed_section_loop _ _ _ _ _ _ _ _ _ _ Hwk Hl).
    - cbn [sectionName]. apply ToLower_idem. }
  assert (Hkey : havUtils.ToLower
                   (sectionName (fst (if newKey p then parse_key line' p 0
                                      else (p, 0))))
                 = sectionName p
                 /\ sectionName (fst (if newKey p then parse_key line' p 0
                                      else (p, 0)))
                    = sectionName p).
  { destruct (newKey p); [|now split]. unfold parse_key.
    destruct (empty _); [|now split].
    destruct (classify_key _ _) as [[a b] c].
    destruct (key_loop _ _ _ _ _ _ _) as [[[ci kn] nk] err].
    destruct (empty _); now split. }
  destruct (if newKey p then parse_key line' p 0 else (p, 0)) as [p1 ci].
  cbn [fst] in Hkey. destruct Hkey as [Hlow1 Hsame].
  destruct (newValue p1).
  2:{ injection H as <- <-. split; [assumption|]. now rewrite Hsame. }
  unfold parse_value in H.
  destruct (empty _).
  2:{ injection H as <- <-. split; [assumption|]. cbn [sectionName].
      now rewrite Hsame. }
  destruct (empty _).
  2:{ injection H as <- <-. split; [assumption|]. cbn [sectionName].
      now rewrite Hsame. }
  destruct (insert_entry _ _ _ _ _ _ _ _ _ _) as [ini1|] eqn:Hi;
    cbn [bind] in H; [|discriminate].
  injection H as <- <-. split.
  - apply (well_keyed_insert_entry _ _ _ _ _ _ _ _ _ _ _ Hwk) in Hi;
      [assumption|]. now rewrite Hsame.
  - cbn [sectionName]. now rewrite Hsame.
Qed.

Lemma well_keyed_parse_lines (buffer : list str) :
  forall (p p' : ParseState) (ini ini' : havINIStream) (cout cout' : list str),
    well_keyed ini -> havUtils.ToLower (sectionName p) = sectionName p ->
    parse_lines buffer p ini cout = Ok (p', ini', cout') ->
    well_keyed ini' /\ havUtils.ToLower (sectionName p') = sectionName p'.
Proof.
  induction buffer as [|line rest IH];
    intros p p' ini ini' cout cout' Hwk Hlow H; cbn [parse_lines] in H.
  - injection H as <- <- _. now split.
  - destruct (negb (empty (errorMessage p))).
    + injection H as <- <- _. now split.
    + destruct (parse_line line p ini) as [[p1 ini1]|] eqn:Hl;
        cbn [bind] in H; [|discriminate].
      destruct (well_keyed_parse_line _ _ _ _ _ Hwk Hlow Hl) as [Hwk1 Hlow1].
      exact (IH _ _ _ _ _ _ Hwk1 Hlow1 H).
Qed.

(** A document that [ParseFile] has filled holds no section name and, in
    a section, no key twice, when it held none before. *)
Lemma well_keyed_ParseFile :
  forall (cvt : CodeCvt) (fileName : str) (file : option (list ascii))
         (ini ini' : havINIStream) (r : bool) (cout : list str),
    well_keyed ini ->
    ParseFile cvt fileName file ini = Ok (r, ini', cout) ->
    well_keyed ini'.
Proof.
  intros cvt fileName file ini ini' r cout Hwk H. unfold ParseFile in H.
  destruct file as [bytes|]; [|now injection H as _ <- _].
  destruct (size bytes =? 0); [now injection H as _ <- _|].
  destruct (size bytes <? 6); [now injection H as _ <- _|].
  destruct (detect_encoding _) as [bomType bytesToSkip].
  destruct (transcode _ _ _) as [fileContents|]; [|discriminate].
  cbn [bind] in H.
  destruct (segment fileContents) as [buffer|]; [|discriminate].
  cbn [bind] in H. unfold parse_buffer in H.
  destruct (parse_lines buffer ParseState_init ini _)
    as [[[p1 ini1] cout1]|] eqn:Hl; [|discriminate].
  cbn [bind] in H. cbv beta iota zeta in H. unfold parse_finish in H.
  injection H as _ <- _.
  destruct (well_keyed_parse_lines buffer ParseState_init _ ini _ _ _
                                   Hwk eq_refl Hl)
    as [Hwk1 Hlow1].
  unfold HasSection. rewrite Hlow1.
  destruct (find_if _ (mData ini1)) eqn:Hf; cbn [negb]; [assumption|].
  apply well_keyed_push; try assumption. constructor.
Qed.

(** ** havUtils: prefixes and suffixes *)

Lemma StartsWith_app (prefix rest : str) :
  havUtils.StartsWith (prefix ++ rest) prefix = true.
Proof.
  induction prefix as [|p prefix IH]; [now destruct rest|].
  cbn [app havUtils.StartsWith]. now rewrite Ascii.eqb_refl, IH.
Qed.

Lemma StartsWith_split (sv prefix : str) :
  havUtils.StartsWith sv prefix = true -> exists rest, sv = prefix ++ rest.
Proof.
  revert sv; induction prefix as [|p prefix IH]; intros sv H.
  - now exists sv.
  - destruct sv as [|c sv]; [discriminate|]. cbn [havUtils.StartsWith] in H.
    apply andb_true_iff in H. destruct H as [Hc H].
    apply Ascii.eqb_eq in Hc. subst c.
    destruct (IH sv H) as [rest ->]. now exists rest.
Qed.

Lemma skipn_app_length {A} (l l' : list A) : skipn (List.length l) (l ++ l') = l'.
Proof. induction l as [|x l IH]; [reflexivity|exact IH]. Qed.

(** X12. [StartsWith] and [EndsWith] hold exactly of the strings that are
    the prefix followed by something, and something followed by the suffix.
    *)
Theorem StartsWith_EndsWith_spec :
  forall sv part : str,
    (havUtils.StartsWith sv part = true <-> exists rest, sv = part ++ rest)
    /\ (havUtils.EndsWith sv part = true <-> exists rest, sv = rest ++ part).
Proof.
  intros sv part. split; split.
  - apply StartsWith_split.
  - intros [rest ->]. apply StartsWith_app.
  - unfold havUtils.EndsWith. intros H. apply andb_true_iff in H.
    destruct H as [_ H]. apply str_eqb_eq in H.
    exists (firstn (size sv - size part) sv).
    pose proof (firstn_skipn (size sv - size part) sv) as E.
    rewrite H in E. now symmetry.
  - intros [rest ->]. unfold havUtils.EndsWith. apply andb_true_iff. split.
    + apply Nat.leb_le. rewrite length_app. lia.
    + rewrite length_app.
      replace (size rest + size part - size part) with (size rest) by lia.
      rewrite skipn_app_length. apply str_eqb_refl.
Qed.

Lemma StartsWith_EndsWith_spec_witness :
  havUtils.StartsWith (lit "hi_c_12") (lit "hi_c_") = true
  /\ havUtils.EndsWith (lit "list[]") (lit "[]") = true.
Proof.
  split.
  - apply (proj2 (proj1 (StartsWith_EndsWith_spec (lit "hi_c_12") (lit "hi_c_")))).
    exists (lit "12"). reflexivity.
  - apply (proj2 (proj2 (StartsWith_EndsWith_spec (lit "list[]") (lit "[]")))).
    exists (lit "list"). reflexivity.
Defined.

(** ** Numbers written and read back *)

Lemma lit_String (c : ascii) (s : string) : lit (String c s) = c :: lit s.
Proof. reflexivity. Qed.

Lemma digits_value_acc (d : Decimal.uint) :
  forall acc : positive,
    digits_value (lit (DecimalString.NilEmpty.string_of_uint d)) (Z.pos acc)
    = Z.pos (Pos.of_uint_acc d acc).
Proof.
  induction d; intros acc; cbn [DecimalString.NilEmpty.string_of_uint
                                  Pos.of_uint_acc];
    try reflexivity; rewrite lit_String; cbn [digits_value];
    match goal with
    | |- (if isdigit ?c then _ else _) = _ =>
        change (isdigit c) with true; cbv beta iota;
        rewrite <- IHd; f_equal;
        match goal with
        | |- context [Z.of_N (code ?c)] =>
            let n := eval vm_compute in (Z.of_N (code c)) in
            change (Z.of_N (code c)) with n
        end; lia
    end.
Qed.

Lemma digits_value_of_uint (d : Decimal.uint) :
  digits_value (lit (DecimalString.NilEmpty.string_of_uint d)) 0
  = Z.of_N (Pos.of_uint d).
Proof.
  induction d; cbn [DecimalString.NilEmpty.string_of_uint Pos.of_uint];
    try reflexivity; rewrite lit_String; cbn [digits_value];
    match goal with
    | |- (if isdigit ?c then _ else _) = _ =>
        change (isdigit c) with true; cbv beta iota;
        match goal with
        | |- context [Z.of_N (code ?c)] =>
            let n := eval vm_compute in (Z.of_N (code c)) in
            change (Z.of_N (code c)) with n
        end
    end;
    [exact IHd| cbn [Z.of_N]; rewrite <- digits_value_acc; reflexivity ..].
Qed.

Lemma to_uint_not_Nil (n : N) : N.to_uint n <> Decimal.Nil.
Proof.
  destruct n as [|p]; [discriminate|].
  apply DecimalPos.Unsigned.to_uint_nonnil.
Qed.

Lemma to_string_NilEmpty (n : N) :
  to_string n = lit (DecimalString.NilEmpty.string_of_uint (N.to_uint n)).
Proof.
  unfold to_string. pose proof (to_uint_not_Nil n) as H.
  now destruct (N.to_uint n).
Qed.

(** The decimal digits of a number: no other character, and at least
    one. *)
Lemma to_string_digits (n : N) :
  Forall (fun c => isdigit c = true) (to_string n) /\ to_string n <> [].
Proof.
  rewrite to_string_NilEmpty. pose proof (to_uint_not_Nil n) as H. split.
  - clear H. induction (N.to_uint n);
      cbn [DecimalString.NilEmpty.string_of_uint];
      [exact (Forall_nil _)
      |rewrite lit_String; constructor; [reflexivity|assumption] ..].
  - destruct (N.to_uint n); try contradiction; discriminate.
Qed.

Lemma isdigit_tolower (c : ascii) : isdigit c = true -> tolower c = c.
Proof.
  unfold isdigit, tolower. intros H. apply andb_true_iff in H.
  destruct H as [H1 H2]. apply N.leb_le in H1, H2.
  destruct (65 <=? code c)%N eqn:E; [|reflexivity].
  apply N.leb_le in E. lia.
Qed.

Lemma ToLower_to_string (n : N) : havUtils.ToLower (to_string n) = to_string n.
Proof.
  destruct (to_string_digits n) as [H _]. unfold havUtils.ToLower.
  induction H as [|c l Hc Hl IH]; [reflexivity|].
  cbn [map]. now rewrite IH, isdigit_tolower.
Qed.

(** X13. What [std::to_string] writes for an index, [std::stol] reads back
    as the same number, and the conversion to [unsigned int] keeps it. *)
Theorem stol_to_string :
  forall n : N,
    (n < UINT_MOD)%N ->
    stol (to_string n) = Ok (Z.of_N n) /\ uint_of_long (Z.of_N n) = n.
Proof.
  intros n Hn. unfold UINT_MOD in Hn. split.
  - pose proof (to_string_digits n) as [Hd Hne].
    assert (Hv : digits_value (to_string n) 0 = Z.of_N n).
    { rewrite to_string_NilEmpty, digits_value_of_uint.
      change (Pos.of_uint (N.to_uint n)) with (N.of_uint (N.to_uint n)).
      now rewrite DecimalN.Unsigned.of_to. }
    destruct (to_string n) as [|c r] eqn:Hs; [contradiction|].
    inversion Hd as [|? ? Hc Hr]; subst.
    assert (Hsp : isspace c = false).
    { unfold isdigit in Hc. unfold isspace. apply andb_true_iff in Hc.
      destruct Hc as [H1 H2]. apply N.leb_le in H1, H2.
      apply orb_false_iff. split.
      - apply N.eqb_neq. lia.
      - apply andb_false_iff. right. apply N.leb_gt. lia. }
    assert (Hminus : Ascii.eqb c "-"%char = false).
    { apply Ascii.eqb_neq. intros ->. discriminate. }
    assert (Hplus : Ascii.eqb c "+"%char = false).
    { apply Ascii.eqb_neq. intros ->. discriminate. }
    unfold stol. cbn [skip_spaces]. rewrite Hsp, Hminus, Hplus.
    cbn [front hd]. rewrite Hc, Hv.
    assert (Hrange : ((LONG_MIN <=? Z.of_N n)%Z && (Z.of_N n <=? LONG_MAX)%Z)
                     = true).
    { apply andb_true_iff. unfold LONG_MIN, LONG_MAX.
      split; apply Z.leb_le; lia. }
    now rewrite Hrange.
  - unfold uint_of_long. rewrite Z.mod_small by lia. apply N2Z.id.
Qed.

Lemma stol_to_string_witness :
  stol (to_string 4294967295) = Ok 4294967295%Z.
Proof.
  apply (stol_to_string 4294967295). reflexivity.
Defined.

(** ** Comments and empty lines of a section *)

Lemma find_if_insert_at {A} (p : A -> bool) (l : list A) (i : nat) (e : A) :
  find_if p l = None -> p e = true ->
  find_if p (insert_at i e l) = Some (Nat.min i (List.length l)).
Proof.
  unfold insert_at. revert i; induction l as [|x l IH]; intros i Hn He.
  - destruct i; cbn; now rewrite He.
  - cbn [find_if] in Hn. destruct (p x) eqn:Hx; [discriminate|].
    destruct (find_if p l) eqn:Hl; [discriminate|].
    destruct i as [|i].
    + cbn. now rewrite He.
    + cbn [firstn skipn app find_if List.length Nat.min]. rewrite Hx.
      now rewrite (IH i eq_refl He).
Qed.

Lemma erase_insert_at {A} (l : list A) (i : nat) (e : A) :
  INIData.erase_at (Nat.min i (List.length l)) (insert_at i e l) = l.
Proof.
  unfold insert_at. revert i; induction l as [|x l IH]; intros i.
  - now destruct i.
  - destruct i as [|i]; [reflexivity|].
    cbn [firstn skipn app List.length Nat.min]. rewrite erase_at_cons.
    now rewrite IH.
Qed.

Lemma set_pairs_same (s : havINISection) (pairs : list havINIData) :
  INISection.set_pairs (INISection.set_pairs s pairs)
                       (INISection.mKeyValuePairs s) = s.
Proof. now destruct s. Qed.

Lemma remove_typed_place (s s' : havINISection) (key value : str)
    (type : havINIDataType) (position : havINIPosition)
    (otherKeyName : option str) :
  find_if (INIData.key_is (havUtils.ToLower key)) (INISection.mKeyValuePairs s)
  = None ->
  INISection.place s (INIData.make (havUtils.ToLower key) value type false
                                   None false)
                   position otherKeyName = Ok s' ->
  INISection.remove_typed s' key type = (true, s).
Proof.
  intros Hnew Hp. apply place_insert in Hp. destruct Hp as (i & ->).
  unfold INISection.remove_typed.
  cbn [INISection.mKeyValuePairs INISection.set_pairs].
  rewrite (find_if_insert_at _ _ i).
  - rewrite erase_insert_at. f_equal. apply set_pairs_same.
  - apply find_if_none. intros d Hd.
    rewrite find_if_none in Hnew. specialize (Hnew d Hd).
    unfold INIData.key_is in Hnew. now rewrite Hnew.
  - cbn [INIData.GetKey INIData.make INIData.mKey INIData.GetType
           INIData.mType].
    rewrite str_eqb_refl. now destruct type.
Qed.

(** X14. A comment that [SetComment] has stored under a new key is taken out
    again by [RemoveComment], wherever it was put, and the section is as it
    was before; the same holds of [SetEmptyLine] and [RemoveEmptyLine]. *)
Theorem RemoveComment_SetComment :
  forall (s s' : havINISection) (key value : str) (position : havINIPosition)
         (otherKeyName : option str) (r : bool),
    INISection.HasKey s key = false ->
    (INISection.SetComment s key value position otherKeyName = Ok (r, s') ->
     r = true /\ INISection.RemoveComment s' key = (true, s))
    /\ (INISection.SetEmptyLine s key position otherKeyName = Ok (r, s') ->
        r = true /\ INISection.RemoveEmptyLine s' key = (true, s)).
Proof.
  intros s s' key value position otherKeyName r Hnew.
  unfold INISection.HasKey in Hnew.
  destruct (find_if _ (INISection.mKeyValuePairs s)) eqn:Hf; [discriminate|].
  split.
  - unfold INISection.SetComment. rewrite Hf.
    destruct (INISection.place _ _ _ _) as [s1|] eqn:Hp; [|discriminate].
    cbn [bind]. intros H. injection H as <- <-. split; [reflexivity|].
    exact (remove_typed_place _ _ _ _ _ _ _ Hf Hp).
  - unfold INISection.SetEmptyLine. rewrite Hf.
    destruct (INISection.place _ _ _ _) as [s1|] eqn:Hp; [|discriminate].
    cbn [bind]. intros H. injection H as <- <-. split; [reflexivity|].
    exact (remove_typed_place _ _ _ _ _ _ _ Hf Hp).
Qed.

Lemma RemoveComment_SetComment_witness :
  exists s',
    INISection.SetComment one_entry (lit "Note") (lit "the server") Above
                          (Some (lit "HOST")) = Ok (true, s')
    /\ INISection.RemoveComment s' (lit "Note") = (true, one_entry).
Proof.
  eexists. split; [vm_compute; reflexivity|].
  destruct (RemoveComment_SetComment
              one_entry
              (INISection.mkSection
                 (lit "net") None
                 [INIData.make (lit "note") (lit "the server") Comment false
                               None false;
                  INIData.make (lit "host") (lit "a") Value false None false]
                 0 0)
              (lit "Note") (lit "the server") Above (Some (lit "HOST")) true)
    as [Hc _].
  - reflexivity.
  - apply Hc. reflexivity.
Defined.

(** X15. The outcomes of [SetComment]: a key that is there leaves the
    section as it is and gives [false]; with a new key, [Start] and [End]
    always store the comment, and [Above] and [Below] throw when the entry
    they refer to is not there. *)
Theorem SetComment_outcomes :
  forall (s : havINISection) (key value : str) (position : havINIPosition)
         (otherKeyName : option str),
    (INISection.HasKey s key = true ->
     INISection.SetComment s key value position otherKeyName = Ok (false, s))
    /\ (INISection.HasKey s key = false ->
        (position = Start \/ position = End_ ->
         exists s',
           INISection.SetComment s key value position otherKeyName
           = Ok (true, s')
           /\ INISection.GetNumberOfKeys s' = S (INISection.GetNumberOfKeys s)
           /\ entry_keyed s' (havUtils.ToLower key)
              = Some (INIData.make (havUtils.ToLower key) value Comment false
                                   None false))
        /\ (position = Above \/ position = Below ->
            match otherKeyName with
            | None =>
                INISection.SetComment s key value position otherKeyName
                = Throw bad_optional_access
            | Some other =>
                INISection.HasKey s other = false ->
                INISection.SetComment s key value position otherKeyName
                = Throw (runtime_error
                           (DQUOTE :: havUtils.ToLower other
                            ++ DQUOTE :: lit " could not be found!"))
            end)).
Proof.
  intros s key value position otherKeyName. unfold INISection.HasKey. split.
  - unfold INISection.SetComment.
    now destruct (find_if _ (INISection.mKeyValuePairs s)).
  - intros Hnew.
    destruct (find_if _ (INISection.mKeyValuePairs s)) eqn:Hf; [discriminate|].
    unfold INISection.SetComment. rewrite Hf. split.
    + intros [-> | ->]; unfold INISection.place; cbn [bind]; eexists;
        (split; [reflexivity|]); split.
      * reflexivity.
      * rewrite entry_keyed_pairs. cbn [find].
        unfold INIData.key_is at 1.
        cbn [INIData.GetKey INIData.make INIData.mKey].
        now rewrite str_eqb_refl.
      * unfold INISection.GetNumberOfKeys.
        cbn [INISection.mKeyValuePairs INISection.set_pairs].
        rewrite length_app. cbn [List.length]. lia.
      * rewrite entry_keyed_pairs, find_app_last.
        apply find_none_iff in Hf. rewrite Hf.
        unfold INIData.key_is.
        cbn [INIData.GetKey INIData.make INIData.mKey].
        now rewrite str_eqb_refl.
    + intros Hpos. destruct otherKeyName as [other|].
      * intros Hother.
        destruct (find_if (INIData.key_is (havUtils.ToLower other))
                          (INISection.mKeyValuePairs s)) eqn:Ho;
          [discriminate|].
        unfold INISection.place. cbn [option_map].
        assert (Ho' : find_if (INISection.key_is_opt
                                 (Some (havUtils.ToLower other)))
                              (INISection.mKeyValuePairs s) = None)
          by exact Ho.
        destruct Hpos as [-> | ->]; now rewrite Ho'.
      * unfold INISection.place. cbn [option_map].
        assert (Ho : find_if (INISection.key_is_opt None)
                             (INISection.mKeyValuePairs s) = None).
        { apply find_if_none. reflexivity. }
        destruct Hpos as [-> | ->]; now rewrite Ho.
Qed.

Lemma SetComment_outcomes_witness :
  INISection.SetComment (INISection.make (lit "net")) (lit "note")
                        (lit "text") Below (Some (lit "Host"))
  = Throw (runtime_error
             (DQUOTE :: lit "host" ++ DQUOTE :: lit " could not be found!")).
Proof.
  destruct (SetComment_outcomes (INISection.make (lit "net")) (lit "note")
              (lit "text") Below (Some (lit "Host"))) as [_ H].
  destruct (H eq_refl) as [_ Hthrow].
  apply (Hthrow (or_intror eq_refl)). reflexivity.
Defined.

(** ** Comments through the document interface *)

Lemma section_named_index (ini : havINIStream) (name : str) (s : havINISection) :
  section_named ini name = Some s ->
  exists i, find_if (name_is name) (mData ini) = Some i
            /\ nth_error (mData ini) i = Some s.
Proof.
  unfold section_named. rewrite <- find_if_find.
  destruct (find_if _ (mData ini)) as [i|]; [|discriminate].
  intros H. now exists i.
Qed.

Lemma section_named_replace (ini : havINIStream) (i : nat)
    (s s' : havINISection) (name name' : str) :
  find_if (name_is name) (mData ini) = Some i ->
  nth_error (mData ini) i = Some s ->
  INISection.mSectionName s' = INISection.mSectionName s ->
  section_named (with_section ini i (fun _ => s')) name'
  = if str_eqb name' name then Some s' else section_named ini name'.
Proof.
  intros Hi Hn Hname.
  assert (E : with_section ini i (fun _ => s')
              = with_section ini i
                  (fun x => INISection.mkSection
                              (INISection.mSectionName x)
                              (INISection.mInlineComment s')
                              (INISection.mKeyValuePairs s')
                              (INISection.mCommentLineCount s')
                              (INISection.mEmptyLineCount s'))).
  { unfold with_section. f_equal. apply (modify_ext_at _ _ _ _ s Hn).
    rewrite <- Hname. now destruct s'. }
  rewrite E, (section_named_with_section ini i _ name name' Hi) by reflexivity.
  destruct (str_eqb name' name); [|reflexivity].
  destruct (section_named_found _ _ _ Hi) as (s0 & -> & Hn0 & _).
  rewrite Hn in Hn0. injection Hn0 as <-. cbn [option_map].
  rewrite <- Hname. now destruct s'.
Qed.

Lemma GetCommentKeyNames_section_named (ini : havINIStream) (sectionName : str) :
  GetCommentKeyNames ini sectionName
  = match section_named ini (global_if_empty sectionName) with
    | Some s => INISection.GetCommentKeyNames s (lit "hi_c_")
    | None => []
    end.
Proof.
  unfold GetCommentKeyNames, section_named. rewrite <- find_if_find.
  destruct (find_if _ (mData ini)) as [i|]; [|reflexivity].
  now destruct (nth_error (mData ini) i).
Qed.

Lemma global_if_empty_lower (sectionName : str) :
  havUtils.ToLower (global_if_empty sectionName) = global_if_empty sectionName.
Proof. unfold global_if_empty. apply ToLower_idem. Qed.

Lemma comment_key_lower (n : N) :
  havUtils.ToLower (lit "hi_c_" ++ to_string n) = lit "hi_c_" ++ to_string n.
Proof.
  unfold havUtils.ToLower. rewrite map_app.
  change (map tolower (to_string n)) with (havUtils.ToLower (to_string n)).
  now rewrite ToLower_to_string.
Qed.

(** X16. [SetComment] of the document makes the key of the comment from the
    counter of the section. At [Start] and [End] it returns [true] whenever
    the section is there: when the key is free the comment is stored under
    it, first or last among the comments of the section; when the key is
    taken nothing is stored and the answer is [true] all the same. Without
    the section the answer is [false]. *)
Theorem SetComment_stream_stores :
  forall (ini : havINIStream) (sectionName comment : str)
         (position : havINIPosition),
    position = Start \/ position = End_ ->
    match section_named ini (global_if_empty sectionName) with
    | None =>
        SetComment_stream ini sectionName comment position None
        = Ok (false, ini)
    | Some s =>
        let key :=
          lit "hi_c_"
          ++ to_string (wrap32 (INISection.mCommentLineCount s + 1)) in
        exists ini',
          SetComment_stream ini sectionName comment position None
          = Ok (true, ini')
          /\ (INISection.HasKey s key = false ->
              GetCommentKeyNames ini' sectionName
              = match position with
                | Start => key :: GetCommentKeyNames ini sectionName
                | _ => GetCommentKeyNames ini sectionName ++ [key]
                end
              /\ forall defaultValue,
                   GetValue ini' (global_if_empty sectionName) key defaultValue
                   = comment)
          /\ (INISection.HasKey s key = true ->
              GetCommentKeyNames ini' sectionName
              = GetCommentKeyNames ini sectionName
              /\ forall sectionName' keyName defaultValue,
                   GetValue ini' sectionName' keyName defaultValue
                   = GetValue ini sectionName' keyName defaultValue)
    end.
Proof.
  intros ini sectionName comment position Hpos.
  set (name := global_if_empty sectionName).
  destruct (section_named ini name) as [s|] eqn:Hs.
  2:{ unfold SetComment_stream. fold name.
      apply find_none_iff in Hs. now rewrite Hs. }
  intros key.
  destruct (section_named_index _ _ _ Hs) as (i & Hi & Hn).
  unfold SetComment_stream. fold name. rewrite Hi, Hn.
  unfold INISection.GetCommentLineCount. cbv beta iota zeta.
  fold key.
  set (s1 := INISection.mkSection _ _ _ _ _).
  assert (Hlow : havUtils.ToLower key = key) by apply comment_key_lower.
  unfold INISection.SetComment, INISection.HasKey. rewrite !Hlow.
  cbn [option_map].
  change (INISection.mKeyValuePairs s1) with (INISection.mKeyValuePairs s).
  destruct (find_if (INIData.key_is key) (INISection.mKeyValuePairs s))
    eqn:Hk.
  - (* the key is taken: nothing is stored *)
    cbn [bind]. eexists. split; [reflexivity|]. split; [discriminate|].
    intros _.
    assert (Hnamed : forall name',
               section_named (with_section ini i (fun _ => s1)) name'
               = if str_eqb name' name then Some s1
                 else section_named ini name')
      by (intros name'; now apply (section_named_replace ini i s s1 name name')).
    split.
    + rewrite !GetCommentKeyNames_section_named. fold name.
      now rewrite Hnamed, str_eqb_refl, Hs.
    + intros sectionName' keyName defaultValue.
      rewrite !GetValue_entry_of. unfold entry_of. rewrite Hnamed.
      destruct (str_eqb _ name) eqn:E; [|reflexivity].
      apply str_eqb_eq in E. rewrite E, Hs. reflexivity.
  - (* the key is free *)
    set (e := INIData.make key comment Comment false None false).
    assert (Hplace : INISection.place s1 e position None
                     = Ok (INISection.set_pairs
                             s1 (match position with
                                 | Start => e :: INISection.mKeyValuePairs s
                                 | _ => INISection.mKeyValuePairs s ++ [e]
                                 end)))
      by (destruct Hpos as [-> | ->]; reflexivity).
    rewrite Hplace. cbn [bind]. eexists. split; [reflexivity|].
    split; [|discriminate]. intros _.
    set (s2 := INISection.set_pairs s1 _).
    assert (Hnamed : forall name',
               section_named (with_section ini i (fun _ => s2)) name'
               = if str_eqb name' name then Some s2
                 else section_named ini name')
      by (intros name'; now apply (section_named_replace ini i s s2 name name')).
    split.
    + rewrite !GetCommentKeyNames_section_named. fold name.
      rewrite Hnamed, str_eqb_refl, Hs.
      unfold INISection.GetCommentKeyNames, INISection.key_names, s2.
      cbn [INISection.mKeyValuePairs INISection.set_pairs].
      assert (He : havUtils.StartsWith (INIData.GetKey e)
                     (havUtils.ToLower (lit "hi_c_"))
                   && havINIDataType_eqb (INIData.GetType e) Comment = true).
      { apply andb_true_iff. split; [|reflexivity].
        apply (StartsWith_app (lit "hi_c_")). }
      destruct Hpos as [-> | ->].
      * cbn [filter]. rewrite He. reflexivity.
      * rewrite filter_app, map_app. cbn [filter]. rewrite He. reflexivity.
    + intros defaultValue. rewrite GetValue_entry_of. unfold entry_of.
      replace (havUtils.ToLower name) with name
        by (symmetry; apply global_if_empty_lower).
      rewrite Hnamed, str_eqb_refl, Hlow. unfold s2.
      rewrite entry_keyed_pairs.
      assert (Hke : INIData.key_is key e = true) by apply str_eqb_refl.
      destruct Hpos as [-> | ->].
      * cbn [find]. now rewrite Hke.
      * rewrite find_app_last. apply find_none_iff in Hk. rewrite Hk.
        now rewrite Hke.
Qed.

Lemma SetComment_stream_stores_witness :
  exists ini',
    SetComment_stream one_key (lit "Net") (lit "the server") End_ None
    = Ok (true, ini')
    /\ GetCommentKeyNames ini' (lit "Net") = [lit "hi_c_1"].
Proof.
  pose proof (SetComment_stream_stores one_key (lit "Net") (lit "the server")
                End_ (or_intror eq_refl)) as H.
  change (section_named one_key (global_if_empty (lit "Net")))
    with (Some one_entry) in H.
  destruct H as (ini' & Hrun & Hfree & _).
  exists ini'. split; [exact Hrun|].
  destruct (Hfree eq_refl) as [Hnames _]. exact Hnames.
Defined.

(** ** Hexadecimal digits written and read back *)

Lemma strtol16_step (c : ascii) (rest : str) (acc : N) :
  fold_left (fun acc c => (acc * 16 + hex_digit_value c)%N) (c :: rest) acc
  = fold_left (fun acc c => (acc * 16 + hex_digit_value c)%N) rest
              (acc * 16 + hex_digit_value c)%N.
Proof. reflexivity. Qed.

Lemma hex_value_acc (d : Hexadecimal.uint) :
  forall acc : positive,
    fold_left (fun acc c => (acc * 16 + hex_digit_value c)%N)
              (lit (HexadecimalString.NilEmpty.string_of_uint d)) (N.pos acc)
    = N.pos (Pos.of_hex_uint_acc d acc).
Proof.
  induction d; intros acc;
    cbn [HexadecimalString.NilEmpty.string_of_uint Pos.of_hex_uint_acc];
    try reflexivity; rewrite lit_String, strtol16_step, <- IHd; f_equal;
    match goal with
    | |- context [hex_digit_value ?c] =>
        let n := eval vm_compute in (hex_digit_value c) in
        change (hex_digit_value c) with n
    end; lia.
Qed.

Lemma hex_value_of_uint (d : Hexadecimal.uint) :
  strtol16 (lit (HexadecimalString.NilEmpty.string_of_uint d))
  = Pos.of_hex_uint d.
Proof.
  unfold strtol16.
  induction d;
    cbn [HexadecimalString.NilEmpty.string_of_uint Pos.of_hex_uint];
    try reflexivity; rewrite lit_String, strtol16_step;
    match goal with
    | |- context [hex_digit_value ?c] =>
        let n := eval vm_compute in (hex_digit_value c) in
        change (hex_digit_value c) with n
    end;
    [exact IHd|cbn [N.mul N.add]; apply hex_value_acc ..].
Qed.

Lemma to_hex_uint_not_Nil (n : N) : N.to_hex_uint n <> Hexadecimal.Nil.
Proof.
  destruct n as [|p]; [discriminate|].
  apply HexadecimalPos.Unsigned.to_uint_nonnil.
Qed.

Lemma hex_string_NilEmpty (n : N) :
  lit (HexadecimalString.NilZero.string_of_uint (N.to_hex_uint n))
  = lit (HexadecimalString.NilEmpty.string_of_uint (N.to_hex_uint n)).
Proof.
  pose proof (to_hex_uint_not_Nil n) as H. now destruct (N.to_hex_uint n).
Qed.

Lemma strtol16_zeros (k : nat) (rest : str) :
  strtol16 (repeat "0"%char k ++ rest) = strtol16 rest.
Proof.
  unfold strtol16. induction k as [|k IH]; [reflexivity|].
  cbn [repeat app]. rewrite strtol16_step. exact IH.
Qed.

(** What the writer prints for a code unit, four hexadecimal digits or as
    many as the number needs, the reader takes for the same number. *)
Lemma strtol16_hex4 : forall n : N, strtol16 (hex4 n) = n.
Proof.
  intros n. unfold hex4. rewrite strtol16_zeros, hex_string_NilEmpty.
  rewrite hex_value_of_uint.
  change (Pos.of_hex_uint (N.to_hex_uint n))
    with (N.of_hex_uint (N.to_hex_uint n)).
  apply HexadecimalN.Unsigned.of_to.
Qed.

Lemma of_hex_uint_acc_lower (d : Hexadecimal.uint) :
  forall acc : positive,
    (N.pos acc * 16 ^ N.of_nat (Hexadecimal.nb_digits d)
     <= N.pos (Pos.of_hex_uint_acc d acc))%N.
Proof.
  induction d; intros acc;
    cbn [Hexadecimal.nb_digits Pos.of_hex_uint_acc];
    [cbn; lia
    |rewrite Nat2N.inj_succ, N.pow_succ_r';
     match goal with
     | |- (_ <= N.pos (Pos.of_hex_uint_acc _ ?a))%N =>
         specialize (IHd a)
     end;
     set (P := (16 ^ N.of_nat (Hexadecimal.nb_digits d))%N) in *;
     nia ..].
Qed.

Lemma size_hex_string (d : Hexadecimal.uint) :
  size (lit (HexadecimalString.NilEmpty.string_of_uint d))
  = Hexadecimal.nb_digits d.
Proof.
  induction d; cbn [HexadecimalString.NilEmpty.string_of_uint
                      Hexadecimal.nb_digits];
    [reflexivity|rewrite lit_String; cbn [List.length]; now rewrite IHd ..].
Qed.

Lemma hex_string_digits (d : Hexadecimal.uint) :
  Forall (fun c => isxdigit c = true)
         (lit (HexadecimalString.NilEmpty.string_of_uint d)).
Proof.
  induction d; cbn [HexadecimalString.NilEmpty.string_of_uint];
    [exact (Forall_nil _)
    |rewrite lit_String; constructor; [reflexivity|assumption] ..].
Qed.

Lemma nb_digits_below (n : N) :
  (n < 65536)%N -> Hexadecimal.nb_digits (N.to_hex_uint n) <= 4.
Proof.
  intros Hn.
  pose proof (HexadecimalN.Unsigned.of_to n) as Hof.
  pose proof (HexadecimalN.Unsigned.to_of (N.to_hex_uint n)) as Hto.
  rewrite Hof in Hto. unfold Hexadecimal.unorm in Hto.
  pose proof (HexadecimalFacts.nzhead_nonzero (N.to_hex_uint n)) as Hnz.
  unfold N.of_hex_uint in Hof.
  assert (Hbound : forall l k,
             N.to_hex_uint n = l ->
             (N.pos k * 16 ^ N.of_nat (Hexadecimal.nb_digits l - 1) <= n)%N ->
             Hexadecimal.nb_digits l <= 4).
  { intros l k _ Hle.
    destruct (le_lt_dec (Hexadecimal.nb_digits l) 4) as [|Hgt];
      [assumption|exfalso].
    assert (16 ^ 4 <= 16 ^ N.of_nat (Hexadecimal.nb_digits l - 1))%N
      by (apply N.pow_le_mono_r; lia).
    change (16 ^ 4)%N with 65536%N in *. nia. }
  destruct (N.to_hex_uint n) as [|l|l|l|l|l|l|l|l|l|l|l|l|l|l|l|l] eqn:Hd;
    cbn [Hexadecimal.nb_digits]; try lia;
    try (apply (Hbound _ 1%positive eq_refl);
         cbn [Hexadecimal.nb_digits Pos.of_hex_uint] in *;
         rewrite Nat.sub_succ, Nat.sub_0_r; rewrite <- Hof;
         match goal with
         | |- (_ <= N.pos (Pos.of_hex_uint_acc _ ?a))%N =>
             pose proof (of_hex_uint_acc_lower l a)
         end;
         set (P := (16 ^ N.of_nat (Hexadecimal.nb_digits l))%N) in *; nia).
  (* a leading zero: the number is zero *)
  cbn [Hexadecimal.nzhead] in Hto, Hnz.
  destruct (Hexadecimal.nzhead l) eqn:Hl; try discriminate Hto.
  - injection Hto as ->. cbn. lia.
  - exfalso. exact (HexadecimalFacts.nzhead_nonzero l _ Hl).
Qed.

Lemma hex4_four (n : N) :
  (n < 65536)%N ->
  size (hex4 n) = 4 /\ Forall (fun c => isxdigit c = true) (hex4 n).
Proof.
  intros Hn. unfold hex4. rewrite hex_string_NilEmpty. split.
  - rewrite length_app, repeat_length, size_hex_string.
    pose proof (nb_digits_below n Hn). lia.
  - apply Forall_app. split; [|apply hex_string_digits].
    apply Forall_forall. intros c Hc. apply repeat_spec in Hc. now subst c.
Qed.

Lemma hex_loop_digits (digits : str) :
  forall (pre : str) (c0 : ascii) (post hexString : str) (flag : bool),
    Forall (fun c => isxdigit c = true) digits ->
    hex_loop (pre ++ c0 :: digits ++ post) (size digits) (size pre)
             hexString flag
    = Ok (size pre + size digits, hexString ++ digits,
          if empty digits then flag else true).
Proof.
  induction digits as [|d ds IH]; intros pre c0 post hexString flag Hd.
  - cbn [hex_loop size empty]. now rewrite Nat.add_0_r, app_nil_r.
  - inversion Hd as [|? ? Hx Hds]; subst.
    cbn [size List.length hex_loop].
    assert (Hfile : pre ++ c0 :: (d :: ds) ++ post
                    = (pre ++ [c0]) ++ d :: ds ++ post)
      by (rewrite <- app_assoc; reflexivity).
    assert (Hsize : S (size pre) = size (pre ++ [c0]))
      by (rewrite length_app; cbn; lia).
    rewrite Hfile, Hsize, at_middle, Hx. cbn [negb].
    assert (Hlt : (size ((pre ++ [c0]) ++ d :: ds ++ post)
                   <=? size (pre ++ [c0])) = false).
    { apply Nat.leb_gt. rewrite (length_app (pre ++ [c0])). cbn. lia. }
    rewrite Hlt, (IH (pre ++ [c0]) d post (hexString ++ [d]) true Hds).
    rewrite <- Hsize, <- app_assoc. cbn [app].
    replace (S (size pre) + size ds) with (size pre + S (size ds)) by lia.
    now destruct ds.
Qed.

(** X17. The decoder on what the encoder writes for a code unit below 65536:
    the loop over the four characters behind [\x] takes exactly the digits
    written, and they are read as the number they were written for. *)
Theorem hex_escape_read_back :
  forall (n : N) (pre post : str),
    (n < 65536)%N ->
    hex_loop (pre ++ "x"%char :: hex4 n ++ post) 4 (size pre) [] false
    = Ok (size pre + 4, hex4 n, true)
    /\ strtol16 (hex4 n) = n.
Proof.
  intros n pre post Hn. split; [|apply strtol16_hex4].
  destruct (hex4_four n Hn) as [Hsize Hdigits].
  pose proof (hex_loop_digits (hex4 n) pre "x"%char post [] false Hdigits)
    as H.
  rewrite Hsize in H. rewrite H. cbn [app].
  destruct (hex4 n); [discriminate|reflexivity].
Qed.

Lemma hex_escape_read_back_witness :
  hex_loop (lit "k=\x001f") 4 3 [] false = Ok (7, lit "001f", true)
  /\ strtol16 (lit "001f") = 31%N.
Proof.
  apply (hex_escape_read_back 31 (lit "k=\") []). reflexivity.
Defined.

(** ** The escaped form of a value *)

Lemma for_each_index_keeps {St : Type} (body : nat -> St -> result (nat * St))
    (Inv : St -> Prop) :
  (forall i s i' s', Inv s -> body i s = Ok (i', s') -> Inv s') ->
  forall (remaining index next : nat) (s s' : St),
    Inv s -> for_each_index body remaining index next s = Ok s' -> Inv s'.
Proof.
  intros Hbody. induction remaining as [|n IH]; intros index next s s' Hs H.
  - cbn in H. now injection H as <-.
  - cbn [for_each_index] in H. destruct (index <? next); [now apply IH in H|].
    destruct (body index s) as [[i1 s1]|] eqn:Hb; [|discriminate].
    cbn [bind] in H. apply (IH _ _ _ _ (Hbody _ _ _ _ Hs Hb) H).
Qed.

Lemma seven_bit (ch : ascii) :
  (N.land (code ch) 128 =? 0)%N = (code ch <? 128)%N.
Proof. destruct ch as [[] [] [] [] [] [] [] []]; reflexivity. Qed.

Lemma hex4_range (n : N) :
  Forall (fun c => from_31_to_127 c = true) (hex4 n).
Proof.
  unfold hex4. rewrite hex_string_NilEmpty. apply Forall_app. split.
  - apply Forall_forall. intros c Hc. apply repeat_spec in Hc. now subst c.
  - induction (N.to_hex_uint n);
      cbn [HexadecimalString.NilEmpty.string_of_uint];
      [exact (Forall_nil _)
      |rewrite lit_String; constructor; [reflexivity|assumption] ..].
Qed.

Lemma escape_body_range (value : str) (index index' : nat)
    (resultValue resultValue' : str) :
  Forall (fun c => from_31_to_127 c = true) resultValue ->
  escape_body value index resultValue = Ok (index', resultValue') ->
  Forall (fun c => from_31_to_127 c = true) resultValue'.
Proof.
  intros Hr. unfold escape_body.
  set (c := code (at_ value index)).
  assert (Hpair : forall a b : ascii,
             from_31_to_127 a = true -> from_31_to_127 b = true ->
             Forall (fun c => from_31_to_127 c = true) (resultValue ++ [a; b]))
    by (intros a b Ha Hb; apply Forall_app; split; [assumption|];
        repeat constructor; assumption).
  destruct (c =? 34)%N; [intros H; injection H as _ <-; now apply Hpair|].
  destruct (c =? 92)%N; [intros H; injection H as _ <-; now apply Hpair|].
  destruct (c =? 8)%N; [intros H; injection H as _ <-; now apply Hpair|].
  destruct (c =? 12)%N; [intros H; injection H as _ <-; now apply Hpair|].
  destruct (c =? 10)%N; [intros H; injection H as _ <-; now apply Hpair|].
  destruct (c =? 13)%N; [intros H; injection H as _ <-; now apply Hpair|].
  destruct (c =? 9)%N; [intros H; injection H as _ <-; now apply Hpair|].
  destruct (c =? 11)%N; [intros H; injection H as _ <-; now apply Hpair|].
  assert (Hhex : forall (i : nat) (codePoint : N) r,
             (if ((65536 <=? codePoint)%N && (codePoint <=? 1114111)%N)%bool
              then
                Ok (i,
                    resultValue
                    ++ BACKSLASH :: "x"%char
                       :: hex4 ((codePoint - 65536) / 1024 + 55296)
                    ++ BACKSLASH :: "x"%char
                       :: hex4 ((codePoint - 65536) mod 1024 + 56320))
              else Ok (i, resultValue ++ BACKSLASH :: "x"%char :: hex4 codePoint))
             = Ok (index', r) ->
             Forall (fun c => from_31_to_127 c = true) r).
  { intros i codePoint r H.
    destruct (_ && _); injection H as _ <-; apply Forall_app;
      (split; [assumption|]).
    - constructor; [reflexivity|]. constructor; [reflexivity|].
      apply Forall_app. split; [apply hex4_range|].
      constructor; [reflexivity|]. constructor; [reflexivity|].
      apply hex4_range.
    - constructor; [reflexivity|]. constructor; [reflexivity|].
      apply hex4_range. }
  assert (H7eq : (N.land c 128 =? 0)%N = (c <? 128)%N) by apply seven_bit.
  rewrite H7eq.
  destruct (c <? 128)%N eqn:H7.
  - destruct (c <? 31)%N eqn:H31; cbn [bind]; cbv beta iota zeta;
      cbn [Nat.sub continuation_loop bind]; cbv beta iota zeta.
    + apply Hhex.
    + intros H. injection H as _ <-. apply Forall_app. split; [assumption|].
      constructor; [|constructor]. unfold from_31_to_127. fold c.
      apply N.ltb_lt in H7. apply N.ltb_ge in H31.
      apply andb_true_iff. split; apply N.leb_le; lia.
  - destruct (N.land c 224 =? 192)%N;
      [|destruct (N.land c 240 =? 224)%N;
        [|destruct (N.land c 248 =? 240)%N; [|discriminate]]];
      cbn [bind]; cbv beta iota zeta;
      (destruct (continuation_loop _ _ _ _) as [[i1 cp]|]; [|discriminate]);
      cbn [bind]; cbv beta iota zeta; apply Hhex.
Qed.

(** X18. The escaped form of a value holds no character below code 31 and
    none above 127: in particular no line break, so that a value stays on
    its line, and no byte of a multi-byte sequence. *)
Theorem ConvertToEscapedString_range :
  forall value escaped : str,
    ConvertToEscapedString value = Ok escaped ->
    Forall (fun c => from_31_to_127 c = true) escaped
    /\ ~ In LF escaped /\ ~ In CR escaped.
Proof.
  intros value escaped H.
  assert (Hall : Forall (fun c => from_31_to_127 c = true) escaped).
  { unfold ConvertToEscapedString, for_index in H.
    refine (for_each_index_keeps
              (escape_body value)
              (Forall (fun c => from_31_to_127 c = true))
              _ _ _ _ _ _ (Forall_nil _) H).
    intros i s i' s' Hs Hb. exact (escape_body_range _ _ _ _ _ Hs Hb). }
  split; [exact Hall|].
  rewrite Forall_forall in Hall.
  split; intros Hin; apply Hall in Hin; discriminate.
Qed.

Lemma ConvertToEscapedString_range_witness :
  ~ In LF (lit "a\n\x0001").
Proof.
  apply (ConvertToEscapedString_range [chr 97; LF; chr 1] (lit "a\n\x0001")).
  reflexivity.
Defined.

Lemma escape_body_unescaped (pre : str) (c : ascii) (post resultValue : str) :
  unescaped c = true ->
  escape_body (pre ++ c :: post) (size pre) resultValue
  = Ok (size pre, resultValue ++ [c]).
Proof.
  unfold unescaped, escape_body. rewrite at_middle, seven_bit. intros H.
  apply andb_true_iff in H. destruct H as [H H92].
  apply andb_true_iff in H. destruct H as [H H34].
  apply andb_true_iff in H. destruct H as [H31 H128].
  apply negb_true_iff in H92, H34. rewrite H34, H92, H128.
  apply N.leb_le in H31.
  assert (Hne : forall k, (k < 31)%N -> (code c =? k)%N = false)
    by (intros k Hk; apply N.eqb_neq; lia).
  rewrite !Hne by lia.
  assert (H31' : (code c <? 31)%N = false) by (apply N.ltb_ge; lia).
  rewrite H31'. cbn [bind]. cbv beta iota zeta.
  cbn [Nat.sub continuation_loop bind]. cbv beta iota zeta.
  now rewrite at_middle.
Qed.

Lemma escape_loop_unescaped (rest : str) :
  forall pre resultValue : str,
    Forall (fun c => unescaped c = true) rest ->
    for_each_index (escape_body (pre ++ rest)) (size rest) (size pre)
                   (size pre) resultValue
    = Ok (resultValue ++ rest).
Proof.
  induction rest as [|c rest IH]; intros pre resultValue Hall.
  - cbn. now rewrite app_nil_r.
  - inversion Hall as [|? ? Hc Hrest]; subst.
    cbn [size List.length for_each_index]. rewrite Nat.ltb_irrefl.
    rewrite escape_body_unescaped by assumption. cbn [bind].
    cbv beta iota zeta.
    assert (Hfile : pre ++ c :: rest = (pre ++ [c]) ++ rest)
      by (rewrite <- app_assoc; reflexivity).
    assert (Hsize : S (size pre) = size (pre ++ [c]))
      by (rewrite length_app; cbn; lia).
    rewrite Hfile, Hsize, (IH (pre ++ [c]) (resultValue ++ [c]) Hrest).
    now rewrite <- app_assoc.
Qed.

(** X19. A value made of 7-bit characters from code 31 on, without double
    quote and backslash, is its own escaped form. *)
Theorem ConvertToEscapedString_unescaped :
  forall value : str,
    Forall (fun c => unescaped c = true) value ->
    ConvertToEscapedString value = Ok value.
Proof.
  intros value Hall. unfold ConvertToEscapedString, for_index.
  exact (escape_loop_unescaped value [] [] Hall).
Qed.

Lemma ConvertToEscapedString_unescaped_witness :
  ConvertToEscapedString (lit "C:/data files/a.txt")
  = Ok (lit "C:/data files/a.txt").
Proof.
  apply ConvertToEscapedString_unescaped.
  repeat (constructor; [reflexivity|]). constructor.
Defined.

(** ** Split and Join *)

Lemma Join_loop_later (strings : list str) (delimiter : str) :
  forall (index : nat) (result : str),
    havUtils.Join_loop strings delimiter (S index) result
    = result ++ concat (map (fun s => delimiter ++ s) strings).
Proof.
  induction strings as [|s rest IH]; intros index result.
  - cbn. now rewrite app_nil_r.
  - cbn [havUtils.Join_loop map concat]. rewrite IH.
    change (0 <? S index) with true. cbv iota.
    now rewrite <- !app_assoc.
Qed.

Lemma Join_cons (s : str) (rest : list str) (delimiter : str) :
  havUtils.Join (s :: rest) delimiter
  = s ++ concat (map (fun t => delimiter ++ t) rest).
Proof.
  unfold havUtils.Join. cbn [empty havUtils.Join_loop].
  rewrite Join_loop_later. reflexivity.
Qed.

Lemma find_in_token (c : ascii) (t rest : str) (offset : nat) :
  ~ In c t ->
  havUtils.find_in [c] (t ++ c :: rest) offset = Some (offset + size t).
Proof.
  revert offset; induction t as [|x t IH]; intros offset Hc.
  - cbn [app havUtils.find_in havUtils.StartsWith size List.length].
    now rewrite StartsWith_nil, Ascii.eqb_refl, Nat.add_0_r.
  - cbn [app havUtils.find_in havUtils.StartsWith].
    assert (Hx : Ascii.eqb c x = false).
    { apply Ascii.eqb_neq. intros ->. apply Hc. now left. }
    rewrite Hx. cbn [andb]. rewrite IH by (intros H; apply Hc; now right).
    cbn [size List.length]. f_equal. lia.
Qed.

Lemma find_in_none (c : ascii) (t : str) (offset : nat) :
  ~ In c t -> havUtils.find_in [c] t offset = None.
Proof.
  revert offset; induction t as [|x t IH]; intros offset Hc; [reflexivity|].
  cbn [havUtils.find_in havUtils.StartsWith].
  assert (Hx : Ascii.eqb c x = false).
  { apply Ascii.eqb_neq. intros ->. apply Hc. now left. }
  rewrite Hx. cbn [andb]. apply IH. intros H. apply Hc. now right.
Qed.

Lemma firstn_app_length {A} (l l' : list A) : firstn (List.length l) (l ++ l') = l.
Proof.
  induction l as [|x l IH]; [now destruct l'|]. cbn. now rewrite IH.
Qed.

Lemma Split_loop_tokens (c : ascii) (tokens : list str) :
  forall (t pre seps : str) (fuel : nat),
    seps = [] \/ seps = [c] ->
    List.length tokens < fuel ->
    t <> [] -> ~ In c t ->
    Forall (fun t => t <> [] /\ ~ In c t) tokens ->
    havUtils.Split_loop
      fuel (pre ++ seps ++ t ++ concat (map (fun s => [c] ++ s) tokens)) [c]
      (Some (size pre))
    = t :: tokens.
Proof.
  induction tokens as [|t2 tokens IH];
    intros t pre seps fuel Hseps Hfuel Hne Hc Hall.
  - destruct fuel as [|fuel]; [cbn in Hfuel; lia|].
    cbn [map concat havUtils.Split_loop]. rewrite app_nil_r.
    destruct t as [|x t]; [contradiction|].
    assert (Hx : Ascii.eqb x c = false).
    { apply Ascii.eqb_neq. intros ->. apply Hc. now left. }
    assert (Hstart : havUtils.find_first_not_of (pre ++ seps ++ x :: t) [c]
                                                (size pre)
                     = Some (size pre + size seps)).
    { unfold havUtils.find_first_not_of. rewrite skipn_app_length.
      destruct Hseps as [-> | ->]; cbn [app havUtils.find_not_in havUtils.mem
                                          existsb size List.length].
      - rewrite Hx. cbn. now rewrite Nat.add_0_r.
      - rewrite Ascii.eqb_refl, Hx. cbn. f_equal. lia. }
    rewrite Hstart.
    assert (Hskip : skipn (size pre + size seps) (pre ++ seps ++ x :: t)
                    = x :: t).
    { rewrite app_assoc, <- length_app. apply skipn_app_length. }
    assert (Hend : havUtils.find (pre ++ seps ++ x :: t) [c]
                                 (size pre + size seps) = None).
    { unfold havUtils.find. rewrite Hskip.
      assert (Hlt : (size (pre ++ seps ++ x :: t) <? size pre + size seps)
                    = false)
        by (apply Nat.ltb_ge; rewrite !length_app; lia).
      rewrite Hlt. now apply find_in_none. }
    rewrite Hend. unfold havUtils.substr_to. rewrite Hskip.
    now destruct fuel.
  - destruct fuel as [|fuel]; [cbn in Hfuel; lia|].
    inversion Hall as [|? ? [Hne2 Hc2] Hall']; subst.
    cbn [map concat havUtils.Split_loop].
    set (rest := concat (map (fun s => [c] ++ s) tokens)).
    destruct t as [|x t]; [contradiction|].
    assert (Hx : Ascii.eqb x c = false).
    { apply Ascii.eqb_neq. intros ->. apply Hc. now left. }
    set (value := pre ++ seps ++ (x :: t) ++ ([c] ++ t2) ++ rest).
    assert (Hstart : havUtils.find_first_not_of value [c] (size pre)
                     = Some (size pre + size seps)).
    { unfold havUtils.find_first_not_of, value. rewrite skipn_app_length.
      destruct Hseps as [-> | ->]; cbn [app havUtils.find_not_in havUtils.mem
                                          existsb size List.length].
      - rewrite Hx. cbn. now rewrite Nat.add_0_r.
      - rewrite Ascii.eqb_refl, Hx. cbn. f_equal. lia. }
    rewrite Hstart.
    assert (Hskip : skipn (size pre + size seps) value
                    = (x :: t) ++ c :: t2 ++ rest).
    { unfold value. rewrite app_assoc, <- length_app, skipn_app_length.
      now rewrite <- !app_assoc. }
    assert (Hend : havUtils.find value [c] (size pre + size seps)
                   = Some (size pre + size seps + size (x :: t))).
    { unfold havUtils.find. rewrite Hskip.
      assert (Hlt : (size value <? size pre + size seps) = false)
        by (apply Nat.ltb_ge; unfold value; rewrite !length_app; lia).
      rewrite Hlt. now apply find_in_token. }
    rewrite Hend. unfold havUtils.substr_to. rewrite Hskip.
    replace (size pre + size seps + size (x :: t) - (size pre + size seps))
      with (size (x :: t)) by lia.
    rewrite firstn_app_length. f_equal.
    assert (Hvalue : value = (pre ++ seps ++ x :: t) ++ [c] ++ t2 ++ rest).
    { unfold value. now rewrite <- !app_assoc. }
    assert (Hsize : size pre + size seps + size (x :: t)
                    = size (pre ++ seps ++ x :: t))
      by (rewrite !length_app; lia).
    rewrite Hvalue, Hsize.
    apply IH; try assumption; [now right|cbn in Hfuel; lia].
Qed.

Lemma length_joined (c : ascii) (tokens : list str) :
  List.length tokens <= size (concat (map (fun s => [c] ++ s) tokens)).
Proof.
  induction tokens as [|t tokens IH]; [apply le_n|].
  cbn [map concat List.length]. rewrite !length_app.
  cbn [List.length]. lia.
Qed.

(** X20. A list of strings joined by a delimiter character is split into the
    same list again, when no string is empty and none holds the delimiter;
    on the value of an entry that is not an array, [Join] and then [Split]
    give the list back. *)
Theorem Split_Join :
  forall (c : ascii) (tokens : list str) (d : havINIData),
    tokens <> [] ->
    Forall (fun t => t <> [] /\ ~ In c t) tokens ->
    havUtils.Split (havUtils.Join tokens [c]) [c] = tokens
    /\ (INIData.is_array d = false ->
        (d' <- INIData.Join d tokens [c] ;; INIData.Split d' [c]) = Ok tokens).
Proof.
  intros c tokens d Hne Hall.
  assert (Hsplit : havUtils.Split (havUtils.Join tokens [c]) [c] = tokens).
  { destruct tokens as [|t tokens]; [contradiction|].
    inversion Hall as [|? ? [Ht Hc] Hall']; subst.
    rewrite Join_cons. unfold havUtils.Split.
    set (joined := concat (map (fun s => [c] ++ s) tokens)).
    assert (H : havUtils.Split_loop (S (size (t ++ joined))) (t ++ joined)
                                    [c] (Some 0)
                = t :: tokens).
    { apply (Split_loop_tokens c tokens t [] [] _ (or_introl eq_refl));
        try assumption.
      rewrite length_app. pose proof (length_joined c tokens).
      fold joined in H. lia. }
    now rewrite H. }
  split; [exact Hsplit|]. intros Harray.
  unfold INIData.Join, INIData.Split. rewrite Harray. cbn [bind].
  change (INIData.is_array (INIData.SetValue d (havUtils.Join tokens [c])))
    with (INIData.is_array d).
  rewrite Harray. cbn [INIData.SetValue INIData.mValue]. now rewrite Hsplit.
Qed.

Lemma Split_Join_witness :
  havUtils.Split (havUtils.Join [lit "a"; lit "bc"; lit "d"] (lit ","))
                 (lit ",")
  = [lit "a"; lit "bc"; lit "d"].
Proof.
  apply (Split_Join ","%char [lit "a"; lit "bc"; lit "d"]
                    (INIData.make [] [] Value false None false)).
  - discriminate.
  - repeat (constructor;
            [split; [discriminate|simpl; intuition discriminate]|]).
    constructor.
Defined.

(** ** operator[] with a name *)

(** X21. [operator[]] with the name of a section, of a key and of an array
    element returns a place where the name is found in lower case. The name
    is created at the end when it is not there, and only then: a second call
    finds what the first has made and changes nothing. *)
Theorem subscript_creates_once :
  (forall (ini : havINIStream) (sectionName : str),
      let '(i, ini') := section_subscript ini sectionName in
      find_if (name_is (havUtils.ToLower sectionName)) (mData ini') = Some i
      /\ section_subscript ini' sectionName = (i, ini')
      /\ mData ini'
         = if HasSection ini sectionName then mData ini
           else mData ini ++ [INISection.make (havUtils.ToLower sectionName)])
  /\ (forall (s : havINISection) (key : str),
         let '(i, s') := INISection.subscript s key in
         find_if (INIData.key_is (havUtils.ToLower key))
                 (INISection.mKeyValuePairs s') = Some i
         /\ INISection.subscript s' key = (i, s')
         /\ INISection.mKeyValuePairs s'
            = if INISection.HasKey s key then INISection.mKeyValuePairs s
              else INISection.mKeyValuePairs s
                   ++ [INIData.make_key (havUtils.ToLower key) Value false false])
  /\ (forall (d : havINIData) (key : str),
         if INIData.is_array d then
           exists i d',
             INIData.subscript d key = Ok (i, d')
             /\ find_if (INIData.key_is (havUtils.ToLower key)) (INIData.mArray d')
                = Some i
             /\ INIData.subscript d' key = Ok (i, d')
         else INIData.subscript d key = Throw INIData.not_a_property_array).
Proof.
  split; [|split].
  - intros ini sectionName.
    unfold section_subscript, HasSection.
    set (name := havUtils.ToLower sectionName).
    destruct (find_if (name_is name) (mData ini)) as [i|] eqn:Hf.
    + rewrite ?Hf. now repeat split.
    + rewrite (find_if_app_last (name_is name) (mData ini)
                                (INISection.make name) Hf)
        by apply str_eqb_refl.
      cbn [mData set_mData].
      rewrite (find_if_app_last (name_is name) (mData ini)
                                (INISection.make name) Hf)
        by apply str_eqb_refl.
      now split.
  - intros s key. unfold INISection.subscript, INISection.HasKey.
    set (k := havUtils.ToLower key).
    destruct (find_if (INIData.key_is k) (INISection.mKeyValuePairs s))
      as [i|] eqn:Hf.
    + rewrite ?Hf. now repeat split.
    + rewrite (find_if_app_last (INIData.key_is k) (INISection.mKeyValuePairs s)
                                (INIData.make_key k Value false false) Hf)
        by apply str_eqb_refl.
      cbn [INISection.mKeyValuePairs INISection.set_pairs].
      rewrite (find_if_app_last (INIData.key_is k) (INISection.mKeyValuePairs s)
                                (INIData.make_key k Value false false) Hf)
        by apply str_eqb_refl.
      now split.
  - intros d key. unfold INIData.subscript.
    destruct (INIData.is_array d) eqn:Harray; [|reflexivity]. cbn [negb].
    set (k := havUtils.ToLower key).
    destruct (find_if (INIData.key_is k) (INIData.mArray d)) as [i|] eqn:Hf.
    + exists i, d. rewrite ?Harray, ?Hf. now repeat split.
    + rewrite (find_if_app_last (INIData.key_is k) (INIData.mArray d)
                                (INIData.make_key k Value false false) Hf)
        by apply str_eqb_refl.
      eexists. eexists. split; [reflexivity|].
      change (INIData.is_array (INIData.set_mArray d _))
        with (INIData.is_array d).
      rewrite Harray. cbn [INIData.mArray INIData.set_mArray negb].
      rewrite (find_if_app_last (INIData.key_is k) (INIData.mArray d)
                                (INIData.make_key k Value false false) Hf)
        by apply str_eqb_refl.
      now split.
Qed.

(** ** The array of an entry *)

Lemma set_mArray_same (d : havINIData) (array : list havINIData) :
  INIData.set_mArray (INIData.set_mArray d array) (INIData.mArray d) = d.
Proof. now destruct d. Qed.

(** X22. On an entry of type [Array], taking from the end what was pushed to
    the end, or from the front what was pushed to the front, gives the entry
    back, and a push makes the array one longer. On an entry of another type
    every call of the array interface throws. *)
Theorem Array_push_pop :
  forall d newValue : havINIData,
    (INIData.is_array d = true ->
     (d1 <- INIData.ArrayPushBack d newValue ;; INIData.ArrayPopBack d1) = Ok d
     /\ (d1 <- INIData.ArrayPushFront d newValue ;; INIData.ArrayPopFront d1)
        = Ok d
     /\ (d1 <- INIData.ArrayPushBack d newValue ;; INIData.ArraySize d1)
        = Ok (S (List.length (INIData.mArray d)))
     /\ (d1 <- INIData.ArrayPushFront d newValue ;; INIData.ArrayEmpty d1)
        = Ok false
     /\ (d1 <- INIData.ArrayClear d ;; INIData.ArrayEmpty d1) = Ok true)
    /\ (INIData.is_array d = false ->
        INIData.ArrayPushBack d newValue = Throw INIData.not_an_array
        /\ INIData.ArrayPushFront d newValue = Throw INIData.not_an_array
        /\ INIData.ArrayPopBack d = Throw INIData.not_an_array
        /\ INIData.ArrayPopFront d = Throw INIData.not_an_array
        /\ INIData.ArraySize d = Throw INIData.not_an_array
        /\ INIData.ArrayEmpty d = Throw INIData.not_an_array
        /\ INIData.ArrayClear d = Throw INIData.not_an_array
        /\ forall keyName,
             INIData.ArrayRemove d keyName = Throw INIData.not_an_array).
Proof.
  intros d newValue. split; intros Harray.
  - unfold INIData.ArrayPushBack, INIData.ArrayPushFront, INIData.ArrayClear.
    rewrite Harray. cbn [bind].
    unfold INIData.ArrayPopBack, INIData.ArrayPopFront, INIData.ArraySize,
      INIData.ArrayEmpty.
    change (INIData.is_array (INIData.set_mArray d ?a))
      with (INIData.is_array d).
    repeat match goal with
           | |- context [INIData.is_array (INIData.set_mArray d ?a)] =>
               change (INIData.is_array (INIData.set_mArray d a))
                 with (INIData.is_array d)
           end.
    rewrite Harray. cbn [INIData.mArray INIData.set_mArray].
    repeat split.
    + destruct (INIData.mArray d ++ [newValue]) eqn:E;
        [now destruct (INIData.mArray d)|].
      cbn [empty negb]. rewrite <- E, removelast_last.
      now rewrite set_mArray_same.
    + cbn [empty negb]. rewrite erase_at_0. now rewrite set_mArray_same.
    + rewrite length_app. cbn [List.length]. f_equal. lia.
  - unfold INIData.ArrayPushBack, INIData.ArrayPushFront, INIData.ArrayClear,
      INIData.ArrayPopBack, INIData.ArrayPopFront, INIData.ArraySize,
      INIData.ArrayEmpty, INIData.ArrayRemove.
    rewrite Harray. now repeat split.
Qed.

Lemma Array_push_pop_witness :
  (d1 <- INIData.ArrayPushBack (INIData.make_key (lit "list") Array false false)
                               (INIData.make (lit "0") (lit "a") Value false
                                             None false) ;;
   INIData.ArrayPopBack d1)
  = Ok (INIData.make_key (lit "list") Array false false).
Proof.
  destruct (Array_push_pop (INIData.make_key (lit "list") Array false false)
                           (INIData.make (lit "0") (lit "a") Value false
                                         None false)) as [H _].
  destruct (H eq_refl) as [Hback _]. exact Hback.
Defined.

(** ** The byte order mark that WriteFile writes *)

Lemma write_array_appends (cvt : CodeCvt) (ini : havINIStream)
    (formatted : bool) (bomType : havINIBOMType) (newline : str)
    (entry : havINIData) (lastPair : bool) (elements : list havINIData) :
  forall file file' : list ascii,
    write_array cvt ini formatted bomType newline entry lastPair elements file
    = Ok file' ->
    exists more, file' = file ++ more.
Proof.
  induction elements as [|element rest IH]; intros file file' H;
    cbn [write_array] in H.
  - injection H as <-. exists []. now rewrite app_nil_r.
  - destruct (quoted_value ini element) as [value|]; [|discriminate].
    cbn [bind] in H.
    destruct (ConvertToEscapedString (INIData.GetKey entry)) as [key|];
      [|discriminate].
    cbn [bind] in H.
    destruct (if INIData.HasArrayIndex entry then _ else _) as [kv|];
      [|discriminate].
    cbn [bind] in H. cbv zeta in H.
    destruct (with_inline_comment _ _ _ _) as [kv'|]; [|discriminate].
    cbn [bind] in H. cbv zeta in H.
    destruct (WriteStringToFile _ _ _) as [written|]; [|discriminate].
    cbn [bind] in H. apply IH in H. destruct H as [more ->].
    exists (written ++ more). now rewrite app_assoc.
Qed.

Lemma write_pairs_appends (cvt : CodeCvt) (ini : havINIStream)
    (formatted : bool) (bomType : havINIBOMType) (headerEmpty : bool)
    (pairs : list havINIData) :
  forall (first : bool) (file file' : list ascii),
    write_pairs cvt ini formatted bomType headerEmpty first pairs file
    = Ok file' ->
    exists more, file' = file ++ more.
Proof.
  induction pairs as [|d rest IH]; intros first file file' H;
    cbn [write_pairs] in H.
  - injection H as <-. exists []. now rewrite app_nil_r.
  - cbv zeta in H.
    assert (Hplain : forall kv0 : result str,
               (keyValuePair <- kv0 ;;
                keyValuePair <- with_inline_comment ini formatted d keyValuePair ;;
                written <-
                  WriteStringToFile
                    cvt
                    (if formatted && empty rest
                        && negb (havINIDataType_eqb (INIData.GetType d) Empty)
                     then keyValuePair ++ GetNewline ini else keyValuePair)
                    bomType ;;
                write_pairs cvt ini formatted bomType headerEmpty false rest
                            (file ++ written)) = Ok file' ->
               exists more, file' = file ++ more).
    { intros kv0 H0. destruct kv0 as [kv|]; [|discriminate].
      cbn [bind] in H0.
      destruct (with_inline_comment _ _ _ _) as [kv'|]; [|discriminate].
      cbn [bind] in H0.
      destruct (WriteStringToFile _ _ _) as [written|]; [|discriminate].
      cbn [bind] in H0. apply IH in H0. destruct H0 as [more ->].
      exists (written ++ more). now rewrite app_assoc. }
    destruct (INIData.GetType d) eqn:Ht.
    + exact (Hplain _ H).
    + exact (Hplain _ H).
    + exact (Hplain _ H).
    + destruct (write_array _ _ _ _ _ _ _ _ _) as [file1|] eqn:Ha;
        [|discriminate].
      cbn [bind] in H. apply write_array_appends in Ha.
      destruct Ha as [more1 ->]. apply IH in H. destruct H as [more ->].
      exists (more1 ++ more). now rewrite app_assoc.
Qed.

Lemma write_sections_appends (cvt : CodeCvt) (ini : havINIStream)
    (formatted : bool) (bomType : havINIBOMType)
    (sections : list havINISection) :
  forall (first : bool) (file file' : list ascii),
    write_sections cvt ini formatted bomType first sections file = Ok file' ->
    exists more, file' = file ++ more.
Proof.
  induction sections as [|section rest IH]; intros first file file' H;
    cbn [write_sections] in H.
  - injection H as <-. exists []. now rewrite app_nil_r.
  - destruct (negb (is_global_name _)).
    + destruct (header_text _ _ _ _ _ _) as [name|]; [|discriminate].
      cbn [bind] in H.
      destruct (WriteStringToFile _ _ _) as [written|]; [|discriminate].
      cbn [bind] in H. cbv beta iota zeta in H.
      destruct (write_pairs _ _ _ _ _ _ _ _) as [file1|] eqn:Hp;
        [|discriminate].
      cbn [bind] in H. apply write_pairs_appends in Hp.
      destruct Hp as [more1 ->]. apply IH in H. destruct H as [more ->].
      exists (written ++ more1 ++ more). now rewrite !app_assoc.
    + cbn [bind] in H. cbv beta iota zeta in H.
      destruct (write_pairs _ _ _ _ _ _ _ _) as [file1|] eqn:Hp;
        [|discriminate].
      cbn [bind] in H. apply write_pairs_appends in Hp.
      destruct Hp as [more1 ->]. apply IH in H. destruct H as [more ->].
      exists (more1 ++ more). now rewrite !app_assoc.
Qed.

(** X23. A file that [WriteFile] has written with a byte order mark begins
    with the mark, and [ParseFile] finds the mark it begins with and the
    number of bytes to skip. One case is left out: behind the mark of UTF-16
    little endian two zero bytes make the four bytes the mark of UTF-32
    little endian, and that is what is found then. *)
Theorem WriteFile_BOM_detected :
  forall (cvt : CodeCvt) (ini : havINIStream) (formatted : bool)
         (bomType : havINIBOMType) (file : list ascii),
    bomType <> BOM_None ->
    WriteFile cvt true ini formatted bomType = Ok (true, file) ->
    (exists rest, file = bom_bytes bomType ++ rest)
    /\ detect_encoding (firstn 4 file)
       = if havINIBOMType_eqb bomType UTF16LE
            && (code (nth 2 file NUL) =? 0)%N && (code (nth 3 file NUL) =? 0)%N
         then (UTF32LE, 4)
         else (bomType, bom_length bomType).
Proof.
  intros cvt ini formatted bomType file Hbom H. unfold WriteFile in H.
  cbn [negb] in H.
  destruct (write_sections _ _ _ _ _ _ _) as [written|] eqn:Hw;
    [|discriminate].
  cbn [bind] in H. injection H as <-.
  apply write_sections_appends in Hw. destruct Hw as [rest ->].
  split; [now exists rest|].
  unfold detect_encoding, detect_bom.
  destruct bomType; try contradiction; cbn [bom_bytes map app firstn nth];
    try reflexivity.
  (* UTF-16 little endian: the two bytes behind the mark decide *)
  destruct rest as [|r0 [|r1 rest]]; cbn [firstn nth app];
    change (code (chr 255) =? 255)%N with true;
    change (code (chr 254) =? 254)%N with true;
    cbn [andb havINIBOMType_eqb].
  - reflexivity.
  - change (code NUL =? 0)%N with true. rewrite andb_true_r.
    destruct (code r0 =? 0)%N; reflexivity.
  - destruct (code r0 =? 0)%N; [|reflexivity]. cbn [andb].
    destruct (code r1 =? 0)%N; reflexivity.
Qed.

Lemma WriteFile_BOM_detected_witness :
  detect_encoding (firstn 4 (bom_bytes UTF8 ++ lit "[net]" ++ [CR; LF]
                             ++ lit "host=a"))
  = (UTF8, 3).
Proof.
  apply (WriteFile_BOM_detected null_cvt one_key false UTF8).
  - discriminate.
  - reflexivity.
Defined.

(** ** A line with a key and a value *)

Lemma word_char_facts (c : ascii) :
  word_char c = true ->
  isspace c = false /\ is_comment_char c = false /\ is_quote_char c = false
  /\ Ascii.eqb c LF = false /\ Ascii.eqb c CR = false
  /\ Ascii.eqb c " "%char = false /\ Ascii.eqb c "["%char = false
  /\ Ascii.eqb c "]"%char = false /\ Ascii.eqb c "="%char = false
  /\ Ascii.eqb c ":"%char = false /\ Ascii.eqb c BACKSLASH = false
  /\ Ascii.eqb c DQUOTE = false /\ unescaped c = true
  /\ (code c =? 0)%N = false /\ (code c <? 128)%N = true.
Proof.
  destruct c as [[] [] [] [] [] [] [] []]; intros H; vm_compute in H;
    try discriminate H; vm_compute; repeat split; reflexivity.
Qed.

Lemma delimiter_facts (c : ascii) :
  c = "="%char \/ c = ":"%char ->
  isspace c = false /\ is_comment_char c = false /\ is_quote_char c = false
  /\ Ascii.eqb c LF = false /\ Ascii.eqb c CR = false
  /\ Ascii.eqb c BACKSLASH = false /\ c <> "]"%char /\ c <> DQUOTE
  /\ (code c =? 0)%N = false /\ (code c <? 128)%N = true.
Proof. intros [-> | ->]; repeat split; try reflexivity; discriminate. Qed.

Lemma filter_words (l : str) :
  Forall (fun c => word_char c = true) l ->
  filter (fun c => negb (isspace c)) l = l.
Proof.
  induction 1 as [|c l Hc Hl IH]; [reflexivity|].
  cbn [filter]. destruct (word_char_facts c Hc) as (-> & _).
  cbn [negb]. now rewrite IH.
Qed.

Lemma strip_key_value_line (delimiter : ascii) (key value : str) :
  delimiter = "="%char \/ delimiter = ":"%char ->
  Forall (fun c => word_char c = true) key ->
  Forall (fun c => word_char c = true) value ->
  strip_loop (key_value_line delimiter key value) false false []
  = key ++ delimiter :: value.
Proof.
  intros Hd Hk Hv. unfold key_value_line.
  destruct (delimiter_facts _ Hd) as (Hsp & Hcm & Hqt & _).
  assert (Hplain : forall l,
             Forall (fun c => word_char c = true) l ->
             Forall (fun c => is_comment_char c = false
                              /\ is_quote_char c = false) l).
  { intros l Hl. eapply Forall_impl; [|exact Hl]. intros c Hc.
    destruct (word_char_facts c Hc) as (_ & H1 & H2 & _). now split. }
  rewrite strip_loop_plain.
  - cbn [app]. rewrite filter_app. cbn [filter]. rewrite Hsp. cbn [negb].
    rewrite filter_app. cbn [filter].
    change (isspace LF) with true. cbn [negb].
    now rewrite !filter_words, app_nil_r.
  - apply Forall_app. split; [now apply Hplain|].
    constructor; [now split|].
    apply Forall_app. split; [now apply Hplain|].
    constructor; [now split|constructor].
Qed.

Lemma back_app_last (l : str) (c : ascii) : back (l ++ [c]) = c.
Proof. unfold back. apply last_last. Qed.

Lemma back_words (delimiter : ascii) (key value : str) :
  delimiter = "="%char \/ delimiter = ":"%char ->
  Forall (fun c => word_char c = true) value ->
  Ascii.eqb (back (key ++ delimiter :: value)) LF = false.
Proof.
  intros Hd Hv. destruct (delimiter_facts _ Hd) as (_ & _ & _ & Hlf & _).
  destruct value as [|c value] using rev_ind.
  - change (key ++ [delimiter]) with (key ++ [delimiter]).
    now rewrite back_app_last.
  - change (key ++ delimiter :: value ++ [c])
      with (key ++ (delimiter :: value) ++ [c]).
    rewrite app_assoc, back_app_last.
    apply Forall_app in Hv. destruct Hv as [_ Hc].
    inversion Hc as [|? ? Hw _]; subst.
    now destruct (word_char_facts c Hw) as (_ & _ & _ & -> & _).
Qed.

Lemma find_in_words (c : ascii) (l : str) (offset : nat) :
  ~ In c l -> havUtils.find_in [c] l offset = None.
Proof. apply find_in_none. Qed.

Lemma word_not (c : ascii) (l : str) :
  word_char c = false -> Forall (fun x => word_char x = true) l -> ~ In c l.
Proof.
  intros Hc Hl Hin. rewrite Forall_forall in Hl. apply Hl in Hin. congruence.
Qed.

(** Where the delimiters are found in the line. *)
Lemma find_delimiters (delimiter : ascii) (key value : str) :
  delimiter = "="%char \/ delimiter = ":"%char ->
  Forall (fun c => word_char c = true) key ->
  Forall (fun c => word_char c = true) value ->
  let line := key_value_line delimiter key value in
  (find_equals line, find_colon line)
  = if Ascii.eqb delimiter "="%char then (Some (size key), None)
    else (None, Some (size key)).
Proof.
  intros Hd Hk Hv line. unfold find_equals, find_colon, havUtils.find.
  cbn [Nat.ltb Nat.leb skipn]. unfold line, key_value_line.
  change (lit "=") with ["="%char]. change (lit ":") with [":"%char].
  assert (Hother : forall c,
             word_char c = false -> c <> delimiter -> c <> LF ->
             havUtils.find_in [c] (key ++ delimiter :: value ++ [LF]) 0 = None).
  { intros c Hc Hne Hlf. apply find_in_none. intros Hin.
    apply in_app_or in Hin. destruct Hin as [Hin|[Hin|Hin]].
    - now apply (word_not c key Hc Hk).
    - now apply Hne.
    - apply in_app_or in Hin. destruct Hin as [Hin|[Hin|[]]].
      + now apply (word_not c value Hc Hv).
      + now apply Hlf. }
  destruct Hd as [-> | ->]; cbn [Ascii.eqb Bool.eqb]; cbv iota.
  - rewrite (find_in_token "="%char key) by (now apply word_not).
    rewrite (Hother ":"%char) by (reflexivity || discriminate).
    reflexivity.
  - rewrite (find_in_token ":"%char key) by (now apply word_not).
    rewrite (Hother "="%char) by (reflexivity || discriminate).
    reflexivity.
Qed.

Lemma key_loop_word (endCharacter : ascii) (key : str) :
  forall (post : str) (characterIndex : nat) (keyName : str) (newKey : bool)
         (errorMessage : str),
    endCharacter = "="%char \/ endCharacter = ":"%char ->
    Forall (fun c => word_char c = true) key ->
    key_loop endCharacter false (key ++ endCharacter :: post) characterIndex
             keyName newKey errorMessage
    = (characterIndex + size key, keyName ++ key,
       if empty key then newKey else false, errorMessage).
Proof.
  induction key as [|c key IH];
    intros post ci kn nk err Hd Hk; cbn [app key_loop].
  - rewrite Ascii.eqb_refl. cbn. now rewrite Nat.add_0_r, app_nil_r.
  - inversion Hk as [|? ? Hc Hrest]; subst.
    destruct (word_char_facts c Hc)
      as (_ & Hcm & _ & _ & _ & Hsp & Hob & Hcb & Heq & Hco & _).
    assert (Hend : Ascii.eqb c endCharacter = false)
      by (destruct Hd as [-> | ->]; assumption).
    rewrite Hend, Hsp, Hob, Hcb, Hcm. cbn [negb andb].
    rewrite IH by assumption. cbn [size List.length empty].
    replace (S ci + size key) with (ci + S (size key)) by lia.
    rewrite <- app_assoc. cbn [app].
    destruct key as [|c' key]; cbn [app front hd empty].
    + now rewrite Ascii.eqb_refl.
    + reflexivity.
Qed.

Lemma value_loop_word (value : str) :
  forall (collected : str) (newValue : bool) (currentQuoteCharacter : nat)
         (inlineComment : str),
    Forall (fun c => word_char c = true) value ->
    value_loop 0 (value ++ [LF])
               (mkValueState collected false newValue false
                             currentQuoteCharacter false inlineComment [])
    = mkValueState (collected ++ value) false
                   (if empty value then newValue else false) false
                   currentQuoteCharacter false inlineComment [].
Proof.
  induction value as [|c value IH]; intros collected nv cq ic Hv.
  - cbn. now rewrite app_nil_r.
  - inversion Hv as [|? ? Hc Hrest]; subst.
    destruct (word_char_facts c Hc)
      as (_ & Hcm & Hqt & Hlf & _ & Hsp & Hob & Hcb & _).
    cbn [app value_loop]. rewrite Hlf, Hsp, Hob, Hcb, Hqt, Hcm.
    cbn [negb andb Nat.ltb Nat.leb].
    rewrite IH by assumption. cbn [empty].
    rewrite <- app_assoc. cbn [app]. f_equal.
    destruct value as [|c' value]; cbn [app front hd empty].
    + reflexivity.
    + inversion Hrest as [|? ? Hc' _]; subst.
      now destruct (word_char_facts c' Hc') as (_ & _ & _ & -> & _).
Qed.

Lemma quote_count_none (line : str) (fuel position count : nat) :
  ~ In DQUOTE line -> quote_count_loop fuel line position count = count.
Proof.
  intros Hq. destruct fuel as [|fuel]; [reflexivity|].
  cbn [quote_count_loop]. unfold havUtils.find.
  destruct (size line <? position + 1); [reflexivity|].
  rewrite find_in_none; [reflexivity|].
  intros Hin. apply Hq. now apply In_skipn in Hin.
Qed.

(** What the insertion of a plain value does to the first matches. *)
Lemma insert_entry_plain_entries (ini : havINIStream)
    (section key value arrayIndex : str) (hasArrayIndex : bool) :
  havUtils.ToLower section = section -> havUtils.ToLower key = key ->
  exists ini',
    insert_entry ini section key value false false [] arrayIndex false
                 hasArrayIndex = Ok ini'
    /\ forall name' key',
         entry_of ini' name' key'
         = if str_eqb name' section && str_eqb key' key then
             Some (INIData.SetInlineComment
                     (match entry_of ini section key with
                      | Some d =>
                          INIData.SetAddQuotes (INIData.SetValue d value) false
                      | None => INIData.make key value Value false None false
                      end) [])
           else entry_of ini name' key'.
Proof.
  intros Hsection Hkey. unfold insert_entry. cbv beta iota zeta.
  set (f := fun s : havINISection =>
              let s1 := INISection.SetKeyValuePair s key value false in
              match INISection.GetKeyValuePair s1 key with
              | Some i =>
                  INISection.set_pairs
                    s1 (modify i (fun d => INIData.SetInlineComment d [])
                               (INISection.mKeyValuePairs s1))
              | None => s1
              end).
  assert (Hf : forall s,
             (match INISection.GetKeyValuePair
                      (INISection.SetKeyValuePair s key value false) key with
              | Some i =>
                  Ok (INISection.set_pairs
                        (INISection.SetKeyValuePair s key value false)
                        (modify i (fun d => INIData.SetInlineComment d [])
                                (INISection.mKeyValuePairs
                                   (INISection.SetKeyValuePair s key value
                                                               false))))
              | None => Ok (INISection.SetKeyValuePair s key value false)
              end) = Ok (f s)).
  { intros s. unfold f. cbv zeta. now destruct (INISection.GetKeyValuePair _ _). }
  assert (Hname : forall s, INISection.mSectionName (f s)
                            = INISection.mSectionName s).
  { intros s. unfold f. cbv zeta.
    assert (E : INISection.mSectionName
                  (INISection.SetKeyValuePair s key value false)
                = INISection.mSectionName s).
    { apply name_is_eq. rewrite name_is_SetKeyValuePair. now apply name_is_eq. }
    now destruct (INISection.GetKeyValuePair _ _). }
  assert (Hentry : forall s key',
             entry_keyed (f s) key'
             = if str_eqb key' key then
                 Some (INIData.SetInlineComment
                         (match entry_keyed s key with
                          | Some d =>
                              INIData.SetAddQuotes (INIData.SetValue d value)
                                                   false
                          | None =>
                              INIData.make key value Value false None false
                          end) [])
               else entry_keyed s key').
  { intros s key'. unfold f. cbv zeta.
    pose proof (fun key' =>
                  entry_keyed_SetKeyValuePair s key value key' false Hkey)
      as Hset.
    set (s1 := INISection.SetKeyValuePair s key value false) in *.
    unfold INISection.GetKeyValuePair. rewrite Hkey.
    destruct (find_if (INIData.key_is key) (INISection.mKeyValuePairs s1))
      as [j|] eqn:Hj.
    - rewrite (entry_keyed_modify s1 j _ key key' Hj) by reflexivity.
      rewrite !Hset. rewrite str_eqb_refl.
      now destruct (str_eqb key' key).
    - apply entry_keyed_none in Hj. rewrite Hset in Hj.
      rewrite str_eqb_refl in Hj. discriminate. }
  unfold HasSection, on_section, GetSection. rewrite Hsection.
  destruct (find_if (name_is section) (mData ini)) as [i|] eqn:Hi; cbn [negb].
  - destruct (section_named_found _ _ _ Hi) as (s & Hs & Hn & Hsn).
    rewrite Hn, Hf. cbn [bind]. eexists. split; [reflexivity|].
    intros name' key'. unfold entry_of.
    change (set_mData ini (modify i (fun _ => f s) (mData ini)))
      with (with_section ini i (fun _ => f s)).
    rewrite (section_named_replace ini i s (f s) section name' Hi Hn (Hname s)).
    destruct (str_eqb name' section) eqn:E; cbn [andb]; [|reflexivity].
    apply str_eqb_eq in E. subst name'. now rewrite Hs, Hentry.
  - rewrite Hf. cbn [bind]. eexists. split; [reflexivity|].
    intros name' key'. unfold entry_of, push_section.
    assert (Hnone : section_named ini section = None)
      by now apply section_named_none.
    pose proof (Hname (INISection.make section)) as Hn.
    cbn [INISection.make INISection.mSectionName] in Hn.
    rewrite section_named_append by (now rewrite Hn). rewrite Hn, Hnone.
    destruct (str_eqb name' section) eqn:E; cbn [andb]; [|reflexivity].
    apply str_eqb_eq in E. subst name'. rewrite Hentry, Hnone.
    now destruct (str_eqb key' key).
Qed.

Lemma ToLower_words_no_bracket (l : str) :
  Forall (fun c => word_char c = true) l -> Forall (fun c => c <> "]"%char) l.
Proof.
  intros H. eapply Forall_impl; [|exact H]. intros c Hc ->. discriminate.
Qed.

(** [parse_line] on a line of plain characters. *)
Lemma parse_line_plain :
  forall (delimiter : ascii) (key value : str) (p : ParseState)
         (ini : havINIStream),
    delimiter = "="%char \/ delimiter = ":"%char ->
    key <> [] ->
    Forall (fun c => word_char c = true) key ->
    Forall (fun c => word_char c = true) value ->
    ready p -> havUtils.ToLower (sectionName p) = sectionName p ->
    exists p' ini',
      parse_line (key_value_line delimiter key value) p ini = Ok (p', ini')
      /\ ready p' /\ sectionName p' = sectionName p
      /\ (forall defaultValue,
             GetValue ini' (sectionName p) key defaultValue = value)
      /\ HasKey ini' (sectionName p) key = true
      /\ (forall sectionName' keyName' defaultValue,
             havUtils.ToLower sectionName' <> sectionName p
             \/ havUtils.ToLower keyName' <> havUtils.ToLower key ->
             GetValue ini' sectionName' keyName' defaultValue
             = GetValue ini sectionName' keyName' defaultValue
             /\ HasKey ini' sectionName' keyName'
                = HasKey ini sectionName' keyName').
Proof.
  intros delimiter key value p ini Hd Hne Hk Hv Hready Hlow.
  destruct Hready as (Herr & Hnk & Hnv & Hsv & Hhic).
  set (line := key_value_line delimiter key value).
  assert (Hline : line = key ++ delimiter :: value ++ [LF]) by reflexivity.
  destruct (delimiter_facts _ Hd)
    as (_ & Hdcm & _ & _ & _ & _ & Hdcb & Hddq & _).
  (* the line as the parser takes it up *)
  unfold parse_line.
  pose proof (strip_key_value_line delimiter key value Hd Hk Hv) as Hstrip.
  fold line in Hstrip. rewrite Hstrip.
  assert (Hnonempty : empty (key ++ delimiter :: value) = false)
    by (destruct key; [contradiction|reflexivity]).
  rewrite Hnonempty, (back_words delimiter key value Hd Hv). cbn [negb].
  replace ((key ++ delimiter :: value) ++ [LF]) with line
    by (rewrite Hline, <- app_assoc; reflexivity).
  assert (Hfirst : exists c rest, key = c :: rest /\ word_char c = true).
  { destruct key as [|c rest]; [contradiction|].
    inversion Hk; subst. now exists c, rest. }
  destruct Hfirst as (c0 & rest0 & Hkey0 & Hc0).
  assert (Hat0 : at_ line 0 = c0) by (rewrite Hline, Hkey0; reflexivity).
  destruct (word_char_facts c0 Hc0) as (_ & Hcm0 & _ & _ & _ & _ & Hob0 & _).
  rewrite Hat0, Hcm0, Hob0, Hnk.
  (* the key *)
  assert (Hcases : (find_equals line = Some (size key)
                    /\ find_colon line = None /\ delimiter = "="%char)
                   \/ (find_equals line = None
                       /\ find_colon line = Some (size key)
                       /\ delimiter = ":"%char)).
  { pose proof (find_delimiters delimiter key value Hd Hk Hv) as Hfind.
    cbv zeta in Hfind. fold line in Hfind.
    destruct Hd as [Hd | Hd]; rewrite Hd in Hfind;
      cbn [Ascii.eqb Bool.eqb] in Hfind; cbv iota in Hfind;
      injection Hfind as Hfe Hfc; [left|right]; now repeat split. }
  assert (Hendc : end_character (find_equals line) (find_colon line)
                  = delimiter)
    by (destruct Hcases as [(E1 & E2 & E3) | (E1 & E2 & E3)];
        rewrite E1, E2, E3; reflexivity).
  assert (Hstart : value_start (find_equals line) (find_colon line) (size key)
                   = size key + 1)
    by (destruct Hcases as [(E1 & E2 & E3) | (E1 & E2 & E3)];
        rewrite E1, ?E2; reflexivity).
  assert (Hfound : forall e : str,
             match find_equals line, find_colon line with
             | None, None => e ++ no_delimiter_message
             | _, _ => e
             end = e)
    by (intros e; destruct Hcases as [(E1 & E2 & E3) | (E1 & E2 & E3)];
        rewrite E1, ?E2; reflexivity).
  assert (Hnobracket : Forall (fun c => c <> "]"%char) line).
  { rewrite Hline. apply Forall_app. split;
      [now apply ToLower_words_no_bracket|].
    constructor; [assumption|].
    apply Forall_app. split; [now apply ToLower_words_no_bracket|].
    constructor; [discriminate|constructor]. }
  unfold parse_key. rewrite Hfound, Hendc, Herr. cbn [empty].
  rewrite classify_key_plain by (now apply Split_first_clean).
  cbn [skipn].
  pose proof (key_loop_word delimiter key (value ++ [LF]) 0 [] (newKey p) []
                            Hd Hk) as Hkl.
  change (key ++ delimiter :: value ++ [LF]) with line in Hkl.
  rewrite Hkl. cbn [app Nat.add].
  replace (if empty key then newKey p else false) with false
    by (destruct key; [contradiction|reflexivity]).
  cbn [empty newValue].
  (* the value *)
  unfold parse_value. cbn [errorMessage sectionName keyName newValue
                             stringValue hasInlineComment inlineComment
                             arrayIndex isArrayKey hasArrayIndex newKey
                             newSection].
  rewrite Hfound. cbn [empty].
  assert (Hnoquote : ~ In DQUOTE line).
  { rewrite Hline. intros Hin. apply in_app_or in Hin.
    destruct Hin as [Hin|[Hin|Hin]].
    - now apply (word_not DQUOTE key eq_refl Hk).
    - now apply Hddq.
    - apply in_app_or in Hin. destruct Hin as [Hin|[Hin|[]]].
      + now apply (word_not DQUOTE value eq_refl Hv).
      + discriminate. }
  rewrite (quote_count_none line _ _ _ Hnoquote).
  unfold value_text. rewrite Hstart.
  assert (Hskip : skipn (size key + 1) line = value ++ [LF]).
  { rewrite Hline.
    change (key ++ delimiter :: value ++ [LF])
      with (key ++ [delimiter] ++ value ++ [LF]).
    rewrite app_assoc.
    replace (size key + 1) with (size (key ++ [delimiter]))
      by (rewrite length_app; reflexivity).
    apply skipn_app_length. }
  rewrite Hskip, Hsv, Hhic.
  rewrite (value_loop_word value [] true 0 (inlineComment p) Hv).
  cbn [v_newValue v_stringValue v_errorMessage v_value v_addQuotes
         v_hasInlineComment v_inlineComment andb app empty].
  rewrite andb_false_r. cbn [empty].
  destruct (insert_entry_plain_entries
              ini (sectionName p) (havUtils.ToLower key) value (arrayIndex p)
              false Hlow (ToLower_idem key))
    as (ini' & Hinsert & Hentries).
  rewrite Hinsert. cbn [bind].
  exists (mkParseState [] (sectionName p) (havUtils.ToLower key) value []
                       (newSection p) true false false false (arrayIndex p)
                       false false), ini'.
  split; [reflexivity|]. split; [now repeat split|].
  split; [reflexivity|].
  split; [|split].
  - intros defaultValue. rewrite GetValue_entry_of, Hlow, Hentries.
    rewrite !str_eqb_refl. cbn [andb].
    now destruct (entry_of ini _ _).
  - rewrite HasKey_entry_of, Hlow, Hentries, !str_eqb_refl. reflexivity.
  - intros sectionName' keyName' defaultValue Hother.
    rewrite !GetValue_entry_of, !HasKey_entry_of, Hentries.
    rewrite (other_pair _ _ _ _ Hother). now split.
Qed.

(** X24. A line that holds a key of plain characters, a delimiter and a
    value of plain characters: the parser stores the value under the key in
    the current section, changes no other entry and is ready for the next
    line. *)
Theorem parse_line_key_value :
  forall (delimiter : ascii) (key value : str) (p : ParseState)
         (ini : havINIStream),
    delimiter = "="%char \/ delimiter = ":"%char ->
    key <> [] ->
    Forall (fun c => word_char c = true) key ->
    Forall (fun c => word_char c = true) value ->
    ready p -> havUtils.ToLower (sectionName p) = sectionName p ->
    exists p' ini',
      parse_line (key_value_line delimiter key value) p ini = Ok (p', ini')
      /\ ready p' /\ sectionName p' = sectionName p
      /\ (forall defaultValue,
             GetValue ini' (sectionName p) key defaultValue = value)
      /\ HasKey ini' (sectionName p) key = true
      /\ (forall sectionName' keyName' defaultValue,
             havUtils.ToLower sectionName' <> sectionName p
             \/ havUtils.ToLower keyName' <> havUtils.ToLower key ->
             GetValue ini' sectionName' keyName' defaultValue
             = GetValue ini sectionName' keyName' defaultValue
             /\ HasKey ini' sectionName' keyName'
                = HasKey ini sectionName' keyName').
Proof. exact parse_line_plain. Qed.

Lemma parse_line_key_value_witness :
  exists p' ini',
    parse_line (key_value_line "="%char (lit "Host") (lit "example"))
               ParseState_init havINIStream_new = Ok (p', ini')
    /\ GetValue ini' (lit "hi_global") (lit "Host") [] = lit "example".
Proof.
  destruct (parse_line_key_value "="%char (lit "Host") (lit "example")
              ParseState_init havINIStream_new)
    as (p' & ini' & Hrun & _ & _ & Hvalue & _).
  - now left.
  - discriminate.
  - repeat (constructor; [reflexivity|]). constructor.
  - repeat (constructor; [reflexivity|]). constructor.
  - now repeat split.
  - reflexivity.
  - exists p', ini'. split; [exact Hrun|apply Hvalue].
Defined.

(** ** A file of keys and values *)

Lemma HasKey_HasSection (ini : havINIStream) (sectionName keyName : str) :
  HasKey ini sectionName keyName = true -> HasSection ini sectionName = true.
Proof.
  rewrite HasKey_section_named, HasSection_section_named.
  now destruct (section_named ini _).
Qed.

Lemma parse_lines_key_values (delimiter : ascii) (entries : list (str * str)) :
  forall (p : ParseState) (ini : havINIStream) (cout : list str),
    delimiter = "="%char \/ delimiter = ":"%char ->
    Forall plain_pair entries ->
    NoDup (map (fun entry => havUtils.ToLower (fst entry)) entries) ->
    ready p -> havUtils.ToLower (sectionName p) = sectionName p ->
    exists p' ini',
      parse_lines (map (fun entry => key_value_line delimiter (fst entry)
                                                    (snd entry)) entries)
                  p ini cout = Ok (p', ini', cout)
      /\ ready p' /\ sectionName p' = sectionName p
      /\ (forall key value defaultValue,
             In (key, value) entries ->
             GetValue ini' (sectionName p) key defaultValue = value
             /\ HasKey ini' (sectionName p) key = true)
      /\ (forall sectionName' keyName' defaultValue,
             havUtils.ToLower sectionName' <> sectionName p
             \/ ~ In (havUtils.ToLower keyName')
                     (map (fun entry => havUtils.ToLower (fst entry)) entries) ->
             GetValue ini' sectionName' keyName' defaultValue
             = GetValue ini sectionName' keyName' defaultValue
             /\ HasKey ini' sectionName' keyName'
                = HasKey ini sectionName' keyName').
Proof.
  induction entries as [|[key value] entries IH];
    intros p ini cout Hd Hall Hnd Hready Hlow.
  - exists p, ini. cbn [map parse_lines].
    split; [reflexivity|]. split; [exact Hready|]. split; [reflexivity|].
    split; [intros k v d []|]. intros s' k' d _. now split.
  - inversion Hall as [|? ? (Hne & Hk & Hv) Hall']; subst.
    cbn [map fst snd] in Hnd, Hne, Hk, Hv.
    inversion Hnd as [|? ? Hfresh Hnd']; subst.
    cbn [map parse_lines fst snd].
    destruct Hready as (Herr & Hready').
    rewrite Herr. cbn [empty negb].
    destruct (parse_line_plain delimiter key value p ini Hd Hne Hk Hv
                                   (conj Herr Hready') Hlow)
      as (p1 & ini1 & Hrun & Hready1 & Hsec1 & Hvalue1 & Hhas1 & Hframe1).
    rewrite Hrun. cbn [bind].
    assert (Hlow1 : havUtils.ToLower (sectionName p1) = sectionName p1)
      by (now rewrite Hsec1).
    destruct (IH p1 ini1 cout Hd Hall' Hnd' Hready1 Hlow1)
      as (p' & ini' & Hrest & Hready2 & Hsec2 & Hvalues & Hframe).
    rewrite Hsec1 in Hvalues, Hframe.
    exists p', ini'. split; [exact Hrest|]. split; [exact Hready2|].
    split; [congruence|]. split.
    + intros k v defaultValue [E|Hin].
      * injection E as <- <-.
        destruct (Hframe (sectionName p) key defaultValue (or_intror Hfresh))
          as [-> ->].
        split; [apply Hvalue1|exact Hhas1].
      * now apply Hvalues.
    + intros sectionName' keyName' defaultValue Hother.
      destruct (Hframe sectionName' keyName' defaultValue) as [-> ->].
      * destruct Hother as [H|H]; [now left|right].
        intros Hin. apply H. now right.
      * apply Hframe1. destruct Hother as [H|H]; [now left|right].
        intros E. apply H. left. now symmetry.
Qed.

(** The words of a line are taken over by the reference line splitter. *)
Lemma spec_split_words (word : str) :
  forall rest line : str,
    Forall (fun c => Ascii.eqb c LF = false /\ Ascii.eqb c CR = false) word ->
    spec_split_lines (word ++ rest) line = spec_split_lines rest (line ++ word).
Proof.
  induction word as [|c word IH]; intros rest line Hw.
  - now rewrite app_nil_r.
  - inversion Hw as [|? ? [Hlf Hcr] Hw']; subst.
    cbn [app spec_split_lines]. rewrite Hlf, Hcr, IH by assumption.
    now rewrite <- app_assoc.
Qed.

Lemma crlf_only_words (word rest : str) :
  Forall (fun c => Ascii.eqb c BACKSLASH = false /\ Ascii.eqb c CR = false)
         word ->
  crlf_only (word ++ rest) = crlf_only rest.
Proof.
  induction 1 as [|c word [Hbs Hcr] Hw IH]; [reflexivity|].
  cbn [app crlf_only]. now rewrite Hbs, Hcr.
Qed.

Lemma line_body_facts (delimiter : ascii) (key value : str) :
  delimiter = "="%char \/ delimiter = ":"%char ->
  Forall (fun c => word_char c = true) key ->
  Forall (fun c => word_char c = true) value ->
  Forall (fun c => Ascii.eqb c LF = false /\ Ascii.eqb c CR = false)
         (key ++ delimiter :: value)
  /\ Forall (fun c => Ascii.eqb c BACKSLASH = false /\ Ascii.eqb c CR = false)
            (key ++ delimiter :: value).
Proof.
  intros Hd Hk Hv.
  destruct (delimiter_facts _ Hd) as (_ & _ & _ & Hlf & Hcr & Hbs & _).
  assert (Hw : forall l,
             Forall (fun c => word_char c = true) l ->
             Forall (fun c => Ascii.eqb c LF = false /\ Ascii.eqb c CR = false) l
             /\ Forall (fun c => Ascii.eqb c BACKSLASH = false
                                 /\ Ascii.eqb c CR = false) l).
  { intros l Hl. split; (eapply Forall_impl; [|exact Hl]); intros c Hc;
      destruct (word_char_facts c Hc)
        as (_ & _ & _ & H1 & H2 & _ & _ & _ & _ & _ & H3 & _); now split. }
  destruct (Hw key Hk) as [Hk1 Hk2]. destruct (Hw value Hv) as [Hv1 Hv2].
  split; apply Forall_app; (split; [assumption|]); constructor;
    try assumption; now split.
Qed.

(** The text of a file of keys and values is segmented into its lines. *)
Lemma segment_key_value_text (newline : str) (delimiter : ascii)
    (terminated : bool) (entries : list (str * str)) :
  newline = [LF] \/ newline = [CR; LF] ->
  delimiter = "="%char \/ delimiter = ":"%char ->
  Forall plain_pair entries ->
  segment (key_value_text newline delimiter terminated entries)
  = Ok (map (fun entry => key_value_line delimiter (fst entry) (snd entry))
            entries).
Proof.
  intros Hnl Hd Hall.
  assert (Hsplit : spec_split_lines
                     (key_value_text newline delimiter terminated entries) []
                   = map (fun entry => key_value_line delimiter (fst entry)
                                                      (snd entry)) entries
                   /\ crlf_only (key_value_text newline delimiter terminated
                                                entries) = true).
  { induction entries as [|[key value] entries IH]; [now split|].
    inversion Hall as [|? ? (Hne & Hk & Hv) Hall']; subst.
    cbn [fst snd] in Hne, Hk, Hv. specialize (IH Hall').
    destruct IH as [IHs IHc].
    destruct (line_body_facts delimiter key value Hd Hk Hv) as [Hb1 Hb2].
    cbn [key_value_text map fst snd].
    change (key ++ delimiter :: value ++ ?t)
      with (key ++ (delimiter :: value) ++ t).
    rewrite !app_assoc, spec_split_words, crlf_only_words by assumption.
    cbn [app]. unfold key_value_line.
    assert (Hbody : empty (key ++ delimiter :: value) = false)
      by (destruct key; [contradiction|reflexivity]).
    replace (key ++ delimiter :: value ++ [LF])
      with ((key ++ delimiter :: value) ++ [LF])
      by (rewrite <- app_assoc; reflexivity).
    destruct entries as [|next entries].
    - destruct terminated.
      + destruct Hnl as [-> | ->]; now split.
      + cbn [spec_split_lines crlf_only map]. rewrite Hbody. now split.
    - destruct Hnl as [-> | ->]; cbn [app spec_split_lines crlf_only
                                         Ascii.eqb Bool.eqb andb];
        cbv iota; rewrite IHs, IHc; now split. }
  destruct Hsplit as [Hs Hc].
  now rewrite (segment_agrees_without_lone_CR _ Hc), Hs.
Qed.

Lemma detect_encoding_text (c0 c1 : ascii) (text : str) :
  (code c0 <? 128)%N = true -> (code c0 =? 0)%N = false ->
  (code c1 =? 0)%N = false ->
  detect_encoding (firstn 4 (c0 :: c1 :: text)) = (BOM_None, 0).
Proof.
  intros H7 H0 H1. apply N.ltb_lt in H7.
  assert (Hne : forall k, (128 <= k)%N -> (code c0 =? k)%N = false)
    by (intros k Hk; apply N.eqb_neq; lia).
  unfold detect_encoding, detect_bom, guess_encoding. cbv beta zeta.
  cbn [firstn nth].
  rewrite (Hne 255%N), (Hne 254%N), (Hne 239%N), ?H0, ?H1 by lia.
  cbn [andb negb havINIBOMType_eqb]. reflexivity.
Qed.

Lemma key_value_text_head (newline : str) (delimiter : ascii)
    (terminated : bool) (key value : str) (rest : list (str * str)) :
  delimiter = "="%char \/ delimiter = ":"%char ->
  plain_pair (key, value) ->
  exists c0 c1 text,
    key_value_text newline delimiter terminated ((key, value) :: rest)
    = c0 :: c1 :: text
    /\ (code c0 <? 128)%N = true /\ (code c0 =? 0)%N = false
    /\ (code c1 =? 0)%N = false.
Proof.
  intros Hd (Hne & Hk & _). cbn [fst snd] in Hne, Hk.
  destruct (delimiter_facts _ Hd) as (_ & _ & _ & _ & _ & _ & _ & _ & Hd0 & _).
  destruct key as [|c0 key]; [contradiction|].
  inversion Hk as [|? ? Hc0 Hk']; subst.
  destruct (word_char_facts c0 Hc0)
    as (_ & _ & _ & _ & _ & _ & _ & _ & _ & _ & _ & _ & _ & H0 & H7).
  destruct key as [|c1 key].
  - cbn [key_value_text app]. do 3 eexists. split; [reflexivity|].
    now repeat split.
  - inversion Hk' as [|? ? Hc1 _]; subst.
    destruct (word_char_facts c1 Hc1)
      as (_ & _ & _ & _ & _ & _ & _ & _ & _ & _ & _ & _ & _ & H1 & _).
    cbn [key_value_text app]. do 3 eexists. split; [reflexivity|].
    now repeat split.
Qed.

(** [ParseFile] on the text of a file of keys and values. *)
Lemma ParseFile_key_value_lines :
  forall (cvt : CodeCvt) (fileName newline : str) (delimiter : ascii)
         (terminated : bool) (entries : list (str * str)) (ini : havINIStream),
    newline = [LF] \/ newline = [CR; LF] ->
    delimiter = "="%char \/ delimiter = ":"%char ->
    Forall plain_pair entries ->
    NoDup (map (fun entry => havUtils.ToLower (fst entry)) entries) ->
    6 <= size (key_value_text newline delimiter terminated entries) ->
    exists ini',
      ParseFile cvt fileName
                (Some (key_value_text newline delimiter terminated entries))
                ini
      = Ok (true, ini', [])
      /\ (forall key value defaultValue,
             In (key, value) entries ->
             GetValue ini' (lit "hi_global") key defaultValue = value
             /\ HasKey ini' (lit "hi_global") key = true)
      /\ (forall sectionName' keyName' defaultValue,
             havUtils.ToLower sectionName' <> lit "hi_global"
             \/ ~ In (havUtils.ToLower keyName')
                     (map (fun entry => havUtils.ToLower (fst entry)) entries) ->
             GetValue ini' sectionName' keyName' defaultValue
             = GetValue ini sectionName' keyName' defaultValue
             /\ HasKey ini' sectionName' keyName'
                = HasKey ini sectionName' keyName').
Proof.
  intros cvt fileName newline delimiter terminated entries ini
         Hnl Hd Hall Hnd Hsize.
  set (text := key_value_text newline delimiter terminated entries) in *.
  destruct (parse_lines_key_values
              delimiter entries ParseState_init ini [] Hd Hall Hnd)
    as (p' & ini' & Hrun & Hready & Hsec & Hvalues & Hframe);
    [now repeat split|reflexivity|].
  change (sectionName ParseState_init) with (lit "hi_global")
    in Hsec, Hvalues, Hframe.
  exists ini'. split; [|split; assumption].
  unfold ParseFile.
  destruct (Nat.eqb_spec (size text) 0) as [E|_]; [lia|].
  destruct (Nat.ltb_spec (size text) 6) as [E|_]; [lia|].
  destruct entries as [|[key value] rest]; [cbn in Hsize; lia|].
  inversion Hall as [|? ? Hpair _]; subst.
  destruct (key_value_text_head newline delimiter terminated key value rest
                                Hd Hpair)
    as (c0 & c1 & t & Htext & H7 & H0 & H1).
  fold text in Htext.
  assert (Henc : detect_encoding (firstn 4 text) = (BOM_None, 0))
    by (rewrite Htext; now apply detect_encoding_text).
  rewrite Henc. cbn [havINIBOMType_eqb negb read_contents transcode].
  rewrite read_loop_id by lia. cbn [bind].
  unfold text at 1.
  rewrite (segment_key_value_text newline delimiter terminated _ Hnl Hd Hall).
  cbn [bind]. unfold parse_buffer. rewrite Hrun. cbn [bind].
  cbv beta iota zeta. unfold parse_finish.
  destruct Hready as (Herr & _). rewrite Herr, Hsec. cbn [empty negb].
  destruct (Hvalues key value [] (or_introl eq_refl)) as [_ Hhas].
  now rewrite (HasKey_HasSection _ _ _ Hhas).
Qed.

(** X25. A file that holds one key and value of plain characters on each
    line, with line feeds or carriage return and line feed between the lines
    and no key twice: [ParseFile] returns [true] without a message, every
    key of the file has its value in the global section, and nothing else in
    the document has changed. *)
Theorem ParseFile_key_value_file :
  forall (cvt : CodeCvt) (fileName newline : str) (delimiter : ascii)
         (terminated : bool) (entries : list (str * str)) (ini : havINIStream),
    newline = [LF] \/ newline = [CR; LF] ->
    delimiter = "="%char \/ delimiter = ":"%char ->
    Forall plain_pair entries ->
    NoDup (map (fun entry => havUtils.ToLower (fst entry)) entries) ->
    6 <= size (key_value_text newline delimiter terminated entries) ->
    exists ini',
      ParseFile cvt fileName
                (Some (key_value_text newline delimiter terminated entries))
                ini
      = Ok (true, ini', [])
      /\ (forall key value defaultValue,
             In (key, value) entries ->
             GetValue ini' (lit "hi_global") key defaultValue = value
             /\ HasKey ini' (lit "hi_global") key = true)
      /\ (forall sectionName' keyName' defaultValue,
             havUtils.ToLower sectionName' <> lit "hi_global"
             \/ ~ In (havUtils.ToLower keyName')
                     (map (fun entry => havUtils.ToLower (fst entry)) entries) ->
             GetValue ini' sectionName' keyName' defaultValue
             = GetValue ini sectionName' keyName' defaultValue
             /\ HasKey ini' sectionName' keyName'
                = HasKey ini sectionName' keyName').
Proof. exact ParseFile_key_value_lines. Qed.

Lemma ParseFile_key_value_file_witness :
  exists ini',
    ParseFile null_cvt (lit "settings.ini")
              (Some (lit "Host=example" ++ [CR; LF] ++ lit "Port=8080"
                     ++ [CR; LF]))
              havINIStream_new
    = Ok (true, ini', [])
    /\ GetValue ini' (lit "hi_global") (lit "port") [] = lit "8080".
Proof.
  destruct (ParseFile_key_value_file
              null_cvt (lit "settings.ini") [CR; LF] "="%char true
              [(lit "Host", lit "example"); (lit "Port", lit "8080")]
              havINIStream_new)
    as (ini' & Hrun & Hvalues & _).
  - now right.
  - now left.
  - repeat (constructor;
            [split; [discriminate|];
             split; repeat (constructor; [reflexivity|]); constructor|]).
    constructor.
  - vm_compute. solve_NoDup.
  - vm_compute. lia.
  - exists ini'. split; [exact Hrun|].
    destruct (Hvalues (lit "Port") (lit "8080") []) as [Hvalue _].
    + right. now left.
    + exact Hvalue.
Defined.

(** ** Keys that a file repeats *)

Lemma last_value_In (entries : list (str * str)) (key value : str) :
  In (key, value) entries ->
  exists v, last_value entries (havUtils.ToLower key) = Some v.
Proof.
  induction entries as [|entry entries IH]; intros Hin; [contradiction|].
  cbn [last_value]. destruct Hin as [-> |Hin].
  - destruct (last_value entries _) as [v|]; [now exists v|].
    cbn [fst snd]. rewrite str_eqb_refl. now exists value.
  - destruct (IH Hin) as [v ->]. now exists v.
Qed.

(** The lines of keys and values, where a key may come again: each key
    ends with the value of its last line. *)
Lemma parse_lines_repeated_keys (delimiter : ascii)
    (entries : list (str * str)) :
  forall (p : ParseState) (ini : havINIStream) (cout : list str),
    delimiter = "="%char \/ delimiter = ":"%char ->
    Forall plain_pair entries ->
    ready p -> havUtils.ToLower (sectionName p) = sectionName p ->
    exists p' ini',
      parse_lines (map (fun entry => key_value_line delimiter (fst entry)
                                                    (snd entry)) entries)
                  p ini cout = Ok (p', ini', cout)
      /\ ready p' /\ sectionName p' = sectionName p
      /\ (forall sectionName' keyName' defaultValue,
             GetValue ini' sectionName' keyName' defaultValue
             = match (if str_eqb (havUtils.ToLower sectionName') (sectionName p)
                      then last_value entries (havUtils.ToLower keyName')
                      else None) with
               | Some value => value
               | None => GetValue ini sectionName' keyName' defaultValue
               end
             /\ HasKey ini' sectionName' keyName'
                = match (if str_eqb (havUtils.ToLower sectionName')
                                    (sectionName p)
                         then last_value entries (havUtils.ToLower keyName')
                         else None) with
                  | Some _ => true
                  | None => HasKey ini sectionName' keyName'
                  end).
Proof.
  induction entries as [|[key value] entries IH];
    intros p ini cout Hd Hall Hready Hlow.
  - exists p, ini. cbn [map parse_lines last_value].
    split; [reflexivity|]. split; [exact Hready|]. split; [reflexivity|].
    intros s' k' d. now destruct (str_eqb _ _).
  - inversion Hall as [|? ? (Hne & Hk & Hv) Hall']; subst.
    cbn [fst snd] in Hne, Hk, Hv.
    cbn [map parse_lines fst snd].
    destruct Hready as (Herr & Hready').
    rewrite Herr. cbn [empty negb].
    destruct (parse_line_plain delimiter key value p ini Hd Hne Hk Hv
                                   (conj Herr Hready') Hlow)
      as (p1 & ini1 & Hrun & Hready1 & Hsec1 & Hvalue1 & Hhas1 & Hframe1).
    rewrite Hrun. cbn [bind].
    assert (Hlow1 : havUtils.ToLower (sectionName p1) = sectionName p1)
      by (now rewrite Hsec1).
    destruct (IH p1 ini1 cout Hd Hall' Hready1 Hlow1)
      as (p' & ini' & Hrest & Hready2 & Hsec2 & Hvalues).
    rewrite Hsec1 in Hvalues.
    exists p', ini'. split; [exact Hrest|]. split; [exact Hready2|].
    split; [congruence|].
    intros s' k' d. destruct (Hvalues s' k' d) as [-> ->].
    cbn [last_value fst snd].
    destruct (str_eqb (havUtils.ToLower s') (sectionName p)) eqn:Es.
    + destruct (last_value entries (havUtils.ToLower k')) as [v|];
        [now split|].
      destruct (str_eqb (havUtils.ToLower key) (havUtils.ToLower k')) eqn:Ek.
      * apply str_eqb_eq in Es, Ek.
        specialize (Hvalue1 d).
        rewrite GetValue_entry_of in Hvalue1 |- *.
        rewrite HasKey_entry_of in Hhas1 |- *.
        rewrite Hlow, <- Es, Ek in Hvalue1, Hhas1.
        now split.
      * apply Hframe1. right. intros E. apply str_eqb_neq in Ek.
        now apply Ek.
    + apply Hframe1. left. now apply str_eqb_neq in Es.
Qed.

Lemma ParseFile_repeated_keys :
  forall (cvt : CodeCvt) (fileName newline : str) (delimiter : ascii)
         (terminated : bool) (entries : list (str * str)) (ini : havINIStream),
    newline = [LF] \/ newline = [CR; LF] ->
    delimiter = "="%char \/ delimiter = ":"%char ->
    Forall plain_pair entries ->
    6 <= size (key_value_text newline delimiter terminated entries) ->
    exists ini',
      ParseFile cvt fileName
                (Some (key_value_text newline delimiter terminated entries))
                ini
      = Ok (true, ini', [])
      /\ (forall sectionName' keyName' defaultValue,
             GetValue ini' sectionName' keyName' defaultValue
             = match (if str_eqb (havUtils.ToLower sectionName')
                                 (lit "hi_global")
                      then last_value entries (havUtils.ToLower keyName')
                      else None) with
               | Some value => value
               | None => GetValue ini sectionName' keyName' defaultValue
               end
             /\ HasKey ini' sectionName' keyName'
                = match (if str_eqb (havUtils.ToLower sectionName')
                                    (lit "hi_global")
                         then last_value entries (havUtils.ToLower keyName')
                         else None) with
                  | Some _ => true
                  | None => HasKey ini sectionName' keyName'
                  end).
Proof.
  intros cvt fileName newline delimiter terminated entries ini
         Hnl Hd Hall Hsize.
  set (text := key_value_text newline delimiter terminated entries) in *.
  destruct (parse_lines_repeated_keys
              delimiter entries ParseState_init ini [] Hd Hall)
    as (p' & ini' & Hrun & Hready & Hsec & Hvalues);
    [now repeat split|reflexivity|].
  change (sectionName ParseState_init) with (lit "hi_global")
    in Hsec, Hvalues.
  exists ini'. split; [|assumption].
  unfold ParseFile.
  destruct (Nat.eqb_spec (size text) 0) as [E|_]; [lia|].
  destruct (Nat.ltb_spec (size text) 6) as [E|_]; [lia|].
  destruct entries as [|[key value] rest]; [cbn in Hsize; lia|].
  inversion Hall as [|? ? Hpair _]; subst.
  destruct (key_value_text_head newline delimiter terminated key value rest
                                Hd Hpair)
    as (c0 & c1 & t & Htext & H7 & H0 & H1).
  fold text in Htext.
  assert (Henc : detect_encoding (firstn 4 text) = (BOM_None, 0))
    by (rewrite Htext; now apply detect_encoding_text).
  rewrite Henc. cbn [havINIBOMType_eqb negb read_contents transcode].
  rewrite read_loop_id by lia. cbn [bind].
  unfold text at 1.
  rewrite (segment_key_value_text newline delimiter terminated _ Hnl Hd Hall).
  cbn [bind]. unfold parse_buffer. rewrite Hrun. cbn [bind].
  cbv beta iota zeta. unfold parse_finish.
  destruct Hready as (Herr & _). rewrite Herr, Hsec. cbn [empty negb].
  destruct (Hvalues (lit "hi_global") key []) as [_ Hhas].
  destruct (last_value_In ((key, value) :: rest) key value (or_introl eq_refl))
    as [v Hv].
  change (havUtils.ToLower (lit "hi_global")) with (lit "hi_global") in Hhas.
  rewrite str_eqb_refl, Hv in Hhas.
  now rewrite (HasKey_HasSection _ _ _ Hhas).
Qed.

(** X11. A document without a section name and without a key that occurs
    twice has none after [ParseFile] either.  On a file that holds one key
    and value of plain characters on each line, where a key may come again
    in any letter case, [ParseFile] returns [true] without a message, every
    key of the file holds the value of its last line in the global section,
    every other answer of [GetValue] and [HasKey] is as before, and no key
    occurs twice: a key that is repeated is merged into the entry read
    before, or into the one the document held already. *)
Theorem ParseFile_keeps_names_unique :
  (forall (cvt : CodeCvt) (fileName : str) (file : option (list ascii))
          (ini ini' : havINIStream) (r : bool) (cout : list str),
      well_keyed ini ->
      ParseFile cvt fileName file ini = Ok (r, ini', cout) ->
      well_keyed ini')
  /\ (forall (cvt : CodeCvt) (fileName newline : str) (delimiter : ascii)
             (terminated : bool) (entries : list (str * str))
             (ini : havINIStream),
         newline = [LF] \/ newline = [CR; LF] ->
         delimiter = "="%char \/ delimiter = ":"%char ->
         Forall plain_pair entries ->
         6 <= size (key_value_text newline delimiter terminated entries) ->
         exists ini',
           ParseFile cvt fileName
                     (Some (key_value_text newline delimiter terminated
                                           entries))
                     ini
           = Ok (true, ini', [])
           /\ (well_keyed ini -> well_keyed ini')
           /\ (forall sectionName' keyName' defaultValue,
                  GetValue ini' sectionName' keyName' defaultValue
                  = match (if str_eqb (havUtils.ToLower sectionName')
                                      (lit "hi_global")
                           then last_value entries (havUtils.ToLower keyName')
                           else None) with
                    | Some value => value
                    | None => GetValue ini sectionName' keyName' defaultValue
                    end
                  /\ HasKey ini' sectionName' keyName'
                     = match (if str_eqb (havUtils.ToLower sectionName')
                                         (lit "hi_global")
                              then last_value entries
                                              (havUtils.ToLower keyName')
                              else None) with
                       | Some _ => true
                       | None => HasKey ini sectionName' keyName'
                       end)).
Proof.
  split; [exact well_keyed_ParseFile|].
  intros cvt fileName newline delimiter terminated entries ini
         Hnl Hd Hall Hsize.
  destruct (ParseFile_repeated_keys cvt fileName newline delimiter terminated
                                    entries ini Hnl Hd Hall Hsize)
    as (ini' & Hrun & Hvalues).
  exists ini'. split; [exact Hrun|]. split; [|exact Hvalues].
  intros Hwk. exact (well_keyed_ParseFile _ _ _ _ _ _ _ Hwk Hrun).
Qed.

Lemma ParseFile_keeps_names_unique_witness :
  ParseFile null_cvt (lit "settings.ini")
            (Some (ln "key=1" ++ ln "KEY=2")) global_key
  = Ok (true,
        set_mData global_key
          [INISection.mkSection (lit "hi_global") None
             [plain_entry (lit "host", lit "example");
              plain_entry (lit "key", lit "2")] 0 0],
        [])
  /\ well_keyed
       (set_mData global_key
          [INISection.mkSection (lit "hi_global") None
             [plain_entry (lit "host", lit "example");
              plain_entry (lit "key", lit "2")] 0 0])
  /\ GetValue
       (set_mData global_key
          [INISection.mkSection (lit "hi_global") None
             [plain_entry (lit "host", lit "example");
              plain_entry (lit "key", lit "2")] 0 0])
       (lit "hi_global") (lit "Key") [] = lit "2"
  /\ well_keyed
       (set_mData havINIStream_new
          [INISection.make (lit "hi_global");
           INISection.mkSection (lit "a") None
             [plain_entry (lit "k", lit "2")] 0 0]).
Proof.
  destruct ParseFile_keeps_names_unique as [Hkeeps H].
  destruct (H null_cvt (lit "settings.ini") [LF] "="%char true
              [(lit "key", lit "1"); (lit "KEY", lit "2")] global_key)
    as (ini' & Hrun & Hwk & Hvalues).
  - now left.
  - now left.
  - repeat (constructor;
            [split; [discriminate|];
             split; repeat (constructor; [reflexivity|]); constructor|]).
    constructor.
  - vm_compute. lia.
  - assert (Hini : ini'
                   = set_mData global_key
                       [INISection.mkSection (lit "hi_global") None
                          [plain_entry (lit "host", lit "example");
                           plain_entry (lit "key", lit "2")] 0 0])
      by (vm_compute in Hrun; now injection Hrun as <-).
    rewrite <- Hini. split; [exact Hrun|]. split; [|split].
    + apply Hwk. solve_well_keyed.
    + destruct (Hvalues (lit "hi_global") (lit "Key") []) as [Hv _].
      exact Hv.
    + apply (Hkeeps null_cvt (lit "settings.ini")
                    (Some (ln "[a]" ++ ln "k=1" ++ ln "[A]" ++ ln "K=2"))
                    havINIStream_new _ true []).
      * solve_well_keyed.
      * vm_compute. reflexivity.
Defined.

(** ** Saving and loading keys and values *)

Lemma escape_word (value : str) :
  Forall (fun c => word_char c = true) value ->
  ConvertToEscapedString value = Ok value.
Proof.
  intros H. unfold ConvertToEscapedString, for_index.
  apply (escape_loop_unescaped value [] []).
  eapply Forall_impl; [|exact H]. intros c Hc.
  now destruct (word_char_facts c Hc)
    as (_ & _ & _ & _ & _ & _ & _ & _ & _ & _ & _ & _ & ? & _).
Qed.

Lemma write_pairs_plain (cvt : CodeCvt) (ini : havINIStream)
    (entries : list (str * str)) :
  forall file : list ascii,
    Forall plain_pair entries ->
    write_pairs cvt ini false BOM_None true false (map plain_entry entries) file
    = Ok (file
          ++ concat (map (fun entry =>
                            GetNewline ini ++ fst entry
                            ++ GetKeyValuePairDelimiter ini :: snd entry)
                         entries)).
Proof.
  induction entries as [|[key value] entries IH]; intros file Hall.
  - cbn. now rewrite app_nil_r.
  - inversion Hall as [|? ? (_ & Hk & Hv) Hall']; subst.
    cbn [fst snd] in Hk, Hv.
    cbn [map write_pairs plain_entry fst snd INIData.GetType INIData.make
           INIData.mType andb].
    unfold quoted_value, with_inline_comment.
    change (INIData.GetValue (plain_entry (key, value))) with value.
    change (INIData.GetKey (plain_entry (key, value))) with key.
    change (INIData.GetAddQuotes (plain_entry (key, value))) with false.
    change (INIData.HasInlineComment (plain_entry (key, value))) with false.
    rewrite (escape_word value Hv), (escape_word key Hk).
    cbn [bind space_if app WriteStringToFile]. cbv zeta.
    rewrite IH by assumption. cbn [concat map fst snd].
    now rewrite <- !app_assoc.
Qed.

Lemma key_value_text_joined (newline : str) (delimiter : ascii)
    (key value : str) (entries : list (str * str)) :
  key_value_text newline delimiter false ((key, value) :: entries)
  = key ++ delimiter :: value
    ++ concat (map (fun entry => newline ++ fst entry
                                 ++ delimiter :: snd entry) entries).
Proof.
  revert key value; induction entries as [|[k v] entries IH]; intros key value.
  - reflexivity.
  - cbn [key_value_text] in *. rewrite IH. cbn [map concat fst snd].
    now rewrite <- !app_assoc.
Qed.

(** What [WriteFile] writes, without formatting and without a byte order
    mark, for a document whose only section is the global one and holds
    values of plain characters under keys of plain characters: one key,
    the delimiter and the value on each line, the newline between the
    lines. *)
Lemma WriteFile_plain (cvt : CodeCvt) (ini : havINIStream) (s : havINISection)
    (entries : list (str * str)) :
  mData ini = [s] ->
  INISection.mSectionName s = lit "hi_global" ->
  INISection.mKeyValuePairs s = map plain_entry entries ->
  Forall plain_pair entries ->
  WriteFile cvt true ini false BOM_None
  = Ok (true,
        key_value_text (GetNewline ini) (GetKeyValuePairDelimiter ini) false
                       entries).
Proof.
  intros Hdata Hname Hpairs Hall. unfold WriteFile. cbn [negb].
  rewrite Hdata. cbn [write_sections].
  unfold INISection.GetSectionName, INISection.GetKeyValuePairs.
  rewrite Hname, Hpairs.
  change (is_global_name (lit "hi_global")) with true.
  cbn [negb bind empty bom_bytes map]. cbv beta iota zeta.
  destruct entries as [|[key value] entries]; [reflexivity|].
  inversion Hall as [|? ? (_ & Hk & Hv) Hall']; subst.
  cbn [fst snd] in Hk, Hv.
  cbn [map write_pairs plain_entry fst snd INIData.GetType INIData.make
         INIData.mType andb].
  unfold quoted_value, with_inline_comment.
  change (INIData.GetValue (plain_entry (key, value))) with value.
  change (INIData.GetKey (plain_entry (key, value))) with key.
  change (INIData.GetAddQuotes (plain_entry (key, value))) with false.
  change (INIData.HasInlineComment (plain_entry (key, value))) with false.
  rewrite (escape_word value Hv), (escape_word key Hk).
  cbn [bind space_if app WriteStringToFile]. cbv zeta.
  rewrite write_pairs_plain by assumption. cbn [bind].
  rewrite key_value_text_joined, <- app_assoc. reflexivity.
Qed.

Lemma find_plain_entry (entries : list (str * str)) (key : str) :
  NoDup (map fst entries) ->
  match find (INIData.key_is key) (map plain_entry entries) with
  | Some d => In (key, INIData.mValue d) entries
  | None => ~ In key (map fst entries)
  end.
Proof.
  induction entries as [|[k v] entries IH]; intros Hnd; cbn [map find].
  - intros [].
  - inversion Hnd as [|? ? Hfresh Hnd']; subst.
    unfold INIData.key_is at 1.
    cbn [INIData.GetKey plain_entry INIData.make INIData.mKey fst snd].
    destruct (str_eqb k key) eqn:E.
    + apply str_eqb_eq in E. subst k. now left.
    + specialize (IH Hnd'). apply str_eqb_neq in E.
      destruct (find _ _).
      * now right.
      * intros [H|H]; [contradiction|]. now apply IH.
Qed.

Lemma entry_of_new (name key : str) : entry_of havINIStream_new name key = None.
Proof.
  unfold entry_of, section_named, havINIStream_new. cbn [mData find].
  now destruct (name_is name _).
Qed.

(** X26. A document whose only section is the global one, with values of
    plain characters under lower-case keys of plain characters and no key
    twice, is saved and loaded again without loss: [WriteFile] returns
    [true], [ParseFile] reads what was written without a message, and
    [GetValue] and [HasKey] answer on the loaded document as they did on the
    saved one. *)
Theorem save_and_load_key_values :
  forall (cvt : CodeCvt) (fileName : str) (ini : havINIStream)
         (s : havINISection) (entries : list (str * str)),
    mData ini = [s] ->
    INISection.mSectionName s = lit "hi_global" ->
    INISection.mKeyValuePairs s = map plain_entry entries ->
    Forall plain_pair entries ->
    Forall (fun entry => havUtils.ToLower (fst entry) = fst entry) entries ->
    NoDup (map fst entries) ->
    GetNewline ini = [LF] \/ GetNewline ini = [CR; LF] ->
    GetKeyValuePairDelimiter ini = "="%char
    \/ GetKeyValuePairDelimiter ini = ":"%char ->
    exists file,
      WriteFile cvt true ini false BOM_None = Ok (true, file)
      /\ (6 <= size file ->
          exists ini',
            ParseFile cvt fileName (Some file) havINIStream_new
            = Ok (true, ini', [])
            /\ forall sectionName keyName defaultValue,
                 GetValue ini' sectionName keyName defaultValue
                 = GetValue ini sectionName keyName defaultValue
                 /\ HasKey ini' sectionName keyName
                    = HasKey ini sectionName keyName).
Proof.
  intros cvt fileName ini s entries Hdata Hname Hpairs Hall Hlower Hnd Hnl Hd.
  eexists. split; [now apply (WriteFile_plain cvt ini s entries)|].
  intros Hsize.
  assert (Hkeys : map (fun entry => havUtils.ToLower (fst entry)) entries
                  = map fst entries).
  { clear - Hlower. induction Hlower as [|e l He Hl IH]; [reflexivity|].
    cbn [map]. now rewrite He, IH. }
  destruct (ParseFile_key_value_lines
              cvt fileName (GetNewline ini) (GetKeyValuePairDelimiter ini)
              false entries havINIStream_new Hnl Hd Hall)
    as (ini' & Hrun & Hvalues & Hframe);
    [now rewrite Hkeys|assumption|].
  rewrite Hkeys in Hframe.
  exists ini'. split; [exact Hrun|].
  intros sectionName keyName defaultValue.
  (* the saved document *)
  assert (Hsaved : forall name key,
             entry_of ini name key
             = if str_eqb name (lit "hi_global")
               then find (INIData.key_is key) (map plain_entry entries)
               else None).
  { intros name key. unfold entry_of, section_named. rewrite Hdata.
    cbn [find]. unfold name_is, INISection.GetSectionName. rewrite Hname.
    destruct (str_eqb (lit "hi_global") name) eqn:E.
    - apply str_eqb_eq in E. subst name. rewrite str_eqb_refl.
      unfold entry_keyed. now rewrite Hpairs.
    - assert (E' : str_eqb name (lit "hi_global") = false)
        by (apply str_eqb_neq; apply str_eqb_neq in E; congruence).
      now rewrite E'. }
  rewrite (GetValue_entry_of ini), (HasKey_entry_of ini), Hsaved.
  destruct (str_eqb (havUtils.ToLower sectionName) (lit "hi_global")) eqn:E.
  - apply str_eqb_eq in E.
    pose proof (find_plain_entry entries (havUtils.ToLower keyName) Hnd)
      as Hfind.
    destruct (find _ _) as [d|].
    + destruct (Hvalues _ _ defaultValue Hfind) as [Hv Hh].
      rewrite GetValue_entry_of, HasKey_entry_of in *.
      rewrite E, !ToLower_idem in *. split; assumption.
    + destruct (Hframe sectionName keyName defaultValue (or_intror Hfind))
        as [-> ->].
      now rewrite GetValue_entry_of, HasKey_entry_of, entry_of_new.
  - apply str_eqb_neq in E.
    destruct (Hframe sectionName keyName defaultValue (or_introl E))
      as [-> ->].
    now rewrite GetValue_entry_of, HasKey_entry_of, entry_of_new.
Qed.

Lemma save_and_load_key_values_witness :
  exists file ini',
    WriteFile null_cvt true global_key false BOM_None = Ok (true, file)
    /\ ParseFile null_cvt (lit "settings.ini") (Some file) havINIStream_new
       = Ok (true, ini', [])
    /\ GetValue ini' (lit "hi_global") (lit "host") []
       = GetValue global_key (lit "hi_global") (lit "host") [].
Proof.
  destruct (save_and_load_key_values
              null_cvt (lit "settings.ini") global_key
              (INISection.SetKeyValuePair (INISection.make (lit "hi_global"))
                                          (lit "host") (lit "example") false)
              [(lit "host", lit "example")])
    as (file & Hsave & Hload).
  - reflexivity.
  - reflexivity.
  - reflexivity.
  - constructor; [|constructor]. split; [discriminate|].
    split; repeat (constructor; [reflexivity|]); constructor.
  - constructor; [reflexivity|constructor].
  - repeat constructor. intros [].
  - now right.
  - now left.
  - exists file.
    assert (Hfile : file = lit "host=example")
      by (vm_compute in Hsave; now injection Hsave as <-).
    destruct Hload as (ini' & Hrun & Hsame).
    + rewrite Hfile. vm_compute. lia.
    + exists ini'. split; [exact Hsave|]. split; [exact Hrun|]. apply Hsame.
Defined.

(** X27. What [WriteFile] writes, without formatting and without a byte
    order mark, for a document whose only section is the global one and
    holds values of plain characters under keys of plain characters: for
    each entry the key, the delimiter and the value, with the newline of the
    document between the entries and none behind the last. *)
Theorem WriteFile_key_values :
  forall (cvt : CodeCvt) (ini : havINIStream) (s : havINISection)
         (entries : list (str * str)),
    mData ini = [s] ->
    INISection.mSectionName s = lit "hi_global" ->
    INISection.mKeyValuePairs s = map plain_entry entries ->
    Forall plain_pair entries ->
    WriteFile cvt true ini false BOM_None
    = Ok (true,
          key_value_text (GetNewline ini) (GetKeyValuePairDelimiter ini) false
                         entries).
Proof. exact WriteFile_plain. Qed.

Lemma WriteFile_key_values_witness :
  WriteFile null_cvt true global_key false BOM_None
  = Ok (true, lit "host=example").
Proof.
  apply (WriteFile_key_values
           null_cvt global_key
           (INISection.SetKeyValuePair (INISection.make (lit "hi_global"))
                                       (lit "host") (lit "example") false)
           [(lit "host", lit "example")]).
  - reflexivity.
  - reflexivity.
  - reflexivity.
  - constructor; [|constructor]. split; [discriminate|].
    split; repeat (constructor; [reflexivity|]); constructor.
Defined.

(** ** Inline comments *)

Lemma entry_of_SetInlineComment (ini : havINIStream)
    (sectionName keyName inlineComment name' key' : str) :
  entry_of (snd (SetInlineComment ini sectionName keyName inlineComment))
           name' key'
  = if str_eqb name' (havUtils.ToLower sectionName)
       && str_eqb key' (havUtils.ToLower keyName)
    then option_map (fun d => INIData.SetInlineComment d inlineComment)
                    (entry_of ini name' key')
    else entry_of ini name' key'.
Proof.
  unfold SetInlineComment. rewrite in_section_snd.
  destruct (find_if (name_is (havUtils.ToLower sectionName)) (mData ini))
    as [i|] eqn:Hi.
  - rewrite (entry_of_with_section ini i _ (havUtils.ToLower sectionName)
                                   name' key' Hi).
    + destruct (str_eqb name' (havUtils.ToLower sectionName)) eqn:E;
        [|reflexivity].
      apply str_eqb_eq in E. subst name'. unfold entry_of.
      destruct (section_named ini (havUtils.ToLower sectionName)) as [s|];
        [|now destruct (str_eqb key' _)].
      unfold INISection.GetKeyValuePair. rewrite ToLower_idem.
      destruct (find_if (INIData.key_is (havUtils.ToLower keyName))
                        (INISection.mKeyValuePairs s)) as [j|] eqn:Hj.
      * cbn [snd andb].
        rewrite (entry_keyed_modify s j _ (havUtils.ToLower keyName) key' Hj)
          by reflexivity.
        destruct (str_eqb key' (havUtils.ToLower keyName)) eqn:E;
          [|reflexivity].
        apply str_eqb_eq in E. now subst key'.
      * cbn [snd andb].
        destruct (str_eqb key' (havUtils.ToLower keyName)) eqn:E;
          [|reflexivity].
        apply str_eqb_eq in E. subst key'.
        now rewrite (entry_keyed_none s _ Hj).
    + intros s. now destruct (INISection.GetKeyValuePair s _).
  - destruct (str_eqb name' (havUtils.ToLower sectionName)) eqn:E;
      [|reflexivity].
    apply str_eqb_eq in E. subst name'. unfold entry_of.
    rewrite (section_named_none ini _ Hi). now destruct (str_eqb key' _).
Qed.

(** X28. [havINIStream::SetInlineComment] returns whether the key exists; it
    changes no value and no key of the document, and the entry it names
    holds the comment afterwards (no comment when the text is empty). *)
Theorem SetInlineComment_keeps_values :
  forall (ini : havINIStream) (sectionName keyName inlineComment : str),
    fst (SetInlineComment ini sectionName keyName inlineComment)
    = HasKey ini sectionName keyName
    /\ (forall name key defaultValue,
          GetValue (snd (SetInlineComment ini sectionName keyName inlineComment))
                   name key defaultValue
          = GetValue ini name key defaultValue
          /\ HasKey (snd (SetInlineComment ini sectionName keyName inlineComment))
                    name key
             = HasKey ini name key)
    /\ option_map INIData.mInlineComment
         (entry_of (snd (SetInlineComment ini sectionName keyName inlineComment))
                   (havUtils.ToLower sectionName) (havUtils.ToLower keyName))
       = option_map (fun _ => inline_comment_of inlineComment)
           (entry_of ini (havUtils.ToLower sectionName)
                     (havUtils.ToLower keyName)).
Proof.
  intros ini sectionName keyName inlineComment. split; [|split].
  - unfold SetInlineComment. rewrite in_section_fst, HasKey_section_named.
    destruct (section_named ini (havUtils.ToLower sectionName)) as [s|];
      [|reflexivity].
    unfold INISection.GetKeyValuePair, entry_keyed.
    rewrite ToLower_idem, <- find_if_find.
    destruct (find_if (INIData.key_is (havUtils.ToLower keyName))
                      (INISection.mKeyValuePairs s)) as [j|] eqn:Hj;
      [|reflexivity].
    destruct (find_if_holds _ _ _ Hj) as (d & -> & _). reflexivity.
  - intros name key defaultValue.
    rewrite !GetValue_entry_of, !HasKey_entry_of, entry_of_SetInlineComment.
    destruct (_ && _); [|now split].
    now destruct (entry_of ini _ _).
  - rewrite entry_of_SetInlineComment, !str_eqb_refl. cbn [andb].
    now destruct (entry_of ini _ _).
Qed.

(** ** A section header *)

Lemma section_loop_word (name : str) (ini : havINIStream) :
  forall (characterIndex : nat) (sectionName : str),
    Forall (fun c => word_char c = true) name ->
    section_loop (name ++ lit "]" ++ [LF]) characterIndex true sectionName [] ini
    = (false, sectionName ++ name, [], ini).
Proof.
  induction name as [|c name IH]; intros characterIndex sectionName Hall.
  - cbn. now rewrite app_nil_r.
  - inversion Hall as [|? ? Hc Hrest]; subst.
    destruct (word_char_facts c Hc)
      as (_ & Hcm & _ & Hlf & _ & Hsp & Hopen & Hclose & _).
    cbn [app section_loop]. rewrite Hlf, Hopen, Hsp, Hclose, Hcm.
    cbn [andb]. rewrite (IH _ _ Hrest). now rewrite <- app_assoc.
Qed.

(** X29. A header line [[Name]] of plain characters, read in a state without
    a pending error, changes nothing in the document: the lower-cased name
    becomes the current section of the parser, which is then ready for a
    key. The section is stored by its first entry, or behind the last line
    of the file. *)
Theorem parse_line_section_header :
  forall (name : str) (p : ParseState) (ini : havINIStream),
    Forall (fun c => word_char c = true) name ->
    ready p ->
    exists p',
      parse_line ("["%char :: name ++ lit "]" ++ [LF]) p ini = Ok (p', ini)
      /\ sectionName p' = havUtils.ToLower name
      /\ newSection p' = false
      /\ ready p'.
Proof.
  intros name p ini Hname (Herr & Hkey & Hval & Hstr & Hinl).
  unfold parse_line.
  assert (Hstrip : strip_loop ("["%char :: name ++ lit "]" ++ [LF]) false false []
                   = "["%char :: name ++ lit "]").
  { rewrite strip_loop_plain.
    - cbn [app filter]. change (isspace "["%char) with false. cbn [negb].
      rewrite filter_app, (filter_words name Hname). reflexivity.
    - constructor; [now split|]. apply Forall_app. split.
      + eapply Forall_impl; [|exact Hname]. intros c Hc.
        destruct (word_char_facts c Hc) as (_ & H1 & H2 & _). now split.
      + repeat constructor. }
  rewrite Hstrip. cbn [empty size List.length Nat.eqb].
  change (back ("["%char :: name ++ lit "]")) with (back (("["%char :: name) ++ ["]"%char])).
  rewrite back_app_last.
  change (Ascii.eqb "]"%char LF) with false. cbn [negb].
  assert (Hline : ("["%char :: name ++ lit "]") ++ [LF]
                  = "["%char :: name ++ lit "]" ++ [LF])
    by (cbn [app]; now rewrite <- app_assoc).
  rewrite Hline.
  cbn [at_ nth app]. change (is_comment_char "["%char) with false.
  change (Ascii.eqb "["%char "["%char) with true. cbv iota.
  unfold parse_section_line. cbn [section_loop].
  change (Ascii.eqb "["%char LF) with false.
  change (Ascii.eqb "["%char "["%char) with true. cbn [andb Nat.ltb Nat.leb].
  rewrite Herr.
  rewrite (section_loop_word name ini 1 [] Hname).
  cbn [app empty size List.length Nat.eqb].
  eexists. split; [reflexivity|]. cbn. repeat split; assumption.
Qed.

Lemma parse_line_section_header_witness :
  exists p',
    parse_line (lit "[Net]" ++ [LF]) ParseState_init one_key = Ok (p', one_key)
    /\ sectionName p' = lit "net".
Proof.
  destruct (parse_line_section_header (lit "Net") ParseState_init one_key)
    as (p' & Hrun & Hname & _).
  - repeat (constructor; [reflexivity|]). constructor.
  - repeat split.
  - exists p'. split; [exact Hrun|exact Hname].
Defined.

(** ** The lines of a text *)

(** X30. On a text without a backslash in which every carriage return is
    followed by a line feed, the reading loop of [ParseFile] ends a line at
    each LF and at each CR LF pair, ends every line it delivers with LF, and
    delivers an unterminated last line as well. *)
Theorem segment_splits_at_line_breaks :
  forall text : str,
    crlf_only text = true -> segment text = Ok (spec_split_lines text []).
Proof. exact segment_agrees_without_lone_CR. Qed.

Lemma segment_splits_at_line_breaks_witness :
  segment (lit "a=1" ++ [CR; LF] ++ lit "b=2" ++ [LF] ++ lit "c=3")
  = Ok [lit "a=1" ++ [LF]; lit "b=2" ++ [LF]; lit "c=3" ++ [LF]].
Proof.
  apply (segment_splits_at_line_breaks
           (lit "a=1" ++ [CR; LF] ++ lit "b=2" ++ [LF] ++ lit "c=3")).
  reflexivity.
Defined.
